(* ===== verification/_CoqProject ===== *)
-Q . S2P
Prelude.v
Types.v
Dispatcher.v
Fifo.v
MBuf.v
Socket.v
Message.v
Channel.v
ChannelRuns.v
JobPolicy.v
Arena.v
Handle.v
HandleTable.v
Port.v
PortSafety.v
Utf.v
RleBitmap.v
TimerQueue.v
TimerSpec.v
TimerDispatcher.v
JobTree.v
JobTreeSafety.v
JobTreeLive.v
BitmapStorage.v
RawBitmap.v
RawBitmapSpec.v
Interrupt.v
