(* ===== verification/Prelude.v ===== *)
(** * Verification of Zircon kernel objects and of libraries of the Fuchsia source tree

    The repository is a copy of the Fuchsia source tree. At its centre is Zircon, a
    capability-based microkernel: user programs hold handles, a handle names a kernel object (a
    dispatcher) with rights, and everything a program does is done to objects. This library
    models the objects by which programs communicate and are organised, with the machinery below
    them, and three libraries of [zircon/system/ulib]. All paths are below [src/].

    ** The program and its parts

    A dispatcher ([zircon/kernel/object/dispatcher.cc]) has signals, observers of its signals and
    a count of its handles. Pairs of dispatchers carry data: FIFOs (elements in a ring), sockets
    (bytes or datagrams in chains of small buffers) and channels (messages, in chains of pages,
    with handles, and calls that wait for a reply). A port collects packets from programs,
    from interrupts and from observers on other objects, and threads wait on it through a
    semaphore. An interrupt object delivers interrupts to a port or to a waiting thread. A timer
    object asserts a signal at a deadline by means of the timer queues of the cpus. Handles live in
    slots of a lock-free arena, and every process has a table of them, which turns values of user
    programs into handles. Processes are in jobs, jobs form a tree; a job has a policy that its
    children inherit, and killing a job kills what is below it.

    ** Files

    - [Prelude]: machine-width integers, lists addressed by integers, tactics and the hint
      database of the development.
    - [Types]: status codes, signals and rights of [zircon/system/public/zircon].
    - [Dispatcher]: [dispatcher.cc], [dispatcher.h], [signal_observer.h].
    - [Fifo]: [fifo_dispatcher.cc]. [MBuf], [Socket]: [mbuf.cc] and [socket_dispatcher.cc].
    - [Message], [Channel]: [buffer_chain.h], [message_packet.cc] and [channel_dispatcher.cc].
      [ChannelRuns]: the theorems on channels, for runs that include refused calls.
    - [JobPolicy]: [job_policy.cc] and [fbl/bits.h].
    - [Arena], [Handle], [HandleTable]: [fbl/gparena.h], [handle.cc] and [handle_table.cc]; the
      handle code is proved against a class of arenas that [Arena] is an instance of.
    - [Port], [PortSafety]: [port_dispatcher.cc] and [kernel/semaphore.cc].
    - [Utf]: [ulib/utf_conversion]. [RleBitmap]: [ulib/bitmap/rle-bitmap.cc].
    - [TimerQueue]: [kernel/timer.cc], [kernel/deadline.cc], [zircon/time.h]. [TimerSpec]: the
      abstract timer that the queues implement. [TimerDispatcher]: [timer_dispatcher.cc] on top of
      the abstract timer.
    - [JobTree], [JobTreeSafety], [JobTreeLive]: [job_dispatcher.cc], [process_dispatcher.cc],
      [suspend_token_dispatcher.cc].
    - [Interrupt]: [interrupt_dispatcher.cc], [virtual_interrupt_dispatcher.cc], of
      [interrupt_event_dispatcher.cc] what follows creation, and [kernel/event.cc].
    - [BitmapStorage], [RawBitmap], [RawBitmapSpec]: [bitmap/storage.h], [raw-bitmap.cc],
      [raw-bitmap.h]; the bitmap is proved against a class of storages with three instances.

    ** How code corresponds to definitions

    A class of the source is a [Record] of its fields, a method a function on it with the name of
    the method; further fields that the source does not have are ghost state and are said to be.
    Integers are [Z] kept at their width by [wrap]. Pointers are integers or identifiers, memory
    a map or list, and a use of memory that is not there, a failed assertion or a panic is
    [None]. What the model does not contain answers as an input: whether an allocation
    succeeds, what is in fresh memory, where user memory faults, what a system call returns.

    A section under a lock is one atomic step. Where threads interleave between sections
    (channels, ports, arenas, timers, timer objects, interrupts, jobs and processes), the state
    has the program points or the remaining work of the threads, and a run is any sequence of
    their steps. Elsewhere a run is a sequence of operations.

    ** What the theorems show

    - Refinement: FIFOs, sockets, buffer chains, job policies, the two bitmaps and the timer
      queues implement queues, maps, sets, sequences of bits and an abstract timer, for every
      sequence of operations, with statuses and signals exact, under conditions that the
      statements name: user memory that covers what a stream accesses, datagrams of several
      buffers read whole ([Socket.sock_ops_ok]); valid overrides of catch-all policy entries
      ([JobPolicy.any_flags_ok]); no failed Reset and no growth from no bits
      ([RawBitmapSpec.run_usable]); timers that their owners use as [TimerQueue.safe_op] says.
      The theorems under Gaps show what happens otherwise.
    - Safety in every interleaving: ports use no freed memory and leave none; arenas hand out no
      slot twice; handle values look up only the own handles, and stale values none for 4096
      reuses; waiters of channels are exact for threads that had no call refused; timer objects are deleted once; accepted
      interrupts are kept until they are delivered; the tree of jobs and processes stays
      consistent and no assertion in it fails.
    - Progress: no wake-up of a port is lost, closing a channel wakes its waiters, a tick ends
      and calls what is due, a signal of a timer is not lost, a killed job dies with everything
      below it.
    - Functions: messages and UTF text survive round trips, the word-wise searches of a bitmap
      equal searches bit by bit, iteration over a changing handle table visits what it must.
    - Gaps: for every state of a kind that is named, the code does not do what its comments or
      documents say, with a witness in a concrete one.

    ** Bounds and fuel

    No state is bounded: queues, tables, trees and the number of threads and cpus are arbitrary.
    Loops that are not structural have fuel, computed from their arguments where they are
    called, and the theorems show results, so that running out is excluded: the loops of FIFOs
    and buffer chains get the number of elements, bytes or buffers at hand, the search for a free
    transaction identifier one more than the identifiers in use, the safe deleter the number of
    objects, the scan of a bitmap the number of words and its search for a run the number of
    bits. The walk to the root job gets 33, one more than the height that the root allows below
    itself. The 4096 reuses of a slot come from the width of the generation in a handle value.

    ** Not modelled

    Of the objects above: diagnostics, kernel counters, tracing, names, and the exceptions that
    policies raise; enumeration of children, the out-of-memory killer and accounting of jobs and
    processes; suspension of single threads. Of the kernel: the other dispatchers, threads
    and scheduling, virtual memory, the system-call layer, the hypervisor, and code for
    architectures, platforms and boot, which depends on hardware. Outside of the kernel:
    drivers, file systems, network, graphics, media, user interface, component framework,
    language runtimes and tools; these are separate programs, written in C++, Rust, Go and Dart,
    that reach the modelled objects only through system calls. Hardware memory ordering is not
    modelled: atomic accesses are sequentially consistent. *)

From stdpp Require Export base list numbers gmap.
From Stdlib Require Export ZArith Lia.

(** ** Scopes and notation *)

Declare Scope zx_scope.
Delimit Scope zx_scope with zx.
#[global] Open Scope Z_scope.

(** Bytes are 8-bit unsigned integers kept as [Z]. *)
Abbreviation byte := Z (only parsing).

(** ** Machine-width integers *)

(** C++ unsigned arithmetic: results are reduced modulo the width. *)
Definition wrap (w z : Z) : Z := z mod 2 ^ w.

Abbreviation wrap32 := (wrap 32).
Abbreviation wrap64 := (wrap 64).

Notation "a ⊞ b" := (wrap 32 (a + b)) (at level 50, left associativity) : zx_scope.
Notation "a ⊟ b" := (wrap 32 (a - b)) (at level 50, left associativity) : zx_scope.

(** ** Lists addressed by [Z] offsets *)

Section ZList.
Context {A : Type}.
Implicit Types l new : list A.

Definition zlen l : Z := Z.of_nat (length l).
Definition ztake (n : Z) l : list A := take (Z.to_nat n) l.
Definition zdrop (n : Z) l : list A := drop (Z.to_nat n) l.

(** [n] elements starting at offset [pos]. *)
Definition zrange (pos n : Z) l : list A := ztake n (zdrop pos l).

(** [memcpy(l + pos, new, |new|)]: overwrite in place. *)
Definition zsplice (pos : Z) new l : list A :=
  ztake pos l ++ new ++ zdrop (pos + zlen new) l.

End ZList.

(** ** Automation *)

Create HintDb zx discriminated.
Create Rewrite HintDb zx.
Create Rewrite HintDb zlist.

(** Equality of lists built from [take], [drop], [++] by comparing lookups. *)
Ltac list_lookup_eq :=
  apply list_eq; intros ?;
  repeat first [rewrite lookup_take | rewrite lookup_drop; try case_decide];
  repeat case_decide.

(** Case analysis on the outermost conditional of the goal (only). *)
Ltac case_if :=
  match goal with
  | |- context [if ?b then _ else _] => let E := fresh "E" in destruct b eqn:E
  end.

(** Evaluate the bits of constant masks. *)
Ltac eval_bits :=
  repeat match goal with
  | |- context [Z.testbit ?c ?i] =>
      let b := eval vm_compute in (Z.testbit c i) in
      match b with true => idtac | false => idtac end;
      change (Z.testbit c i) with b
  end.

(** ** Lemmas on machine integers *)

Lemma wrap_range w z : 0 <= w -> 0 <= wrap w z < 2 ^ w.
Proof. intros. apply Z.mod_pos_bound. apply Z.pow_pos_nonneg; lia. Qed.

Lemma wrap_small w z : 0 <= z < 2 ^ w -> wrap w z = z.
Proof. apply Z.mod_small. Qed.

(** Reduction modulo a power of two not wider than the word commutes with the wrap. *)
Lemma wrap_mod_pow2 w k z : 0 <= k <= w -> wrap w z mod 2 ^ k = z mod 2 ^ k.
Proof.
  intros. unfold wrap. apply Z.mod_mod_divide.
  exists (2 ^ (w - k)). rewrite <-Z.pow_add_r by lia. f_equal; lia.
Qed.

Lemma wrap_add_l w a b : wrap w (wrap w a + b) = wrap w (a + b).
Proof. unfold wrap. by rewrite Zplus_mod_idemp_l. Qed.

Lemma wrap_add_r w a b : wrap w (a + wrap w b) = wrap w (a + b).
Proof. unfold wrap. by rewrite Zplus_mod_idemp_r. Qed.

Lemma wrap_sub_l w a b : wrap w (wrap w a - b) = wrap w (a - b).
Proof. unfold wrap. by rewrite Zminus_mod_idemp_l. Qed.

Lemma wrap_sub_r w a b : wrap w (a - wrap w b) = wrap w (a - b).
Proof. unfold wrap. by rewrite Zminus_mod_idemp_r. Qed.

#[export] Hint Rewrite wrap_add_l wrap_add_r wrap_sub_l wrap_sub_r : zx.

(** Testing a one-bit mask. *)
Lemma land_bit x i : 0 <= i -> negb (Z.land x (2 ^ i) =? 0) = Z.testbit x i.
Proof.
  intros Hi. assert (Z.land x (2 ^ i) = if Z.testbit x i then 2 ^ i else 0) as ->.
  - apply Z.bits_inj'. intros j Hj. rewrite Z.land_spec, Z.pow2_bits_eqb by done.
    destruct (Z.eqb_spec i j) as [->|Hne]; rewrite ?andb_true_r, ?andb_false_r.
    + by destruct (Z.testbit x j); rewrite ?Z.pow2_bits_true, ?Z.bits_0.
    + by destruct (Z.testbit x i); rewrite ?Z.pow2_bits_false, ?Z.bits_0.
  - pose proof (Z.pow_pos_nonneg 2 i ltac:(lia) Hi). destruct (Z.testbit x i); lia.
Qed.

Lemma bits_above n v i : 0 <= v < 2 ^ n -> n <= i -> Z.testbit v i = false.
Proof.
  intros Hv Hi. destruct (decide (n < 0)); [rewrite Z.pow_neg_r in Hv; lia|].
  rewrite <-(Z.mod_small v (2 ^ n)) by done. apply Z.mod_pow2_bits_high. lia.
Qed.

(** Combining the fields of a word. *)
Lemma lor_shiftl a b n : 0 <= n -> 0 <= a < 2 ^ n -> Z.lor a (Z.shiftl b n) = a + b * 2 ^ n.
Proof.
  intros Hn Ha. rewrite <-Z.lxor_lor, <-Z.add_nocarry_lxor, Z.shiftl_mul_pow2 by
    (done || (apply Z.bits_inj'; intros i Hi; rewrite Z.land_spec, Z.bits_0, Z.shiftl_spec by lia;
      destruct (decide (i < n)); [rewrite (Z.testbit_neg_r b), andb_false_r by lia; done|
        rewrite (bits_above n a) by lia; done])).
  done.
Qed.

Lemma lxor_bound n a b : 0 <= n -> 0 <= a < 2 ^ n -> 0 <= b < 2 ^ n -> 0 <= Z.lxor a b < 2 ^ n.
Proof.
  intros Hn Ha Hb. assert (0 <= Z.lxor a b) by (apply Z.lxor_nonneg; lia). split; [done|].
  destruct (decide (Z.lxor a b = 0)) as [->|Hne]; [lia|].
  destruct (decide (n = 0)) as [->|Hn0].
  { assert (a = 0) as -> by lia. assert (b = 0) as -> by lia. done. }
  apply Z.log2_lt_pow2; [lia|]. eapply Z.le_lt_trans; [apply Z.log2_lxor; lia|].
  apply Z.max_lub_lt; [destruct (decide (a = 0)) as [->|]|destruct (decide (b = 0)) as [->|]];
    try (cbn; lia); apply Z.log2_lt_pow2; lia.
Qed.

Lemma lxor_mod_pow2 n a b : 0 <= n -> Z.lxor a b mod 2 ^ n = Z.lxor (a mod 2 ^ n) (b mod 2 ^ n).
Proof.
  intros Hn. apply Z.bits_inj'. intros i Hi. rewrite Z.lxor_spec. destruct (decide (i < n)).
  - by rewrite !Z.mod_pow2_bits_low, Z.lxor_spec by lia.
  - by rewrite !Z.mod_pow2_bits_high by lia.
Qed.

Lemma land_ones_low x n : 0 <= n -> Z.land x (2 ^ n - 1) = x mod 2 ^ n.
Proof. intros. replace (2 ^ n - 1) with (Z.ones n) by (rewrite Z.ones_equiv; lia). by apply Z.land_ones. Qed.

(** Extracting a field of a word. *)
Lemma land_shifted_ones x n k : 0 <= n -> 0 <= k -> Z.land x (Z.shiftl (2 ^ k - 1) n) = x / 2 ^ n mod 2 ^ k * 2 ^ n.
Proof.
  intros Hn Hk. rewrite <-land_ones_low by done. rewrite <-!Z.shiftr_div_pow2, <-Z.shiftl_mul_pow2 by done.
  apply Z.bits_inj'. intros i Hi. rewrite Z.land_spec, !Z.shiftl_spec by done.
  destruct (decide (i < n)); [rewrite !(Z.testbit_neg_r _ (i - n)), andb_false_r by lia; done|].
  rewrite Z.land_spec, Z.shiftr_spec by lia. by replace (i - n + n) with i by lia.
Qed.

(** [x & (x - 1) == 0] recognises the powers of two. *)
Lemma land_pred_pow2 x : 0 < x -> Z.land x (x - 1) = 0 -> x = 2 ^ Z.log2 x.
Proof.
  intros Hx H. destruct (Z.log2_spec x Hx) as [Hlo Hhi].
  destruct (Z.eq_dec x (2 ^ Z.log2 x)) as [|Hne]; [done|exfalso].
  pose proof (Z.log2_nonneg x).
  assert (Z.log2 (x - 1) = Z.log2 x) as Hl by (apply Z.log2_unique; lia).
  assert (0 < x - 1) by (pose proof (Z.pow_pos_nonneg 2 (Z.log2 x)); lia).
  assert (Z.testbit (Z.land x (x - 1)) (Z.log2 x) = true) as Hb.
  { rewrite Z.land_spec, Z.bit_log2 by lia. rewrite <-Hl, Z.bit_log2 by lia. done. }
  by rewrite H, Z.bits_0 in Hb.
Qed.

(** ** Lemmas on [Z]-addressed lists *)

Section ZListLemmas.
Context {A : Type}.
Implicit Types l new : list A.

Lemma zlen_nonneg l : 0 <= zlen l.
Proof. unfold zlen; lia. Qed.

Lemma zlen_nil : zlen (@nil A) = 0.
Proof. done. Qed.

Lemma zlen_cons x l : zlen (x :: l) = 1 + zlen l.
Proof. unfold zlen. rewrite length_cons. lia. Qed.

Lemma zlen_app l1 l2 : zlen (l1 ++ l2) = zlen l1 + zlen l2.
Proof. unfold zlen. rewrite length_app. lia. Qed.

Lemma zlen_ztake n l : zlen (ztake n l) = Z.max 0 (Z.min n (zlen l)).
Proof. unfold zlen, ztake. rewrite length_take. lia. Qed.

Lemma zlen_zdrop n l : zlen (zdrop n l) = Z.max 0 (zlen l - Z.max 0 n).
Proof. unfold zlen, zdrop. rewrite length_drop. lia. Qed.

Lemma zlen_zrange pos n l :
  zlen (zrange pos n l) = Z.max 0 (Z.min n (zlen l - Z.max 0 pos)).
Proof. unfold zrange. rewrite zlen_ztake, zlen_zdrop. lia. Qed.

Lemma zlen_zsplice pos new l :
  0 <= pos -> pos + zlen new <= zlen l -> zlen (zsplice pos new l) = zlen l.
Proof.
  intros. unfold zsplice. rewrite !zlen_app, zlen_ztake, zlen_zdrop.
  pose proof (zlen_nonneg new). lia.
Qed.

Lemma zlen_0_nil l : zlen l = 0 -> l = [].
Proof. unfold zlen. destruct l; simpl; [done | lia]. Qed.

Lemma zlen_zreplicate n (x : A) : 0 <= n -> zlen (replicate (Z.to_nat n) x) = n.
Proof. intros. unfold zlen. rewrite length_replicate. lia. Qed.

Lemma ztake_zdrop n l : ztake n l ++ zdrop n l = l.
Proof. apply take_drop. Qed.

Lemma ztake_ge n l : zlen l <= n -> ztake n l = l.
Proof. unfold zlen, ztake. intros. apply take_ge. lia. Qed.

Lemma zdrop_ge n l : zlen l <= n -> zdrop n l = [].
Proof. unfold zlen, zdrop. intros. apply drop_ge. lia. Qed.

Lemma ztake_le_0 n l : n <= 0 -> ztake n l = [].
Proof. unfold ztake. intros. by replace (Z.to_nat n) with 0%nat by lia. Qed.

Lemma zdrop_le_0 n l : n <= 0 -> zdrop n l = l.
Proof. unfold zdrop. intros. by replace (Z.to_nat n) with 0%nat by lia. Qed.

Lemma zdrop_zdrop n m l : 0 <= n -> 0 <= m -> zdrop n (zdrop m l) = zdrop (m + n) l.
Proof. intros. unfold zdrop. rewrite drop_drop. f_equal. lia. Qed.

Lemma ztake_ztake n m l : ztake n (ztake m l) = ztake (Z.min n m) l.
Proof. unfold ztake. rewrite take_take. f_equal. lia. Qed.

Lemma ztake_app_le n l k : n <= zlen l -> ztake n (l ++ k) = ztake n l.
Proof. unfold zlen, ztake. intros. apply take_app_le. lia. Qed.

Lemma ztake_app_ge n l k : zlen l <= n -> ztake n (l ++ k) = l ++ ztake (n - zlen l) k.
Proof.
  unfold zlen, ztake. intros. rewrite take_app_ge by lia. do 2 f_equal. lia.
Qed.

Lemma zdrop_app_le n l k : n <= zlen l -> zdrop n (l ++ k) = zdrop n l ++ k.
Proof. unfold zlen, zdrop. intros. apply drop_app_le. lia. Qed.

Lemma zdrop_app_ge n l k : zlen l <= n -> zdrop n (l ++ k) = zdrop (n - zlen l) k.
Proof.
  unfold zlen, zdrop. intros. rewrite drop_app_ge by lia. f_equal. lia.
Qed.

Lemma ztake_add n m l : 0 <= n -> 0 <= m -> ztake n l ++ ztake m (zdrop n l) = ztake (n + m) l.
Proof. intros. unfold ztake, zdrop. by rewrite take_take_drop, Z2Nat.inj_add. Qed.

Lemma ztake_app_exact n l k : n = zlen l -> ztake n (l ++ k) = l.
Proof. intros ->. rewrite ztake_app_le by lia. apply ztake_ge. lia. Qed.

Lemma zdrop_app_exact n l k : n = zlen l -> zdrop n (l ++ k) = k.
Proof. intros ->. rewrite zdrop_app_ge by lia. apply zdrop_le_0. lia. Qed.

(** Consecutive ranges join. *)
Lemma zrange_app pos n m l :
  0 <= pos -> 0 <= n -> 0 <= m ->
  zrange pos (n + m) l = zrange pos n l ++ zrange (pos + n) m l.
Proof.
  intros. unfold zrange, ztake, zdrop.
  replace (Z.to_nat (n + m)) with (Z.to_nat n + Z.to_nat m)%nat by lia.
  replace (Z.to_nat (pos + n)) with (Z.to_nat pos + Z.to_nat n)%nat by lia.
  by rewrite <-take_take_drop, drop_drop.
Qed.

(** Reading back the range just overwritten, or a sub-range of it. *)
Lemma zrange_zsplice_in pos new l q n :
  0 <= pos <= zlen l -> pos <= q -> 0 <= n -> q + n <= pos + zlen new ->
  zrange q n (zsplice pos new l) = zrange (q - pos) n new.
Proof.
  intros. unfold zrange, zsplice.
  rewrite zdrop_app_ge by (rewrite zlen_ztake; lia).
  rewrite zlen_ztake.
  replace (q - Z.max 0 (Z.min pos (zlen l))) with (q - pos) by lia.
  rewrite zdrop_app_le by lia.
  rewrite ztake_app_le; [done|]. rewrite zlen_zdrop. lia.
Qed.

(** Ranges disjoint from the overwritten one keep their contents. *)
Lemma zrange_zsplice_before pos new l q n :
  0 <= pos <= zlen l -> 0 <= q -> q + n <= pos ->
  zrange q n (zsplice pos new l) = zrange q n l.
Proof.
  intros. unfold zrange, zsplice.
  destruct (decide (n <= 0)); [by rewrite !ztake_le_0 by lia|].
  rewrite zdrop_app_le by (rewrite zlen_ztake; lia).
  rewrite ztake_app_le by (rewrite zlen_zdrop, zlen_ztake; lia).
  unfold ztake, zdrop. list_lookup_eq; lia || done.
Qed.

Lemma zrange_zsplice_after pos new l q n :
  0 <= pos -> pos + zlen new <= zlen l -> pos + zlen new <= q ->
  zrange q n (zsplice pos new l) = zrange q n l.
Proof.
  intros. pose proof (zlen_nonneg new). unfold zrange, zsplice. f_equal.
  rewrite zdrop_app_ge by (rewrite zlen_ztake; lia).
  rewrite zdrop_app_ge by (rewrite zlen_ztake; lia).
  rewrite zlen_ztake, zdrop_zdrop by lia. f_equal. lia.
Qed.

Lemma zsplice_nil pos l : 0 <= pos -> zsplice pos [] l = l.
Proof. intros. unfold zsplice. rewrite zlen_nil, Z.add_0_r. apply ztake_zdrop. Qed.

Lemma zsplice_app_l pos new l k :
  0 <= pos -> pos + zlen new <= zlen l -> zsplice pos new (l ++ k) = zsplice pos new l ++ k.
Proof.
  intros. pose proof (zlen_nonneg new). unfold zsplice.
  rewrite ztake_app_le, zdrop_app_le by lia. by rewrite <-!app_assoc.
Qed.

(** Splicing a run that crosses from [l] into [k]. *)
Lemma zsplice_app_split pos new1 new2 l k :
  0 <= pos -> pos + zlen new1 = zlen l ->
  zsplice pos (new1 ++ new2) (l ++ k) = zsplice pos new1 l ++ zsplice 0 new2 k.
Proof.
  intros ? E. pose proof (zlen_nonneg new1). pose proof (zlen_nonneg new2). unfold zsplice.
  rewrite zlen_app, ztake_app_le, zdrop_app_ge, (zdrop_ge (pos + zlen new1)) by lia.
  rewrite app_nil_r, (ztake_le_0 0), Z.add_0_l by lia. rewrite <-!app_assoc. cbn.
  do 4 f_equal. lia.
Qed.

Lemma zdrop_zsplice r pos new l :
  0 <= r -> 0 <= pos -> r + pos <= zlen l ->
  zdrop r (zsplice (r + pos) new l) = zsplice pos new (zdrop r l).
Proof.
  intros. pose proof (zlen_nonneg new). unfold zsplice.
  rewrite zdrop_app_le by (rewrite zlen_ztake; lia). rewrite zdrop_zdrop by lia. f_equal.
  - unfold ztake, zdrop. by rewrite Z2Nat.inj_add, <-take_drop_commute by lia.
  - do 2 f_equal. lia.
Qed.
Lemma zdrop_zrange k pos n l :
  0 <= k <= n -> 0 <= pos -> zdrop k (zrange pos n l) = zrange (pos + k) (n - k) l.
Proof.
  intros. unfold zrange. rewrite <-(zdrop_zdrop k pos) by lia. unfold ztake, zdrop.
  replace (Z.to_nat n) with (Z.to_nat k + Z.to_nat (n - k))%nat by lia.
  by rewrite <-take_drop_commute.
Qed.

End ZListLemmas.

#[export] Hint Rewrite @zlen_nil @zlen_cons @zlen_app @zlen_ztake @zlen_zdrop @zlen_zrange : zlist.

(** ** Other list lemmas *)

Lemma elem_of_filterb {A} (f : A -> bool) l x : x ∈ List.filter f l <-> x ∈ l /\ f x = true.
Proof. by rewrite !list_elem_of_In, filter_In. Qed.

Lemma fold_left_cons {A} (l acc : list A) : fold_left (fun acc o => o :: acc) l acc = rev l ++ acc.
Proof. revert acc. induction l as [|x l IH]; intros; simpl; [done|]. by rewrite IH, <-app_assoc. Qed.

(** ** Bit masks *)

(** Updating a word only inside [allowed] leaves the bits outside it alone. *)
Lemma mask_update_frame s clear set allowed :
  Z.land set (Z.lnot allowed) = 0 -> Z.land clear (Z.lnot allowed) = 0 ->
  Z.land (Z.lor (Z.land s (Z.lnot clear)) set) (Z.lnot allowed) = Z.land s (Z.lnot allowed).
Proof.
  intros Hs Hc. apply Z.bits_inj'. intros i Hi.
  apply (f_equal (fun z => Z.testbit z i)) in Hs, Hc. revert Hs Hc.
  rewrite !Z.land_spec, Z.lor_spec, Z.land_spec, !Z.lnot_spec, Z.testbit_0_l by done.
  by destruct (Z.testbit s i), (Z.testbit clear i), (Z.testbit set i), (Z.testbit allowed i).
Qed.

Lemma mask_update_bit s clear set i :
  0 <= i ->
  Z.testbit (Z.lor (Z.land s (Z.lnot clear)) set) i =
  (Z.testbit s i && negb (Z.testbit clear i)) || Z.testbit set i.
Proof. intros. by rewrite Z.lor_spec, Z.land_spec, Z.lnot_spec by done. Qed.

(** ** Arrays of fixed-size elements

    Element [s] of an array of [sz]-byte elements. *)
Definition zelem {A} (sz s : Z) (l : list A) : list A := zrange (s * sz) sz l.

(** The first [n] elements of such an array. *)
Definition zelems {A} (sz n : Z) (l : list A) : list (list A) :=
  map (fun j => zelem sz j l) (seqZ 0 n).

Lemma zelem_splice_out {A} sz o k (bs l : list A) s :
  0 < sz -> 0 <= o -> 0 <= k -> 0 <= s -> zlen bs <= k * sz -> (o + k) * sz <= zlen l ->
  s < o \/ o + k <= s -> zelem sz s (zsplice (o * sz) bs l) = zelem sz s l.
Proof.
  intros. pose proof (zlen_nonneg bs). unfold zelem. destruct H5.
  - apply zrange_zsplice_before; nia.
  - apply zrange_zsplice_after; nia.
Qed.

Lemma zelem_splice_in {A} sz o k (bs l : list A) s :
  0 < sz -> 0 <= o -> 0 <= k -> zlen bs = k * sz -> (o + k) * sz <= zlen l ->
  o <= s < o + k -> zelem sz s (zsplice (o * sz) bs l) = zelem sz (s - o) bs.
Proof.
  intros. unfold zelem. rewrite zrange_zsplice_in by nia. f_equal. nia.
Qed.

Lemma zelem_zrange {A} sz j pos n (l : list A) :
  0 < sz -> 0 <= pos -> 0 <= j -> (j + 1) * sz <= n ->
  zelem sz j (zrange pos n l) = zrange (pos + j * sz) sz l.
Proof.
  intros. unfold zelem, zrange, ztake, zdrop. list_lookup_eq; try (done || nia).
  f_equal. nia.
Qed.

Lemma zlen_zelems {A} sz n (l : list A) : 0 <= n -> zlen (zelems sz n l) = n.
Proof. intros. unfold zelems, zlen. rewrite length_map, length_seqZ. lia. Qed.

(** ** Modular arithmetic *)

Lemma mod_unique_pos a b q r : 0 <= r < b -> a = b * q + r -> a mod b = r.
Proof. intros. symmetry. by apply Z.mod_unique_pos with q. Qed.

Lemma mod_eq_add a b m c : a mod m = b mod m -> (a + c) mod m = (b + c) mod m.
Proof. intros H. by rewrite <-(Zplus_mod_idemp_l a), H, Zplus_mod_idemp_l. Qed.

Lemma mod_eq_sub_l a b m c : a mod m = b mod m -> (c - a) mod m = (c - b) mod m.
Proof. intros H. by rewrite <-(Zminus_mod_idemp_r c a), H, Zminus_mod_idemp_r. Qed.

(** The next [n] elements as one run of bytes. *)
Lemma concat_zelems {A} sz n (l : list A) :
  0 < sz -> 0 <= n -> concat (zelems sz n l) = ztake (n * sz) l.
Proof.
  intros Hsz Hn. unfold zelems. rewrite <-(Z2Nat.id n) by done.
  induction (Z.to_nat n) as [|m IH]; [by rewrite ztake_le_0 by lia|].
  rewrite seqZ_S, map_app, concat_app, IH. cbn [map concat]. rewrite app_nil_r. unfold zelem.
  replace (Z.of_nat (S m) * sz) with (Z.of_nat m * sz + sz) by lia.
  change (ztake (Z.of_nat m * sz + sz) l) with (zrange 0 (Z.of_nat m * sz + sz) l).
  by rewrite zrange_app by nia.
Qed.

(** ** Lists of components that each hold a list of things *)

Lemma flat_map_insert {A B} (f : A -> list B) l i x0 :
  l !! i = Some x0 -> exists R, flat_map f l ≡ₚ f x0 ++ R /\ forall x, flat_map f (<[i := x]> l) ≡ₚ f x ++ R.
Proof.
  revert i. induction l as [|y l IH]; intros [|i]; cbn; try done.
  - intros [= ->]. by exists (flat_map f l).
  - intros Hi. destruct (IH i Hi) as (R & H1 & H2). exists (f y ++ R). split; [rewrite H1|intros x; rewrite H2]; solve_Permutation.
Qed.
