(* ===== verification/Types.v ===== *)
(** * Public Zircon types and constants

    Status codes ([zircon/system/public/zircon/errors.h]), signal bits, handle
    rights and object limits ([types.h], [rights.h]) that the object layer uses,
    and the model of the kernel's user-memory accessors ([user_copy/user_ptr.h]). *)

From S2P Require Import Prelude.

(** ** Status codes *)

Inductive zx_status_t :=
| ZX_OK
| ZX_ERR_INTERNAL
| ZX_ERR_NOT_SUPPORTED
| ZX_ERR_NO_RESOURCES
| ZX_ERR_NO_MEMORY
| ZX_ERR_INTERNAL_INTR_RETRY
| ZX_ERR_INVALID_ARGS
| ZX_ERR_BAD_HANDLE
| ZX_ERR_WRONG_TYPE
| ZX_ERR_BAD_SYSCALL
| ZX_ERR_OUT_OF_RANGE
| ZX_ERR_BUFFER_TOO_SMALL
| ZX_ERR_BAD_STATE
| ZX_ERR_TIMED_OUT
| ZX_ERR_SHOULD_WAIT
| ZX_ERR_CANCELED
| ZX_ERR_PEER_CLOSED
| ZX_ERR_NOT_FOUND
| ZX_ERR_ALREADY_EXISTS
| ZX_ERR_ALREADY_BOUND
| ZX_ERR_UNAVAILABLE
| ZX_ERR_ACCESS_DENIED.

#[global] Instance zx_status_eq_dec : EqDecision zx_status_t.
Proof. solve_decision. Defined.

(** ** Signals *)

Definition ZX_USER_SIGNAL_ALL : Z := 0xff000000.
Definition ZX_OBJECT_READABLE : Z := Z.shiftl 1 0.
Definition ZX_OBJECT_WRITABLE : Z := Z.shiftl 1 1.
Definition ZX_OBJECT_PEER_CLOSED : Z := Z.shiftl 1 2.
Definition ZX_OBJECT_SIGNALED : Z := Z.shiftl 1 3.
Definition ZX_OBJECT_SIGNAL_4 : Z := Z.shiftl 1 4.
Definition ZX_OBJECT_SIGNAL_5 : Z := Z.shiftl 1 5.
Definition ZX_OBJECT_SIGNAL_6 : Z := Z.shiftl 1 6.
Definition ZX_OBJECT_SIGNAL_10 : Z := Z.shiftl 1 10.
Definition ZX_OBJECT_SIGNAL_11 : Z := Z.shiftl 1 11.

(** ** Identifiers *)

Definition ZX_KOID_INVALID : Z := 0.
Definition ZX_HANDLE_INVALID : Z := 0.

(** ** Machine *)

Definition PAGE_SIZE : Z := 4096.

(** ** Rights *)

Definition ZX_RIGHT_DUPLICATE : Z := Z.shiftl 1 0.
Definition ZX_RIGHT_TRANSFER : Z := Z.shiftl 1 1.
Definition ZX_RIGHT_READ : Z := Z.shiftl 1 2.
Definition ZX_RIGHT_WRITE : Z := Z.shiftl 1 3.
Definition ZX_RIGHT_GET_PROPERTY : Z := Z.shiftl 1 6.
Definition ZX_RIGHT_SET_PROPERTY : Z := Z.shiftl 1 7.
Definition ZX_RIGHT_ENUMERATE : Z := Z.shiftl 1 8.
Definition ZX_RIGHT_DESTROY : Z := Z.shiftl 1 9.
Definition ZX_RIGHT_SET_POLICY : Z := Z.shiftl 1 10.
Definition ZX_RIGHT_GET_POLICY : Z := Z.shiftl 1 11.
Definition ZX_RIGHT_SIGNAL : Z := Z.shiftl 1 12.
Definition ZX_RIGHT_WAIT : Z := Z.shiftl 1 14.
Definition ZX_RIGHT_INSPECT : Z := Z.shiftl 1 15.
Definition ZX_RIGHT_MANAGE_JOB : Z := Z.shiftl 1 16.
Definition ZX_RIGHT_MANAGE_PROCESS : Z := Z.shiftl 1 17.
Definition ZX_RIGHT_MANAGE_THREAD : Z := Z.shiftl 1 18.
Definition ZX_RIGHTS_BASIC : Z :=
  Z.lor (Z.lor ZX_RIGHT_TRANSFER ZX_RIGHT_DUPLICATE) (Z.lor ZX_RIGHT_WAIT ZX_RIGHT_INSPECT).
Definition ZX_RIGHTS_IO : Z := Z.lor ZX_RIGHT_READ ZX_RIGHT_WRITE.
Definition ZX_RIGHTS_PROPERTY : Z := Z.lor ZX_RIGHT_GET_PROPERTY ZX_RIGHT_SET_PROPERTY.
Definition ZX_RIGHTS_POLICY : Z := Z.lor ZX_RIGHT_GET_POLICY ZX_RIGHT_SET_POLICY.

(** ** User memory

    A [user_in_ptr] is the run of bytes readable from the user address it holds:
    reading past it faults. A copy of [len] bytes at [off] from the pointer
    succeeds when all of them are readable; a copy that faults has stored the
    readable prefix in the kernel buffer. A [user_out_ptr] is the number of bytes
    that can be written at its address. *)

Definition user_in_ptr := list byte.
Definition user_out_ptr := Z.

(** [src.byte_offset(off).copy_array_from_user(dst, len)]: the bytes stored in
    [dst], and whether the copy succeeded. *)
Definition copy_array_from_user (src : user_in_ptr) (off len : Z) : list byte * bool :=
  (zrange off len src, off + len <=? zlen src).

(** [dst.byte_offset(off).copy_array_to_user(src, len)]: whether it succeeded. *)
Definition copy_array_to_user (dst : user_out_ptr) (off len : Z) : bool :=
  off + len <=? dst.

(** ** Lemmas *)

Lemma copy_in_ok src off len bs :
  0 <= off -> 0 <= len ->
  copy_array_from_user src off len = (bs, true) ->
  bs = zrange off len src /\ zlen bs = len /\ off + len <= zlen src.
Proof.
  unfold copy_array_from_user. intros ?? [= <- ?%Z.leb_le].
  rewrite zlen_zrange. split; [done | lia].
Qed.

Lemma copy_in_fault src off len bs ok :
  0 <= off -> 0 <= len ->
  copy_array_from_user src off len = (bs, ok) -> zlen bs <= len.
Proof.
  unfold copy_array_from_user. intros ?? [= <- ?]. rewrite zlen_zrange. lia.
Qed.
