(* ===== verification/Dispatcher.v ===== *)
(** * Dispatcher: the base of every kernel object

    Models [zircon/kernel/object/dispatcher.cc], [include/object/dispatcher.h] and
    [signal_observer.h]: the signal word of an object, the observers waiting on
    it, the handle count, and the coupling of the two endpoints of a peered object.

    Every method runs under the object's lock, so an operation is one atomic
    state transition. The virtual calls [OnMatch] and [OnCancel] that a dispatcher
    makes on its observers are recorded, in order, in the field [log_]. *)

From S2P Require Import Prelude Types.

#[local] Set Warnings "-register-all".

(** ** Observers *)

(** A [SignalObserver]: its identity (address), the handle and the signals it was
    registered with, and what [MatchesKey] compares ([PortObserver] overrides it
    with its port and packet key, every other observer answers [false]). *)
Record SignalObserver := mkObserver {
  so_id : Z;
  so_port_key : option (Z * Z);
  so_handle : Z;
  so_triggering : Z;
}.

Definition MatchesKey (o : SignalObserver) (port key : Z) : bool :=
  match so_port_key o with
  | Some (p, k) => (key =? k) && (port =? p)
  | None => false
  end.

(** The callbacks a dispatcher makes on an observer. *)
Inductive Callback :=
| OnMatch (observer signals : Z)
| OnCancel (observer signals : Z).

Definition cb_observer (c : Callback) : Z :=
  match c with OnMatch o _ | OnCancel o _ => o end.

(** ** The dispatcher state *)

Record Dispatcher := mkDispatcher {
  koid_ : Z;
  handle_count_ : Z;
  signals_ : Z;
  observers_ : list SignalObserver;
  log_ : list Callback;
}.

Definition set_observers (d : Dispatcher) (obs : list SignalObserver)
    (calls : list Callback) : Dispatcher :=
  mkDispatcher (koid_ d) (handle_count_ d) (signals_ d) obs (log_ d ++ calls).

Definition ZX_KOID_FIRST : Z := 1024.

(** [global_koid.fetch_add(1)]: the identifier handed out and the next counter. *)
Definition GenerateKernelObjectId (global_koid : Z) : Z * Z :=
  (global_koid, wrap64 (global_koid + 1)).

Definition Dispatcher_new (global_koid signals : Z) : Dispatcher * Z :=
  let '(koid, next) := GenerateKernelObjectId global_koid in
  (mkDispatcher koid 0 signals [] [], next).

Definition increment_handle_count (d : Dispatcher) : Dispatcher :=
  mkDispatcher (koid_ d) (wrap32 (handle_count_ d + 1)) (signals_ d) (observers_ d) (log_ d).

(** Returns [true] exactly when the count was one before the decrement. *)
Definition decrement_handle_count (d : Dispatcher) : Dispatcher * bool :=
  (mkDispatcher (koid_ d) (wrap32 (handle_count_ d - 1)) (signals_ d) (observers_ d) (log_ d),
   handle_count_ d =? 1).

Definition AddObserver (is_waitable : bool) (d : Dispatcher) (observer : Z)
    (port_key : option (Z * Z)) (handle signals : Z) : Dispatcher * zx_status_t :=
  if negb is_waitable then (d, ZX_ERR_NOT_SUPPORTED) else
  if negb (Z.land (signals_ d) signals =? 0) then
    (set_observers d (observers_ d) [OnMatch observer (signals_ d)], ZX_OK)
  else
    (set_observers d (mkObserver observer port_key handle signals :: observers_ d) [], ZX_OK).

(** [observers_.erase( *observer)]: unlink the node with that identity. *)
Fixpoint erase_observer (observer : Z) (obs : list SignalObserver) : list SignalObserver :=
  match obs with
  | [] => []
  | o :: rest => if so_id o =? observer then rest else o :: erase_observer observer rest
  end.

Definition InContainer (observer : Z) (obs : list SignalObserver) : bool :=
  existsb (fun o => so_id o =? observer) obs.

(** The new state, the signals reported through the out-parameter, the result. *)
Definition RemoveObserver (d : Dispatcher) (observer : Z) : Dispatcher * Z * bool :=
  if InContainer observer (observers_ d)
  then (set_observers d (erase_observer observer (observers_ d)) [], signals_ d, true)
  else (d, signals_ d, false).

(** The iteration shared by [Cancel], [CancelByKey] and [UpdateStateLocked]: walk
    the list, unlink every observer [matches] selects and call it back. *)
Fixpoint unlink_loop (matches : SignalObserver -> bool) (call : Z -> Callback)
    (obs : list SignalObserver) : list SignalObserver * list Callback :=
  match obs with
  | [] => ([], [])
  | o :: rest =>
      let '(kept, calls) := unlink_loop matches call rest in
      if matches o then (kept, call (so_id o) :: calls) else (o :: kept, calls)
  end.

Definition Cancel (d : Dispatcher) (handle : Z) : Dispatcher :=
  let '(kept, calls) :=
    unlink_loop (fun o => so_handle o =? handle) (fun i => OnCancel i (signals_ d))
      (observers_ d) in
  set_observers d kept calls.

Definition CancelByKey (d : Dispatcher) (handle port key : Z) : Dispatcher * bool :=
  let '(kept, calls) :=
    unlink_loop (fun o => (so_handle o =? handle) && MatchesKey o port key)
      (fun i => OnCancel i (signals_ d)) (observers_ d) in
  (set_observers d kept calls, negb (zlen calls =? 0)).

Definition UpdateStateLocked (d : Dispatcher) (clear_mask set_mask : Z) : Dispatcher :=
  let signals := Z.lor (Z.land (signals_ d) (Z.lnot clear_mask)) set_mask in
  if signals_ d =? signals then d else
  let '(kept, calls) :=
    unlink_loop (fun o => negb (Z.land (so_triggering o) signals =? 0))
      (fun i => OnMatch i signals) (observers_ d) in
  mkDispatcher (koid_ d) (handle_count_ d) signals kept (log_ d ++ calls).

(** [SoloDispatcher<Self, def_rights, extra_signals>::user_signal_self]. *)
Definition solo_user_signal_self (def_rights extra_signals : Z) (d : Dispatcher)
    (clear_mask set_mask : Z) : Dispatcher * zx_status_t :=
  if Z.land def_rights ZX_RIGHT_WAIT =? 0 then (d, ZX_ERR_NOT_SUPPORTED) else
  let allowed_signals := Z.lor ZX_USER_SIGNAL_ALL extra_signals in
  if negb (Z.land set_mask (Z.lnot allowed_signals) =? 0)
     || negb (Z.land clear_mask (Z.lnot allowed_signals) =? 0)
  then (d, ZX_ERR_INVALID_ARGS)
  else (UpdateStateLocked d clear_mask set_mask, ZX_OK).

(** ** Peered dispatchers *)

(** What [PeeredDispatcher<Self>] needs from the endpoint class it wraps. *)
Class Endpoint (E : Type) := {
  ep_base : E -> Dispatcher;
  ep_set_base : Dispatcher -> E -> E;
  ep_peer : E -> bool;
  ep_set_peer : bool -> E -> E;
  ep_extra_signals : Z;
  on_zero_handles_locked : E -> E;
  OnPeerZeroHandlesLocked : E -> E;
}.

(** The two endpoints that share a [PeerHolder]. An endpoint's [peer_] reference
    is either null or the other endpoint, so it is kept as a boolean. *)
Record Pair (E : Type) := mkPair { ep_left : E; ep_right : E }.
Arguments mkPair {E}.
Arguments ep_left {E}.
Arguments ep_right {E}.

Section Peered.
Context {E : Type} `{!Endpoint E}.
Implicit Types p : Pair E.

Definition sel (side : bool) p : E := if side then ep_right p else ep_left p.

Definition upd (side : bool) (f : E -> E) p : Pair E :=
  if side then mkPair (ep_left p) (f (ep_right p)) else mkPair (f (ep_left p)) (ep_right p).

Definition ep_update_state (clear_mask set_mask : Z) (e : E) : E :=
  ep_set_base (UpdateStateLocked (ep_base e) clear_mask set_mask) e.

Definition peered_user_signal_self (side : bool) (clear_mask set_mask : Z) p
    : Pair E * zx_status_t :=
  let allowed_signals := Z.lor ZX_USER_SIGNAL_ALL ep_extra_signals in
  if negb (Z.land set_mask (Z.lnot allowed_signals) =? 0)
     || negb (Z.land clear_mask (Z.lnot allowed_signals) =? 0)
  then (p, ZX_ERR_INVALID_ARGS)
  else (upd side (ep_update_state clear_mask set_mask) p, ZX_OK).

Definition peered_user_signal_peer (side : bool) (clear_mask set_mask : Z) p
    : Pair E * zx_status_t :=
  let allowed_signals := Z.lor ZX_USER_SIGNAL_ALL ep_extra_signals in
  if negb (Z.land set_mask (Z.lnot allowed_signals) =? 0)
     || negb (Z.land clear_mask (Z.lnot allowed_signals) =? 0)
  then (p, ZX_ERR_INVALID_ARGS)
  else if negb (ep_peer (sel side p)) then (p, ZX_ERR_PEER_CLOSED)
  else (upd (negb side) (ep_update_state clear_mask set_mask) p, ZX_OK).

Definition peered_on_zero_handles (side : bool) p : Pair E :=
  let peer := ep_peer (sel side p) in
  let p1 := upd side (fun e => on_zero_handles_locked (ep_set_peer false e)) p in
  if peer
  then upd (negb side) (fun e => OnPeerZeroHandlesLocked (ep_set_peer false e)) p1
  else p1.

Definition PeerHasClosed (side : bool) p : bool := negb (ep_peer (sel side p)).

End Peered.

(** The masks that name user signals only. *)
Definition user_signals_only (c s : Z) : bool :=
  (Z.land s (Z.lnot ZX_USER_SIGNAL_ALL) =? 0) && (Z.land c (Z.lnot ZX_USER_SIGNAL_ALL) =? 0).

(** What the base class relies on in an endpoint class: the accessors are consistent and
    the two hooks do not touch the link to the peer. *)
Class EndpointLaws (E : Type) `{!Endpoint E} : Prop := {
  ep_base_set : forall d (e : E), ep_base (ep_set_base d e) = d;
  ep_peer_set : forall b (e : E), ep_peer (ep_set_peer b e) = b;
  ep_peer_set_base : forall d (e : E), ep_peer (ep_set_base d e) = ep_peer e;
  ep_base_set_peer : forall b (e : E), ep_base (ep_set_peer b e) = ep_base e;
  ep_peer_on_zero : forall e : E, ep_peer (on_zero_handles_locked e) = ep_peer e;
  ep_peer_on_peer_zero : forall e : E, ep_peer (OnPeerZeroHandlesLocked e) = ep_peer e;
}.

(** The operations common to all peered objects. [PClose] is the release of the last
    handle to an endpoint. *)
Inductive PeeredOp :=
| PSignal (side : bool) (clear_mask set_mask : Z)
| PSignalPeer (side : bool) (clear_mask set_mask : Z)
| PClose (side : bool).

Definition peered_step {E} `{!Endpoint E} (p : Pair E) (op : PeeredOp) : Pair E * zx_status_t :=
  match op with
  | PSignal side c s => peered_user_signal_self side c s p
  | PSignalPeer side c s => peered_user_signal_peer side c s p
  | PClose side => (peered_on_zero_handles side p, ZX_OK)
  end.

Fixpoint peered_run {E} `{!Endpoint E} (p : Pair E) (ops : list PeeredOp)
    : Pair E * list zx_status_t :=
  match ops with
  | [] => (p, [])
  | op :: ops =>
      let '(p, st) := peered_step p op in
      let '(p, sts) := peered_run p ops in (p, st :: sts)
  end.

Definition is_close (op : PeeredOp) : bool := match op with PClose _ => true | _ => false end.

(** The statuses that depend only on the masks and on an earlier closure. *)
Definition peered_status (extra : Z) (linked : bool) (op : PeeredOp) : zx_status_t :=
  let bad m := negb (Z.land m (Z.lnot (Z.lor ZX_USER_SIGNAL_ALL extra)) =? 0) in
  match op with
  | PSignal _ c s => if bad s || bad c then ZX_ERR_INVALID_ARGS else ZX_OK
  | PSignalPeer _ c s =>
      if bad s || bad c then ZX_ERR_INVALID_ARGS
      else if linked then ZX_OK else ZX_ERR_PEER_CLOSED
  | PClose _ => ZX_OK
  end.

Fixpoint peered_statuses (extra : Z) (linked : bool) (ops : list PeeredOp) : list zx_status_t :=
  match ops with
  | [] => []
  | op :: ops => peered_status extra linked op :: peered_statuses extra (linked && negb (is_close op)) ops
  end.

(** ** Deleting dispatchers

    [SafeDeleter::Delete] runs when the last reference to an object is dropped.
    [ObjTree id owned] is an object together with the objects whose last reference
    it holds, in the order its destructor releases them. *)

Inductive ObjTree := Obj (id : Z) (owned : list ObjTree).

(** The do-while loop of the outermost [Delete]: [delete kobj] re-enters
    [Delete] for every owned object, which only pushes it on [pending_]. *)
Fixpoint SafeDeleter_loop (fuel : nat) (kobj : ObjTree) (pending_ : list ObjTree)
    : option (list Z) :=
  match fuel with
  | O => None
  | S fuel =>
      let '(Obj id owned) := kobj in
      let pending_ := fold_left (fun acc o => o :: acc) owned pending_ in
      match pending_ with
      | [] => Some [id]
      | next :: pending_ =>
          match SafeDeleter_loop fuel next pending_ with
          | Some deleted => Some (id :: deleted)
          | None => None
          end
      end
  end.

Fixpoint obj_ids (t : ObjTree) : list Z :=
  let '(Obj id owned) := t in id :: concat (map obj_ids owned).

Definition SafeDeleter_Delete (kobj : ObjTree) : option (list Z) :=
  SafeDeleter_loop (length (obj_ids kobj)) kobj [].

(** ** Operation sequences *)

Inductive DispatcherOp :=
| DAdd (observer : Z) (port_key : option (Z * Z)) (handle signals : Z)
| DRemove (observer : Z)
| DCancel (handle : Z)
| DCancelByKey (handle port key : Z)
| DUpdate (clear_mask set_mask : Z).

Definition dispatcher_step (d : Dispatcher) (op : DispatcherOp) : Dispatcher :=
  match op with
  | DAdd o k h s => (AddObserver true d o k h s).1
  | DRemove o => (RemoveObserver d o).1.1
  | DCancel h => Cancel d h
  | DCancelByKey h p k => (CancelByKey d h p k).1
  | DUpdate c s => UpdateStateLocked d c s
  end.

Definition dispatcher_run (d : Dispatcher) (ops : list DispatcherOp) : Dispatcher :=
  fold_left dispatcher_step ops d.

(** Observers an operation registers, and observers it hands back to the caller. *)
Definition op_registers (op : DispatcherOp) : list Z :=
  match op with DAdd o _ _ _ => [o] | _ => [] end.

Definition op_returns (d : Dispatcher) (op : DispatcherOp) : list Z :=
  match op with DRemove o => if (RemoveObserver d o).2 then [o] else [] | _ => [] end.

Fixpoint run_returns (d : Dispatcher) (ops : list DispatcherOp) : list Z :=
  match ops with
  | [] => []
  | op :: rest => op_returns d op ++ run_returns (dispatcher_step d op) rest
  end.

(** No observer that could be satisfied by the current signals is still queued. *)
Definition quiescent (d : Dispatcher) : Prop :=
  Forall (fun o => Z.land (so_triggering o) (signals_ d) = 0) (observers_ d).

(** ** Lemmas *)

Lemma unlink_loop_filter m c obs :
  unlink_loop m c obs =
  (List.filter (fun o => negb (m o)) obs, map (fun o => c (so_id o)) (List.filter m obs)).
Proof.
  induction obs as [|o obs IH]; [done|]. simpl. rewrite IH. by destruct (m o).
Qed.

Lemma unlink_loop_perm m c obs kept calls :
  (forall i, cb_observer (c i) = i) ->
  unlink_loop m c obs = (kept, calls) ->
  map so_id obs ≡ₚ map cb_observer calls ++ map so_id kept.
Proof.
  intros Hc. revert kept calls. induction obs as [|o obs IH]; intros kept calls; simpl.
  - by intros [= <- <-].
  - destruct (unlink_loop m c obs) as [k cs]. specialize (IH _ _ eq_refl).
    destruct (m o); intros [= <- <-]; simpl.
    + by rewrite Hc, IH.
    + by rewrite IH, Permutation_middle.
Qed.

Lemma erase_observer_perm o obs :
  InContainer o obs = true -> map so_id obs ≡ₚ o :: map so_id (erase_observer o obs).
Proof.
  induction obs as [|x obs IH]; [done|]. simpl.
  destruct (Z.eqb_spec (so_id x) o) as [->|]; [done|]. simpl. intros H.
  rewrite IH by done. constructor.
Qed.

Lemma erase_observer_incl o obs x : x ∈ erase_observer o obs -> x ∈ obs.
Proof.
  induction obs as [|y obs IH]; [done|]. simpl. destruct (_ =? _); set_solver.
Qed.

Lemma dispatcher_step_perm d op :
  op_registers op ++ map cb_observer (log_ d) ++ map so_id (observers_ d) ≡ₚ
  op_returns d op ++ map cb_observer (log_ (dispatcher_step d op))
    ++ map so_id (observers_ (dispatcher_step d op)).
Proof.
  destruct op as [o k h s|o|h|h p k|c s]; simpl.
  - unfold AddObserver. simpl. destruct (negb _); simpl; rewrite map_app; simpl; solve_Permutation.
  - unfold RemoveObserver. destruct (InContainer o (observers_ d)) eqn:E; simpl; [|done].
    rewrite (erase_observer_perm _ _ E), app_nil_r. solve_Permutation.
  - unfold Cancel. destruct (unlink_loop _ _ _) as [kept calls] eqn:E.
    apply unlink_loop_perm in E; [|done]. simpl. rewrite map_app, E. solve_Permutation.
  - unfold CancelByKey. destruct (unlink_loop _ _ _) as [kept calls] eqn:E.
    apply unlink_loop_perm in E; [|done]. simpl. rewrite map_app, E. solve_Permutation.
  - unfold UpdateStateLocked. destruct (_ =? _); [done|].
    destruct (unlink_loop _ _ _) as [kept calls] eqn:E.
    apply unlink_loop_perm in E; [|done]. simpl. rewrite map_app, E. solve_Permutation.
Qed.

Lemma dispatcher_step_quiescent d op : quiescent d -> quiescent (dispatcher_step d op).
Proof.
  unfold quiescent. rewrite !Forall_forall. intros Hq.
  destruct op as [o k h s|o|h|h p k|c s]; simpl.
  - unfold AddObserver. simpl. destruct (Z.land (signals_ d) s =? 0) eqn:E; simpl; [|done].
    apply Z.eqb_eq in E. intros x [->|Hx]%elem_of_cons; [simpl; by rewrite Z.land_comm | auto].
  - unfold RemoveObserver. destruct (InContainer _ _); simpl; [|done].
    intros x Hx%erase_observer_incl. auto.
  - unfold Cancel. rewrite unlink_loop_filter. simpl.
    intros x [Hx _]%elem_of_filterb. auto.
  - unfold CancelByKey. rewrite unlink_loop_filter. simpl.
    intros x [Hx _]%elem_of_filterb. auto.
  - unfold UpdateStateLocked. destruct (_ =? _); [done|].
    rewrite unlink_loop_filter. simpl.
    intros x [_ Hx]%elem_of_filterb.
    by apply negb_true_iff, negb_false_iff, Z.eqb_eq in Hx.
Qed.

(** Where queued observers and [OnMatch] calls come from, relative to the operations
    run so far. *)
Definition sourced (ops : list DispatcherOp) (d : Dispatcher) : Prop :=
  (forall x, x ∈ observers_ d ->
     DAdd (so_id x) (so_port_key x) (so_handle x) (so_triggering x) ∈ ops) /\
  (forall i s, OnMatch i s ∈ log_ d ->
     exists k h t, DAdd i k h t ∈ ops /\ Z.land t s <> 0).

Lemma sourced_mono ops ops' d : ops ⊆ ops' -> sourced ops d -> sourced ops' d.
Proof. unfold sourced. intros Hsub [H1 H2]. split; [set_solver|]. naive_solver. Qed.

Lemma sourced_unlink ops d m c kept calls s :
  sourced ops d ->
  unlink_loop m c (observers_ d) = (kept, calls) ->
  (forall x j u, x ∈ observers_ d -> m x = true -> c (so_id x) = OnMatch j u ->
     j = so_id x /\ Z.land (so_triggering x) u <> 0) ->
  sourced ops (mkDispatcher (koid_ d) (handle_count_ d) s kept (log_ d ++ calls)).
Proof.
  rewrite unlink_loop_filter. intros [H1 H2] [= <- <-] Hc. split; simpl.
  - intros x [Hx _]%elem_of_filterb. auto.
  - intros i u [Hl|Hl]%elem_of_app; [by apply H2|].
    apply list_elem_of_fmap in Hl as (x & E & [Hx Hm]%elem_of_filterb).
    destruct (Hc x i u Hx Hm (eq_sym E)) as [-> ?]. eauto 10.
Qed.

Lemma dispatcher_step_sourced ops d op :
  sourced ops d -> sourced (ops ++ [op]) (dispatcher_step d op).
Proof.
  intros Hs. assert (sourced (ops ++ [op]) d) as Hs' by (eapply sourced_mono; [|done]; set_solver).
  destruct op as [o k h s|o|h|h p k|c s]; simpl.
  - destruct Hs' as [H1 H2]. unfold AddObserver. simpl.
    destruct (Z.land (signals_ d) s =? 0) eqn:E; simpl; split; simpl.
    + intros x [->|Hx]%elem_of_cons; [set_solver | auto].
    + rewrite app_nil_r. auto.
    + auto.
    + intros i u [Hl|[= -> ->]%list_elem_of_singleton]%elem_of_app; [auto|].
      exists k, h, s. apply Z.eqb_neq in E. rewrite Z.land_comm. split; [set_solver | done].
  - unfold RemoveObserver. destruct (InContainer _ _); simpl; [|done].
    destruct Hs' as [H1 H2]. split; simpl; [|rewrite app_nil_r; auto].
    intros x Hx%erase_observer_incl. auto.
  - unfold Cancel. destruct (unlink_loop _ _ _) eqn:E.
    eapply sourced_unlink; [done..|]. by intros.
  - unfold CancelByKey. destruct (unlink_loop _ _ _) eqn:E.
    eapply sourced_unlink; [done..|]. by intros.
  - unfold UpdateStateLocked. destruct (_ =? _); [done|]. destruct (unlink_loop _ _ _) eqn:E.
    eapply sourced_unlink; [done..|]. intros x j u _ Hm [= <- <-].
    split; [done|]. by apply negb_true_iff, Z.eqb_neq in Hm.
Qed.

Lemma dispatcher_run_inv ops0 d ops :
  quiescent d -> sourced ops0 d ->
  quiescent (dispatcher_run d ops) /\ sourced (ops0 ++ ops) (dispatcher_run d ops).
Proof.
  revert ops0 d. induction ops as [|op ops IH]; intros ops0 d Hq Hs; simpl.
  - by rewrite app_nil_r.
  - replace (ops0 ++ op :: ops) with ((ops0 ++ [op]) ++ ops) by by rewrite <-app_assoc.
    apply IH; [by apply dispatcher_step_quiescent | by apply dispatcher_step_sourced].
Qed.

Lemma dispatcher_run_perm d ops :
  concat (map op_registers ops) ++ map cb_observer (log_ d) ++ map so_id (observers_ d) ≡ₚ
  run_returns d ops ++ map cb_observer (log_ (dispatcher_run d ops))
    ++ map so_id (observers_ (dispatcher_run d ops)).
Proof.
  revert d. induction ops as [|op ops IH]; intros d; [done|].
  change (dispatcher_run d (op :: ops)) with (dispatcher_run (dispatcher_step d op) ops).
  simpl. rewrite <-(app_assoc (op_returns d op)), <-(IH (dispatcher_step d op)).
  trans (concat (map op_registers ops) ++
         (op_registers op ++ map cb_observer (log_ d) ++ map so_id (observers_ d))).
  - solve_Permutation.
  - rewrite (dispatcher_step_perm d op). solve_Permutation.
Qed.

(** ** Theorems *)

(** C24. No wake-up is lost and none is spurious. Start from an object nobody
    observes and run any sequence of observer registrations, removals,
    cancellations and signal updates: no queued observer is waiting for a signal
    that is asserted, every queued observer was registered, and every [OnMatch]
    call went to an observer registered for one of the signals it was called
    with. Every registration is accounted for exactly once: the observers registered
    are, as a multiset, the observers called back ([OnMatch] or [OnCancel]), those
    handed back by [RemoveObserver] and those still queued. *)
Theorem dispatcher_wakeups_exact koid signals ops :
  let d0 := mkDispatcher koid 0 signals [] [] in
  let d := dispatcher_run d0 ops in
  quiescent d /\ sourced ops d /\
  concat (map op_registers ops) ≡ₚ
  run_returns d0 ops ++ map cb_observer (log_ d) ++ map so_id (observers_ d).
Proof.
  intros d0 d. destruct (dispatcher_run_inv [] d0 ops) as [H1 H2]; [by constructor|split; set_solver|].
  split_and!; [exact H1|exact H2|]. pose proof (dispatcher_run_perm d0 ops) as H. simpl in H.
  by rewrite app_nil_r in H.
Qed.

Lemma sel_upd_same {E} side f (p : Pair E) : sel side (upd side f p) = f (sel side p).
Proof. by destruct side. Qed.

Lemma sel_upd_other {E} side f (p : Pair E) : sel side (upd (negb side) f p) = sel side p.
Proof. by destruct side. Qed.

Lemma sel_upd_other' {E} side f (p : Pair E) : sel (negb side) (upd side f p) = sel (negb side) p.
Proof. by destruct side. Qed.

#[global] Hint Rewrite @sel_upd_same @sel_upd_other @sel_upd_other' : zx.

Lemma UpdateStateLocked_signals d c s :
  signals_ (UpdateStateLocked d c s) = Z.lor (Z.land (signals_ d) (Z.lnot c)) s.
Proof.
  unfold UpdateStateLocked. destruct (Z.eqb_spec (signals_ d) (Z.lor (Z.land (signals_ d) (Z.lnot c)) s));
    [done|]. by destruct (unlink_loop _ _ _).
Qed.

Lemma UpdateStateLocked_bit d c s i :
  0 <= i ->
  Z.testbit (signals_ (UpdateStateLocked d c s)) i =
  (Z.testbit (signals_ d) i && negb (Z.testbit c i)) || Z.testbit s i.
Proof. rewrite UpdateStateLocked_signals. apply mask_update_bit. Qed.

(** Through [object_signal] user code changes only the signals it is allowed to:
    whatever the masks, every other bit of the signal word is unchanged, and a
    request that names another bit is refused with no effect. *)
Lemma solo_user_signal_confined def_rights extra d clear set :
  let '(d', st) := solo_user_signal_self def_rights extra d clear set in
  let kernel_bits := Z.lnot (Z.lor ZX_USER_SIGNAL_ALL extra) in
  Z.land (signals_ d') kernel_bits = Z.land (signals_ d) kernel_bits /\
  (st = ZX_OK <-> Z.land def_rights ZX_RIGHT_WAIT <> 0 /\
                  Z.land set kernel_bits = 0 /\ Z.land clear kernel_bits = 0) /\
  (st <> ZX_OK -> d' = d).
Proof.
  unfold solo_user_signal_self.
  destruct (Z.eqb_spec (Z.land def_rights ZX_RIGHT_WAIT) 0); [naive_solver|].
  destruct (Z.eqb_spec (Z.land set (Z.lnot (Z.lor ZX_USER_SIGNAL_ALL extra))) 0);
    [|naive_solver].
  destruct (Z.eqb_spec (Z.land clear (Z.lnot (Z.lor ZX_USER_SIGNAL_ALL extra))) 0);
    [|naive_solver].
  simpl. rewrite UpdateStateLocked_signals, mask_update_frame by done. naive_solver.
Qed.

(** A bit that users may not change keeps its value. *)
Lemma solo_user_signal_bit def_rights extra d clear set i :
  0 <= i -> Z.testbit (Z.lor ZX_USER_SIGNAL_ALL extra) i = false ->
  Z.testbit (signals_ (fst (solo_user_signal_self def_rights extra d clear set))) i = Z.testbit (signals_ d) i.
Proof.
  intros Hi Hb. pose proof (solo_user_signal_confined def_rights extra d clear set) as H.
  destruct (solo_user_signal_self def_rights extra d clear set) as [d' st]. destruct H as [H _].
  apply (f_equal (fun z => Z.testbit z i)) in H. rewrite !Z.land_spec, Z.lnot_spec, Hb, !andb_true_r in H by done. exact H.
Qed.

Lemma SafeDeleter_loop_total fuel kobj pending :
  (length (obj_ids kobj ++ concat (map obj_ids pending)) <= fuel)%nat ->
  exists deleted, SafeDeleter_loop fuel kobj pending = Some deleted /\
    deleted ≡ₚ obj_ids kobj ++ concat (map obj_ids pending).
Proof.
  revert kobj pending. induction fuel as [|fuel IH]; intros [id owned] pending Hlen; simpl in *; [lia|].
  rewrite fold_left_cons.
  assert (concat (map obj_ids (rev owned ++ pending)) ≡ₚ
          concat (map obj_ids owned) ++ concat (map obj_ids pending)) as Hperm.
  { rewrite map_app, concat_app. f_equiv.
    rewrite <-!flat_map_concat_map. by rewrite <-Permutation_rev. }
  destruct (rev owned ++ pending) as [|next rest].
  - exists [id]. split; [done|]. apply Permutation_nil in Hperm. by rewrite Hperm.
  - simpl in Hperm. destruct (IH next rest) as (deleted & -> & Hd).
    { rewrite Hperm. lia. }
    exists (id :: deleted). split; [done|]. by rewrite Hd, Hperm.
Qed.

(** Deleting an object terminates without recursing through the ownership
    graph and destroys the object and everything it (transitively) holds the last
    reference to, each exactly once. *)
Lemma SafeDeleter_deletes_all kobj :
  exists deleted, SafeDeleter_Delete kobj = Some deleted /\ deleted ≡ₚ obj_ids kobj.
Proof.
  unfold SafeDeleter_Delete. destruct (SafeDeleter_loop_total (length (obj_ids kobj)) kobj [])
    as (deleted & -> & H); simpl; rewrite ?app_nil_r in *; [done|]. eauto.
Qed.

Lemma user_mask_low c i :
  Z.land c (Z.lnot ZX_USER_SIGNAL_ALL) = 0 -> 0 <= i -> Z.testbit ZX_USER_SIGNAL_ALL i = false ->
  Z.testbit c i = false.
Proof.
  intros Hc Hi Hall. assert (Z.testbit (Z.land c (Z.lnot ZX_USER_SIGNAL_ALL)) i = false) as H
    by by rewrite Hc, Z.bits_0.
  rewrite Z.land_spec, Z.lnot_spec, Hall, andb_true_r in H by done. done.
Qed.

(** The guard of the two signal calls, for a class without extra signals. *)
Lemma user_allowed c s :
  negb (Z.land s (Z.lnot (Z.lor ZX_USER_SIGNAL_ALL 0)) =? 0)
  || negb (Z.land c (Z.lnot (Z.lor ZX_USER_SIGNAL_ALL 0)) =? 0)
  = negb (user_signals_only c s).
Proof. unfold user_signals_only. rewrite negb_andb. do 3 f_equal. Qed.

(** ** Peered dispatchers, against the interface *)

Section PeeredLaws.
Context {E : Type} `{!Endpoint E, !EndpointLaws E}.
Implicit Types p : Pair E.

Definition linked_to p (b : bool) : Prop := forall side, ep_peer (sel side p) = b.

Lemma ep_update_peer c s (e : E) : ep_peer (ep_update_state c s e) = ep_peer e.
Proof. apply ep_peer_set_base. Qed.

Lemma linked_upd side f p b :
  (forall e : E, ep_peer (f e) = ep_peer e) -> linked_to p b -> linked_to (upd side f p) b.
Proof. intros Hf Hp r. specialize (Hp r). destruct side, r; cbn in *; by rewrite ?Hf. Qed.

Lemma peered_close_linked side p b : linked_to p b -> linked_to (peered_on_zero_handles side p) false.
Proof.
  intros Hp r. unfold peered_on_zero_handles. rewrite (Hp side). pose proof (Hp (negb side)).
  destruct b, side, r; cbn in *; by rewrite ?ep_peer_on_zero, ?ep_peer_on_peer_zero, ?ep_peer_set.
Qed.

Lemma peered_step_linked p b op :
  linked_to p b ->
  linked_to (fst (peered_step p op)) (b && negb (is_close op)) /\
  snd (peered_step p op) = peered_status (ep_extra_signals (E := E)) b op.
Proof.
  intros Hp. destruct op as [side c s|side c s|side]; cbn [peered_step is_close peered_status negb].
  - rewrite andb_true_r. unfold peered_user_signal_self. case_if; cbn; [done|].
    split; [|done]. by apply linked_upd; [apply ep_update_peer|].
  - rewrite andb_true_r. unfold peered_user_signal_peer. rewrite (Hp side).
    case_if; cbn; [done|]. destruct b; cbn; [|done].
    split; [|done]. by apply linked_upd; [apply ep_update_peer|].
  - rewrite andb_false_r. split; [|done]. by eapply peered_close_linked.
Qed.

(** Closing is symmetric, final and visible, for every kind of peered object: whatever
    the sequence of signals and closures on either side of a connected pair, the two
    endpoints always agree on being connected, they are disconnected from the first
    closure on, and signalling the peer fails with [ZX_ERR_PEER_CLOSED] exactly then. *)
Lemma peered_close_symmetric p ops :
  linked_to p true ->
  linked_to (fst (peered_run p ops)) (negb (existsb is_close ops)) /\
  snd (peered_run p ops) = peered_statuses (ep_extra_signals (E := E)) true ops.
Proof.
  assert (forall ops p b, linked_to p b ->
    linked_to (fst (peered_run p ops)) (b && negb (existsb is_close ops)) /\
    snd (peered_run p ops) = peered_statuses (ep_extra_signals (E := E)) b ops) as H;
    [|apply H]. clear p ops.
  induction ops as [|op ops IH]; intros p b Hp; cbn [peered_run existsb peered_statuses].
  { by rewrite andb_true_r. }
  destruct (peered_step_linked p b op Hp) as [Hp1 Hst]. destruct (peered_step p op) as [p1 st].
  cbn in Hp1, Hst. specialize (IH p1 _ Hp1). destruct (peered_run p1 ops) as [p2 sts]. cbn in *.
  rewrite negb_orb, andb_assoc. destruct IH as [? ->]. by subst.
Qed.
End PeeredLaws.
