(* ===== verification/Fifo.v ===== *)
(** * FIFO objects

    Models [zircon/kernel/object/fifo_dispatcher.cc] and its header: a pair of
    peered endpoints, each holding a ring buffer of [elem_count_] fixed-size
    elements that the other endpoint writes and this one reads. [head_] and
    [tail_] are free-running 32-bit counters; an element's slot is the counter
    masked with [mask_]. *)

From S2P Require Import Prelude Types Dispatcher.

Definition kMaxSizeBytes : Z := 4096.

Definition ZX_FIFO_READABLE : Z := ZX_OBJECT_READABLE.
Definition ZX_FIFO_WRITABLE : Z := ZX_OBJECT_WRITABLE.
Definition ZX_FIFO_PEER_CLOSED : Z := ZX_OBJECT_PEER_CLOSED.

Record FifoDispatcher := mkFifo {
  fifo_base : Dispatcher;
  fifo_peer_ : bool;
  elem_count_ : Z;
  elem_size_ : Z;
  mask_ : Z;
  head_ : Z;
  tail_ : Z;
  data_ : list byte;
}.

Definition fifo_set_base (d : Dispatcher) (f : FifoDispatcher) : FifoDispatcher :=
  mkFifo d (fifo_peer_ f) (elem_count_ f) (elem_size_ f) (mask_ f) (head_ f) (tail_ f) (data_ f).

Definition fifo_set_peer (b : bool) (f : FifoDispatcher) : FifoDispatcher :=
  mkFifo (fifo_base f) b (elem_count_ f) (elem_size_ f) (mask_ f) (head_ f) (tail_ f) (data_ f).

Definition fifo_set_head_data (h : Z) (bs : list byte) (f : FifoDispatcher) : FifoDispatcher :=
  mkFifo (fifo_base f) (fifo_peer_ f) (elem_count_ f) (elem_size_ f) (mask_ f) h (tail_ f) bs.

Definition fifo_set_tail (t : Z) (f : FifoDispatcher) : FifoDispatcher :=
  mkFifo (fifo_base f) (fifo_peer_ f) (elem_count_ f) (elem_size_ f) (mask_ f) (head_ f) t (data_ f).

Definition FifoDispatcher_new (base : Dispatcher) (count elem_size : Z) (data : list byte)
    : FifoDispatcher :=
  mkFifo base true count elem_size (wrap32 (count - 1)) 0 0 data.

(** [void FifoDispatcher::on_zero_handles_locked()] has no effect. *)
Definition fifo_on_zero_handles_locked (f : FifoDispatcher) : FifoDispatcher := f.

Definition fifo_OnPeerZeroHandlesLocked (f : FifoDispatcher) : FifoDispatcher :=
  fifo_set_base (UpdateStateLocked (fifo_base f) ZX_FIFO_WRITABLE ZX_FIFO_PEER_CLOSED) f.

#[global] Instance fifo_endpoint : Endpoint FifoDispatcher := {|
  ep_base := fifo_base;
  ep_set_base := fifo_set_base;
  ep_peer := fifo_peer_;
  ep_set_peer := fifo_set_peer;
  ep_extra_signals := 0;
  on_zero_handles_locked := fifo_on_zero_handles_locked;
  OnPeerZeroHandlesLocked := fifo_OnPeerZeroHandlesLocked;
|}.

(** [Create]: [mem] answers the five allocations in program order ([AllocChecker]);
    [init0] and [init1] are the (uninitialised) contents of the two data arrays.
    [options] is ignored by the constructor. *)
Definition fifo_Create (count elemsize : Z) (mem : nat -> bool) (koid : Z)
    (init0 init1 : list byte) : zx_status_t * option (Pair FifoDispatcher) :=
  if (count =? 0) || (elemsize =? 0)
     || negb (Z.land count (wrap64 (count - 1)) =? 0)
     || (kMaxSizeBytes <? count) || (kMaxSizeBytes <? elemsize)
     || (kMaxSizeBytes <? wrap64 (count * elemsize))
  then (ZX_ERR_OUT_OF_RANGE, None) else
  if negb (mem 0%nat && mem 1%nat && mem 2%nat && mem 3%nat && mem 4%nat)
  then (ZX_ERR_NO_MEMORY, None) else
  let '(d0, koid) := Dispatcher_new koid ZX_FIFO_WRITABLE in
  let '(d1, _) := Dispatcher_new koid ZX_FIFO_WRITABLE in
  (ZX_OK, Some (mkPair (FifoDispatcher_new d0 (wrap32 count) (wrap32 elemsize) init0)
                       (FifoDispatcher_new d1 (wrap32 count) (wrap32 elemsize) init1))).

(** The copy loop of [WriteSelfLocked], from user offset [pos]: [None] when it has
    not finished after [fuel] iterations, otherwise the final head and data and
    whether every copy succeeded. *)
Fixpoint fifo_write_loop (fuel : nat) (f : FifoDispatcher) (src : user_in_ptr)
    (pos count head : Z) (data : list byte) : option (Z * list byte * bool) :=
  if count <=? 0 then Some (head, data, true) else
  match fuel with
  | O => None
  | S fuel =>
      let offset := Z.land head (mask_ f) in
      let n := wrap32 (elem_count_ f - offset) in
      let to_copy := if n <? count then n else count in
      let '(bytes, ok) := copy_array_from_user src pos (to_copy * elem_size_ f) in
      let data := zsplice (offset * elem_size_ f) bytes data in
      if ok
      then fifo_write_loop fuel f src (pos + to_copy * elem_size_ f) (count - to_copy)
             (wrap32 (head + wrap32 to_copy)) data
      else Some (head, data, false)
  end.

(** [peer_->UpdateStateLocked(clear, set)] on behalf of the endpoint [side]. *)
Definition fifo_update_peer (side : bool) (clear set : Z) (p : Pair FifoDispatcher)
    : Pair FifoDispatcher :=
  upd (negb side) (ep_update_state clear set) p.

(** [WriteSelfLocked] on the endpoint [side] (the reader of the data): the new
    pair, the status and [*actual]. *)
Definition fifo_WriteSelfLocked (side : bool) (p : Pair FifoDispatcher)
    (elem_size : Z) (src : user_in_ptr) (count : Z)
    : option (Pair FifoDispatcher * zx_status_t * Z) :=
  let f := sel side p in
  if negb (elem_size =? elem_size_ f) then Some (p, ZX_ERR_OUT_OF_RANGE, 0) else
  if count =? 0 then Some (p, ZX_ERR_OUT_OF_RANGE, 0) else
  let old_head := head_ f in
  let avail := wrap32 (elem_count_ f - wrap32 (head_ f - tail_ f)) in
  if avail =? 0 then Some (p, ZX_ERR_SHOULD_WAIT, 0) else
  let was_empty := avail =? elem_count_ f in
  let count := if avail <? count then avail else count in
  match fifo_write_loop (Z.to_nat count) f src 0 count (head_ f) (data_ f) with
  | None => None
  | Some (_, data, false) =>
      Some (upd side (fifo_set_head_data old_head data) p, ZX_ERR_INVALID_ARGS, 0)
  | Some (head, data, true) =>
      let p := upd side (fifo_set_head_data head data) p in
      let p := if was_empty then upd side (ep_update_state 0 ZX_FIFO_READABLE) p else p in
      let p := if elem_count_ f =? wrap32 (head - tail_ f)
               then fifo_update_peer side ZX_FIFO_WRITABLE 0 p else p in
      Some (p, ZX_OK, wrap32 (head - old_head))
  end.

(** [WriteFromUser] on the endpoint [side]. *)
Definition fifo_WriteFromUser (side : bool) (p : Pair FifoDispatcher)
    (elem_size : Z) (src : user_in_ptr) (count : Z)
    : option (Pair FifoDispatcher * zx_status_t * Z) :=
  if negb (fifo_peer_ (sel side p)) then Some (p, ZX_ERR_PEER_CLOSED, 0)
  else fifo_WriteSelfLocked (negb side) p elem_size src count.

(** The copy loop of [ReadToUser]: the final tail, the bytes stored in the user
    buffer so far and whether every copy succeeded. *)
Fixpoint fifo_read_loop (fuel : nat) (f : FifoDispatcher) (dst : user_out_ptr)
    (pos count tail : Z) (out : list byte) : option (Z * list byte * bool) :=
  if count <=? 0 then Some (tail, out, true) else
  match fuel with
  | O => None
  | S fuel =>
      let offset := Z.land tail (mask_ f) in
      let n := wrap32 (elem_count_ f - offset) in
      let to_copy := if n <? count then n else count in
      if copy_array_to_user dst pos (to_copy * elem_size_ f)
      then fifo_read_loop fuel f dst (pos + to_copy * elem_size_ f) (count - to_copy)
             (wrap32 (tail + wrap32 to_copy))
             (out ++ zrange (offset * elem_size_ f) (to_copy * elem_size_ f) (data_ f))
      else Some (tail, out, false)
  end.

(** [ReadToUser] on the endpoint [side]: the new pair, the status, [*actual] and the
    bytes delivered. *)
Definition fifo_ReadToUser (side : bool) (p : Pair FifoDispatcher)
    (elem_size : Z) (dst : user_out_ptr) (count : Z)
    : option (Pair FifoDispatcher * zx_status_t * Z * list byte) :=
  let f := sel side p in
  if negb (elem_size =? elem_size_ f) then Some (p, ZX_ERR_OUT_OF_RANGE, 0, []) else
  if count =? 0 then Some (p, ZX_ERR_OUT_OF_RANGE, 0, []) else
  let old_tail := tail_ f in
  let avail := wrap32 (head_ f - tail_ f) in
  if avail =? 0
  then Some (p, if fifo_peer_ f then ZX_ERR_SHOULD_WAIT else ZX_ERR_PEER_CLOSED, 0, []) else
  let was_full := avail =? elem_count_ f in
  let count := if avail <? count then avail else count in
  match fifo_read_loop (Z.to_nat count) f dst 0 count (tail_ f) [] with
  | None => None
  | Some (_, out, false) =>
      Some (upd side (fifo_set_tail old_tail) p, ZX_ERR_INVALID_ARGS, 0, out)
  | Some (tail, out, true) =>
      let p := upd side (fifo_set_tail tail) p in
      let p := if was_full && fifo_peer_ f
               then fifo_update_peer side 0 ZX_FIFO_WRITABLE p else p in
      let p := if wrap32 (head_ f - tail) =? 0
               then upd side (ep_update_state ZX_FIFO_READABLE 0) p else p in
      Some (p, ZX_OK, wrap32 (tail - old_tail), out)
  end.

(** ** Well-formedness and the abstract contents *)

Definition fifo_len (f : FifoDispatcher) : Z := wrap32 (head_ f - tail_ f).

(** The [n] elements of the ring [data] from logical index [tail] on. *)
Definition ring_elems (cap esz : Z) (data : list byte) (tail n : Z) : list (list byte) :=
  map (fun i => zelem esz ((tail + i) mod cap) data) (seqZ 0 n).

(** The queued elements, oldest first. *)
Definition fifo_contents (f : FifoDispatcher) : list (list byte) :=
  ring_elems (elem_count_ f) (elem_size_ f) (data_ f) (tail_ f) (fifo_len f).

Record fifo_wf (cap esz : Z) (f : FifoDispatcher) : Prop := {
  fwf_count : elem_count_ f = cap;
  fwf_size : elem_size_ f = esz;
  fwf_pow2 : exists k, 0 <= k <= 12 /\ cap = 2 ^ k;
  fwf_esz : 0 < esz;
  fwf_bytes : cap * esz <= kMaxSizeBytes;
  fwf_mask : mask_ f = cap - 1;
  fwf_head : 0 <= head_ f < 2 ^ 32;
  fwf_tail : 0 <= tail_ f < 2 ^ 32;
  fwf_len : fifo_len f <= cap;
  fwf_data : zlen (data_ f) = cap * esz;
}.

(** ** Invariant of a pair of endpoints *)

Definition ep_bit (i : Z) (f : FifoDispatcher) : bool := Z.testbit (signals_ (fifo_base f)) i.

(** What an endpoint shows of itself besides the elements of its ring. *)
Record FifoObs := mkObs {
  fo_len : Z;
  fo_linked : bool;
  fo_readable : bool;
  fo_writable : bool;
  fo_closed : bool;
}.

Definition fifo_obs (f : FifoDispatcher) : FifoObs :=
  mkObs (fifo_len f) (fifo_peer_ f) (ep_bit 0 f) (ep_bit 1 f) (ep_bit 2 f).

(** The ring read by [a] and written by [b]: [READABLE] on the reader says that it is
    not empty and, while the endpoints are connected, [WRITABLE] on the writer says that
    it is not full. [PEER_CLOSED] is clear on connected endpoints; an endpoint that has
    it is never [WRITABLE]. *)
Definition ring_ok (cap : Z) (a b : FifoObs) : Prop :=
  fo_readable a = negb (fo_len a =? 0) /\
  (if fo_linked a then fo_writable b = (fo_len a <? cap) /\ fo_closed a = false
   else fo_closed a = true -> fo_writable a = false).

(** Both endpoints agree on being connected, and a broken connection is visible. *)
Definition obs_inv (cap : Z) (a b : FifoObs) : Prop :=
  ring_ok cap a b /\ ring_ok cap b a /\ fo_linked a = fo_linked b /\
  (fo_linked a = false -> fo_closed a = true \/ fo_closed b = true).

Definition fifo_inv2 (cap esz : Z) (f g : FifoDispatcher) : Prop :=
  fifo_wf cap esz f /\ fifo_wf cap esz g /\ obs_inv cap (fifo_obs f) (fifo_obs g).

Definition fifo_inv (cap esz : Z) (p : Pair FifoDispatcher) : Prop :=
  fifo_inv2 cap esz (ep_left p) (ep_right p).

(** ** Abstract specification

    A connected or disconnected pair of bounded queues of elements. *)

Record FifoSpec := mkFifoSpec {
  fs_left : list (list byte);
  fs_right : list (list byte);
  fs_linked : bool;
}.

Definition fs_sel (side : bool) (s : FifoSpec) : list (list byte) :=
  if side then fs_right s else fs_left s.

Definition fs_set (side : bool) (q : list (list byte)) (s : FifoSpec) : FifoSpec :=
  if side then mkFifoSpec (fs_left s) q (fs_linked s) else mkFifoSpec q (fs_right s) (fs_linked s).

Definition fifo_abs (p : Pair FifoDispatcher) : FifoSpec :=
  mkFifoSpec (fifo_contents (ep_left p)) (fifo_contents (ep_right p)) (fifo_peer_ (ep_left p)).

Definition spec_write (cap esz : Z) (side : bool) (s : FifoSpec) (elem_size : Z)
    (src : user_in_ptr) (count : Z) : FifoSpec * zx_status_t * Z :=
  let q := fs_sel (negb side) s in
  let n := Z.min count (cap - zlen q) in
  if negb (fs_linked s) then (s, ZX_ERR_PEER_CLOSED, 0) else
  if negb (elem_size =? esz) || (count =? 0) then (s, ZX_ERR_OUT_OF_RANGE, 0) else
  if zlen q =? cap then (s, ZX_ERR_SHOULD_WAIT, 0) else
  if zlen src <? n * esz then (s, ZX_ERR_INVALID_ARGS, 0) else
  (fs_set (negb side) (q ++ zelems esz n src) s, ZX_OK, n).

Definition spec_read (esz : Z) (side : bool) (s : FifoSpec) (elem_size : Z)
    (dst : user_out_ptr) (count : Z) : FifoSpec * zx_status_t * Z * list byte :=
  let q := fs_sel side s in
  let n := Z.min count (zlen q) in
  if negb (elem_size =? esz) || (count =? 0) then (s, ZX_ERR_OUT_OF_RANGE, 0, []) else
  if zlen q =? 0
  then (s, if fs_linked s then ZX_ERR_SHOULD_WAIT else ZX_ERR_PEER_CLOSED, 0, []) else
  if dst <? n * esz then (s, ZX_ERR_INVALID_ARGS, 0, []) else
  (fs_set side (zdrop n q) s, ZX_OK, n, concat (ztake n q)).

(** The system calls on a fifo pair. [FClose] is the release of the last handle. *)
Inductive FifoOp :=
| FWrite (side : bool) (elem_size : Z) (src : user_in_ptr) (count : Z)
| FRead (side : bool) (elem_size : Z) (dst : user_out_ptr) (count : Z)
| FSignal (side : bool) (clear_mask set_mask : Z)
| FSignalPeer (side : bool) (clear_mask set_mask : Z)
| FClose (side : bool).

(** [size_t count] is not negative. *)
Definition fop_wf (op : FifoOp) : Prop :=
  match op with FWrite _ _ _ count | FRead _ _ _ count => 0 <= count | _ => True end.

(** The status, [*actual] and, for a successful read, the bytes delivered (the user
    buffer is unspecified after a failed one). *)
Definition FifoResult : Type := zx_status_t * Z * list byte.

Definition fifo_step (p : Pair FifoDispatcher) (op : FifoOp)
    : option (Pair FifoDispatcher * FifoResult) :=
  match op with
  | FWrite side esz src count =>
      '(p, st, n) ← fifo_WriteFromUser side p esz src count; Some (p, (st, n, []))
  | FRead side esz dst count =>
      '(p, st, n, out) ← fifo_ReadToUser side p esz dst count;
      Some (p, (st, n, if decide (st = ZX_OK) then out else []))
  | FSignal side c s => let '(p, st) := peered_user_signal_self side c s p in Some (p, (st, 0, []))
  | FSignalPeer side c s => let '(p, st) := peered_user_signal_peer side c s p in Some (p, (st, 0, []))
  | FClose side => Some (peered_on_zero_handles side p, (ZX_OK, 0, []))
  end.

Definition spec_step (cap esz : Z) (s : FifoSpec) (op : FifoOp) : FifoSpec * FifoResult :=
  match op with
  | FWrite side sz src count =>
      let '(s, st, n) := spec_write cap esz side s sz src count in (s, (st, n, []))
  | FRead side sz dst count =>
      let '(s, st, n, out) := spec_read esz side s sz dst count in (s, (st, n, out))
  | FSignal _ c b => (s, (if user_signals_only c b then ZX_OK else ZX_ERR_INVALID_ARGS, 0, []))
  | FSignalPeer _ c b =>
      (s, (if user_signals_only c b
           then if fs_linked s then ZX_OK else ZX_ERR_PEER_CLOSED else ZX_ERR_INVALID_ARGS, 0, []))
  | FClose _ => (mkFifoSpec (fs_left s) (fs_right s) false, (ZX_OK, 0, []))
  end.

Fixpoint fifo_run (p : Pair FifoDispatcher) (ops : list FifoOp)
    : option (Pair FifoDispatcher * list FifoResult) :=
  match ops with
  | [] => Some (p, [])
  | op :: ops =>
      '(p, r) ← fifo_step p op; '(p, rs) ← fifo_run p ops; Some (p, r :: rs)
  end.

Fixpoint spec_run (cap esz : Z) (s : FifoSpec) (ops : list FifoOp) : FifoSpec * list FifoResult :=
  match ops with
  | [] => (s, [])
  | op :: ops =>
      let '(s, r) := spec_step cap esz s op in
      let '(s, rs) := spec_run cap esz s ops in (s, r :: rs)
  end.

Definition has_signal (sig : Z) (f : FifoDispatcher) : bool :=
  negb (Z.land (signals_ (fifo_base f)) sig =? 0).

(** The sizes [Create] accepts. *)
Definition fifo_size_ok (count elemsize : Z) : Prop :=
  (exists k, 0 <= k <= 12 /\ count = 2 ^ k) /\ 0 < elemsize /\ count * elemsize <= kMaxSizeBytes.

(** A concrete pair and a run of it, for the examples below. *)
Definition fifo_example : Pair FifoDispatcher :=
  mkPair (FifoDispatcher_new (mkDispatcher 1024 0 ZX_FIFO_WRITABLE [] []) 4 2 (replicate 8 0))
         (FifoDispatcher_new (mkDispatcher 1025 0 ZX_FIFO_WRITABLE [] []) 4 2 (replicate 8 0)).

Definition fifo_example_ops : list FifoOp :=
  [FWrite false 2 [1;2;3;4;5;6] 3; FRead true 2 100 2; FWrite false 2 [7;8;9;10;11;12] 3;
   FRead true 2 100 9; FClose false; FRead true 2 100 1].

Arguments ep_bit : simpl never.
Arguments fifo_len : simpl never.
Arguments fifo_contents : simpl never.

#[global] Instance fifo_laws : EndpointLaws FifoDispatcher.
Proof. by constructor. Qed.

(** ** The ring buffer *)

Lemma ring_elems_mod cap esz data h h' n :
  h mod cap = h' mod cap -> ring_elems cap esz data h n = ring_elems cap esz data h' n.
Proof. intros H. apply map_ext. intros i. f_equal. by apply mod_eq_add. Qed.

Lemma ring_elems_app cap esz data h n m :
  0 <= n -> 0 <= m ->
  ring_elems cap esz data h (n + m) = ring_elems cap esz data h n ++ ring_elems cap esz data (h + n) m.
Proof.
  intros. unfold ring_elems. rewrite seqZ_app, map_app by done. f_equal.
  rewrite (Z.add_comm 0 n). rewrite <-fmap_add_seqZ.
  change (fmap (Z.add n) ?l) with (map (Z.add n) l). rewrite map_map.
  apply map_ext. intros i. by rewrite Z.add_assoc.
Qed.

Lemma zlen_ring_elems cap esz data h n : 0 <= n -> zlen (ring_elems cap esz data h n) = n.
Proof. intros. unfold ring_elems, zlen. rewrite length_map, length_seqZ. lia. Qed.

Section FifoRing.
Context (cap esz k : Z) (Hk : 0 <= k <= 12) (Hcap : cap = 2 ^ k) (Hesz : 0 < esz).

Lemma cap_pos : 0 < cap.
Proof using Hcap Hk. subst. apply Z.pow_pos_nonneg; lia. Qed.

Lemma cap_small : cap <= 4096.
Proof using Hcap Hk. subst. change 4096 with (2 ^ 12). apply Z.pow_le_mono_r; lia. Qed.

Lemma land_mask h : 0 <= h -> Z.land h (cap - 1) = h mod cap.
Proof using Hcap Hk.
  intros. subst. rewrite <-Z.land_ones by lia. f_equal. rewrite Z.ones_equiv. lia.
Qed.

Lemma wrap32_mod_cap z : wrap32 z mod cap = z mod cap.
Proof using Hcap Hk. subst. apply wrap_mod_pow2. lia. Qed.

(** One iteration copies [to_copy] elements into consecutive slots. *)
Lemma run_slot h t j :
  0 <= j < t -> h mod cap + t <= cap -> (h + j) mod cap = h mod cap + j.
Proof using Hcap Hk.
  intros. pose proof cap_pos. pose proof (Z.mod_pos_bound h cap cap_pos).
  apply mod_unique_pos with (h / cap); [lia|].
  pose proof (Z.div_mod h cap). lia.
Qed.

Lemma back_slot h j t :
  0 <= j < t -> t <= cap -> ((h + j) mod cap - wrap32 (h + t)) mod cap = cap + j - t.
Proof using Hcap Hk.
  intros. rewrite (mod_eq_sub_l _ (h + t)) by apply wrap32_mod_cap.
  rewrite Zminus_mod_idemp_l. apply mod_unique_pos with (-1); lia.
Qed.

(** The slots outside [head, head + count) are those at least [count] ahead of head. *)
Lemma outside_run h t s :
  0 <= s < cap -> 0 <= t -> h mod cap + t <= cap -> t <= (s - h) mod cap ->
  s < h mod cap \/ h mod cap + t <= s.
Proof using Hcap Hk.
  intros Hs Ht Hle Hout. pose proof cap_pos. pose proof (Z.mod_pos_bound h cap cap_pos).
  destruct (decide (s < h mod cap)); [by left|right].
  destruct (decide (h mod cap + t <= s)); [done|]. exfalso.
  assert ((s - h) mod cap = s - h mod cap); [|lia].
  apply mod_unique_pos with (- (h / cap)); [lia|]. pose proof (Z.div_mod h cap). lia.
Qed.

(** What the copy loop of [WriteSelfLocked] establishes: the ring keeps its size, the
    slots it does not own are untouched, it succeeds exactly when the user memory
    holds the whole batch, and then the batch is in the ring in order. *)
Definition write_loop_post (src : user_in_ptr) (count pos head : Z) (data : list byte)
    (head' : Z) (data' : list byte) (ok : bool) : Prop :=
  zlen data' = cap * esz /\
  (forall s, 0 <= s < cap -> count <= (s - head) mod cap ->
     zelem esz s data' = zelem esz s data) /\
  ok = (pos + count * esz <=? zlen src) /\
  (ok = true -> head' = wrap32 (head + count) /\
     forall j, 0 <= j < count ->
       zelem esz ((head + j) mod cap) data' = zrange (pos + j * esz) esz src).

(** A slot [count] or more ahead of [h] is [count - t] or more ahead of [h + t]. *)
Lemma ahead_shift h t count s :
  0 <= t <= count -> count <= (s - h) mod cap -> count - t <= (s - wrap32 (h + t)) mod cap.
Proof using Hcap Hk.
  intros Ht Hout. pose proof cap_pos.
  rewrite (mod_eq_sub_l _ (h + t)) by apply wrap32_mod_cap.
  pose proof (Z.mod_pos_bound (s - h) cap cap_pos).
  assert ((s - (h + t)) mod cap = (s - h) mod cap - t); [|lia].
  apply mod_unique_pos with ((s - h) / cap); [lia|]. pose proof (Z.div_mod (s - h) cap). lia.
Qed.

(** One successful iteration of the loop, followed by the rest. *)
Lemma write_loop_post_step src count pos head data head' data' ok t :
  0 <= pos -> 0 < t <= count -> count <= cap -> head mod cap + t <= cap ->
  pos + t * esz <= zlen src -> zlen data = cap * esz ->
  write_loop_post src (count - t) (pos + t * esz) (wrap32 (head + t))
    (zsplice (head mod cap * esz) (zrange pos (t * esz) src) data) head' data' ok ->
  write_loop_post src count pos head data head' data' ok.
Proof using Hcap Hesz Hk.
  intros Hp Ht Hcnt Hrun Hsrc Hdata (Hl & Hframe & Hok & Hdone).
  pose proof cap_pos as Hpos. pose proof (Z.mod_pos_bound head cap Hpos) as Hoff.
  assert (zlen (zrange pos (t * esz) src) = t * esz) as Hlen by (rewrite zlen_zrange; nia).
  split_and!; [done| | |].
  - intros s Hs Hout. rewrite Hframe by auto using ahead_shift with lia.
    apply zelem_splice_out with t; try lia; try nia. apply outside_run; lia.
  - rewrite Hok. f_equal. lia.
  - intros ->. destruct (Hdone eq_refl) as [-> Hnew]. split; [rewrite wrap_add_l; f_equal; lia|].
    intros j Hj. destruct (decide (j < t)).
    + rewrite Hframe by (apply Z.mod_pos_bound || rewrite back_slot; lia).
      rewrite (run_slot head t) by lia.
      rewrite zelem_splice_in with (k := t) by nia.
      rewrite zelem_zrange by nia. f_equal. lia.
    + specialize (Hnew (j - t) ltac:(lia)).
      rewrite (mod_eq_add _ (head + t)) in Hnew by apply wrap32_mod_cap.
      replace (head + t + (j - t)) with (head + j) in Hnew by lia.
      rewrite Hnew. f_equal. lia.
Qed.

Lemma fifo_write_loop_spec f src fuel :
  elem_count_ f = cap -> elem_size_ f = esz -> mask_ f = cap - 1 ->
  forall pos count head data,
  0 <= pos -> 0 <= head < 2 ^ 32 -> 0 <= count <= cap -> (Z.to_nat count <= fuel)%nat ->
  (count = 0 -> pos <= zlen src) -> zlen data = cap * esz ->
  exists head' data' ok,
    fifo_write_loop fuel f src pos count head data = Some (head', data', ok) /\
    write_loop_post src count pos head data head' data' ok.
Proof using Hcap Hesz Hk.
  intros Ec Es Em. pose proof cap_pos as Hpos. pose proof cap_small as Hsmall.
  assert (forall head data pos, 0 <= head < 2 ^ 32 -> pos <= zlen src ->
    zlen data = cap * esz -> write_loop_post src 0 pos head data head data true)
    as Hbase.
  { intros. unfold write_loop_post. rewrite Z.add_0_r, wrap_small by lia.
    split_and!; try done; [symmetry; apply Z.leb_le|split]; lia. }
  induction fuel as [|fuel IH]; intros pos count head data Hp Hh Hcnt Hfuel Hend Hdata.
  { assert (count = 0) as -> by lia. eauto 10. }
  cbn [fifo_write_loop]. destruct (Z.leb_spec count 0).
  { assert (count = 0) as -> by lia. eauto 10. }
  rewrite Ec, Es, Em, land_mask by lia.
  pose proof (Z.mod_pos_bound head cap Hpos) as Hoff.
  rewrite (wrap_small 32 (cap - head mod cap)) by lia.
  set (t := if cap - head mod cap <? count then cap - head mod cap else count).
  assert (0 < t <= count /\ head mod cap + t <= cap) as [Ht Hrun].
  { unfold t. destruct (Z.ltb_spec (cap - head mod cap) count); lia. }
  clearbody t. destruct (copy_array_from_user src pos (t * esz)) as [bytes ok] eqn:Hcopy.
  destruct ok.
  - apply copy_in_ok in Hcopy as (-> & Hlen & Hsrc); [|nia..].
    rewrite (wrap_small 32 t) by lia.
    destruct (IH (pos + t * esz) (count - t) (wrap32 (head + t))
                 (zsplice (head mod cap * esz) (zrange pos (t * esz) src) data))
      as (head' & data' & ok & -> & Hpost); try lia; try nia.
    { apply wrap_range; lia. }
    { rewrite zlen_zsplice; nia. }
    exists head', data', ok. split; [done|].
    apply write_loop_post_step with t; auto; lia.
  - exists head, (zsplice (head mod cap * esz) bytes data), false. split; [done|].
    pose proof (copy_in_fault src pos (t * esz) _ _ Hp ltac:(nia) Hcopy) as Hb.
    unfold copy_array_from_user in Hcopy. injection Hcopy as Hb' Hf%Z.leb_gt.
    unfold write_loop_post. split_and!; [rewrite zlen_zsplice; nia| | |done].
    + intros s Hs Hout. apply zelem_splice_out with t; try lia; try nia.
      apply outside_run; lia.
    + symmetry. apply Z.leb_gt. nia.
Qed.

(** A run of slots that does not wrap is one run of bytes. *)
Lemma concat_ring_run data h t :
  0 <= t -> h mod cap + t <= cap -> zlen data = cap * esz ->
  concat (ring_elems cap esz data h t) = zrange (h mod cap * esz) (t * esz) data.
Proof using Hcap Hesz Hk.
  intros. pose proof (Z.mod_pos_bound h cap cap_pos).
  unfold zrange. rewrite <-concat_zelems by lia. f_equal. apply map_ext_in.
  intros i Hi%list_elem_of_In%elem_of_seqZ. rewrite (run_slot h t) by lia.
  unfold zelem, zrange. rewrite zdrop_zdrop by nia. do 2 f_equal. lia.
Qed.

Lemma fifo_read_loop_spec f dst fuel :
  elem_count_ f = cap -> elem_size_ f = esz -> mask_ f = cap - 1 ->
  zlen (data_ f) = cap * esz ->
  forall pos count tail out,
  0 <= tail < 2 ^ 32 -> 0 <= count <= cap -> (Z.to_nat count <= fuel)%nat ->
  (count = 0 -> pos <= dst) ->
  exists tail' out' ok,
    fifo_read_loop fuel f dst pos count tail out = Some (tail', out', ok) /\
    ok = (pos + count * esz <=? dst) /\
    (ok = true -> tail' = wrap32 (tail + count) /\
       out' = out ++ concat (ring_elems cap esz (data_ f) tail count)).
Proof using Hcap Hesz Hk.
  intros Ec Es Em Hdata. pose proof cap_pos as Hpos. pose proof cap_small as Hsmall.
  assert (forall tail out pos, 0 <= tail < 2 ^ 32 -> pos <= dst ->
    true = (pos + 0 * esz <=? dst) /\ (true = true -> tail = wrap32 (tail + 0) /\
       out = out ++ concat (ring_elems cap esz (data_ f) tail 0))) as Hbase.
  { intros. rewrite (Z.add_0_r tail), wrap_small by lia. cbn. rewrite app_nil_r.
    split; [symmetry; apply Z.leb_le; lia|done]. }
  induction fuel as [|fuel IH]; intros pos count tail out Ht Hcnt Hfuel Hend.
  { assert (count = 0) as -> by lia. eauto 10. }
  cbn [fifo_read_loop]. destruct (Z.leb_spec count 0).
  { assert (count = 0) as -> by lia. eauto 10. }
  rewrite Ec, Es, Em, land_mask by lia.
  pose proof (Z.mod_pos_bound tail cap Hpos) as Hoff.
  rewrite (wrap_small 32 (cap - tail mod cap)) by lia.
  set (t := if cap - tail mod cap <? count then cap - tail mod cap else count).
  assert (0 < t <= count /\ tail mod cap + t <= cap) as [Hc Hrun].
  { unfold t. destruct (Z.ltb_spec (cap - tail mod cap) count); lia. }
  clearbody t. unfold copy_array_to_user. destruct (Z.leb_spec (pos + t * esz) dst).
  - rewrite (wrap_small 32 t) by lia.
    edestruct (IH (pos + t * esz) (count - t) (wrap32 (tail + t)))
      as (tail' & out' & ok & -> & Hok & Hdone); try lia; [apply wrap_range; lia|].
    exists tail', out', ok. split; [done|]. split; [rewrite Hok; f_equal; lia|].
    intros ->. destruct (Hdone eq_refl) as [-> ->]. rewrite wrap_add_l. split; [f_equal; lia|].
    rewrite <-app_assoc. f_equal. replace count with (t + (count - t)) at 2 by lia.
    rewrite (ring_elems_app _ _ _ tail t), concat_app, (concat_ring_run _ tail t) by lia. do 2 f_equal.
    apply ring_elems_mod, wrap32_mod_cap.
  - exists tail, out, false. split; [done|]. split; [|done]. symmetry. apply Z.leb_gt. nia.
Qed.
End FifoRing.

(** ** One write and one read of a ring *)

Lemma fifo_old_elems cap esz f k data' :
  0 <= k <= 12 -> cap = 2 ^ k -> 0 < esz -> fifo_wf cap esz f ->
  (forall s, 0 <= s < cap -> cap - fifo_len f <= (s - head_ f) mod cap ->
     zelem esz s data' = zelem esz s (data_ f)) ->
  ring_elems cap esz data' (tail_ f) (fifo_len f) = fifo_contents f.
Proof.
  intros Hk Hcap Hesz [] Hframe. unfold fifo_contents. rewrite fwf_count0, fwf_size0.
  pose proof (cap_pos cap k Hk Hcap).
  apply map_ext_in. intros i Hi%list_elem_of_In%elem_of_seqZ. apply Hframe.
  { by apply Z.mod_pos_bound. }
  assert (wrap32 (tail_ f + fifo_len f) = head_ f) as <-.
  { unfold fifo_len. rewrite wrap_add_r. rewrite <-(wrap_small 32 (head_ f)) at 2 by done.
    f_equal. lia. }
  rewrite (back_slot cap k Hk Hcap) by lia. lia.
Qed.

Lemma fifo_len_nonneg f : 0 <= fifo_len f.
Proof. apply wrap_range. lia. Qed.

Lemma fifo_write_ring cap esz f src n :
  fifo_wf cap esz f -> 0 < n <= cap - fifo_len f ->
  exists head data,
    fifo_write_loop (Z.to_nat n) f src 0 n (head_ f) (data_ f) =
      Some (head, data, n * esz <=? zlen src) /\
    let f' h := fifo_set_head_data h data f in
    fifo_wf cap esz (f' (head_ f)) /\ fifo_contents (f' (head_ f)) = fifo_contents f /\
    (n * esz <= zlen src ->
       wrap32 (head - head_ f) = n /\ fifo_wf cap esz (f' head) /\
       fifo_len (f' head) = fifo_len f + n /\
       fifo_contents (f' head) = fifo_contents f ++ zelems esz n src).
Proof.
  intros Hwf Hn. pose proof Hwf as []. destruct fwf_pow3 as (k & Hk & Hcap).
  pose proof (cap_pos cap k Hk Hcap). pose proof (cap_small cap k Hk Hcap).
  pose proof (fifo_len_nonneg f).
  destruct (fifo_write_loop_spec cap esz k Hk Hcap fwf_esz0 f src (Z.to_nat n)
              fwf_count0 fwf_size0 fwf_mask0 0 n (head_ f) (data_ f))
    as (head & data & ok & -> & Hl & Hframe & Hok & Hdone); try lia.
  rewrite Z.add_0_l in Hok. exists head, data. subst ok. split; [done|].
  assert (ring_elems cap esz data (tail_ f) (fifo_len f) = fifo_contents f) as Hold.
  { eapply fifo_old_elems; eauto. intros s Hs ?. apply Hframe; lia. }
  split_and!; [constructor; cbn; eauto|by rewrite <-Hold, <-fwf_count0, <-fwf_size0|].
  intros Hle%Z.leb_le. destruct (Hdone Hle) as [-> Hnew].
  assert (fifo_len (fifo_set_head_data (wrap32 (head_ f + n)) data f) = fifo_len f + n) as Hlen.
  { unfold fifo_len in *. cbn. rewrite wrap_sub_l.
    rewrite <-(wrap_small 32 (wrap32 _ + n)) by lia.
    rewrite wrap_add_l. f_equal. lia. }
  split_and!; [| |done|].
  - rewrite wrap_sub_l, wrap_small; lia.
  - constructor; cbn; try done; [by exists k|apply wrap_range; lia|lia].
  - unfold fifo_contents at 1. rewrite Hlen. cbn. rewrite fwf_count0, fwf_size0.
    rewrite ring_elems_app, Hold by lia. f_equal.
    rewrite (ring_elems_mod _ _ _ _ (head_ f)).
    + apply map_ext_in. intros j Hj%list_elem_of_In%elem_of_seqZ. by rewrite Hnew by lia.
    + rewrite <-(wrap32_mod_cap cap k Hk Hcap). unfold fifo_len. rewrite wrap_add_r.
      rewrite (wrap32_mod_cap cap k Hk Hcap). f_equal. lia.
Qed.

Lemma fifo_read_ring cap esz f dst n :
  fifo_wf cap esz f -> 0 < n <= fifo_len f ->
  exists tail out,
    fifo_read_loop (Z.to_nat n) f dst 0 n (tail_ f) [] = Some (tail, out, n * esz <=? dst) /\
    (n * esz <= dst ->
       wrap32 (tail - tail_ f) = n /\ out = concat (ztake n (fifo_contents f)) /\
       let f' := fifo_set_tail tail f in
       fifo_wf cap esz f' /\ fifo_len f' = fifo_len f - n /\
       fifo_contents f' = zdrop n (fifo_contents f)).
Proof.
  intros Hwf Hn. pose proof Hwf as []. destruct fwf_pow3 as (k & Hk & Hcap).
  pose proof (cap_pos cap k Hk Hcap). pose proof (cap_small cap k Hk Hcap).
  destruct (fifo_read_loop_spec cap esz k Hk Hcap fwf_esz0 f dst (Z.to_nat n)
              fwf_count0 fwf_size0 fwf_mask0 fwf_data0 0 n (tail_ f) [])
    as (tail & out & ok & -> & Hok & Hdone); try lia.
  rewrite Z.add_0_l in Hok. exists tail, out. subst ok. split; [done|].
  intros Hle%Z.leb_le. destruct (Hdone Hle) as [-> ->]. clear Hdone.
  assert (fifo_len (fifo_set_tail (wrap32 (tail_ f + n)) f) = fifo_len f - n) as Hlen.
  { unfold fifo_len in *. cbn. rewrite wrap_sub_r.
    pose proof (wrap_range 32 (head_ f - tail_ f) ltac:(lia)).
    rewrite <-(wrap_small 32 (wrap32 _ - n)) by lia. rewrite wrap_sub_l. f_equal. lia. }
  assert (fifo_contents f = ring_elems cap esz (data_ f) (tail_ f) n ++
            ring_elems cap esz (data_ f) (tail_ f + n) (fifo_len f - n)) as Hsplit.
  { rewrite <-ring_elems_app by lia. unfold fifo_contents. rewrite fwf_count0, fwf_size0.
    f_equal. lia. }
  pose proof (zlen_ring_elems cap esz (data_ f) (tail_ f) n ltac:(lia)) as Hl.
  cbn zeta. rewrite Hsplit. split_and!.
  - rewrite wrap_sub_l, wrap_small; lia.
  - by rewrite ztake_app_exact.
  - constructor; cbn; eauto; [apply wrap_range|]; lia.
  - done.
  - rewrite zdrop_app_exact by done. unfold fifo_contents at 1. rewrite Hlen. cbn.
    rewrite fwf_count0, fwf_size0. by apply ring_elems_mod, (wrap32_mod_cap cap k Hk Hcap).
Qed.

Lemma zlen_fifo_contents f : zlen (fifo_contents f) = fifo_len f.
Proof. apply zlen_ring_elems, fifo_len_nonneg. Qed.

Lemma fifo_wf_base cap esz d f : fifo_wf cap esz f -> fifo_wf cap esz (fifo_set_base d f).
Proof. intros []. by constructor. Qed.

Lemma fifo_wf_peer cap esz b f : fifo_wf cap esz f -> fifo_wf cap esz (fifo_set_peer b f).
Proof. intros []. by constructor. Qed.

#[export] Hint Resolve fifo_wf_base fifo_wf_peer : zx.

(** ** The invariant, seen from either side *)

Lemma ep_bit_update i c s f :
  0 <= i -> ep_bit i (ep_update_state c s f) = (ep_bit i f && negb (Z.testbit c i)) || Z.testbit s i.
Proof. apply UpdateStateLocked_bit. Qed.

Lemma fifo_inv2_sym cap esz f g : fifo_inv2 cap esz f g -> fifo_inv2 cap esz g f.
Proof.
  intros (?&?&?&?&E&?). unfold fifo_inv2, obs_inv. rewrite E in *. split_and!; tauto.
Qed.

Lemma fifo_inv_sel side cap esz p :
  fifo_inv cap esz p <-> fifo_inv2 cap esz (sel side p) (sel (negb side) p).
Proof. destruct side; [split; apply fifo_inv2_sym|done]. Qed.

Lemma fifo_abs_sel side p : fs_sel side (fifo_abs p) = fifo_contents (sel side p).
Proof. by destruct side. Qed.

(** Two pairs with the same abstraction, described through one side. *)
Lemma fifo_abs_set side p p' q :
  fifo_contents (sel side p') = q -> fifo_contents (sel (negb side) p') = fifo_contents (sel (negb side) p) ->
  fifo_peer_ (ep_left p') = fifo_peer_ (ep_left p) ->
  fs_set side q (fifo_abs p) = fifo_abs p'.
Proof. destruct side; unfold fifo_abs, fs_set; cbn; by intros -> -> ->. Qed.

(** A signal update, on what the endpoint shows. *)
Definition obs_update (c s : Z) (o : FifoObs) : FifoObs :=
  let bit i b := (b && negb (Z.testbit c i)) || Z.testbit s i in
  mkObs (fo_len o) (fo_linked o) (bit 0 (fo_readable o)) (bit 1 (fo_writable o))
    (bit 2 (fo_closed o)).

Lemma fifo_obs_update c s f : fifo_obs (ep_update_state c s f) = obs_update c s (fifo_obs f).
Proof. unfold fifo_obs. by rewrite !ep_bit_update by lia. Qed.

Lemma fifo_wf_update cap esz c s f :
  fifo_wf cap esz f -> fifo_wf cap esz (ep_update_state c s f).
Proof. apply fifo_wf_base. Qed.

#[export] Hint Resolve fifo_wf_update : zx.

(** Evaluate [obs_update] at constant masks. *)
Ltac obs_eval :=
  unfold obs_update; cbn;
  rewrite ?andb_true_r, ?andb_false_r, ?orb_false_r, ?orb_true_r.

(** Close the obligations of [obs_inv] from the equations of the two observations. *)
Ltac obs_inv_tac :=
  unfold obs_inv, ring_ok in *; cbn in *; split_and!; try done; try congruence;
  try (symmetry; first [apply negb_true_iff, Z.eqb_neq | apply Z.ltb_lt | apply Z.ltb_ge]; lia).

Lemma fifo_inv2_write cap esz f f' g n :
  fifo_inv2 cap esz f g -> fifo_peer_ f = true -> 0 < n -> fifo_len f + n <= cap ->
  fifo_wf cap esz f' ->
  fifo_obs f' = mkObs (fifo_len f + n) true (ep_bit 0 f) (ep_bit 1 f) (ep_bit 2 f) ->
  fifo_inv2 cap esz
    (if fifo_len f =? 0 then ep_update_state 0 ZX_FIFO_READABLE f' else f')
    (if cap =? fifo_len f + n then ep_update_state ZX_FIFO_WRITABLE 0 g else g).
Proof.
  intros (_ & Hwg & (Hrf & Hf) & (Hrg & Hg) & Hpeer & _) Hlink Hn Hcap Hwf Hobs.
  pose proof (fifo_len_nonneg f). cbn in Hrf, Hf, Hrg, Hg, Hpeer.
  rewrite <-Hpeer, Hlink in *. destruct Hf as [Hwr Hcf], Hg as [Hwr' Hcg].
  split; [case_if; auto with zx|split; [case_if; auto with zx|]].
  assert (fifo_obs (if fifo_len f =? 0 then ep_update_state 0 ZX_FIFO_READABLE f' else f') =
    mkObs (fifo_len f + n) true true (ep_bit 1 f) false) as ->.
  { destruct (_ =? 0) eqn:E; rewrite ?fifo_obs_update, Hobs; obs_eval; by rewrite ?Hcf, ?Hrf. }
  assert (fifo_obs (if cap =? fifo_len f + n then ep_update_state ZX_FIFO_WRITABLE 0 g else g) =
    mkObs (fifo_len g) true (ep_bit 0 g) (fifo_len f + n <? cap) false) as ->.
  { destruct (Z.eqb_spec cap (fifo_len f + n)); rewrite ?fifo_obs_update; obs_eval;
      unfold fifo_obs; rewrite ?Hcg, <-Hpeer; f_equal.
    - symmetry. apply Z.ltb_ge. lia.
    - rewrite Hwr. lia. }
  obs_inv_tac.
Qed.

Lemma fifo_inv2_read cap esz f f' g n :
  fifo_inv2 cap esz f g -> 0 < n <= fifo_len f -> fifo_wf cap esz f' ->
  fifo_obs f' = mkObs (fifo_len f - n) (fifo_peer_ f) (ep_bit 0 f) (ep_bit 1 f) (ep_bit 2 f) ->
  fifo_inv2 cap esz
    (if fifo_len f - n =? 0 then ep_update_state ZX_FIFO_READABLE 0 f' else f')
    (if (fifo_len f =? cap) && fifo_peer_ f then ep_update_state 0 ZX_FIFO_WRITABLE g else g).
Proof.
  intros (Hwff & Hwg & (Hrf & Hf) & (Hrg & Hg) & Hpeer & Hc) Hn Hwf Hobs.
  pose proof (fwf_len _ _ _ Hwff). cbn in Hrf, Hf, Hrg, Hg, Hpeer, Hc.
  split; [case_if; auto with zx|split; [case_if; auto with zx|]].
  assert (fifo_obs (if fifo_len f - n =? 0 then ep_update_state ZX_FIFO_READABLE 0 f' else f') =
    mkObs (fifo_len f - n) (fifo_peer_ f) (negb (fifo_len f - n =? 0)) (ep_bit 1 f) (ep_bit 2 f)) as ->.
  { destruct (_ - n =? 0) eqn:E; rewrite ?fifo_obs_update, Hobs; obs_eval; [done|].
    rewrite Hrf. do 2 f_equal. lia. }
  destruct (fifo_peer_ f) eqn:Hlink; rewrite <-Hpeer in *; rewrite ?andb_true_r, ?andb_false_r.
  - assert (fifo_obs (if fifo_len f =? cap then ep_update_state 0 ZX_FIFO_WRITABLE g else g) =
      mkObs (fifo_len g) true (ep_bit 0 g) true (ep_bit 2 g)) as ->; [|obs_inv_tac; tauto].
    destruct (Z.eqb_spec (fifo_len f) cap); rewrite ?fifo_obs_update; obs_eval;
      unfold fifo_obs; rewrite <-?Hpeer; [done|]. f_equal. destruct Hf as [-> _]. lia.
  - unfold obs_inv, ring_ok. cbn. rewrite <-Hpeer. split_and!; tauto.
Qed.

(** User signals never touch what an endpoint shows. *)
Lemma fifo_obs_user c s f :
  user_signals_only c s = true -> fifo_obs (ep_update_state c s f) = fifo_obs f.
Proof.
  intros [Hs%Z.eqb_eq Hc%Z.eqb_eq]%andb_true_iff. rewrite fifo_obs_update. unfold obs_update.
  rewrite !(user_mask_low c), !(user_mask_low s) by done. cbn.
  by rewrite ?andb_true_r, ?orb_false_r.
Qed.

Lemma fifo_inv2_user cap esz c s f g :
  user_signals_only c s = true -> fifo_inv2 cap esz f g ->
  fifo_inv2 cap esz (ep_update_state c s f) g.
Proof.
  intros H (?&?&?). unfold fifo_inv2. rewrite fifo_obs_user by done. auto with zx.
Qed.

Lemma fifo_obs_peer b f :
  fifo_obs (fifo_set_peer b f) = mkObs (fifo_len f) b (ep_bit 0 f) (ep_bit 1 f) (ep_bit 2 f).
Proof. done. Qed.

Lemma fifo_inv2_close cap esz f g :
  fifo_inv2 cap esz f g ->
  fifo_inv2 cap esz (fifo_set_peer false f)
    (if fifo_peer_ f then fifo_OnPeerZeroHandlesLocked (fifo_set_peer false g) else g).
Proof.
  intros (Hwff & Hwg & (Hrf & Hf) & (Hrg & Hg) & Hpeer & Hc).
  cbn in Hrf, Hf, Hrg, Hg, Hpeer, Hc.
  split; [auto with zx|split; [case_if; [apply fifo_wf_base|]; auto with zx|]].
  destruct (fifo_peer_ f) eqn:Hlink.
  - change (fifo_OnPeerZeroHandlesLocked ?e) with
      (ep_update_state ZX_FIFO_WRITABLE ZX_FIFO_PEER_CLOSED e).
    rewrite fifo_obs_update, !fifo_obs_peer. unfold obs_inv, ring_ok. obs_eval.
    split_and!; try tauto. intros. destruct Hf. congruence.
  - rewrite !fifo_obs_peer. unfold obs_inv, ring_ok. cbn. rewrite <-Hpeer in *.
    split_and!; tauto.
Qed.

Lemma fifo_linked_sel side cap esz p :
  fifo_inv cap esz p -> fifo_peer_ (sel side p) = fs_linked (fifo_abs p).
Proof. intros (_ & _ & _ & _ & E & _). destruct side; [by symmetry|done]. Qed.

(** ** The operations implement the specification *)

Lemma cap_bounds cap esz f : fifo_wf cap esz f -> 0 < cap <= 4096.
Proof. intros []. destruct fwf_pow3 as (k & ? & ?). eauto using cap_pos, cap_small. Qed.

(** The endpoints after the two conditional signal updates that end a transfer. *)
Lemma sel_publish r p (h u v : FifoDispatcher -> FifoDispatcher) (b1 b2 : bool) :
  let p1 := upd r h p in
  let p2 := if b1 then upd r u p1 else p1 in
  let p3 := if b2 then upd (negb r) v p2 else p2 in
  sel r p3 = (if b1 then u (h (sel r p)) else h (sel r p)) /\
  sel (negb r) p3 = (if b2 then v (sel (negb r) p) else sel (negb r) p).
Proof. by destruct r, b1, b2. Qed.

Lemma sel_publish' r p (h u v : FifoDispatcher -> FifoDispatcher) (b1 b2 : bool) :
  let p1 := upd r h p in
  let p2 := if b2 then upd (negb r) v p1 else p1 in
  let p3 := if b1 then upd r u p2 else p2 in
  sel r p3 = (if b1 then u (h (sel r p)) else h (sel r p)) /\
  sel (negb r) p3 = (if b2 then v (sel (negb r) p) else sel (negb r) p).
Proof. by destruct r, b1, b2. Qed.

Lemma fifo_abs_same r p p' :
  fifo_contents (sel r p') = fifo_contents (sel r p) ->
  fifo_contents (sel (negb r) p') = fifo_contents (sel (negb r) p) ->
  fifo_peer_ (ep_left p') = fifo_peer_ (ep_left p) -> fifo_abs p' = fifo_abs p.
Proof. destruct r; unfold fifo_abs; cbn; by intros -> -> ->. Qed.

(** [WriteSelfLocked] on the reading endpoint [r], past its guards. *)
Lemma fifo_write_locked cap esz r p src count :
  fifo_inv cap esz p -> fs_linked (fifo_abs p) = true -> 0 < count ->
  fifo_len (sel r p) < cap ->
  let n := Z.min count (cap - fifo_len (sel r p)) in
  exists p', fifo_inv cap esz p' /\
    fifo_WriteSelfLocked r p esz src count =
      Some (p', if n * esz <=? zlen src then ZX_OK else ZX_ERR_INVALID_ARGS,
            if n * esz <=? zlen src then n else 0) /\
    fifo_abs p' = if n * esz <=? zlen src
                  then fs_set r (fifo_contents (sel r p) ++ zelems esz n src) (fifo_abs p)
                  else fifo_abs p.
Proof.
  intros Hinv Hlink Hc Hlen n. unfold fifo_WriteSelfLocked.
  pose proof (fifo_linked_sel r _ _ _ Hinv) as Hpf. rewrite Hlink in Hpf.
  pose proof (proj1 (fifo_inv_sel r cap esz p) Hinv) as Hinv2. pose proof Hinv2 as (Hwf & _).
  pose proof (cap_bounds _ _ _ Hwf). pose proof (fifo_len_nonneg (sel r p)).
  rewrite (fwf_count _ _ _ Hwf), (fwf_size _ _ _ Hwf), Z.eqb_refl. cbn [negb].
  destruct (Z.eqb_spec count 0); [lia|]. fold (fifo_len (sel r p)).
  rewrite (wrap_small 32 (cap - _)) by lia. destruct (Z.eqb_spec (cap - fifo_len (sel r p)) 0); [lia|].
  replace (if _ <? count then _ else count) with n by (unfold n; case_if; lia).
  assert (0 < n <= cap - fifo_len (sel r p)) as Hn by lia. clearbody n.
  destruct (fifo_write_ring cap esz (sel r p) src n Hwf Hn)
    as (head & data & -> & Hwf0 & Hsame & Hdone). cbn zeta in *.
  destruct (Z.leb_spec (n * esz) (zlen src)) as [Hle|_].
  - destruct (Hdone Hle) as (-> & Hwf1 & Hlen1 & Hcont).
    change (wrap32 (head - tail_ (sel r p))) with (fifo_len (fifo_set_head_data head data (sel r p))).
    rewrite Hlen1. unfold fifo_update_peer. eexists. split; [|split; [reflexivity|]].
    + apply (fifo_inv_sel r).
      edestruct (sel_publish r p (fifo_set_head_data head data)) as [-> ->].
      replace (cap - fifo_len (sel r p) =? cap) with (fifo_len (sel r p) =? 0) by lia.
      apply fifo_inv2_write; try done; [lia..|]. unfold fifo_obs.
      rewrite Hlen1. cbn [fifo_peer_ fifo_set_head_data]. by rewrite Hpf.
    + symmetry. apply fifo_abs_set.
      * edestruct (sel_publish r p (fifo_set_head_data head data)) as [-> _]. by case_if.
      * edestruct (sel_publish r p (fifo_set_head_data head data)) as [_ ->]. by case_if.
      * by destruct r; repeat case_if.
  - eexists. split; [|split; [reflexivity|]].
    + apply (fifo_inv_sel r). rewrite sel_upd_same, sel_upd_other'. by destruct Hinv2 as (_ & ? & ?).
    + apply (fifo_abs_same r); by rewrite ?sel_upd_same, ?sel_upd_other' || destruct r.
Qed.

(** [ReadToUser] on the endpoint [r], past its guards. *)
Lemma fifo_read_locked cap esz r p dst count :
  fifo_inv cap esz p -> 0 < count -> 0 < fifo_len (sel r p) ->
  let n := Z.min count (fifo_len (sel r p)) in
  exists p' out, fifo_inv cap esz p' /\
    fifo_ReadToUser r p esz dst count =
      Some (p', if n * esz <=? dst then ZX_OK else ZX_ERR_INVALID_ARGS,
            if n * esz <=? dst then n else 0, out) /\
    (n * esz <= dst -> out = concat (ztake n (fifo_contents (sel r p)))) /\
    fifo_abs p' = if n * esz <=? dst
                  then fs_set r (zdrop n (fifo_contents (sel r p))) (fifo_abs p)
                  else fifo_abs p.
Proof.
  intros Hinv Hc Hlen n. unfold fifo_ReadToUser.
  pose proof (proj1 (fifo_inv_sel r cap esz p) Hinv) as Hinv2. pose proof Hinv2 as (Hwf & _).
  pose proof (cap_bounds _ _ _ Hwf). pose proof (fwf_len _ _ _ Hwf).
  rewrite (fwf_count _ _ _ Hwf), (fwf_size _ _ _ Hwf), Z.eqb_refl. cbn [negb].
  destruct (Z.eqb_spec count 0); [lia|]. fold (fifo_len (sel r p)).
  destruct (Z.eqb_spec (fifo_len (sel r p)) 0); [lia|].
  replace (if _ <? count then _ else count) with n by (unfold n; case_if; lia).
  assert (0 < n <= fifo_len (sel r p)) as Hn by lia. clearbody n.
  destruct (fifo_read_ring cap esz (sel r p) dst n Hwf Hn) as (tail & out & -> & Hdone).
  destruct (Z.leb_spec (n * esz) dst) as [Hle|].
  - destruct (Hdone Hle) as (-> & -> & Hwf1 & Hlen1 & Hcont).
    change (wrap32 (head_ (sel r p) - tail)) with (fifo_len (fifo_set_tail tail (sel r p))).
    rewrite Hlen1. unfold fifo_update_peer.
    eexists _, _. split; [|split; [reflexivity|split; [done|]]].
    + apply (fifo_inv_sel r). edestruct (sel_publish' r p (fifo_set_tail tail)) as [-> ->].
      apply fifo_inv2_read; try done. unfold fifo_obs. by rewrite Hlen1.
    + symmetry. apply fifo_abs_set.
      * edestruct (sel_publish' r p (fifo_set_tail tail)) as [-> _]. by case_if.
      * edestruct (sel_publish' r p (fifo_set_tail tail)) as [_ ->]. by case_if.
      * by destruct r; repeat case_if.
  - eexists _, _. split; [|split; [reflexivity|split; [lia|]]].
    + apply (fifo_inv_sel r). rewrite sel_upd_same, sel_upd_other'.
      by destruct (sel r p), Hinv2 as (? & ? & ?).
    + apply (fifo_abs_same r); by rewrite ?sel_upd_same, ?sel_upd_other' || destruct r.
Qed.

(** A call that fails with the pair unchanged. *)
Ltac fifo_refused :=
  repeat (lazymatch goal with |- exists _, _ => eexists end);
  split; [reflexivity|split; [done|reflexivity]].

Lemma fifo_write_step cap esz side p sz src count :
  fifo_inv cap esz p -> 0 <= count ->
  exists p' st n,
    fifo_WriteFromUser side p sz src count = Some (p', st, n) /\ fifo_inv cap esz p' /\
    spec_write cap esz side (fifo_abs p) sz src count = (fifo_abs p', st, n).
Proof.
  intros Hinv Hc. unfold fifo_WriteFromUser, spec_write.
  rewrite (fifo_linked_sel side cap esz) by done. rewrite fifo_abs_sel, zlen_fifo_contents.
  destruct (fs_linked (fifo_abs p)) eqn:Hlink; cbn [negb]; [|fifo_refused].
  pose proof (proj1 (fifo_inv_sel (negb side) cap esz p) Hinv) as (Hwf & _).
  destruct (Z.eqb_spec sz esz) as [->|]; cbn [negb orb].
  2: { unfold fifo_WriteSelfLocked. rewrite (fwf_size _ _ _ Hwf).
       destruct (Z.eqb_spec sz esz); [done|]. fifo_refused. }
  destruct (Z.eqb_spec count 0).
  { unfold fifo_WriteSelfLocked. rewrite (fwf_size _ _ _ Hwf), Z.eqb_refl. subst.
    fifo_refused. }
  pose proof (fwf_len _ _ _ Hwf). destruct (Z.eqb_spec (fifo_len (sel (negb side) p)) cap) as [E|].
  { unfold fifo_WriteSelfLocked. rewrite (fwf_size _ _ _ Hwf), (fwf_count _ _ _ Hwf), Z.eqb_refl.
    fold (fifo_len (sel (negb side) p)). rewrite E, Z.sub_diag.
    destruct (Z.eqb_spec count 0); [done|]. fifo_refused. }
  destruct (fifo_write_locked cap esz (negb side) p src count) as (p' & Hinv' & -> & Habs);
    try done; [lia..|].
  eexists _, _, _. split; [done|split; [done|]]. rewrite Habs, Z.ltb_antisym.
  by destruct (_ * esz <=? zlen src).
Qed.

Lemma fifo_read_step cap esz side p sz dst count :
  fifo_inv cap esz p -> 0 <= count ->
  exists p' st n out,
    fifo_ReadToUser side p sz dst count = Some (p', st, n, out) /\ fifo_inv cap esz p' /\
    spec_read esz side (fifo_abs p) sz dst count =
      (fifo_abs p', st, n, if decide (st = ZX_OK) then out else []).
Proof.
  intros Hinv Hc. unfold spec_read. rewrite fifo_abs_sel, zlen_fifo_contents.
  pose proof (proj1 (fifo_inv_sel side cap esz p) Hinv) as (Hwf & _).
  destruct (Z.eqb_spec sz esz) as [->|]; cbn [negb orb].
  2: { unfold fifo_ReadToUser. rewrite (fwf_size _ _ _ Hwf).
       destruct (Z.eqb_spec sz esz); [done|]. fifo_refused. }
  destruct (Z.eqb_spec count 0).
  { unfold fifo_ReadToUser. rewrite (fwf_size _ _ _ Hwf), Z.eqb_refl. subst.
    fifo_refused. }
  pose proof (fifo_len_nonneg (sel side p)). destruct (Z.eqb_spec (fifo_len (sel side p)) 0) as [E|].
  { unfold fifo_ReadToUser. rewrite (fwf_size _ _ _ Hwf), Z.eqb_refl.
    fold (fifo_len (sel side p)). rewrite E, (fifo_linked_sel side cap esz) by done.
    destruct (Z.eqb_spec count 0); [done|]. eexists _, _, _, _. split; [done|split; [done|]].
    by repeat case_if. }
  destruct (fifo_read_locked cap esz side p dst count) as (p' & out & Hinv' & -> & Hout & Habs);
    try done; [lia..|].
  eexists _, _, _, _. split; [done|split; [done|]]. rewrite Habs, Z.ltb_antisym.
  destruct (Z.leb_spec (Z.min count (fifo_len (sel side p)) * esz) dst); cbn; [|done].
  by rewrite Hout.
Qed.

Lemma fifo_signal_inv cap esz r c s p :
  fifo_inv cap esz p -> user_signals_only c s = true ->
  fifo_inv cap esz (upd r (ep_update_state c s) p) /\
  fifo_abs (upd r (ep_update_state c s) p) = fifo_abs p.
Proof.
  intros Hinv Hu. split; [|by destruct r].
  apply (fifo_inv_sel r). rewrite sel_upd_same, sel_upd_other'.
  apply fifo_inv2_user; [done|]. by apply (fifo_inv_sel r).
Qed.

Lemma fifo_close_step cap esz r p :
  fifo_inv cap esz p ->
  fifo_inv cap esz (peered_on_zero_handles r p) /\
  fifo_abs (peered_on_zero_handles r p) =
    mkFifoSpec (fs_left (fifo_abs p)) (fs_right (fifo_abs p)) false.
Proof.
  intros Hinv. pose proof (proj1 (fifo_inv_sel r cap esz p) Hinv) as Hinv2.
  pose proof (fifo_linked_sel r _ _ _ Hinv) as Hl. pose proof (fifo_linked_sel (negb r) _ _ _ Hinv) as Hl'.
  unfold peered_on_zero_handles. change (ep_peer (sel r p)) with (fifo_peer_ (sel r p)).
  split.
  - apply (fifo_inv_sel r). apply fifo_inv2_close in Hinv2.
    destruct (fifo_peer_ (sel r p)); autorewrite with zx; done.
  - rewrite Hl. destruct (fs_linked (fifo_abs p)) eqn:E; destruct r; unfold fifo_abs in *; cbn in *.
    all: by f_equal.
Qed.

Lemma fifo_step_spec cap esz p op :
  fifo_inv cap esz p -> fop_wf op ->
  exists p' r, fifo_step p op = Some (p', r) /\ fifo_inv cap esz p' /\
    spec_step cap esz (fifo_abs p) op = (fifo_abs p', r).
Proof.
  intros Hinv Hop.
  destruct op as [side sz src n|side sz dst n|side c s|side c s|side]; cbn [fifo_step spec_step].
  - destruct (fifo_write_step cap esz side p sz src n) as (p' & st & m & -> & ? & ->); [done..|].
    cbn. eauto.
  - destruct (fifo_read_step cap esz side p sz dst n) as (p' & st & m & out & -> & ? & ->); [done..|].
    cbn. eauto.
  - unfold peered_user_signal_self. rewrite user_allowed.
    destruct (user_signals_only c s) eqn:Hu; cbn [negb]; [|by eauto].
    destruct (fifo_signal_inv cap esz side c s p) as [? <-]; eauto.
  - unfold peered_user_signal_peer. rewrite user_allowed.
    destruct (user_signals_only c s) eqn:Hu; cbn [negb]; [|by eauto].
    change (ep_peer (sel side p)) with (fifo_peer_ (sel side p)).
    rewrite (fifo_linked_sel side cap esz) by done.
    destruct (fs_linked (fifo_abs p)) eqn:El; cbn [negb]; [|by eauto].
    destruct (fifo_signal_inv cap esz (negb side) c s p) as [? <-]; eauto.
  - destruct (fifo_close_step cap esz side p Hinv) as [? <-]. eauto.
Qed.

Lemma fifo_run_spec cap esz ops :
  Forall fop_wf ops -> forall p, fifo_inv cap esz p ->
  exists p' rs, fifo_run p ops = Some (p', rs) /\ fifo_inv cap esz p' /\
    spec_run cap esz (fifo_abs p) ops = (fifo_abs p', rs).
Proof.
  induction 1 as [|op ops Hop _ IH]; intros p Hinv; cbn [fifo_run spec_run]; [by eauto|].
  destruct (fifo_step_spec cap esz p op Hinv Hop) as (p1 & r & -> & Hinv1 & ->). cbn.
  destruct (IH p1 Hinv1) as (p2 & rs & -> & Hinv2 & ->). cbn. eauto.
Qed.

(** ** Creation *)

Lemma pow2_land k : 0 <= k <= 12 -> Z.land (2 ^ k) (2 ^ k - 1) = 0.
Proof.
  intros. replace (2 ^ k - 1) with (Z.ones k) by (rewrite Z.ones_equiv; lia).
  rewrite Z.land_ones by lia. apply Z_mod_same_full.
Qed.

Lemma fifo_Create_guard count elemsize :
  0 <= count < 2 ^ 64 -> 0 <= elemsize < 2 ^ 64 ->
  (count =? 0) || (elemsize =? 0) || negb (Z.land count (wrap64 (count - 1)) =? 0)
  || (kMaxSizeBytes <? count) || (kMaxSizeBytes <? elemsize)
  || (kMaxSizeBytes <? wrap64 (count * elemsize)) = false <-> fifo_size_ok count elemsize.
Proof.
  intros Hc He. unfold fifo_size_ok, kMaxSizeBytes. rewrite !orb_false_iff, negb_false_iff.
  rewrite !Z.eqb_neq, !Z.ltb_ge, Z.eqb_eq. split.
  - intros (((((? & ?) & Hland) & ?) & ?) & Hprod). rewrite wrap_small in Hland by lia.
    rewrite wrap_small in Hprod by nia. apply land_pred_pow2 in Hland; [|lia].
    split; [|lia]. exists (Z.log2 count). split; [|done].
    split; [apply Z.log2_nonneg|]. change 12 with (Z.log2 4096). apply Z.log2_le_mono. lia.
  - intros ((k & Hk & ->) & Hs & Hp). pose proof (cap_pos _ k Hk eq_refl).
    pose proof (cap_small _ k Hk eq_refl). assert (elemsize <= 2 ^ k * elemsize) by nia.
    rewrite (wrap_small 64 (_ - 1)), pow2_land, wrap_small by nia. split_and!; lia.
Qed.

Lemma fifo_new_wf cap esz d data :
  fifo_size_ok cap esz -> zlen data = cap * esz ->
  fifo_wf cap esz (FifoDispatcher_new d cap esz data).
Proof.
  intros (Hk & ? & ?) ?. pose proof Hk as (k & ? & ?).
  pose proof (cap_pos cap k ltac:(done) ltac:(done)). pose proof (cap_small cap k ltac:(done) ltac:(done)).
  constructor; try done; cbn; [apply wrap_small; lia|]. change (fifo_len _) with 0. lia.
Qed.

Lemma fifo_Create_inv count elemsize mem koid init0 init1 p :
  0 <= count < 2 ^ 64 -> 0 <= elemsize < 2 ^ 64 ->
  zlen init0 = count * elemsize -> zlen init1 = count * elemsize ->
  fifo_Create count elemsize mem koid init0 init1 = (ZX_OK, Some p) ->
  fifo_inv count elemsize p /\ fifo_abs p = mkFifoSpec [] [] true.
Proof.
  intros Hc He H0 H1. unfold fifo_Create. case_if; [done|].
  apply fifo_Create_guard in E as Hok; [|done..]. case_if; [done|].
  cbn. intros [= <-]. pose proof Hok as ((k & Hk & Hp) & ? & ?).
  pose proof (cap_pos _ _ Hk Hp). pose proof (cap_small _ _ Hk Hp). unfold kMaxSizeBytes in *.
  rewrite !(wrap_small 32) by nia. split; [|done].
  split; [by apply fifo_new_wf|split; [by apply fifo_new_wf|]].
  assert (forall d data, fifo_obs (FifoDispatcher_new (Dispatcher_new d ZX_FIFO_WRITABLE).1
    count elemsize data) = mkObs 0 true false true false) as Hobs by done.
  cbn in Hobs. cbn [ep_left ep_right]. rewrite !Hobs. unfold obs_inv, ring_ok. cbn. split_and!; try done; lia.
Qed.

(** The signals of one endpoint, against the queues. *)
Definition fifo_signals_ok count p' side : Prop :=
  let q s := fs_sel s (fifo_abs p') in
  zlen (q side) <= count /\
  has_signal ZX_FIFO_READABLE (sel side p') = negb (zlen (q side) =? 0) /\
  (fs_linked (fifo_abs p') = true ->
     has_signal ZX_FIFO_WRITABLE (sel side p') = (zlen (q (negb side)) <? count) /\
     has_signal ZX_FIFO_PEER_CLOSED (sel side p') = false) /\
  (fs_linked (fifo_abs p') = false ->
     (has_signal ZX_FIFO_PEER_CLOSED (sel side p') = true ->
      has_signal ZX_FIFO_WRITABLE (sel side p') = false) /\
     (has_signal ZX_FIFO_PEER_CLOSED (sel side p') = true \/
      has_signal ZX_FIFO_PEER_CLOSED (sel (negb side) p') = true)).

Lemma fifo_signals_exact count elemsize mem koid init0 init1 p ops p' rs side :
  0 <= count < 2 ^ 64 -> 0 <= elemsize < 2 ^ 64 ->
  zlen init0 = count * elemsize -> zlen init1 = count * elemsize ->
  fifo_Create count elemsize mem koid init0 init1 = (ZX_OK, Some p) ->
  Forall fop_wf ops -> fifo_run p ops = Some (p', rs) -> fifo_signals_ok count p' side.
Proof.
  cbv beta delta [fifo_signals_ok]. intros Hc He H0 H1 Hcr Hops Hrun q.
  destruct (fifo_Create_inv _ _ _ _ _ _ _ Hc He H0 H1 Hcr) as [Hinv _].
  destruct (fifo_run_spec count elemsize ops Hops p Hinv) as (p'' & rs' & Hrun' & Hinv' & _).
  rewrite Hrun in Hrun'. injection Hrun' as <- <-.
  rewrite <-(fifo_linked_sel side _ _ _ Hinv'). unfold q. rewrite !fifo_abs_sel, !zlen_fifo_contents.
  assert (forall s, has_signal ZX_FIFO_READABLE (sel s p') = ep_bit 0 (sel s p') /\
    has_signal ZX_FIFO_WRITABLE (sel s p') = ep_bit 1 (sel s p') /\
    has_signal ZX_FIFO_PEER_CLOSED (sel s p') = ep_bit 2 (sel s p')) as Hbits.
  { intros s. split_and!; [apply (land_bit _ 0)|apply (land_bit _ 1)|apply (land_bit _ 2)]; lia. }
  destruct (Hbits side) as (-> & -> & ->), (Hbits (negb side)) as (_ & _ & ->).
  apply (fifo_inv_sel side) in Hinv' as (Hwf & _ & (Hr & Hw) & (_ & Hw') & Hpeer & Hcl).
  cbn in Hr, Hw, Hw', Hpeer, Hcl. rewrite <-Hpeer in Hw'.
  pose proof (fwf_len _ _ _ Hwf). destruct (fifo_peer_ (sel side p')); split_and!; try done; tauto.
Qed.

(** C14. A fifo pair is a pair of bounded first-in first-out queues of elements. From
    creation on, for every sequence of writes, reads, signals and handle closures, on
    either endpoint and with any user memory, each call returns and gives the status,
    the count and the bytes that the abstract queues give: a write appends the elements
    that fit, in order, across the wrap-around of the ring and of the 32-bit counters; a
    read takes the oldest elements; a fault leaves the queue unchanged. The
    signals are exact at every point: READABLE says that the endpoint has an element to read;
    while the endpoints are connected WRITABLE says that the peer's queue has room and
    PEER_CLOSED is clear; after a closure an endpoint that shows PEER_CLOSED does not show
    WRITABLE, and one of them shows it. *)
Theorem fifo_refines_queues count elemsize mem koid init0 init1 p ops :
  0 <= count < 2 ^ 64 -> 0 <= elemsize < 2 ^ 64 ->
  zlen init0 = count * elemsize -> zlen init1 = count * elemsize ->
  fifo_Create count elemsize mem koid init0 init1 = (ZX_OK, Some p) ->
  Forall fop_wf ops ->
  exists p' rs, fifo_run p ops = Some (p', rs) /\
    spec_run count elemsize (mkFifoSpec [] [] true) ops = (fifo_abs p', rs) /\
    (forall side, fifo_signals_ok count p' side).
Proof.
  intros. destruct (fifo_Create_inv count elemsize mem koid init0 init1 p) as [Hinv <-]; [done..|].
  destruct (fifo_run_spec count elemsize ops ltac:(done) p Hinv) as (p' & rs & ? & _ & ?). exists p', rs. split_and!; [done..|].
  intros side. by apply (fifo_signals_exact count elemsize mem koid init0 init1 p ops p' rs side).
Qed.

Lemma fifo_refines_queues_witness :
  exists p' rs, fifo_run fifo_example fifo_example_ops = Some (p', rs) /\
    rs = [(ZX_OK, 3, []); (ZX_OK, 2, [1;2;3;4]); (ZX_OK, 3, []);
          (ZX_OK, 4, [5;6;7;8;9;10;11;12]); (ZX_OK, 0, []); (ZX_ERR_PEER_CLOSED, 0, [])].
Proof.
  destruct (fifo_refines_queues 4 2 (fun _ => true) 1024 (replicate 8 0) (replicate 8 0)
    fifo_example fifo_example_ops) as (p' & rs & Hrun & Hspec & _);
    [lia|lia|done|done|reflexivity|repeat constructor; cbn; lia|].
  exists p', rs. split; [exact Hrun|]. apply (f_equal snd) in Hspec.
  transitivity (snd (fifo_abs p', rs)); [reflexivity|]. rewrite <-Hspec. vm_compute. reflexivity.
Defined.

(** [Create] accepts exactly the element counts that are powers of two whose buffer
    fits in [kMaxSizeBytes], whatever the 64-bit arguments (the product is computed
    without overflow once both factors are bounded), and reports allocation failure
    separately. *)
Lemma fifo_Create_status count elemsize mem koid init0 init1 :
  0 <= count < 2 ^ 64 -> 0 <= elemsize < 2 ^ 64 ->
  let st := fst (fifo_Create count elemsize mem koid init0 init1) in
  (st = ZX_ERR_OUT_OF_RANGE <-> ~ fifo_size_ok count elemsize) /\
  (st = ZX_OK <-> fifo_size_ok count elemsize /\ forall i, (i < 5)%nat -> mem i = true).
Proof.
  intros Hc He. unfold fifo_Create.
  pose proof (fifo_Create_guard count elemsize Hc He) as Hg.
  destruct ((count =? 0) || _ || _ || _ || _ || _) eqn:E; cbn zeta.
  - assert (~ fifo_size_ok count elemsize) by (intros H%Hg; done). cbn.
    split; [by split|]. split; [done|tauto].
  - apply proj1 in Hg. specialize (Hg eq_refl).
    destruct (mem 0%nat && mem 1%nat && mem 2%nat && mem 3%nat && mem 4%nat) eqn:Em; cbn [negb].
    + cbn. apply andb_true_iff in Em as [[[[? ?]%andb_true_iff ?]%andb_true_iff ?]%andb_true_iff ?].
      split; [by split|]. split; [|done]. intros _. split; [done|].
      intros [|[|[|[|[|i]]]]] ?; done || lia.
    + cbn. split; [by split|]. split; [done|]. intros [_ Hm].
      by rewrite !Hm in Em by lia.
Qed.

Lemma fifo_Create_status_witness :
  fst (fifo_Create 3 1 (fun _ => true) 1024 [] []) = ZX_ERR_OUT_OF_RANGE /\
  fst (fifo_Create 4 2 (fun _ => true) 1024 (replicate 8 0) (replicate 8 0)) = ZX_OK.
Proof.
  split.
  - apply (fifo_Create_status 3 1 (fun _ => true) 1024 [] []); [lia|lia|].
    intros ((k & Hk & E) & _). assert (k = 0 \/ k = 1 \/ 2 <= k) as [->|[->|?]] by lia; try done.
    pose proof (Z.pow_le_mono_r 2 2 k). lia.
  - apply (fifo_Create_status 4 2 (fun _ => true)); [lia|lia|]. split; [|done].
    split; [by exists 2|]. done.
Defined.

Lemma peered_close_symmetric_witness :
  fifo_peer_ (ep_left (fst (peered_run fifo_example [PClose true; PSignalPeer false 0 ZX_USER_SIGNAL_ALL])))
    = false /\
  snd (peered_run fifo_example [PClose true; PSignalPeer false 0 ZX_USER_SIGNAL_ALL]) =
    [ZX_OK; ZX_ERR_PEER_CLOSED].
Proof.
  destruct (peered_close_symmetric fifo_example [PClose true; PSignalPeer false 0 ZX_USER_SIGNAL_ALL])
    as [Hl Hs]; [by intros []|]. split; [exact (Hl false)|exact Hs].
Defined.
