(* ===== verification/MBuf.v ===== *)
(** * Mbuf chains

    Models [zircon/kernel/object/mbuf.cc] and its header: the queue of small fixed-size
    buffers that holds the unread data of a socket, in stream or in datagram mode.
    [tail_] is the list of mbufs from the oldest to the newest, [head_] points to the
    newest one, and mbufs are recycled through [freelist_].

    Pointers are identities ([mbuf_id]); [next_] is the identity of the next object that
    [new] returns, and [mem] says which allocations succeed. *)

From S2P Require Import Prelude Types.

Definition kHeaderSize : Z := 8 + 4 * 4.
Definition kMallocSize : Z := 2048 - 16.
Definition kPayloadSize : Z := kMallocSize - kHeaderSize.
Definition kSizeMax : Z := 128 * kPayloadSize.

Record MBuf := mkMBuf {
  mbuf_id : Z;
  off_ : Z;
  len_ : Z;
  pkt_len_ : Z;
  mbuf_data_ : list byte;
}.

Record MBufChain := mkChain {
  freelist_ : list MBuf;
  tail_ : list MBuf;
  head_ : option Z;
  size_ : Z;
  next_ : Z;
}.

Definition MBufChain_new (next : Z) : MBufChain := mkChain [] [] None 0 next.

Definition MBuf_new (id : Z) : MBuf := mkMBuf id 0 0 0 (replicate (Z.to_nat kPayloadSize) 0).

Definition rem (m : MBuf) : Z := wrap64 (kPayloadSize - wrap32 (off_ m + len_ m)).

Definition is_full (c : MBufChain) : bool := kSizeMax <=? size_ c.
Definition is_empty (c : MBufChain) : bool := size_ c =? 0.

Definition front_pkt_len (c : MBufChain) : Z :=
  match tail_ c with [] => 0 | m :: _ => pkt_len_ m end.

Definition chain_size (datagram : bool) (c : MBufChain) : Z :=
  if datagram && negb (size_ c =? 0) then front_pkt_len c else size_ c.

Definition set_tail (t : list MBuf) (c : MBufChain) : MBufChain :=
  mkChain (freelist_ c) t (head_ c) (size_ c) (next_ c).
Definition set_head (h : option Z) (c : MBufChain) : MBufChain :=
  mkChain (freelist_ c) (tail_ c) h (size_ c) (next_ c).
Definition set_size (n : Z) (c : MBufChain) : MBufChain :=
  mkChain (freelist_ c) (tail_ c) (head_ c) n (next_ c).
Definition set_freelist (l : list MBuf) (c : MBufChain) : MBufChain :=
  mkChain l (tail_ c) (head_ c) (size_ c) (next_ c).
Definition set_next (n : Z) (c : MBufChain) : MBufChain :=
  mkChain (freelist_ c) (tail_ c) (head_ c) (size_ c) n.

(** [AllocMBuf]: the chain and the mbuf, if any. *)
Definition AllocMBuf (mem : Z -> bool) (c : MBufChain) : MBufChain * option MBuf :=
  match freelist_ c with
  | [] => (set_next (next_ c + 1) c, if mem (next_ c) then Some (MBuf_new (next_ c)) else None)
  | m :: rest => (set_freelist rest c, Some m)
  end.

(** [FreeMBuf]: [pkt_len_] keeps its value. *)
Definition FreeMBuf (m : MBuf) (c : MBufChain) : MBufChain :=
  set_freelist (mkMBuf (mbuf_id m) 0 0 (pkt_len_ m) (mbuf_data_ m) :: freelist_ c) c.

(** [while (!bufs.is_empty()) FreeMBuf(bufs.pop_front())]. *)
Definition free_all (bufs : list MBuf) (c : MBufChain) : MBufChain :=
  fold_left (fun c m => FreeMBuf m c) bufs c.

(** [tail_.insert_after(tail_.make_iterator( *h), next)]. *)
Fixpoint insert_after (h : Z) (next : MBuf) (t : list MBuf) : list MBuf :=
  match t with
  | [] => []
  | m :: rest => if mbuf_id m =? h then m :: next :: rest else m :: insert_after h next rest
  end.

(** Link [next] as the newest mbuf of the chain. *)
Definition link_mbuf (next : MBuf) (c : MBufChain) : MBufChain :=
  let t := match head_ c with
           | None => next :: tail_ c
           | Some h => insert_after h next (tail_ c)
           end in
  set_head (Some (mbuf_id next)) (set_tail t c).

(** Unlink the front mbuf [m], forgetting [head_] if it points to it, and free it. *)
Definition drop_front (m : MBuf) (rest : list MBuf) (c : MBufChain) : MBufChain :=
  let c := if bool_decide (head_ c = Some (mbuf_id m)) then set_head None c else c in
  FreeMBuf m (set_tail rest c).

(** ** Reading *)

(** The copy loop of [ReadHelper] on a non-const chain: the chain, the bytes delivered
    and whether every copy succeeded. *)
Fixpoint read_loop (fuel : nat) (c : MBufChain) (dst : user_out_ptr) (len : Z) (datagram : bool)
    (pos : Z) (out : list byte) : option (MBufChain * Z * list byte * bool) :=
  match tail_ c with
  | m :: rest =>
      if pos <? len then
        match fuel with
        | O => None
        | S fuel =>
            let copy_len := Z.min (len_ m) (len - pos) in
            if negb (copy_array_to_user dst pos copy_len) then Some (c, pos, out, false) else
            let out := out ++ zrange (off_ m) copy_len (mbuf_data_ m) in
            let m := mkMBuf (mbuf_id m) (wrap32 (off_ m + copy_len)) (wrap32 (len_ m - copy_len))
                       (pkt_len_ m) (mbuf_data_ m) in
            let c := set_size (wrap64 (size_ c - copy_len)) (set_tail (m :: rest) c) in
            let c := if (len_ m =? 0) || datagram
                     then drop_front m rest (set_size (wrap64 (size_ c - len_ m)) c) else c in
            read_loop fuel c dst len datagram (pos + copy_len) out
        end
      else Some (c, pos, out, true)
  | [] => Some (c, pos, out, true)
  end.

(** The loop on a const chain: the position, the bytes and whether every copy succeeded. *)
Fixpoint peek_loop (iter : list MBuf) (dst : user_out_ptr) (len pos : Z) (out : list byte)
    : Z * list byte * bool :=
  match iter with
  | m :: rest =>
      if pos <? len then
        let copy_len := Z.min (len_ m) (len - pos) in
        if negb (copy_array_to_user dst pos copy_len) then (pos, out, false) else
        peek_loop rest dst len (pos + copy_len) (out ++ zrange (off_ m) copy_len (mbuf_data_ m))
      else (pos, out, true)
  | [] => (pos, out, true)
  end.

(** Drain the leftover mbufs of a datagram. *)
Fixpoint drain_loop (t : list MBuf) (c : MBufChain) : MBufChain :=
  match t with
  | m :: rest =>
      if pkt_len_ m =? 0
      then drain_loop rest (drop_front m rest (set_size (wrap64 (size_ c - len_ m)) c))
      else c
  | [] => c
  end.

Definition clip_len (c : MBufChain) (len : Z) (datagram : bool) : Z :=
  if datagram && (front_pkt_len c <? len) then front_pkt_len c else len.

(** [Read]: the chain, the status, [*actual] and the bytes delivered. *)
Definition Read (c : MBufChain) (dst : user_out_ptr) (len : Z) (datagram : bool)
    : option (MBufChain * zx_status_t * Z * list byte) :=
  if size_ c =? 0 then Some (c, ZX_OK, 0, []) else
  let len := clip_len c len datagram in
  match read_loop (S (length (tail_ c))) c dst len datagram 0 [] with
  | None => None
  | Some (c, _, out, false) => Some (c, ZX_ERR_INVALID_ARGS, 0, out)
  | Some (c, pos, out, true) =>
      let c := if datagram then drain_loop (tail_ c) c else c in
      Some (c, ZX_OK, pos, out)
  end.

Definition Peek (c : MBufChain) (dst : user_out_ptr) (len : Z) (datagram : bool)
    : zx_status_t * Z * list byte :=
  if size_ c =? 0 then (ZX_OK, 0, []) else
  let '(pos, out, ok) := peek_loop (tail_ c) dst (clip_len c len datagram) 0 [] in
  if ok then (ZX_OK, pos, out) else (ZX_ERR_INVALID_ARGS, 0, out).

(** ** Writing *)

(** The allocation loop of [WriteDatagram]: [need] mbufs pushed on the front of [bufs];
    [false] when an allocation failed. *)
Fixpoint alloc_loop (mem : Z -> bool) (need : nat) (c : MBufChain) (bufs : list MBuf)
    : MBufChain * list MBuf * bool :=
  match need with
  | O => (c, bufs, true)
  | S need =>
      match AllocMBuf mem c with
      | (c, None) => (c, bufs, false)
      | (c, Some buf) => alloc_loop mem need c (buf :: bufs)
      end
  end.

(** The copy loop of [WriteDatagram] over [bufs]; [false] on a fault. *)
Fixpoint fill_loop (src : user_in_ptr) (len pos : Z) (bufs : list MBuf) : list MBuf * bool :=
  match bufs with
  | [] => ([], true)
  | m :: rest =>
      let copy_len := Z.min kPayloadSize (len - pos) in
      let '(bytes, ok) := copy_array_from_user src pos copy_len in
      let data := zsplice 0 bytes (mbuf_data_ m) in
      if ok then
        let m := mkMBuf (mbuf_id m) (off_ m) (wrap32 (len_ m + copy_len)) (pkt_len_ m) data in
        let '(rest, ok) := fill_loop src len (pos + copy_len) rest in (m :: rest, ok)
      else (mkMBuf (mbuf_id m) (off_ m) (len_ m) (pkt_len_ m) data :: rest, false)
  end.

(** [bufs.front().pkt_len_ = len]. *)
Definition set_front_pkt_len (len : Z) (bufs : list MBuf) : list MBuf :=
  match bufs with
  | [] => []
  | m :: rest => mkMBuf (mbuf_id m) (off_ m) (len_ m) (wrap32 len) (mbuf_data_ m) :: rest
  end.

(** [WriteDatagram]: the chain, the status and [*written]. *)
Definition WriteDatagram (mem : Z -> bool) (c : MBufChain) (src : user_in_ptr) (len : Z)
    : MBufChain * zx_status_t * Z :=
  if len =? 0 then (c, ZX_ERR_INVALID_ARGS, 0) else
  if kSizeMax <? len then (c, ZX_ERR_OUT_OF_RANGE, 0) else
  if kSizeMax <? wrap64 (len + size_ c) then (c, ZX_ERR_SHOULD_WAIT, 0) else
  let need := 1 + (len - 1) / kPayloadSize in
  match alloc_loop mem (Z.to_nat need) c [] with
  | (c, bufs, false) => (free_all bufs c, ZX_ERR_SHOULD_WAIT, 0)
  | (c, bufs, true) =>
      match fill_loop src len 0 bufs with
      | (bufs, false) => (free_all bufs c, ZX_ERR_INVALID_ARGS, 0)
      | (bufs, true) =>
          let c := fold_left (fun c next => link_mbuf next c) (set_front_pkt_len len bufs) c in
          (set_size (wrap64 (size_ c + len)) c, ZX_OK, len)
      end
  end.

(** The mbuf [head_] points to. *)
Definition get_head (c : MBufChain) : option MBuf :=
  match head_ c with
  | None => None
  | Some h => List.find (fun m => mbuf_id m =? h) (tail_ c)
  end.

(** Replace the mbuf that has the identity of [m]. *)
Definition put_mbuf (m : MBuf) (c : MBufChain) : MBufChain :=
  set_tail (map (fun x => if mbuf_id x =? mbuf_id m then m else x) (tail_ c)) c.

(** One iteration of the loop of [WriteStream], past the allocation of a new head. *)
Definition stream_copy (h : MBuf) (c : MBufChain) (src : user_in_ptr) (len pos : Z)
    : MBufChain * Z * option bool :=
  let copy_len := Z.min (rem h) (len - pos) in
  let over := kSizeMax <? wrap64 (size_ c + copy_len) in
  let copy_len := if over then wrap64 (kSizeMax - size_ c) else copy_len in
  if over && (copy_len =? 0) then (c, pos, None) else
  let '(bytes, ok) := copy_array_from_user src pos copy_len in
  let data := zsplice (off_ h + len_ h) bytes (mbuf_data_ h) in
  if ok then
    let h := mkMBuf (mbuf_id h) (off_ h) (wrap32 (len_ h + copy_len)) (pkt_len_ h) data in
    (set_size (wrap64 (size_ c + copy_len)) (put_mbuf h c), pos + copy_len, Some true)
  else (put_mbuf (mkMBuf (mbuf_id h) (off_ h) (len_ h) (pkt_len_ h) data) c, pos, Some false).

(** The loop of [WriteStream]: the chain, [pos] and whether no copy faulted. [None] is
    a run out of fuel or a dangling [head_]. *)
Fixpoint stream_loop (fuel : nat) (mem : Z -> bool) (c : MBufChain) (src : user_in_ptr)
    (len pos : Z) : option (MBufChain * Z * bool) :=
  if pos <? len then
    match fuel, get_head c with
    | S fuel, Some h =>
        let '(c, next) := if rem h =? 0
                          then let '(c, next) := AllocMBuf mem c in
                               (match next with Some n => link_mbuf n c | None => c end, next)
                          else (c, Some h) in
        match next with
        | None => Some (c, pos, true)
        | Some h =>
            match stream_copy h c src len pos with
            | (c, pos, None) => Some (c, pos, true)
            | (c, pos, Some false) => Some (c, pos, false)
            | (c, pos, Some true) => stream_loop fuel mem c src len pos
            end
        end
    | _, _ => None
    end
  else Some (c, pos, true).

(** [WriteStream]: the chain, the status and [*written]. *)
Definition WriteStream (mem : Z -> bool) (c : MBufChain) (src : user_in_ptr) (len : Z)
    : option (MBufChain * zx_status_t * Z) :=
  let '(c, ok) :=
    match head_ c with
    | Some _ => (c, true)
    | None =>
        match AllocMBuf mem c with
        | (c, None) => (c, false)
        | (c, Some h) => (set_head (Some (mbuf_id h)) (set_tail (h :: tail_ c) c), true)
        end
    end in
  if negb ok then Some (c, ZX_ERR_SHOULD_WAIT, 0) else
  match stream_loop (Z.to_nat len) mem c src len 0 with
  | None => None
  | Some (c, _, false) => Some (c, ZX_ERR_INVALID_ARGS, 0)
  | Some (c, pos, true) =>
      if pos =? 0 then Some (c, ZX_ERR_SHOULD_WAIT, 0) else Some (c, ZX_OK, pos)
  end.

(** ** Invariant and abstraction *)

Definition mbuf_bytes (m : MBuf) : list byte := zrange (off_ m) (len_ m) (mbuf_data_ m).

(** The unread bytes of the chain, oldest first. *)
Definition chain_bytes (c : MBufChain) : list byte := concat (map mbuf_bytes (tail_ c)).

Record mbuf_wf (m : MBuf) : Prop := {
  mw_off : 0 <= off_ m;
  mw_len : 0 <= len_ m;
  mw_fit : off_ m + len_ m <= kPayloadSize;
  mw_data : zlen (mbuf_data_ m) = kPayloadSize;
}.

Definition free_wf (m : MBuf) : Prop := mbuf_wf m /\ off_ m = 0 /\ len_ m = 0.

(** The shape of a chain while the mbufs [held] are in the hands of the caller. *)
Record chain_str (held : list MBuf) (c : MBufChain) : Prop := {
  cs_ids : NoDup (map mbuf_id (tail_ c ++ freelist_ c ++ held));
  cs_next : Forall (fun m => mbuf_id m < next_ c) (tail_ c ++ freelist_ c ++ held);
  cs_head : head_ c = last (map mbuf_id (tail_ c));
  cs_tail : Forall mbuf_wf (tail_ c);
  cs_free : Forall free_wf (freelist_ c);
}.

Record chain_wf (c : MBufChain) : Prop := {
  cw_str : chain_str [] c;
  cw_size : size_ c = zlen (chain_bytes c);
  cw_max : size_ c <= kSizeMax;
}.

(** ** Lemmas on mbufs *)

Lemma zlen_mbuf_bytes m : mbuf_wf m -> zlen (mbuf_bytes m) = len_ m.
Proof. intros []. unfold mbuf_bytes. rewrite zlen_zrange. lia. Qed.

Lemma rem_wf m : mbuf_wf m -> rem m = kPayloadSize - (off_ m + len_ m) /\ 0 <= rem m.
Proof.
  intros []. unfold rem, kPayloadSize, kMallocSize, kHeaderSize in *.
  rewrite (wrap_small 32), wrap_small; lia.
Qed.

Lemma MBuf_new_wf id : free_wf (MBuf_new id).
Proof. by repeat split. Qed.

Lemma insert_after_last h n t :
  NoDup (map mbuf_id t) -> last (map mbuf_id t) = Some h -> insert_after h n t = t ++ [n].
Proof.
  induction t as [|m t IH]; [done|]. cbn [map insert_after]. intros [Hm Hnd]%NoDup_cons Hl.
  destruct t as [|m' t]; cbn in Hl.
  - injection Hl as ->. by rewrite Z.eqb_refl.
  - destruct (Z.eqb_spec (mbuf_id m) h) as [E|].
    + destruct Hm. rewrite E. by apply last_Some_elem_of.
    + cbn [app]. f_equal. by apply IH.
Qed.

Lemma find_last t m :
  NoDup (map mbuf_id (t ++ [m])) -> List.find (fun x => mbuf_id x =? mbuf_id m) (t ++ [m]) = Some m.
Proof.
  induction t as [|x t IH]; cbn; [by rewrite Z.eqb_refl|]. intros [Hx Hnd]%NoDup_cons.
  destruct (Z.eqb_spec (mbuf_id x) (mbuf_id m)) as [E|]; [|by apply IH].
  destruct Hx. rewrite E, map_app. apply elem_of_app. right. by apply list_elem_of_singleton.
Qed.

Lemma put_last t m m' :
  NoDup (map mbuf_id (t ++ [m])) -> mbuf_id m' = mbuf_id m ->
  map (fun x => if mbuf_id x =? mbuf_id m' then m' else x) (t ++ [m]) = t ++ [m'].
Proof.
  intros Hnd ->. rewrite map_app in *. cbn. rewrite Z.eqb_refl. f_equal.
  rewrite <-(map_id t) at 2. apply map_ext_in. intros x Hx%list_elem_of_In.
  destruct (Z.eqb_spec (mbuf_id x) (mbuf_id m)) as [E|]; [|done].
  apply NoDup_app in Hnd as (_ & Hd & _). destruct (Hd (mbuf_id x)).
  - apply list_elem_of_fmap. eauto.
  - rewrite E. by apply list_elem_of_singleton.
Qed.

(** ** Structural lemmas: moving mbufs between the chain, the free list and the caller *)

(** Identities only matter up to permutation. *)
Lemma ids_perm n (l l' : list MBuf) :
  map mbuf_id l ≡ₚ map mbuf_id l' ->
  NoDup (map mbuf_id l) /\ Forall (fun m => mbuf_id m < n) l ->
  NoDup (map mbuf_id l') /\ Forall (fun m => mbuf_id m < n) l'.
Proof.
  assert (forall k, Forall (fun m => mbuf_id m < n) k <-> Forall (fun i => i < n) (map mbuf_id k))
    as Hf by (intros k; symmetry; apply Forall_fmap).
  rewrite !Hf. intros Hp [Hnd Hlt]. by rewrite <-Hp.
Qed.

Lemma cs_pool held c :
  chain_str held c ->
  NoDup (map mbuf_id (tail_ c ++ freelist_ c ++ held)) /\
  Forall (fun m => mbuf_id m < next_ c) (tail_ c ++ freelist_ c ++ held).
Proof. by intros []. Qed.

Lemma AllocMBuf_spec mem held c c' r :
  chain_str held c -> AllocMBuf mem c = (c', r) ->
  tail_ c' = tail_ c /\ head_ c' = head_ c /\ size_ c' = size_ c /\
  match r with
  | Some m => chain_str (m :: held) c' /\ free_wf m
  | None => chain_str held c' /\ mem (next_ c) = false /\ freelist_ c = []
  end.
Proof.
  intros Hc. pose proof (cs_pool _ _ Hc) as Hpool. destruct Hc as [Hids Hnext Hhead Htail Hfree].
  unfold AllocMBuf. destruct (freelist_ c) as [|m rest] eqn:Ef.
  - assert (Forall (fun m => mbuf_id m < next_ c + 1) (tail_ c ++ freelist_ c ++ held)) as Hlt.
    { rewrite Ef. eapply Forall_impl; [exact Hnext|]. cbn. lia. }
    intros [= <- <-]. cbn. split_and!; [done..|]. destruct (mem (next_ c)) eqn:Em.
    + split; [|apply MBuf_new_wf].
      destruct (ids_perm (next_ c + 1) (MBuf_new (next_ c) :: tail_ c ++ freelist_ c ++ held)
                  (tail_ c ++ freelist_ c ++ MBuf_new (next_ c) :: held)) as [Hn Hl].
      * apply Permutation_map. by solve_Permutation.
      * split; [|constructor; [cbn; lia|done]]. cbn. apply NoDup_cons. split; [|by rewrite Ef].
        intros (m & E & Hm)%list_elem_of_fmap. rewrite Forall_forall, <-Ef in Hnext.
        specialize (Hnext m Hm). lia.
      * constructor; try done. cbn. by rewrite Ef.
    + split; [|done]. rewrite <-Ef in *. by constructor.
  - intros [= <- <-]. cbn. apply Forall_cons in Hfree as [Hm Hrest]. split_and!; try done.
    destruct (ids_perm (next_ c) (tail_ c ++ (m :: rest) ++ held) (tail_ c ++ rest ++ m :: held))
      as [Hn Hl]; [|done|by constructor].
    apply Permutation_map. by solve_Permutation.
Qed.

Lemma FreeMBuf_spec m held c :
  chain_str (m :: held) c -> zlen (mbuf_data_ m) = kPayloadSize ->
  chain_str held (FreeMBuf m c).
Proof.
  intros Hc Hd. destruct (ids_perm (next_ c) (tail_ c ++ freelist_ c ++ m :: held)
    (tail_ c ++ freelist_ (FreeMBuf m c) ++ held)) as [Hn Hl];
    [|by apply cs_pool|destruct Hc; constructor; try done].
  - rewrite !map_app. cbn. by solve_Permutation.
  - constructor; [|done]. by repeat split.
Qed.

Lemma free_all_spec bufs c :
  chain_str bufs c -> Forall (fun m => zlen (mbuf_data_ m) = kPayloadSize) bufs ->
  chain_str [] (free_all bufs c) /\ tail_ (free_all bufs c) = tail_ c /\
  size_ (free_all bufs c) = size_ c.
Proof.
  intros Hc Hd. revert c Hc. induction Hd as [|m bufs Hm _ IH]; intros c Hc; [done|].
  apply (IH (FreeMBuf m c)). by apply FreeMBuf_spec.
Qed.

Lemma link_mbuf_spec m held c :
  chain_str (m :: held) c -> mbuf_wf m ->
  chain_str held (link_mbuf m c) /\ tail_ (link_mbuf m c) = tail_ c ++ [m].
Proof.
  intros Hc Hm. assert (tail_ (link_mbuf m c) = tail_ c ++ [m]) as Ht.
  { destruct Hc as [Hids _ Hhead _ _]. unfold link_mbuf. cbn. rewrite Hhead.
    destruct (last _) eqn:E; [apply insert_after_last; [|done]|].
    - rewrite map_app in Hids. by apply NoDup_app in Hids as (? & _).
    - apply last_None, map_eq_nil in E. by rewrite E. }
  split; [|done]. destruct (ids_perm (next_ c) (tail_ c ++ freelist_ c ++ m :: held)
    ((tail_ c ++ [m]) ++ freelist_ c ++ held)) as [Hn Hl]; [|by apply cs_pool|].
  { rewrite !map_app. cbn. by solve_Permutation. }
  destruct Hc. constructor; rewrite ?Ht; try done.
  - rewrite map_app. cbn [map]. by rewrite last_snoc.
  - by apply Forall_app_2; [|constructor].
Qed.

Lemma drop_front_spec m rest held c :
  chain_str held c -> tail_ c = m :: rest ->
  chain_str held (drop_front m rest c) /\ tail_ (drop_front m rest c) = rest /\
  size_ (drop_front m rest c) = size_ c.
Proof.
  intros Hc Ht. destruct (ids_perm (next_ c) (tail_ c ++ freelist_ c ++ held)
    (rest ++ freelist_ (drop_front m rest c) ++ held)) as [Hn Hl]; [|by apply cs_pool|].
  { rewrite Ht. unfold drop_front. rewrite !map_app. case_if; cbn; by solve_Permutation. }
  destruct Hc as [Hids _ Hhead Htail Hfree]. rewrite Ht in *. apply Forall_cons in Htail as [Hm Hrest].
  unfold drop_front in *. split_and!; [|by case_if..]. constructor.
  - by case_if.
  - by case_if.
  - cbn in Hids. apply NoDup_cons in Hids as [Hni _].
    destruct (bool_decide_reflect (head_ c = Some (mbuf_id m))) as [E|E]; cbn.
    + rewrite Hhead in E. destruct rest as [|m' rest]; [done|]. destruct Hni.
      rewrite map_app. apply elem_of_app. left. by apply last_Some_elem_of.
    + rewrite Hhead in *. by destruct rest.
  - by case_if.
  - destruct Hm. case_if; constructor; try done; by repeat split.
Qed.

(** ** Reading *)

(** The front mbuf after [k] of its bytes have been copied out. *)
Definition advance (k : Z) (m : MBuf) : MBuf :=
  mkMBuf (mbuf_id m) (wrap32 (off_ m + k)) (wrap32 (len_ m - k)) (pkt_len_ m) (mbuf_data_ m).

Lemma payload_bounds : kPayloadSize = 2008 /\ kSizeMax = 257024.
Proof. done. Qed.

Lemma advance_spec k m :
  mbuf_wf m -> 0 <= k <= len_ m ->
  mbuf_wf (advance k m) /\ len_ (advance k m) = len_ m - k /\
  mbuf_bytes (advance k m) = zdrop k (mbuf_bytes m).
Proof.
  intros [] Hk. destruct payload_bounds as [Hp _].
  assert (wrap32 (off_ m + k) = off_ m + k) as Eo by (apply wrap_small; lia).
  assert (wrap32 (len_ m - k) = len_ m - k) as El by (apply wrap_small; lia).
  split_and!; [constructor; cbn; lia|done|]. unfold mbuf_bytes, advance. cbn. rewrite Eo, El.
  unfold zrange, ztake, zdrop. list_lookup_eq; try done; f_equal; lia.
Qed.

Lemma chain_wf_front c m rest :
  chain_wf c -> tail_ c = m :: rest ->
  mbuf_wf m /\ chain_bytes c = mbuf_bytes m ++ concat (map mbuf_bytes rest) /\
  0 <= len_ m <= size_ c.
Proof.
  intros [[] Hs _] Ht. rewrite Ht in *. apply Forall_cons in cs_tail0 as [Hm _].
  pose proof (zlen_mbuf_bytes m Hm). pose proof (zlen_nonneg (concat (map mbuf_bytes rest))).
  unfold chain_bytes in *. rewrite Ht in *. cbn in *. rewrite zlen_app in Hs.
  split_and!; [done..|apply Hm|lia].
Qed.

(** Copying [k] bytes out of the front mbuf. *)
Lemma advance_front c m rest k :
  chain_wf c -> tail_ c = m :: rest -> 0 <= k <= len_ m ->
  let c1 := set_size (wrap64 (size_ c - k)) (set_tail (advance k m :: rest) c) in
  chain_wf c1 /\ chain_bytes c1 = zdrop k (chain_bytes c).
Proof.
  intros Hc Ht Hk c1. destruct (chain_wf_front c m rest Hc Ht) as (Hm & Hb & Hl).
  destruct (advance_spec k m Hm Hk) as (Hm' & Hl' & Hb'). destruct payload_bounds.
  assert (chain_bytes c1 = zdrop k (chain_bytes c)) as Hbytes.
  { rewrite Hb, zdrop_app_le by (rewrite zlen_mbuf_bytes by done; lia).
    unfold chain_bytes. cbn. by rewrite Hb'. }
  split; [|done]. destruct Hc as [[] Hs Hmax].
  constructor; [| |cbn; rewrite wrap_small; lia].
  - rewrite Ht in *. apply Forall_cons in cs_tail0 as [? ?].
    apply Forall_cons in cs_next0 as [? ?].
    constructor; cbn; try done; by constructor.
  - rewrite Hbytes, zlen_zdrop, <-Hs. cbn. rewrite wrap_small; lia.
Qed.

(** Unlinking the front mbuf with whatever it still holds. *)
Lemma drop_front_wf c m rest :
  chain_wf c -> tail_ c = m :: rest ->
  let c1 := drop_front m rest (set_size (wrap64 (size_ c - len_ m)) c) in
  chain_wf c1 /\ tail_ c1 = rest.
Proof.
  intros Hc Ht c1. destruct (chain_wf_front c m rest Hc Ht) as (Hm & Hb & Hl).
  destruct (drop_front_spec m rest [] (set_size (wrap64 (size_ c - len_ m)) c)) as (Hstr & Ht1 & Hs1).
  { destruct Hc as [[] ? ?]. by constructor. } { done. }
  split; [|done]. destruct Hc as [_ Hs Hmax]. destruct payload_bounds.
  assert (size_ c1 = size_ c - len_ m) as E.
  { unfold c1. rewrite Hs1. cbn. apply wrap_small. lia. }
  constructor; [done| |lia]. rewrite E, Hs, Hb, zlen_app, zlen_mbuf_bytes by done.
  unfold chain_bytes. fold c1 in Ht1. rewrite Ht1. lia.
Qed.

(** What a stream read from [pos] does to the chain: it moves the first [n] bytes to the
    user, stopping early only on a fault. *)
Definition stream_read_post (dst len : Z) (c : MBufChain) (pos : Z) (out : list byte)
    (r : MBufChain * Z * list byte * bool) : Prop :=
  let '(c', pos', out', ok) := r in
  exists n, 0 <= n <= size_ c /\ pos' = pos + n /\ out' = out ++ ztake n (chain_bytes c) /\
    chain_wf c' /\ chain_bytes c' = zdrop n (chain_bytes c) /\
    if ok then n = Z.min (Z.max 0 (len - pos)) (size_ c)
    else dst < pos + Z.min (len - pos) (size_ c).

Lemma chain_size_nonneg c : chain_wf c -> 0 <= size_ c.
Proof. intros Hc. rewrite (cw_size _ Hc). apply zlen_nonneg. Qed.

Lemma stream_read_stop dst len c pos out :
  chain_wf c -> len <= pos \/ tail_ c = [] -> stream_read_post dst len c pos out (c, pos, out, true).
Proof.
  intros Hc Hstop. pose proof (chain_size_nonneg c Hc). exists 0.
  rewrite ztake_le_0, app_nil_r, zdrop_le_0 by lia. split_and!; try done; try lia.
  destruct Hstop as [?|Ht]; [lia|]. rewrite (cw_size _ Hc). unfold chain_bytes. rewrite Ht.
  change (zlen _) with 0. lia.
Qed.

(** One successful copy followed by the rest of the loop. *)
Lemma stream_read_step dst len c c1 pos out k r :
  0 <= k -> size_ c1 = size_ c - k -> k <= size_ c -> k <= len - pos ->
  chain_bytes c1 = zdrop k (chain_bytes c) ->
  stream_read_post dst len c1 (pos + k) (out ++ ztake k (chain_bytes c)) r ->
  stream_read_post dst len c pos out r.
Proof.
  intros Hk Hs1 Hks Hkl Hb. destruct r as [[[c' pos'] out'] ok].
  intros (n & Hn & -> & -> & Hwf & Hb' & Hok). exists (k + n).
  split_and!; [lia|lia|lia| |done| |destruct ok; lia].
  - rewrite <-app_assoc. f_equal. rewrite Hb. apply ztake_add; lia.
  - rewrite Hb', Hb, zdrop_zdrop by lia. f_equal.
Qed.

Lemma read_loop_stream dst len fuel :
  forall c pos out, chain_wf c -> (length (tail_ c) <= fuel)%nat ->
  exists r, read_loop fuel c dst len false pos out = Some r /\ stream_read_post dst len c pos out r.
Proof.
  induction fuel as [|fuel IH]; intros c pos out Hc Hfuel;
    cbn [read_loop]; destruct (tail_ c) as [|m rest] eqn:Ht; cbn [length] in Hfuel;
    try (by eauto using stream_read_stop); [lia|].
  destruct (Z.ltb_spec pos len); [|by eauto using stream_read_stop].
  destruct (chain_wf_front c m rest Hc Ht) as (Hm & Hb & Hl).
  set (k := Z.min (len_ m) (len - pos)). assert (0 <= k <= len_ m) as Hk by lia.
  unfold copy_array_to_user. destruct (Z.leb_spec (pos + k) dst); cbn [negb].
  2: { eexists. split; [done|]. exists 0. rewrite ztake_le_0, app_nil_r, zdrop_le_0 by lia.
       split_and!; try done; lia. }
  destruct (advance_front c m rest k Hc Ht Hk) as [Hc1 Hb1]. fold (advance k m).
  destruct (advance_spec k m Hm Hk) as (Hm' & Hl' & Hb').
  assert (zrange (off_ m) k (mbuf_data_ m) = ztake k (chain_bytes c)) as ->.
  { rewrite Hb, ztake_app_le by (rewrite zlen_mbuf_bytes by done; lia).
    unfold mbuf_bytes, zrange. rewrite ztake_ztake. f_equal. lia. }
  set (c1 := set_size _ _) in *. rewrite orb_false_r.
  assert (size_ c1 = size_ c - k) as Hs1.
  { destruct payload_bounds, Hc. cbn. apply wrap_small. lia. }
  destruct (Z.eqb_spec (len_ (advance k m)) 0).
  - destruct (drop_front_wf c1 (advance k m) rest Hc1 eq_refl) as [Hc2 Ht2].
    set (c2 := drop_front _ _ _) in *.
    assert (chain_bytes c2 = chain_bytes c1) as Hb2.
    { unfold chain_bytes. rewrite Ht2. cbn [tail_ c1 set_size set_tail map concat].
      rewrite Hb', zdrop_ge by (rewrite zlen_mbuf_bytes by done; lia). done. }
    edestruct (IH c2) as (r & -> & Hr); [done|rewrite Ht2; lia|]. eexists. split; [done|].
    assert (size_ c2 = size_ c1) by (rewrite (cw_size _ Hc1), (cw_size _ Hc2); by rewrite Hb2).
    rewrite <-Hb2 in Hb1. apply (stream_read_step _ _ _ c2 _ _ k); try done; lia.
  - assert (pos + k = len) by lia.
    exists (c1, pos + k, out ++ ztake k (chain_bytes c), true). split.
    { destruct fuel; cbn [read_loop]; cbn [tail_ c1 set_size set_tail];
        by destruct (Z.ltb_spec (pos + k) len); [lia|]. }
    apply (stream_read_step _ _ _ c1 _ _ k); try done; try lia. apply stream_read_stop; [done|lia].
Qed.

(** ** Stream writes *)

Lemma get_head_last held c t h :
  chain_str held c -> tail_ c = t ++ [h] -> get_head c = Some h.
Proof.
  intros [Hids _ Hhead _ _] Ht. unfold get_head. rewrite Hhead, Ht, map_app. cbn [map].
  rewrite last_snoc. apply find_last. rewrite Ht, map_app in Hids.
  by apply NoDup_app in Hids as (? & _).
Qed.

Lemma put_mbuf_spec held c t h h' :
  chain_str held c -> tail_ c = t ++ [h] -> mbuf_id h' = mbuf_id h -> mbuf_wf h' ->
  chain_str held (put_mbuf h' c) /\ tail_ (put_mbuf h' c) = t ++ [h'].
Proof.
  intros [Hids Hnext Hhead Htail Hfree] Ht Hid Hwf.
  assert (tail_ (put_mbuf h' c) = t ++ [h']) as Ht'.
  { cbn. rewrite Ht. apply put_last; [|done]. rewrite Ht, map_app in Hids.
    by apply NoDup_app in Hids as (? & _). }
  split; [|done]. rewrite Ht in *. apply Forall_app in Htail as [Htail _].
  assert (forall l, map mbuf_id ((t ++ [h']) ++ l) = map mbuf_id ((t ++ [h]) ++ l)) as Hm
    by (intros; rewrite !map_app; cbn; by rewrite Hid).
  destruct (ids_perm (next_ c) ((t ++ [h]) ++ freelist_ c ++ held) ((t ++ [h']) ++ freelist_ c ++ held));
    [by rewrite Hm|done|].
  constructor; rewrite ?Ht'; try done.
  - cbn. specialize (Hm []). rewrite !app_nil_r in Hm. by rewrite Hm.
  - apply Forall_app_2; [done|by constructor].
Qed.

(** Appending [bs] after the bytes of an mbuf that has room for them. *)
Lemma append_mbuf h bs pkt :
  mbuf_wf h -> zlen bs <= rem h ->
  let h' := mkMBuf (mbuf_id h) (off_ h) (wrap32 (len_ h + zlen bs)) pkt
              (zsplice (off_ h + len_ h) bs (mbuf_data_ h)) in
  mbuf_wf h' /\ mbuf_bytes h' = mbuf_bytes h ++ bs.
Proof.
  intros Hh Hk. destruct (rem_wf h Hh) as [Hr _]. destruct Hh. destruct payload_bounds.
  pose proof (zlen_nonneg bs). cbn zeta.
  rewrite wrap_small by lia.
  split; [constructor; cbn; rewrite ?zlen_zsplice; lia|]. unfold mbuf_bytes. cbn.
  rewrite zrange_app by lia. f_equal.
  - apply zrange_zsplice_before; lia.
  - rewrite zrange_zsplice_in by lia. rewrite Z.sub_diag. unfold zrange. rewrite zdrop_le_0 by lia.
    by apply ztake_ge.
Qed.

(** A fault leaves garbage after the bytes of the mbuf, and only there. *)
Lemma garbage_mbuf h bs :
  mbuf_wf h -> zlen bs <= rem h ->
  let h' := mkMBuf (mbuf_id h) (off_ h) (len_ h) (pkt_len_ h)
              (zsplice (off_ h + len_ h) bs (mbuf_data_ h)) in
  mbuf_wf h' /\ mbuf_bytes h' = mbuf_bytes h.
Proof.
  intros Hh Hk. destruct (rem_wf h Hh) as [Hr _]. destruct Hh. pose proof (zlen_nonneg bs).
  split; [constructor; cbn; rewrite ?zlen_zsplice; lia|].
  apply zrange_zsplice_before; lia.
Qed.

Lemma chain_bytes_snoc c t h :
  tail_ c = t ++ [h] -> chain_bytes c = concat (map mbuf_bytes t) ++ mbuf_bytes h.
Proof.
  intros Ht. unfold chain_bytes. rewrite Ht, map_app, concat_app. cbn. by rewrite app_nil_r.
Qed.

Definition stream_room (c : MBufChain) (h : MBuf) (len pos : Z) : Z :=
  Z.min (Z.min (rem h) (len - pos)) (kSizeMax - size_ c).

Lemma stream_copy_spec c t h src len pos :
  chain_wf c -> tail_ c = t ++ [h] -> 0 < rem h -> 0 <= pos < len ->
  let k := stream_room c h len pos in
  match stream_copy h c src len pos with
  | (c', pos', None) => c' = c /\ pos' = pos /\ size_ c = kSizeMax
  | (c', pos', Some true) => 0 < k /\ pos + k <= zlen src /\ pos' = pos + k /\ chain_wf c' /\
      (exists h', tail_ c' = t ++ [h']) /\ chain_bytes c' = chain_bytes c ++ zrange pos k src /\
      size_ c' = size_ c + k
  | (c', pos', Some false) => zlen src < pos + k /\ pos' = pos /\ chain_wf c' /\
      chain_bytes c' = chain_bytes c
  end.
Proof.
  intros Hc Ht Hrem Hpos k. pose proof (chain_size_nonneg c Hc) as Hs0.
  destruct payload_bounds as [HP HM]. pose proof (cw_max _ Hc) as Hmax.
  assert (mbuf_wf h) as Hh.
  { destruct Hc as [[] _ _]. rewrite Ht in cs_tail0. by apply Forall_app in cs_tail0 as [_ [? _]%Forall_cons]. }
  destruct (rem_wf h Hh) as [Hr _]. pose proof (mw_off h Hh). pose proof (mw_len h Hh).
  unfold stream_copy. fold (stream_room c h len pos).
  rewrite (wrap_small 64 (size_ c + _)), (wrap_small 64 (kSizeMax - _)) by lia.
  set (over := kSizeMax <? size_ c + Z.min (rem h) (len - pos)).
  assert ((if over then kSizeMax - size_ c else Z.min (rem h) (len - pos)) = k) as ->
    by (unfold over, k, stream_room; case_if; lia).
  destruct (over && (k =? 0)) eqn:Hbreak.
  { split_and!; try done. unfold over, k, stream_room in *. lia. }
  assert (0 < k <= rem h) as Hk by (unfold over, k, stream_room in *; lia).
  destruct (copy_array_from_user src pos k) as [bytes ok] eqn:Hcopy.
  pose proof (copy_in_fault src pos k bytes ok ltac:(lia) ltac:(lia) Hcopy) as Hlen.
  pose proof (chain_bytes_snoc _ _ _ Ht) as Hb. destruct ok.
  - apply copy_in_ok in Hcopy as (-> & Hl & Hsrc); [|lia..].
    destruct (append_mbuf h (zrange pos k src) (pkt_len_ h) Hh) as [Hh' Hb']; [lia|].
    rewrite Hl in Hh', Hb'. cbn zeta in *. set (h' := mkMBuf _ _ _ _ _) in *.
    destruct (put_mbuf_spec [] c t h h') as [Hstr Ht']; [apply Hc|done..|].
    set (c' := set_size _ _).
    assert (chain_bytes c' = chain_bytes c ++ zrange pos k src) as Hbytes.
    { rewrite (chain_bytes_snoc c' t h'), Hb', Hb, app_assoc; done. }
    assert (size_ c' = size_ c + k) as Hsz.
    { cbn. apply wrap_small. unfold k, stream_room. lia. }
    split_and!; try done; try lia; [|by exists h'].
    constructor; [by destruct Hstr| |unfold k, stream_room in *; lia].
    rewrite Hsz, Hbytes, zlen_app, Hl. rewrite (cw_size _ Hc). lia.
  - destruct (garbage_mbuf h bytes Hh) as [Hh' Hb']; [lia|]. cbn zeta in *.
    set (h' := mkMBuf _ _ _ _ _) in *.
    destruct (put_mbuf_spec [] c t h h') as [Hstr Ht']; [apply Hc|done..|].
    assert (chain_bytes (put_mbuf h' c) = chain_bytes c) as Hbytes.
    { by rewrite (chain_bytes_snoc _ t h'), Hb', Hb. }
    unfold copy_array_from_user in Hcopy. injection Hcopy as _ ?%Z.leb_gt.
    split_and!; try done. constructor; [done|rewrite Hbytes; apply Hc|apply Hc].
Qed.

(** What a stream write from [pos] does: it appends the next [n] bytes of the user
    memory, all that the limit leaves room for unless an allocation or a copy fails. *)
Definition stream_write_post (mem : Z -> bool) (src : user_in_ptr) (len : Z) (c : MBufChain)
    (pos : Z) (r : MBufChain * Z * bool) : Prop :=
  let '(c', pos', ok) := r in
  let want := Z.min (Z.max 0 (len - pos)) (kSizeMax - size_ c) in
  exists n, 0 <= n <= want /\ pos' = pos + n /\ chain_wf c' /\
    chain_bytes c' = chain_bytes c ++ zrange pos n src /\ size_ c' = size_ c + n /\
    if ok then n = want \/ exists i, mem i = false else zlen src < pos + want.

Lemma stream_write_stop mem src len c c' pos (ok : bool) :
  chain_wf c' -> chain_bytes c' = chain_bytes c -> size_ c' = size_ c ->
  (if ok then len <= pos \/ size_ c = kSizeMax \/ (exists i, mem i = false)
   else zlen src < pos + Z.min (Z.max 0 (len - pos)) (kSizeMax - size_ c)) ->
  stream_write_post mem src len c pos (c', pos, ok).
Proof.
  intros Hc Hb Hs Hok. pose proof (cw_max _ Hc). exists 0.
  unfold zrange. rewrite ztake_le_0, app_nil_r by lia.
  split_and!; try done; try lia. destruct ok; [|done].
  destruct Hok as [?|[?|?]]; [left; lia..|by right].
Qed.

Lemma stream_write_step mem src len c c1 pos k r :
  0 <= pos -> 0 <= k <= len - pos -> size_ c1 <= kSizeMax -> size_ c1 = size_ c + k ->
  chain_bytes c1 = chain_bytes c ++ zrange pos k src ->
  stream_write_post mem src len c1 (pos + k) r -> stream_write_post mem src len c pos r.
Proof.
  intros Hpos Hk Hmax Hs Hb. destruct r as [[c' pos'] ok].
  intros (n & Hn & -> & Hc' & Hb' & Hs' & Hok). exists (k + n).
  split_and!; [lia|lia|lia|done| |lia|].
  - by rewrite Hb', Hb, <-app_assoc, zrange_app by lia.
  - destruct ok; [destruct Hok; [left; lia|by right]|lia].
Qed.

(** The head with room, allocated if necessary. *)
Lemma stream_head_spec mem c t h :
  chain_wf c -> tail_ c = t ++ [h] ->
  let '(c1, next) := if rem h =? 0
                     then let '(c, next) := AllocMBuf mem c in
                          (match next with Some n => link_mbuf n c | None => c end, next)
                     else (c, Some h) in
  chain_wf c1 /\ chain_bytes c1 = chain_bytes c /\ size_ c1 = size_ c /\
  match next with
  | Some h1 => 0 < rem h1 /\ exists t1, tail_ c1 = t1 ++ [h1]
  | None => exists i, mem i = false
  end.
Proof.
  intros Hc Ht. assert (mbuf_wf h) as Hh.
  { destruct Hc as [[] _ _]. rewrite Ht in cs_tail0. by apply Forall_app in cs_tail0 as [_ [? _]%Forall_cons]. }
  destruct (rem_wf h Hh) as [_ Hr]. destruct (Z.eqb_spec (rem h) 0); [|by eauto 10 with lia].
  destruct (AllocMBuf mem c) as [c1 r] eqn:Ha.
  apply (AllocMBuf_spec mem []) in Ha as (Et & _ & Es & Hr1); [|apply Hc].
  assert (chain_bytes c1 = chain_bytes c) as Eb by (unfold chain_bytes; by rewrite Et).
  destruct r as [m|].
  - destruct Hr1 as [Hstr (Hm & Ho & Hl)]. destruct (link_mbuf_spec m [] c1 Hstr Hm) as [Hstr' Ht'].
    assert (chain_bytes (link_mbuf m c1) = chain_bytes c) as Eb'.
    { rewrite (chain_bytes_snoc _ (tail_ c1) m) by done. fold (chain_bytes c1). rewrite Eb.
      unfold mbuf_bytes. rewrite Hl. unfold zrange. by rewrite ztake_le_0, app_nil_r by lia. }
    destruct (rem_wf m Hm) as [Hrm _]. destruct payload_bounds, Hc as [_ Hsz Hmx].
    split_and!; try done; [|lia|by eauto]. constructor; [done|by rewrite Eb'; cbn; rewrite Es|].
    cbn. by rewrite Es.
  - destruct Hr1 as (Hstr & Hf & _), Hc as [_ Hsz Hmx].
    split_and!; try done; [|by eauto]. constructor; [done|by rewrite Eb, Es|by rewrite Es].
Qed.

Lemma stream_loop_spec mem src len fuel :
  forall c pos t h, chain_wf c -> tail_ c = t ++ [h] -> 0 <= pos ->
  (Z.to_nat (len - pos) <= fuel)%nat ->
  exists r, stream_loop fuel mem c src len pos = Some r /\ stream_write_post mem src len c pos r.
Proof.
  induction fuel as [|fuel IH]; intros c pos t h Hc Ht Hpos Hfuel; cbn [stream_loop].
  all: destruct (Z.ltb_spec pos len); [|by eauto 10 using stream_write_stop].
  { lia. }
  rewrite (get_head_last [] c t h) by (apply Hc || done).
  pose proof (stream_head_spec mem c t h Hc Ht) as Hhead.
  destruct (if rem h =? 0 then _ else _) as [c1 next].
  destruct Hhead as (Hc1 & Hb1 & Hs1 & Hnext). destruct next as [h1|].
  2: { eexists. split; [done|]. by apply stream_write_stop; eauto. }
  destruct Hnext as [Hrem [t1 Ht1]].
  pose proof (stream_copy_spec c1 t1 h1 src len pos Hc1 Ht1 Hrem ltac:(lia)) as Hcopy.
  cbn zeta in Hcopy. destruct (stream_copy h1 c1 src len pos) as [[c2 pos2] [[|]|]].
  - destruct Hcopy as (Hk & Hsrc & -> & Hc2 & [h2 Ht2] & Hb2 & Hs2).
    unfold stream_room in *. set (k := Z.min _ _) in *.
    edestruct (IH c2 (pos + k)) as (r & -> & Hr); [done|done|lia|lia|].
    eexists. split; [done|]. pose proof (cw_max _ Hc2).
    apply (stream_write_step _ _ _ _ c2 _ k); try done; try lia. by rewrite Hb2, Hb1.
  - destruct Hcopy as (Hsrc & -> & Hc2 & Hb2). eexists. split; [done|].
    assert (size_ c2 = size_ c1) by (rewrite (cw_size _ Hc2), (cw_size _ Hc1); by rewrite Hb2).
    apply stream_write_stop; [done|by rewrite Hb2|lia|]. unfold stream_room in *. lia.
  - destruct Hcopy as (-> & -> & Hfull). eexists. split; [done|].
    apply stream_write_stop; try done. right. left. lia.
Qed.

(** [WriteStream] and [Read] in stream mode, on every branch. *)
Definition WriteStream_post (mem : Z -> bool) (c : MBufChain) (src : user_in_ptr) (len : Z)
    (r : MBufChain * zx_status_t * Z) : Prop :=
  let '(c', st, written) := r in
  let want := Z.min len (kSizeMax - size_ c) in
  exists n, 0 <= n <= want /\ chain_wf c' /\ size_ c' = size_ c + n /\
    chain_bytes c' = chain_bytes c ++ ztake n src /\
    match st with
    | ZX_OK => written = n /\ 0 < n /\ (n = want \/ exists i, mem i = false)
    | ZX_ERR_SHOULD_WAIT => n = 0 /\ written = 0 /\ (want = 0 \/ exists i, mem i = false)
    | ZX_ERR_INVALID_ARGS => written = 0 /\ zlen src < want
    | _ => False
    end.

Lemma WriteStream_loop mem c c1 t h src len :
  chain_wf c1 -> tail_ c1 = t ++ [h] -> chain_bytes c1 = chain_bytes c -> size_ c1 = size_ c ->
  0 <= len ->
  exists r, match stream_loop (Z.to_nat len) mem c1 src len 0 with
    | None => None
    | Some (c, _, false) => Some (c, ZX_ERR_INVALID_ARGS, 0)
    | Some (c, pos, true) => if pos =? 0 then Some (c, ZX_ERR_SHOULD_WAIT, 0) else Some (c, ZX_OK, pos)
    end = Some r /\ WriteStream_post mem c src len r.
Proof.
  intros Hc1 Ht1 Hb1 Hs1 Hlen.
  destruct (stream_loop_spec mem src len (Z.to_nat len) c1 0 t h) as ([[c' pos] ok] & -> & Hr);
    [done|done|lia|lia|]. destruct Hr as (n & Hn & -> & Hc' & Hb' & Hs' & Hok).
  rewrite Hs1, Hb1, Z.sub_0_r, Z.max_r in * by done.
  unfold zrange in Hb'. rewrite zdrop_le_0 in Hb' by lia. destruct ok.
  - rewrite Z.add_0_l. destruct (Z.eqb_spec n 0); eexists; (split; [done|]); exists n; split_and!;
      try done; try lia. destruct Hok; [left; lia|by right].
  - eexists. split; [done|]. exists n. split_and!; try done; lia.
Qed.

Lemma WriteStream_spec mem c src len :
  chain_wf c -> 0 <= len ->
  exists r, WriteStream mem c src len = Some r /\ WriteStream_post mem c src len r.
Proof.
  intros Hc Hlen. pose proof (cs_head _ _ (cw_str _ Hc)) as Hhead. pose proof (cw_max _ Hc).
  unfold WriteStream. destruct (head_ c) as [i|] eqn:Hh; cbn [negb].
  - destruct (exists_last (l := tail_ c)) as (t & m & Ht); [by intros E; rewrite E in Hhead|].
    by apply (WriteStream_loop _ _ _ t m).
  - symmetry in Hhead. apply last_None, map_eq_nil in Hhead as Ht.
    destruct (AllocMBuf mem c) as [c1 r] eqn:Ha.
    apply (AllocMBuf_spec mem []) in Ha as (Et & Eh & Es & Hr1); [|apply Hc].
    assert (chain_bytes c1 = chain_bytes c) as Eb by (unfold chain_bytes; by rewrite Et).
    destruct r as [m|]; cbn [negb].
    + destruct Hr1 as [Hstr (Hm & Ho & Hl)]. destruct (link_mbuf_spec m [] c1 Hstr Hm) as [Hstr' Ht'].
      assert (set_head (Some (mbuf_id m)) (set_tail (m :: tail_ c1) c1) = link_mbuf m c1) as ->
        by (unfold link_mbuf; by rewrite Eh, Hh).
      assert (chain_bytes (link_mbuf m c1) = chain_bytes c) as Eb'.
      { rewrite (chain_bytes_snoc _ (tail_ c1) m) by done. fold (chain_bytes c1). rewrite Eb.
        unfold mbuf_bytes. rewrite Hl. unfold zrange. by rewrite ztake_le_0, app_nil_r by lia. }
      apply (WriteStream_loop _ _ _ (tail_ c1) m); try done.
      constructor; [done|rewrite Eb'; cbn; rewrite Es; apply Hc|by cbn; rewrite Es].
    + destruct Hr1 as (Hstr & Hf & _). eexists. split; [done|]. exists 0.
      rewrite ztake_le_0, app_nil_r by lia. split_and!; try done; try lia; [|by eauto].
      constructor; [done|rewrite Eb, Es; apply Hc|by rewrite Es].
Qed.

Lemma Read_stream_spec c dst len :
  chain_wf c -> 0 <= len ->
  exists c' st actual out, Read c dst len false = Some (c', st, actual, out) /\
    chain_wf c' /\ out ++ chain_bytes c' = chain_bytes c /\
    match st with
    | ZX_OK => actual = Z.min len (size_ c) /\ zlen out = actual
    | ZX_ERR_INVALID_ARGS => actual = 0 /\ dst < Z.min len (size_ c)
    | _ => False
    end.
Proof.
  intros Hc Hlen. pose proof (chain_size_nonneg c Hc). unfold Read, clip_len. cbn [andb].
  destruct (Z.eqb_spec (size_ c) 0) as [|Hne].
  { eexists c, ZX_OK, 0, []. split_and!; try done. lia. }
  destruct (read_loop_stream dst len (S (length (tail_ c))) c 0 [] Hc ltac:(lia))
    as ([[[c' pos] out] ok] & -> & n & Hn & -> & -> & Hc' & Hb' & Hok).
  assert (ztake n (chain_bytes c) ++ chain_bytes c' = chain_bytes c) by (by rewrite Hb', ztake_zdrop).
  assert (zlen (ztake n (chain_bytes c)) = n).
  { rewrite zlen_ztake, <-(cw_size _ Hc). lia. }
  destruct ok; eexists _, _, _, _; (split; [done|]); split_and!; try done; try lia.
Qed.

(** ** Datagrams *)

Definition group_bytes (g : list MBuf) : list byte := concat (map mbuf_bytes g).

(** The mbufs of one datagram: the first one records the length of the whole, none is
    empty, and a datagram that fits in one mbuf uses one. The [pkt_len_] of the others
    is whatever the last use of the mbuf left there. *)
Record group_wf (g : list MBuf) : Prop := {
  gw_first : match g with [] => False | m :: _ => pkt_len_ m = zlen (group_bytes g) end;
  gw_len : Forall (fun m => 0 < len_ m) g;
  gw_one : zlen (group_bytes g) <= kPayloadSize -> length g = 1%nat;
}.

(** The datagrams queued in a chain, oldest first. *)
Definition chain_dgrams (c : MBufChain) (ds : list (list byte)) : Prop :=
  exists gs, tail_ c = concat gs /\ Forall group_wf gs /\ ds = map group_bytes gs.

Lemma zlen_group_bytes g : Forall mbuf_wf g -> Forall (fun m => 0 < len_ m) g -> 
  g <> [] -> 0 < zlen (group_bytes g).
Proof.
  destruct g as [|m g]; [done|]. intros [Hm _]%Forall_cons [Hl _]%Forall_cons _.
  unfold group_bytes. cbn. rewrite zlen_app, zlen_mbuf_bytes by done.
  pose proof (zlen_nonneg (concat (map mbuf_bytes g))). lia.
Qed.

Lemma read_loop_dgram_done fuel c dst len pos out :
  len <= pos -> read_loop fuel c dst len true pos out = Some (c, pos, out, true).
Proof.
  intros. destruct fuel; cbn; destruct (tail_ c); try done; by destruct (Z.ltb_spec pos len); [lia|].
Qed.

(** One iteration in datagram mode: the front mbuf goes, whatever is left in it. *)
Lemma read_loop_dgram_step fuel c m rest dst len pos out :
  chain_wf c -> tail_ c = m :: rest -> 0 <= pos < len ->
  let k := Z.min (len_ m) (len - pos) in pos + k <= dst ->
  exists c', chain_wf c' /\ tail_ c' = rest /\
    read_loop (S fuel) c dst len true pos out =
      read_loop fuel c' dst len true (pos + k) (out ++ ztake k (mbuf_bytes m)).
Proof.
  intros Hc Ht Hpos k Hdst. destruct (chain_wf_front c m rest Hc Ht) as (Hm & Hb & Hl).
  assert (0 <= k <= len_ m) as Hk by lia.
  destruct (advance_front c m rest k Hc Ht Hk) as [Hc1 _].
  destruct (drop_front_wf _ (advance k m) rest Hc1 eq_refl) as [Hc2 Ht2].
  eexists. split; [exact Hc2|split; [exact Ht2|]]. cbn [read_loop]. rewrite Ht.
  destruct (Z.ltb_spec pos len); [|lia]. fold k. unfold copy_array_to_user.
  destruct (Z.leb_spec (pos + k) dst); [|lia]. cbn [negb]. rewrite orb_true_r. f_equal.
  f_equal. unfold mbuf_bytes, zrange. rewrite ztake_ztake. f_equal. lia.
Qed.

(** Reading a whole datagram removes its mbufs. *)
Lemma read_loop_dgram dst len g :
  forall fuel c pos out rest,
  chain_wf c -> tail_ c = g ++ rest -> Forall (fun m => 0 < len_ m) g -> (length g <= fuel)%nat ->
  0 <= pos -> len - pos = zlen (group_bytes g) -> len <= dst ->
  exists c', read_loop fuel c dst len true pos out = Some (c', len, out ++ group_bytes g, true) /\
    chain_wf c' /\ tail_ c' = rest.
Proof.
  induction g as [|m g IH]; intros fuel c pos out rest Hc Ht Hlen Hfuel Hpos Hz Hdst.
  - change (zlen _) with 0 in Hz. exists c. rewrite read_loop_dgram_done by lia.
    cbn. rewrite app_nil_r. split_and!; try done. repeat f_equal; lia.
  - destruct fuel as [|fuel]; [cbn in Hfuel; lia|]. apply Forall_cons in Hlen as [Hm Hlen].
    destruct (chain_wf_front c m (g ++ rest) Hc Ht) as (Hwf & _ & _).
    assert (zlen (group_bytes (m :: g)) = len_ m + zlen (group_bytes g)) as Hsum.
    { unfold group_bytes. cbn. by rewrite zlen_app, zlen_mbuf_bytes. }
    pose proof (zlen_nonneg (group_bytes g)).
    destruct (read_loop_dgram_step fuel c m (g ++ rest) dst len pos out) as (c1 & Hc1 & Ht1 & ->);
      [done|done|lia|lia|].
    rewrite Z.min_l, ztake_ge by (rewrite ?zlen_mbuf_bytes by done; lia).
    destruct (IH fuel c1 (pos + len_ m) (out ++ mbuf_bytes m) rest) as (c' & -> & Hc' & Ht');
      try done; [cbn in Hfuel; lia|lia|lia|].
    exists c'. split; [|done]. by rewrite <-app_assoc.
Qed.

(** Abstract datagram queue: at most one datagram per read, the rest of it discarded. *)
Definition dgram_read_spec (ds : list (list byte)) (dst len : Z)
    : list (list byte) * zx_status_t * Z * list byte :=
  match ds with
  | [] => ([], ZX_OK, 0, [])
  | d :: ds' =>
      let n := Z.min len (zlen d) in
      if n =? 0 then (ds, ZX_OK, 0, []) else
      if dst <? n then (ds, ZX_ERR_INVALID_ARGS, 0, []) else (ds', ZX_OK, n, ztake n d)
  end.

(** Reads for which the chain is that queue: the datagram fits in one mbuf, or it is
    read whole. *)
Definition dgram_read_ok (ds : list (list byte)) (dst len : Z) : Prop :=
  0 <= len /\
  match ds with
  | [] => True
  | d :: _ => zlen d <= kPayloadSize \/ zlen d <= len /\ zlen d <= dst
  end.

Lemma drain_groups gs c :
  Forall mbuf_wf (concat gs) -> Forall group_wf gs -> drain_loop (concat gs) c = c.
Proof.
  intros Hwf Hgs. destruct gs as [|g gs]; [done|]. apply Forall_cons in Hgs as [[Hf Hl _] _].
  destruct g as [|m g]; [done|]. apply Forall_app in Hwf as [Hwf _].
  pose proof (zlen_group_bytes _ Hwf Hl ltac:(done)). cbn.
  by destruct (Z.eqb_spec (pkt_len_ m) 0); [lia|].
Qed.

Lemma group_front c g gs :
  chain_wf c -> tail_ c = g ++ concat gs -> group_wf g ->
  Forall mbuf_wf (concat gs) /\ 0 < zlen (group_bytes g) /\ size_ c <> 0 /\
  front_pkt_len c = zlen (group_bytes g).
Proof.
  intros Hc Ht [Hf Hl _]. pose proof (cs_tail _ _ (cw_str _ Hc)) as Hwf. rewrite Ht in Hwf.
  apply Forall_app in Hwf as [Hwf Hrest]. destruct g as [|m g]; [done|].
  pose proof (zlen_group_bytes _ Hwf Hl ltac:(done)).
  split_and!; try done.
  - rewrite (cw_size _ Hc). unfold chain_bytes. rewrite Ht, map_app, concat_app, zlen_app.
    fold (group_bytes (m :: g)). pose proof (zlen_nonneg (concat (map mbuf_bytes (concat gs)))). lia.
  - unfold front_pkt_len. by rewrite Ht.
Qed.

(** The loop on a datagram that is one mbuf. *)
Lemma read_loop_dgram_one fuel c g rest dst n :
  chain_wf c -> tail_ c = g ++ rest -> group_wf g -> zlen (group_bytes g) <= kPayloadSize ->
  0 < n <= zlen (group_bytes g) ->
  exists c', read_loop (S fuel) c dst n true 0 [] =
      Some (if dst <? n then (c, 0, [], false) else (c', n, ztake n (group_bytes g), true)) /\
    if dst <? n then True else chain_wf c' /\ tail_ c' = rest.
Proof.
  intros Hc Ht [_ _ Hone] Hsmall Hn. specialize (Hone Hsmall).
  destruct g as [|m [|]]; try done. cbn in Ht.
  destruct (chain_wf_front c m rest Hc Ht) as (Hm & _ & _).
  assert (group_bytes [m] = mbuf_bytes m) as Eg by (unfold group_bytes; cbn; by rewrite app_nil_r).
  rewrite Eg in *. rewrite zlen_mbuf_bytes in Hn by done. destruct (Z.ltb_spec dst n).
  - exists c. split; [|done]. cbn [read_loop]. rewrite Ht. destruct (Z.ltb_spec 0 n); [|lia].
    unfold copy_array_to_user. destruct (Z.leb_spec (0 + Z.min (len_ m) (n - 0)) dst); [lia|done].
  - destruct (read_loop_dgram_step fuel c m rest dst n 0 []) as (c1 & Hc1 & Ht1 & ->);
      [done|done|lia|lia|]. exists c1. rewrite Z.min_r by lia.
    rewrite read_loop_dgram_done by lia. by rewrite Z.sub_0_r.
Qed.

Lemma Read_dgram_spec c ds dst len :
  chain_wf c -> chain_dgrams c ds -> dgram_read_ok ds dst len ->
  exists c' ds' st actual out,
    Read c dst len true = Some (c', st, actual, out) /\ chain_wf c' /\ chain_dgrams c' ds' /\
    dgram_read_spec ds dst len = (ds', st, actual, out).
Proof.
  intros Hc (gs & Ht & Hgs & ->) [Hlen Hok]. unfold Read.
  destruct gs as [|g gs].
  { assert (size_ c = 0) as -> by (rewrite (cw_size _ Hc); unfold chain_bytes; by rewrite Ht).
    exists c. eexists _, _, _, _. split_and!; try done. by exists []. }
  apply Forall_cons in Hgs as [Hg Hgs]. cbn [concat map dgram_read_spec] in *.
  destruct (group_front c g gs Hc Ht Hg) as (Hrest & Hd & Hsz & Hfront).
  destruct (Z.eqb_spec (size_ c) 0) as [|_]; [done|]. unfold clip_len. rewrite Hfront. cbn [andb].
  replace (if _ <? len then _ else len) with (Z.min len (zlen (group_bytes g))) by (case_if; lia).
  set (n := Z.min len _). destruct (Z.eqb_spec n 0) as [E|].
  { rewrite read_loop_dgram_done by lia. rewrite Ht.
    assert (concat (g :: gs) = g ++ concat gs) as <- by done.
    rewrite drain_groups; [|cbn; by rewrite <-Ht; apply Hc|by constructor].
    eexists _, _, _, _, _. split_and!; try done.
    exists (g :: gs). by split_and!; [|constructor|]. }
  assert (forall c', chain_wf c' -> tail_ c' = concat gs -> chain_wf (drain_loop (tail_ c') c') /\
    chain_dgrams (drain_loop (tail_ c') c') (map group_bytes gs)) as Hdrain.
  { intros c' Hc' Ht'. rewrite Ht', drain_groups by done. split; [done|]. by exists gs. }
  destruct Hok as [Hsmall|[Hfull Hdst]].
  - destruct (read_loop_dgram_one (length (tail_ c)) c g (concat gs) dst n) as (c' & -> & Hc'); try done; [lia|].
    destruct (dst <? n).
    + eexists _, _, _, _, _. split_and!; try done. exists (g :: gs). by split_and!; [|constructor|].
    + destruct Hc' as [Hc' Ht']. destruct (Hdrain c' Hc' Ht'). by eexists _, _, _, _, _.
  - assert (n = zlen (group_bytes g)) as -> by lia.
    destruct (read_loop_dgram dst (zlen (group_bytes g)) g (S (length (tail_ c))) c 0 [] (concat gs))
      as (c' & -> & Hc' & Ht'); try done; try lia; [apply Hg|rewrite Ht, length_app; lia|].
    destruct (Z.ltb_spec dst (zlen (group_bytes g))); [lia|].
    destruct (Hdrain c' Hc' Ht'). eexists _, _, _, _, _. split_and!; try done.
    by rewrite ztake_ge by lia.
Qed.

Lemma alloc_loop_spec mem need :
  forall c bufs c' bufs' ok, chain_str bufs c -> Forall free_wf bufs ->
  alloc_loop mem need c bufs = (c', bufs', ok) ->
  chain_str bufs' c' /\ Forall free_wf bufs' /\ tail_ c' = tail_ c /\ size_ c' = size_ c /\
  if ok then length bufs' = (need + length bufs)%nat else exists i, mem i = false.
Proof.
  induction need as [|need IH]; cbn [alloc_loop]; intros c bufs c' bufs' ok Hstr Hfree.
  { by intros [= <- <- <-]. }
  destruct (AllocMBuf mem c) as [c1 r] eqn:Ha.
  apply (AllocMBuf_spec mem bufs) in Ha as (Et & _ & Es & Hr); [|done]. destruct r as [m|].
  - destruct Hr as [Hstr1 Hm]. intros H%IH; [|done|by constructor].
    destruct H as (? & ? & Et' & Es' & Hok). split_and!; try congruence.
    destruct ok; [cbn in Hok; lia|done].
  - intros [= <- <- <-]. destruct Hr as (? & ? & _). by eauto 10.
Qed.

Lemma fill_mbuf src pos k m :
  free_wf m -> 0 <= pos -> 0 <= k <= kPayloadSize ->
  let data := zsplice 0 (zrange pos k src) (mbuf_data_ m) in
  zlen data = kPayloadSize /\
  (pos + k <= zlen src ->
   let m' := mkMBuf (mbuf_id m) (off_ m) (wrap32 (len_ m + k)) (pkt_len_ m) data in
   mbuf_wf m' /\ len_ m' = k /\ mbuf_bytes m' = zrange pos k src).
Proof.
  intros ([Hw1 Hw2 Hw3 Hw4] & Ho & Hl) Hpos Hk data. destruct payload_bounds.
  assert (zlen (zrange pos k src) <= k) by (rewrite zlen_zrange; lia).
  pose proof (zlen_nonneg (zrange pos k src)).
  assert (zlen data = kPayloadSize) by (unfold data; rewrite zlen_zsplice; lia).
  split; [done|]. intros Hsrc. assert (zlen (zrange pos k src) = k) as E by (rewrite zlen_zrange; lia).
  cbn zeta. rewrite Ho, Hl. rewrite wrap_small by lia. split_and!.
  - constructor; cbn; lia.
  - cbn. lia.
  - unfold mbuf_bytes. cbn. unfold data. rewrite zrange_zsplice_in by lia.
    unfold zrange at 1. rewrite zdrop_le_0 by lia. apply ztake_ge. lia.
Qed.

Lemma fill_loop_spec src len bufs :
  forall pos bufs' ok, Forall free_wf bufs -> 0 <= pos <= zlen src ->
  (zlen bufs - 1) * kPayloadSize < len - pos <= zlen bufs * kPayloadSize ->
  fill_loop src len pos bufs = (bufs', ok) ->
  map mbuf_id bufs' = map mbuf_id bufs /\
  Forall (fun m => zlen (mbuf_data_ m) = kPayloadSize) bufs' /\
  ok = (len <=? zlen src) /\
  (ok = true -> Forall mbuf_wf bufs' /\ Forall (fun m => 0 < len_ m) bufs' /\
     group_bytes bufs' = zrange pos (len - pos) src).
Proof.
  destruct payload_bounds as [HP _].
  induction bufs as [|m bufs IH]; cbn [fill_loop]; intros pos bufs' ok Hfree Hpos Hlen.
  { rewrite zlen_nil in Hlen. intros [= <- <-]. unfold zrange. rewrite ztake_le_0 by lia.
    split_and!; try done. symmetry. apply Z.leb_le. lia. }
  apply Forall_cons in Hfree as [Hm Hfree]. rewrite zlen_cons in Hlen.
  set (k := Z.min kPayloadSize (len - pos)). pose proof (zlen_nonneg bufs).
  assert (0 < k <= kPayloadSize) as Hk by nia.
  destruct (fill_mbuf src pos k m Hm ltac:(lia) ltac:(lia)) as [Hd Hfill].
  unfold copy_array_from_user. destruct (Z.leb_spec (pos + k) (zlen src)) as [Hsrc|Hsrc].
  - destruct (fill_loop src len (pos + k) bufs) as [rest ok1] eqn:Hf. intros [= <- <-].
    destruct (Hfill Hsrc) as (Hwf & Hl & Hb).
    apply IH in Hf as (Hids & Hdata & Hok & Hdone); [|done|lia|nia].
    split_and!; [by cbn; rewrite Hids|by constructor|done|].
    + intros Hok1. destruct (Hdone Hok1) as (Hw & Hp & Hbytes).
      split_and!; [by constructor|constructor; [lia|done]|].
      unfold group_bytes in *. cbn [map concat]. rewrite Hb, Hbytes, <-zrange_app by lia.
      f_equal. lia.
  - intros [= <- <-]. cbn. split_and!; try done.
    + constructor; [done|]. eapply Forall_impl; [exact Hfree|]. intros x [[] _]. done.
    + symmetry. apply Z.leb_gt. lia.
Qed.

Lemma chain_str_ids held held' c :
  map mbuf_id held' = map mbuf_id held -> chain_str held c -> chain_str held' c.
Proof.
  intros Hids Hc. destruct (ids_perm (next_ c) (tail_ c ++ freelist_ c ++ held)
    (tail_ c ++ freelist_ c ++ held')); [|by apply cs_pool|by destruct Hc].
  rewrite !map_app. by rewrite Hids.
Qed.

Lemma link_all_spec bufs :
  forall c, chain_str bufs c -> Forall mbuf_wf bufs ->
  let c' := fold_left (fun c next => link_mbuf next c) bufs c in
  chain_str [] c' /\ tail_ c' = tail_ c ++ bufs /\ size_ c' = size_ c.
Proof.
  induction bufs as [|m bufs IH]; cbn; intros c Hc Hwf; [by rewrite app_nil_r|].
  apply Forall_cons in Hwf as [Hm Hwf]. destruct (link_mbuf_spec m bufs c Hc Hm) as [Hc1 Ht1].
  destruct (IH (link_mbuf m c) Hc1 Hwf) as (Hc' & Ht' & Hs'). rewrite Ht', Ht1, <-app_assoc. done.
Qed.

Lemma set_front_spec len bufs :
  map mbuf_id (set_front_pkt_len len bufs) = map mbuf_id bufs /\
  group_bytes (set_front_pkt_len len bufs) = group_bytes bufs /\
  length (set_front_pkt_len len bufs) = length bufs /\
  (Forall mbuf_wf bufs -> Forall mbuf_wf (set_front_pkt_len len bufs)) /\
  (Forall (fun m => 0 < len_ m) bufs -> Forall (fun m => 0 < len_ m) (set_front_pkt_len len bufs)).
Proof.
  destruct bufs as [|m bufs]; [done|]. cbn. split_and!; try done.
  - intros [[] ?]%Forall_cons. constructor; [by constructor|done].
  - intros [? ?]%Forall_cons. by constructor.
Qed.

Lemma need_bounds len :
  0 < len -> let need := 1 + (len - 1) / kPayloadSize in
  0 < need /\ (need - 1) * kPayloadSize < len <= need * kPayloadSize.
Proof.
  intros H need. destruct payload_bounds as [HP _].
  pose proof (Z.div_mod (len - 1) kPayloadSize ltac:(lia)).
  pose proof (Z.mod_pos_bound (len - 1) kPayloadSize ltac:(lia)).
  pose proof (Z.div_pos (len - 1) kPayloadSize ltac:(lia) ltac:(lia)). lia.
Qed.

(** [WriteDatagram] on every branch. *)
Definition WriteDatagram_post (mem : Z -> bool) (c : MBufChain) (ds : list (list byte))
    (src : user_in_ptr) (len : Z) (r : MBufChain * zx_status_t * Z) : Prop :=
  let '(c', st, written) := r in
  chain_wf c' /\
  match st with
  | ZX_OK => 0 < len /\ len + size_ c <= kSizeMax /\ len <= zlen src /\ written = len /\
             size_ c' = size_ c + len /\ chain_dgrams c' (ds ++ [ztake len src])
  | _ => written = 0 /\ tail_ c' = tail_ c /\ size_ c' = size_ c /\
      match st with
      | ZX_ERR_INVALID_ARGS => len = 0 \/ zlen src < len /\ len + size_ c <= kSizeMax
      | ZX_ERR_OUT_OF_RANGE => kSizeMax < len
      | ZX_ERR_SHOULD_WAIT => 0 < len <= kSizeMax /\
                              (kSizeMax < len + size_ c \/ exists i, mem i = false)
      | _ => False
      end
  end.

Lemma chain_wf_tail c c' :
  chain_wf c -> chain_str [] c' -> tail_ c' = tail_ c -> size_ c' = size_ c -> chain_wf c'.
Proof.
  intros [_ Hs Hm] Hc' Ht Es. constructor; [done| |lia].
  rewrite Es, Hs. unfold chain_bytes. by rewrite Ht.
Qed.

(** The filled mbufs, linked at the end of the chain, are one more datagram. *)
Lemma link_datagram c c1 ds bufs src len :
  chain_wf c -> chain_dgrams c ds -> chain_str bufs c1 -> tail_ c1 = tail_ c -> size_ c1 = size_ c ->
  Forall mbuf_wf bufs -> Forall (fun m => 0 < len_ m) bufs -> group_bytes bufs = ztake len src ->
  (len <= kPayloadSize -> length bufs = 1%nat) -> bufs <> [] ->
  0 < len -> len + size_ c <= kSizeMax -> len <= zlen src ->
  let c2 := fold_left (fun c next => link_mbuf next c) (set_front_pkt_len len bufs) c1 in
  let c3 := set_size (wrap64 (size_ c2 + len)) c2 in
  chain_wf c3 /\ size_ c3 = size_ c + len /\ chain_dgrams c3 (ds ++ [ztake len src]).
Proof.
  intros Hc (gs & Ht & Hgs & ->) Hstr Ht1 Hs1 Hwf Hpos Hbytes Hone Hne Hlen Hmax Hsrc c2 c3.
  destruct (set_front_spec len bufs) as (Hids & Hb & Hl & Hw & Hp). destruct payload_bounds.
  pose proof (chain_size_nonneg c Hc).
  destruct (link_all_spec (set_front_pkt_len len bufs) c1) as (Hc2 & Ht2 & Hs2);
    [by eapply chain_str_ids|by apply Hw|]. fold c2 in Hc2, Ht2, Hs2.
  assert (size_ c3 = size_ c + len) as Hs3 by (cbn; rewrite wrap_small; lia).
  assert (zlen (ztake len src) = len) as Hzl by (rewrite zlen_ztake; lia).
  split_and!; [|done|].
  - constructor; [by destruct Hc2| |lia]. rewrite Hs3, (cw_size _ Hc).
    unfold chain_bytes. cbn. rewrite Ht2, Ht1, map_app, concat_app, zlen_app.
    fold (group_bytes (set_front_pkt_len len bufs)). rewrite Hb, Hbytes. lia.
  - exists (gs ++ [set_front_pkt_len len bufs]). split_and!.
    + cbn. rewrite Ht2, Ht1, Ht, concat_app. cbn. by rewrite app_nil_r.
    + apply Forall_app_2; [done|]. constructor; [|done]. constructor; [|by apply Hp|].
      * rewrite Hb, Hbytes, Hzl. destruct bufs; [done|]. cbn. apply wrap_small. lia.
      * by rewrite Hb, Hbytes, Hzl, Hl.
    + rewrite map_app. cbn. by rewrite Hb, Hbytes.
Qed.

Lemma WriteDatagram_spec mem c ds src len :
  chain_wf c -> chain_dgrams c ds -> 0 <= len ->
  WriteDatagram_post mem c ds src len (WriteDatagram mem c src len).
Proof.
  intros Hc Hds Hlen. unfold WriteDatagram. pose proof (chain_size_nonneg c Hc).
  destruct payload_bounds. pose proof (cw_max _ Hc).
  destruct (Z.eqb_spec len 0); [by split_and!; auto|].
  destruct (Z.ltb_spec kSizeMax len); [by split_and!; auto|]. rewrite wrap_small by lia.
  destruct (Z.ltb_spec kSizeMax (len + size_ c)); [split_and!; auto; lia|].
  destruct (need_bounds len ltac:(lia)) as [Hn1 Hn2]. set (need := 1 + _) in *.
  destruct (alloc_loop mem (Z.to_nat need) c []) as [[c1 bufs] ok] eqn:Ha.
  apply alloc_loop_spec in Ha as (Hstr & Hfree & Et & Es & Hok); [|apply Hc|constructor].
  destruct ok.
  2: { destruct (free_all_spec bufs c1) as (Hstr' & Et' & Es'); [done| |].
       { eapply Forall_impl; [exact Hfree|]. by intros m [[] _]. }
       split_and!; try congruence; try lia; [|by right].
       apply (chain_wf_tail c); congruence || done. }
  assert (zlen bufs = need) as Hzb by (unfold zlen; rewrite Hok; cbn; lia).
  pose proof (zlen_nonneg src).
  destruct (fill_loop src len 0 bufs) as [bufs' ok'] eqn:Hf.
  apply fill_loop_spec in Hf as (Hids & Hd & Hok' & Hdone); [|done|lia|rewrite Hzb; lia].
  apply (chain_str_ids _ bufs') in Hstr; [|done]. destruct ok'.
  - destruct (Hdone eq_refl) as (Hw & Hp & Hb). symmetry in Hok'. apply Z.leb_le in Hok'.
    unfold zrange in Hb. rewrite zdrop_le_0, Z.sub_0_r in Hb by lia.
    assert (length bufs' = length bufs) as Hl by (by rewrite <-(length_map mbuf_id), Hids, length_map).
    edestruct (link_datagram c c1 ds bufs' src len) as (Hc3 & Hs3 & Hd3); try done.
    { intros. rewrite Hl. unfold zlen in Hzb. nia. }
    { intros ->. cbn in Hl. unfold zlen in Hzb. lia. } { lia. }
    unfold WriteDatagram_post. split_and!; try done; lia.
  - symmetry in Hok'. apply Z.leb_gt in Hok'.
    destruct (free_all_spec bufs' c1) as (Hstr' & Et' & Es'); [done..|].
    split_and!; try congruence; [|by right]. apply (chain_wf_tail c); congruence || done.
Qed.

(** ** Runs of a chain *)

Inductive ChainOp :=
| CWrite (src : user_in_ptr) (len : Z)
| CRead (dst : user_out_ptr) (len : Z).

Definition ChainResult : Type := zx_status_t * Z * list byte.

Definition chain_step (mem : Z -> bool) (datagram : bool) (c : MBufChain) (op : ChainOp)
    : option (MBufChain * ChainResult) :=
  match op with
  | CWrite src len =>
      if datagram
      then let '(c, st, n) := WriteDatagram mem c src len in Some (c, (st, n, []))
      else '(c, st, n) ← WriteStream mem c src len; Some (c, (st, n, []))
  | CRead dst len => '(c, st, n, out) ← Read c dst len datagram; Some (c, (st, n, out))
  end.

Fixpoint chain_run (mem : Z -> bool) (datagram : bool) (c : MBufChain) (ops : list ChainOp)
    : option (MBufChain * list ChainResult) :=
  match ops with
  | [] => Some (c, [])
  | op :: ops =>
      '(c, r) ← chain_step mem datagram c op; '(c, rs) ← chain_run mem datagram c ops;
      Some (c, r :: rs)
  end.

(** The abstract queues take a limit [g] on the bytes for which a write finds memory: any, but no
    limit when every allocation succeeds. *)
Definition grant_ok (mem : Z -> bool) (g : Z) : Prop :=
  0 <= g <= kSizeMax /\ ((forall i, mem i = true) -> g = kSizeMax).

(** A bounded queue of bytes. *)
Definition bytes_step (g : Z) (q : list byte) (op : ChainOp) : list byte * ChainResult :=
  match op with
  | CWrite src len =>
      let n := Z.min g (Z.min len (kSizeMax - zlen q)) in
      if n =? 0 then (q, (ZX_ERR_SHOULD_WAIT, 0, [])) else (q ++ ztake n src, (ZX_OK, n, []))
  | CRead dst len =>
      let n := Z.min len (zlen q) in (zdrop n q, (ZX_OK, n, ztake n q))
  end.

(** A bounded queue of datagrams. *)
Definition dgrams_step (g : Z) (ds : list (list byte)) (op : ChainOp) : list (list byte) * ChainResult :=
  match op with
  | CWrite src len =>
      if len =? 0 then (ds, (ZX_ERR_INVALID_ARGS, 0, [])) else
      if kSizeMax <? len then (ds, (ZX_ERR_OUT_OF_RANGE, 0, [])) else
      if kSizeMax <? len + zlen (concat ds) then (ds, (ZX_ERR_SHOULD_WAIT, 0, [])) else
      if g <? len then (ds, (ZX_ERR_SHOULD_WAIT, 0, [])) else
      if zlen src <? len then (ds, (ZX_ERR_INVALID_ARGS, 0, [])) else
      (ds ++ [ztake len src], (ZX_OK, len, []))
  | CRead dst len =>
      let '(ds, st, n, out) := dgram_read_spec ds dst len in (ds, (st, n, out))
  end.

(** The requests for which a stream chain is the byte queue: the user memory covers what the call
    accesses. *)
Definition stream_op_ok (q : list byte) (op : ChainOp) : Prop :=
  match op with
  | CWrite src len => 0 <= len /\ Z.min len (kSizeMax - zlen q) <= zlen src
  | CRead dst len => 0 <= len /\ Z.min len (zlen q) <= dst
  end.

(** The requests for which a datagram chain is the datagram queue: every write, whatever its memory,
    and the reads of [dgram_read_ok]. *)
Definition dgram_op_ok (ds : list (list byte)) (op : ChainOp) : Prop :=
  match op with CWrite _ len => 0 <= len | CRead dst len => dgram_read_ok ds dst len end.

Lemma chain_new_wf next : chain_wf (MBufChain_new next).
Proof. constructor; [constructor; cbn; try done; constructor|done..]. Qed.

Lemma chain_dgrams_size c ds : chain_wf c -> chain_dgrams c ds -> size_ c = zlen (concat ds).
Proof.
  intros Hc (gs & Ht & _ & ->). rewrite (cw_size _ Hc). unfold chain_bytes. rewrite Ht. f_equal.
  induction gs as [|g gs IH] in |- *; cbn; [done|]. rewrite map_app, concat_app.
  unfold group_bytes at 1. f_equal. exact IH.
Qed.

Lemma stream_step_spec mem c op :
  chain_wf c -> stream_op_ok (chain_bytes c) op ->
  exists g c' r, grant_ok mem g /\ chain_step mem false c op = Some (c', r) /\ chain_wf c' /\
    bytes_step g (chain_bytes c) op = (chain_bytes c', r).
Proof.
  intros Hc Hop. pose proof (cw_max _ Hc). pose proof (cw_size _ Hc) as Hsz. pose proof (chain_size_nonneg c Hc).
  assert (grant_ok mem kSizeMax) as Hall by (split; [done|by intros]).
  assert (forall n, 0 <= n <= kSizeMax -> (exists i, mem i = false) -> grant_ok mem n) as Hsome.
  { intros n Hn [i Hi]. split; [done|]. intros Ht. by rewrite Ht in Hi. }
  destruct op as [src len|dst len]; cbn [chain_step bytes_step stream_op_ok] in *; rewrite <-Hsz in *.
  - destruct (WriteStream_spec mem c src len Hc) as ([[c' st] w] & -> & Hr); [apply Hop|].
    destruct Hr as (n & Hn & Hc' & Hs' & Hb' & Hst).
    destruct st; try done.
    + destruct Hst as (-> & Hpos & [E|Hi]); [exists kSizeMax|exists n]; exists c'; eexists;
        (split; [by auto with lia|]); (split; [done|]); (split; [done|]).
      * destruct (Z.eqb_spec (Z.min kSizeMax (Z.min len (kSizeMax - size_ c))) 0); [lia|].
        rewrite Hb'. repeat f_equal; lia.
      * destruct (Z.eqb_spec (Z.min n (Z.min len (kSizeMax - size_ c))) 0); [lia|].
        rewrite Hb'. repeat f_equal; lia.
    + destruct Hst. lia.
    + destruct Hst as (-> & -> & [E|Hi]); [exists kSizeMax|exists 0]; exists c'; eexists;
        (split; [by auto with lia|]); (split; [done|]); (split; [done|]);
        rewrite ztake_le_0, app_nil_r in Hb' by lia; rewrite Hb';
        [destruct (Z.eqb_spec (Z.min kSizeMax (Z.min len (kSizeMax - size_ c))) 0)
        |destruct (Z.eqb_spec (Z.min 0 (Z.min len (kSizeMax - size_ c))) 0)]; done || lia.
  - destruct (Read_stream_spec c dst len Hc) as (c' & st & n & out & -> & Hc' & Hb & Hst); [apply Hop|].
    exists kSizeMax, c'. destruct st; try done; eexists; (split; [done|]); (split; [done|]); (split; [done|]).
    + destruct Hst as [-> Hout].
      by rewrite <-Hb, <-Hout, zdrop_app_exact, ztake_app_exact.
    + destruct Hst. lia.
Qed.

Lemma dgram_step_spec mem c ds op :
  chain_wf c -> chain_dgrams c ds -> dgram_op_ok ds op ->
  exists g c' r, grant_ok mem g /\ chain_step mem true c op = Some (c', r) /\ chain_wf c' /\
    chain_dgrams c' (fst (dgrams_step g ds op)) /\ snd (dgrams_step g ds op) = r.
Proof.
  intros Hc Hds Hop. assert (grant_ok mem kSizeMax) as Hall by (split; [done|by intros]).
  destruct op as [src len|dst len]; cbn [chain_step dgrams_step].
  - rewrite <-(chain_dgrams_size c ds) by done.
    pose proof (WriteDatagram_spec mem c ds src len Hc Hds Hop) as Hw.
    destruct (WriteDatagram _ c src len) as [[c' st] w]. destruct Hw as [Hc' Hst].
    assert (tail_ c' = tail_ c -> chain_dgrams c' ds) as Hsame.
    { destruct Hds as (gs & Ht & ? & ?). intros E. exists gs. by rewrite E. }
    assert (exists g, grant_ok mem g /\ (st = ZX_ERR_SHOULD_WAIT -> kSizeMax < len + size_ c \/ g < len) /\
      (st <> ZX_ERR_SHOULD_WAIT -> g = kSizeMax)) as (g & Hg & Hgw & Hgo).
    { destruct (decide (st = ZX_ERR_SHOULD_WAIT)) as [->|]; [|by exists kSizeMax; auto].
      destruct Hst as (_ & _ & _ & Hlen & [?|[i Hi]]); [exists kSizeMax; by auto|].
      exists 0. split; [|split; [intros; right; lia|done]]. split; [destruct payload_bounds; lia|]. intros Ht. by rewrite Ht in Hi. }
    exists g, c', (st, w, []). split; [done|]. split; [done|]. split; [done|].
    pose proof (chain_size_nonneg c Hc). pose proof (zlen_nonneg src). destruct Hg as [Hg _].
    destruct st; try (destruct Hst as (? & ? & ? & ?); done); try rewrite Hgo by done.
    all: destruct Hst as (? & ? & ? & Hst).
    all: try match type of Hst with _ = _ /\ _ => destruct Hst as (-> & ? & ?) end.
    all: try specialize (Hgw eq_refl).
    all: destruct (Z.eqb_spec len 0), (Z.ltb_spec kSizeMax len), (Z.ltb_spec kSizeMax (len + size_ c)),
        (Z.ltb_spec (zlen src) len); try lia; subst; try (by split; auto).
    all: rewrite ?(proj2 (Z.ltb_ge kSizeMax len)), ?(proj2 (Z.ltb_lt g len)) by lia; split; [first [done|by apply Hsame]|done].
  - destruct (Read_dgram_spec c ds dst len Hc Hds Hop) as (c' & ds' & st & n & out & -> & Hc' & Hds' & ->).
    exists kSizeMax, c', (st, n, out). by split_and!.
Qed.

(** The const and the consuming instance of [ReadHelper] deliver the same bytes. *)
Lemma peek_read_loop dst len datagram fuel :
  forall c pos out, chain_wf c -> (length (tail_ c) <= fuel)%nat ->
  let '(pos', out', ok) := peek_loop (tail_ c) dst len pos out in
  exists c', read_loop fuel c dst len datagram pos out = Some (c', pos', out', ok).
Proof.
  induction fuel as [|fuel IH]; intros c pos out Hc Hfuel;
    cbn [read_loop]; destruct (tail_ c) as [|m rest] eqn:Ht; cbn [length peek_loop] in *;
    try (by eauto); [lia|].
  destruct (Z.ltb_spec pos len); [|by eauto].
  destruct (chain_wf_front c m rest Hc Ht) as (Hm & Hb & Hl).
  set (k := Z.min (len_ m) (len - pos)). assert (0 <= k <= len_ m) as Hk by lia.
  destruct (copy_array_to_user dst pos k); cbn [negb]; [|by eauto].
  destruct (advance_front c m rest k Hc Ht Hk) as [Hc1 _]. fold (advance k m).
  destruct (advance_spec k m Hm Hk) as (_ & Hl' & _). set (c1 := set_size _ _) in *.
  destruct ((len_ (advance k m) =? 0) || datagram) eqn:Hdrop.
  - destruct (drop_front_wf c1 (advance k m) rest Hc1 eq_refl) as [Hc2 Ht2].
    set (c2 := drop_front _ _ _) in *. rewrite <-Ht2. apply IH; [done|]. rewrite Ht2. lia.
  - apply orb_false_iff in Hdrop as [Hne%Z.eqb_neq _]. assert (pos + k = len) as E by lia.
    set (o := out ++ _).
    assert (peek_loop rest dst len (pos + k) o = (pos + k, o, true)) as ->
      by (destruct rest; cbn; [|destruct (Z.ltb_spec (pos + k) len)]; done || lia).
    exists c1. destruct fuel; cbn [read_loop tail_ c1 set_size set_tail];
      destruct (Z.ltb_spec (pos + k) len); done || lia.
Qed.

(** ** The interface of a chain

    What a socket relies on: in each mode the chain is a queue [Q] ([cm_rel]) that each
    operation moves as [cm_step] says, for the requests [cm_ok] allows and for a limit on the bytes
    written that the allocations of the call explain. *)

Class ChainModel (datagram : bool) (Q : Type) := {
  cm_rel : MBufChain -> Q -> Prop;
  cm_empty : Q;
  cm_size : Q -> Z;
  cm_step : Z -> Q -> ChainOp -> Q * ChainResult;
  cm_ok : Q -> ChainOp -> Prop;
  cm_new : forall next, cm_rel (MBufChain_new next) cm_empty;
  cm_size_rel : forall c q, cm_rel c q -> size_ c = cm_size q /\ 0 <= size_ c <= kSizeMax;
  cm_sim : forall mem c q op, cm_rel c q -> cm_ok q op ->
    exists g c' r, grant_ok mem g /\ chain_step mem datagram c op = Some (c', r) /\
      cm_rel c' (fst (cm_step g q op)) /\ snd (cm_step g q op) = r;
  cm_peek : forall g c q dst len, cm_rel c q -> cm_ok q (CRead dst len) ->
    Peek c dst len datagram = snd (cm_step g q (CRead dst len));
  cm_write : forall g q src len, 0 <= g -> cm_ok q (CWrite src len) -> 0 < len -> cm_size q <= kSizeMax ->
    let '(q', (st, n, _)) := cm_step g q (CWrite src len) in
    if decide (st = ZX_OK) then 0 < n /\ cm_size q' = cm_size q + n else q' = q;
  cm_read : forall g q dst len, cm_ok q (CRead dst len) ->
    let '(q', (st, n, _)) := cm_step g q (CRead dst len) in
    if decide (st = ZX_OK)
    then 0 <= n /\ (n = 0 -> q' = q) /\ (0 < n -> cm_size q' < cm_size q) else q' = q;
}.

Lemma Peek_Read c dst len datagram :
  chain_wf c ->
  exists c', Read c dst len datagram =
    let '(st, n, out) := Peek c dst len datagram in Some (c', st, n, out).
Proof.
  intros Hc. unfold Read, Peek. destruct (size_ c =? 0); [by eauto|].
  pose proof (peek_read_loop dst (clip_len c len datagram) datagram (S (length (tail_ c))) c 0 []
    Hc ltac:(lia)) as Hloop.
  destruct (peek_loop _ _ _ _ _) as [[pos out] ok]. destruct Hloop as [c' ->].
  destruct ok; by eauto.
Qed.

(** What a read delivers is what a peek delivers. *)
Lemma peek_of_step mem c dst len datagram c' r :
  chain_wf c -> chain_step mem datagram c (CRead dst len) = Some (c', r) ->
  Peek c dst len datagram = r.
Proof.
  intros Hc. destruct (Peek_Read c dst len datagram Hc) as [c1 Hr]. cbn. rewrite Hr.
  destruct (Peek c dst len datagram) as [[st n] out]. by intros [= _ <-].
Qed.

#[global] Program Instance stream_model : ChainModel false (list byte) := {|
  cm_rel c q := chain_wf c /\ chain_bytes c = q;
  cm_empty := [];
  cm_size := zlen;
  cm_step := bytes_step;
  cm_ok := stream_op_ok;
|}.
Next Obligation. intros. split; [apply chain_new_wf|done]. Qed.
Next Obligation.
  intros c q [Hc <-]. split; [apply Hc|]. split; [by apply chain_size_nonneg|apply Hc].
Qed.
Next Obligation.
  intros mem c q op [Hc <-] Hok. destruct (stream_step_spec mem c op Hc Hok) as (g & c' & r & Hg & ? & ? & Hs).
  exists g, c', r. by rewrite Hs.
Qed.
Next Obligation.
  intros g c q dst len [Hc <-] Hok. destruct (stream_step_spec (fun _ => true) c _ Hc Hok) as (g' & c' & r & _ & Hs & _ & Hr).
  change (bytes_step g ?q (CRead dst len)) with (bytes_step g' q (CRead dst len)).
  rewrite Hr. by eapply peek_of_step.
Qed.
Next Obligation.
  intros g q src len Hg Hok Hlen Hmax. unfold stream_op_ok in Hok. cbn [bytes_step].
  case_if; cbn [decide]; rewrite ?decide_True by done; [done|].
  rewrite zlen_app, zlen_ztake. lia.
Qed.
Next Obligation.
  intros g q dst len Hok. cbn in *. pose proof (zlen_nonneg q). split_and!; [lia| |].
  - intros E. by rewrite E, zdrop_le_0.
  - rewrite zlen_zdrop. lia.
Qed.

#[global] Program Instance datagram_model : ChainModel true (list (list byte)) := {|
  cm_rel c ds := chain_wf c /\ chain_dgrams c ds;
  cm_empty := [];
  cm_size ds := zlen (concat ds);
  cm_step := dgrams_step;
  cm_ok := dgram_op_ok;
|}.
Next Obligation. intros. split; [apply chain_new_wf|by exists []]. Qed.
Next Obligation.
  intros c q [Hc Hds]. split; [by apply chain_dgrams_size|].
  split; [by apply chain_size_nonneg|apply Hc].
Qed.
Next Obligation.
  intros mem c q op [Hc Hds] Hok.
  destruct (dgram_step_spec mem c q op Hc Hds Hok) as (g & c' & r & ? & ? & ? & ? & ?). by exists g, c', r.
Qed.
Next Obligation.
  intros g c q dst len [Hc Hds] Hok.
  destruct (dgram_step_spec (fun _ => true) c q _ Hc Hds Hok) as (g' & c' & r & _ & Hs & _ & _ & Hr).
  change (dgrams_step g q (CRead dst len)) with (dgrams_step g' q (CRead dst len)). rewrite Hr. by eapply peek_of_step.
Qed.
Next Obligation.
  intros g q src len Hg Hok Hlen Hmax. cbn [dgrams_step]. repeat (case_if; [done|]). cbn.
  split; [done|]. rewrite concat_app, zlen_app. cbn. rewrite app_nil_r, zlen_ztake. lia.
Qed.
Next Obligation.
  intros g q dst len [Hlen Hok]. cbn [dgrams_step]. unfold dgram_read_spec.
  destruct q as [|d ds]; [cbn; split_and!; done || lia|]. pose proof (zlen_nonneg d).
  case_if; cbn; [split_and!; done || lia|]. case_if; cbn; [done|]. split_and!; [lia|lia|].
  rewrite zlen_app. lia.
Qed.

(** ** A gap: recycled mbufs *)

(** A datagram read that ends inside the front mbuf takes that mbuf off and keeps the next one when
    its [pkt_len_] is not zero. *)
Lemma Read_dgram_front c m m2 dst n :
  chain_wf c -> tail_ c = [m; m2] -> 0 < n -> n <= len_ m -> n <= pkt_len_ m -> n <= dst -> pkt_len_ m2 <> 0 ->
  exists c', Read c dst n true = Some (c', ZX_OK, n, ztake n (mbuf_bytes m)) /\ chain_wf c' /\ tail_ c' = [m2].
Proof.
  intros Hc Ht Hn Hl Hp Hd H2. destruct (chain_wf_front c m [m2] Hc Ht) as (Hm & Hb & _).
  destruct (chain_wf_front c m [m2] Hc Ht) as (_ & _ & Hsz). pose proof (chain_size_nonneg c Hc).
  unfold Read. destruct (Z.eqb_spec (size_ c) 0); [lia|]. unfold clip_len, front_pkt_len. rewrite Ht. cbn [andb length].
  destruct (Z.ltb_spec (pkt_len_ m) n); [lia|].
  destruct (read_loop_dgram_step 2 c m [m2] dst n 0 []) as (c' & Hc' & Ht' & ->); [done|done|lia|lia|].
  rewrite Z.min_r, Z.sub_0_r, read_loop_dgram_done, Ht' by lia. cbn [drain_loop].
  rewrite (proj2 (Z.eqb_neq _ _) H2). by eexists.
Qed.

(** A datagram read of the last mbuf. *)
Lemma Read_dgram_last c m dst n :
  chain_wf c -> tail_ c = [m] -> 0 < n -> 0 < len_ m -> 0 < pkt_len_ m ->
  let j := Z.min (Z.min n (pkt_len_ m)) (len_ m) in j <= dst ->
  exists c', Read c dst n true = Some (c', ZX_OK, j, ztake j (mbuf_bytes m)) /\ chain_wf c' /\ tail_ c' = [].
Proof.
  intros Hc Ht Hn Hl Hp j Hd. destruct (chain_wf_front c m [] Hc Ht) as (Hm & _ & Hsz). pose proof (chain_size_nonneg c Hc).
  unfold Read. destruct (Z.eqb_spec (size_ c) 0); [lia|]. unfold clip_len, front_pkt_len. rewrite Ht. cbn [andb length].
  replace (if _ <? n then _ else n) with (Z.min n (pkt_len_ m)) by (case_if; lia).
  destruct (read_loop_dgram_step 1 c m [] dst (Z.min n (pkt_len_ m)) 0 []) as (c' & Hc' & Ht' & ->); [done|done|lia|lia|].
  rewrite Z.sub_0_r, (Z.min_comm (len_ m)). fold j. cbn [app Z.add].
  cbn [read_loop]. rewrite Ht'. rewrite Ht'. exists c'. by split_and!.
Qed.

(** The mbufs of a datagram of two mbufs in a chain that has one mbuf to recycle: the recycled mbuf
    comes second and keeps its [pkt_len_]. *)
Lemma WriteDatagram_recycles mem c m0 fr src len c1 n :
  chain_wf c -> tail_ c = [] -> freelist_ c = m0 :: fr -> kPayloadSize < len <= 2 * kPayloadSize ->
  WriteDatagram mem c src len = (c1, ZX_OK, n) ->
  exists m1 m2, tail_ c1 = [m1; m2] /\ len_ m1 = kPayloadSize /\ len_ m2 = len - kPayloadSize /\
    pkt_len_ m1 = len /\ pkt_len_ m2 = pkt_len_ m0.
Proof.
  intros Hc Ht Hf Hlen. pose proof (cs_head _ _ (cw_str _ Hc)) as Hh. rewrite Ht in Hh. cbn in Hh.
  pose proof (cw_str _ Hc) as Hstr. unfold WriteDatagram. destruct payload_bounds as [HP HM].
  destruct (Z.eqb_spec len 0); [lia|]. destruct (kSizeMax <? len); [done|]. destruct (kSizeMax <? wrap64 _); [done|].
  replace (1 + (len - 1) / kPayloadSize) with 2.
  2: { rewrite HP in *. pose proof (Z.div_unique (len - 1) 2008 1 (len - 1 - 2008)). lia. }
  change (Z.to_nat 2) with 2%nat. cbn [alloc_loop].
  destruct (AllocMBuf mem c) as [c' r] eqn:Ha. pose proof (AllocMBuf_spec mem [] c c' r Hstr Ha) as (Et & Eh & _ & Hr).
  unfold AllocMBuf in Ha. rewrite Hf in Ha. injection Ha as <- <-. destruct Hr as [Hstr1 (_ & Ho0 & Hl0)].
  destruct (AllocMBuf mem (set_freelist fr c)) as [c2 r] eqn:Ha. apply (AllocMBuf_spec mem [m0]) in Ha as (Et2 & Eh2 & _ & Hr2); [|done].
  destruct r as [m1|]; [|done]. destruct Hr2 as [_ (_ & Ho1 & Hl1)]. cbn [fill_loop].
  destruct (copy_array_from_user src 0 _) as [b1 [|]]; [|done]. destruct (copy_array_from_user src _ _) as [b2 [|]]; [|done].
  intros E. apply (f_equal (fun x => tail_ (fst (fst x)))) in E. cbn [fst] in E. rewrite <-E. clear E.
  cbn -[kPayloadSize wrap64 wrap32]. rewrite Eh2, Et2. cbn -[kPayloadSize wrap64 wrap32]. rewrite Hh, Ht. cbn -[kPayloadSize wrap64 wrap32].
  rewrite Z.eqb_refl. eexists _, _. split; [done|]. cbn -[kPayloadSize wrap64 wrap32].
  rewrite Hl0, Hl1, !wrap_small by lia. split_and!; done || lia.
Qed.

(** C36. A short read of a datagram does not always discard its rest. A freed mbuf keeps its [pkt_len_],
    and a datagram that takes it as its second mbuf does not reset it. So in every empty chain
    whose first free mbuf was last the front of a datagram of [k] bytes, every datagram of two mbufs
    that is then written and read by its first [n] bytes, all in the first mbuf, leaves its second
    part queued: the next read returns at most [k] bytes of it as a datagram of its own. *)
Theorem short_read_leaves_stale_mbuf mem c m0 fr src len c1 :
  chain_wf c -> tail_ c = [] -> freelist_ c = m0 :: fr -> 0 < pkt_len_ m0 -> kPayloadSize < len <= 2 * kPayloadSize ->
  WriteDatagram mem c src len = (c1, ZX_OK, len) ->
  forall dst n, 0 < n -> n <= kPayloadSize -> n <= dst ->
  let rest := zdrop kPayloadSize (ztake len src) in
  exists c2, Read c1 dst n true = Some (c2, ZX_OK, n, ztake n src) /\ chain_bytes c2 = rest /\
    forall n', 0 < n' -> let j := Z.min (Z.min n' (pkt_len_ m0)) (zlen rest) in
    exists c3, Read c2 n' n' true = Some (c3, ZX_OK, j, ztake j rest) /\ chain_bytes c3 = [].
Proof.
  intros Hc Ht Hf Hk Hlen Hw dst n Hn Hnp Hd rest.
  destruct (WriteDatagram_recycles mem c m0 fr src len c1 len Hc Ht Hf Hlen Hw) as (m1 & m2 & Ht1 & Hl1 & Hl2 & Hp1 & Hp2).
  destruct payload_bounds as [HP HM]. assert (chain_dgrams c []) as Hds by (by exists []).
  pose proof (WriteDatagram_spec mem c [] src len Hc Hds ltac:(lia)) as Hpost. rewrite Hw in Hpost.
  destruct Hpost as (Hc1 & _ & _ & Hsrc & _ & _ & Hds1).
  destruct (chain_wf_front c1 m1 [m2] Hc1 Ht1) as (Hm1 & Hb1 & _).
  assert (chain_bytes c1 = ztake len src) as Hb.
  { destruct Hds1 as (gs & Eg & _ & Ed). assert (chain_bytes c1 = concat (map group_bytes gs)) as ->.
    - unfold chain_bytes. rewrite Eg. clear. induction gs as [|g gs IH]; [done|]. cbn. by rewrite map_app, concat_app, IH.
    - rewrite <-Ed. cbn. by rewrite app_nil_r. }
  cbn in Hb1. rewrite app_nil_r, Hb in Hb1. pose proof (zlen_mbuf_bytes m1 Hm1) as Hz1.
  assert (mbuf_bytes m2 = rest) as Hrest by (unfold rest; by rewrite Hb1, <-Hl1, <-Hz1, zdrop_app_exact).
  assert (ztake n (mbuf_bytes m1) = ztake n src) as Hfirst.
  { transitivity (ztake n (ztake len src)); [rewrite Hb1; by rewrite ztake_app_le by lia|]. rewrite ztake_ztake. f_equal. lia. }
  destruct (Read_dgram_front c1 m1 m2 dst n) as (c2 & -> & Hc2 & Ht2); try done; try lia.
  exists c2. rewrite Hfirst. split; [done|]. unfold chain_bytes. rewrite Ht2. cbn [map concat]. rewrite app_nil_r. split; [done|].
  intros n' Hn'. set (j := Z.min (Z.min n' (pkt_len_ m0)) (zlen rest)). destruct (chain_wf_front c2 m2 [] Hc2 Ht2) as (Hm2 & _ & _).
  assert (j = Z.min (Z.min n' (pkt_len_ m2)) (len_ m2)) as Ej by (unfold j; by rewrite <-Hrest, zlen_mbuf_bytes, Hp2).
  destruct (Read_dgram_last c2 m2 n' n') as (c3 & Hr & _ & Ht3); try done; try lia.
  exists c3. rewrite Hr, <-Ej, Hrest, Ht3. done.
Qed.

(** A chain after a datagram of one byte was written and read. *)
Definition recycled_example : MBufChain :=
  mkChain [mkMBuf 0 0 0 1 (1 :: replicate 2007 0)] [] None 0 1.

Lemma short_read_leaves_stale_mbuf_witness :
  let w := WriteDatagram (fun _ => true) recycled_example (replicate 2008 5 ++ [9]) 2009 in
  exists c2 c3, Read (fst (fst w)) 1 1 true = Some (c2, ZX_OK, 1, [5]) /\
    Read c2 100 100 true = Some (c3, ZX_OK, 1, [9]) /\
    option_map fst (chain_run (fun _ => true) true (MBufChain_new 0) [CWrite [1] 1; CRead 1 1]) = Some recycled_example.
Proof.
  intros w. destruct (short_read_leaves_stale_mbuf (fun _ => true) recycled_example (mkMBuf 0 0 0 1 (1 :: replicate 2007 0)) []
    (replicate 2008 5 ++ [9]) 2009 (fst (fst w))) with (dst := 1) (n := 1) as (c2 & H1 & _ & H2); try done.
  { constructor; [|done..]. constructor; [apply NoDup_singleton|by repeat constructor|done|constructor|].
    constructor; [|constructor]. split; [|done]. by constructor. }
  destruct (H2 100 eq_refl) as (c3 & H3 & _). exists c2, c3. split; [exact H1|]. split; [exact H3|].
  vm_compute. reflexivity.
Defined.
