(* ===== verification/Socket.v ===== *)
(** * Socket objects

    Models [zircon/kernel/object/socket_dispatcher.cc] and its header: a pair of peered
    endpoints, each holding the mbuf chain of the data it has not read yet, written by
    the other endpoint; stream and datagram mode, shutdown of either direction, and the
    read and write thresholds. *)

From S2P Require Import Prelude Types Dispatcher MBuf.

Definition ZX_SOCKET_READABLE : Z := ZX_OBJECT_READABLE.
Definition ZX_SOCKET_WRITABLE : Z := ZX_OBJECT_WRITABLE.
Definition ZX_SOCKET_PEER_CLOSED : Z := ZX_OBJECT_PEER_CLOSED.
Definition ZX_SOCKET_PEER_WRITE_DISABLED : Z := ZX_OBJECT_SIGNAL_4.
Definition ZX_SOCKET_WRITE_DISABLED : Z := ZX_OBJECT_SIGNAL_5.
Definition ZX_SOCKET_READ_THRESHOLD : Z := ZX_OBJECT_SIGNAL_10.
Definition ZX_SOCKET_WRITE_THRESHOLD : Z := ZX_OBJECT_SIGNAL_11.

Definition ZX_SOCKET_SHUTDOWN_WRITE : Z := Z.shiftl 1 0.
Definition ZX_SOCKET_SHUTDOWN_READ : Z := Z.shiftl 1 1.
Definition ZX_SOCKET_DATAGRAM : Z := Z.shiftl 1 0.
Definition ZX_SOCKET_CREATE_MASK : Z := ZX_SOCKET_DATAGRAM.

Record SocketDispatcher := mkSocket {
  sk_base : Dispatcher;
  sk_peer_ : bool;
  flags_ : Z;
  sk_data_ : MBufChain;
  read_threshold_ : Z;
  write_threshold_ : Z;
  read_disabled_ : bool;
}.

Definition sk_set_base (d : Dispatcher) (s : SocketDispatcher) : SocketDispatcher :=
  mkSocket d (sk_peer_ s) (flags_ s) (sk_data_ s) (read_threshold_ s) (write_threshold_ s)
    (read_disabled_ s).
Definition sk_set_peer (b : bool) (s : SocketDispatcher) : SocketDispatcher :=
  mkSocket (sk_base s) b (flags_ s) (sk_data_ s) (read_threshold_ s) (write_threshold_ s)
    (read_disabled_ s).
Definition sk_set_data (c : MBufChain) (s : SocketDispatcher) : SocketDispatcher :=
  mkSocket (sk_base s) (sk_peer_ s) (flags_ s) c (read_threshold_ s) (write_threshold_ s)
    (read_disabled_ s).
Definition sk_set_read_threshold (v : Z) (s : SocketDispatcher) : SocketDispatcher :=
  mkSocket (sk_base s) (sk_peer_ s) (flags_ s) (sk_data_ s) v (write_threshold_ s)
    (read_disabled_ s).
Definition sk_set_write_threshold (v : Z) (s : SocketDispatcher) : SocketDispatcher :=
  mkSocket (sk_base s) (sk_peer_ s) (flags_ s) (sk_data_ s) (read_threshold_ s) v
    (read_disabled_ s).
Definition sk_set_read_disabled (s : SocketDispatcher) : SocketDispatcher :=
  mkSocket (sk_base s) (sk_peer_ s) (flags_ s) (sk_data_ s) (read_threshold_ s)
    (write_threshold_ s) true.

Definition sk_on_zero_handles_locked (s : SocketDispatcher) : SocketDispatcher := s.

Definition sk_OnPeerZeroHandlesLocked (s : SocketDispatcher) : SocketDispatcher :=
  sk_set_base (UpdateStateLocked (sk_base s) ZX_SOCKET_WRITABLE ZX_SOCKET_PEER_CLOSED) s.

#[global] Instance socket_endpoint : Endpoint SocketDispatcher := {|
  ep_base := sk_base;
  ep_set_base := sk_set_base;
  ep_peer := sk_peer_;
  ep_set_peer := sk_set_peer;
  ep_extra_signals := 0;
  on_zero_handles_locked := sk_on_zero_handles_locked;
  OnPeerZeroHandlesLocked := sk_OnPeerZeroHandlesLocked;
|}.

#[global] Instance socket_laws : EndpointLaws SocketDispatcher.
Proof. by constructor. Qed.

Definition SocketDispatcher_new (base : Dispatcher) (flags : Z) : SocketDispatcher :=
  mkSocket base true flags (MBufChain_new 0) 0 0 false.

(** [Create]: [mem] answers the three allocations in program order. *)
Definition sk_Create (flags : Z) (mem : nat -> bool) (koid : Z)
    : zx_status_t * option (Pair SocketDispatcher) :=
  if negb (Z.land flags (Z.lnot ZX_SOCKET_CREATE_MASK) =? 0) then (ZX_ERR_INVALID_ARGS, None) else
  if negb (mem 0%nat && mem 1%nat && mem 2%nat) then (ZX_ERR_NO_MEMORY, None) else
  let '(d0, koid) := Dispatcher_new koid ZX_SOCKET_WRITABLE in
  let '(d1, _) := Dispatcher_new koid ZX_SOCKET_WRITABLE in
  (ZX_OK, Some (mkPair (SocketDispatcher_new d0 flags) (SocketDispatcher_new d1 flags))).

(** [flag & mask] as a condition. *)
Definition has_flag (flags mask : Z) : bool := negb (Z.land flags mask =? 0).

Definition sk_datagram (s : SocketDispatcher) : bool := has_flag (flags_ s) ZX_SOCKET_DATAGRAM.

(** ** Shutdown *)

Definition sk_ShutdownOtherLocked (how : Z) (s : SocketDispatcher) : SocketDispatcher :=
  let shutdown_read := has_flag how ZX_SOCKET_SHUTDOWN_READ in
  let shutdown_write := has_flag how ZX_SOCKET_SHUTDOWN_WRITE in
  let clear_mask := if shutdown_read then ZX_SOCKET_WRITABLE else 0 in
  let set_mask := if shutdown_read then ZX_SOCKET_WRITE_DISABLED else 0 in
  let s := if shutdown_write then sk_set_read_disabled s else s in
  let set_mask := if shutdown_write then Z.lor set_mask ZX_SOCKET_PEER_WRITE_DISABLED else set_mask in
  ep_update_state clear_mask set_mask s.

Definition sk_Shutdown (side : bool) (p : Pair SocketDispatcher) (how : Z)
    : Pair SocketDispatcher * zx_status_t :=
  let s := sel side p in
  let shutdown_read := has_flag how ZX_SOCKET_SHUTDOWN_READ in
  let shutdown_write := has_flag how ZX_SOCKET_SHUTDOWN_WRITE in
  let signals := signals_ (sk_base s) in
  let want_signals := Z.lor (if shutdown_read then ZX_SOCKET_PEER_WRITE_DISABLED else 0)
                            (if shutdown_write then ZX_SOCKET_WRITE_DISABLED else 0) in
  let have_signals :=
    Z.land signals (Z.lor ZX_SOCKET_PEER_WRITE_DISABLED ZX_SOCKET_WRITE_DISABLED) in
  if want_signals =? have_signals then (p, ZX_OK) else
  let p := if shutdown_read then upd side sk_set_read_disabled p else p in
  let set_mask := if shutdown_read then ZX_SOCKET_PEER_WRITE_DISABLED else 0 in
  let clear_mask := if shutdown_write then ZX_SOCKET_WRITABLE else 0 in
  let set_mask := if shutdown_write then Z.lor set_mask ZX_SOCKET_WRITE_DISABLED else set_mask in
  let p := upd side (ep_update_state clear_mask set_mask) p in
  let p := if sk_peer_ s then upd (negb side) (sk_ShutdownOtherLocked how) p else p in
  (p, ZX_OK).

(** ** Writing and reading *)

(** [if (x) UpdateStateLocked(...)]: the update is skipped when both masks are empty. *)
Definition sk_update_if (clear set : Z) (s : SocketDispatcher) : SocketDispatcher :=
  if (clear =? 0) && (set =? 0) then s else ep_update_state clear set s.

(** The signal updates of [WriteSelfLocked] on the endpoint [r] after [st] bytes have been
    queued. *)
Definition sk_write_signals (r : bool) (was_empty : bool) (st : Z) (p : Pair SocketDispatcher)
    : Pair SocketDispatcher :=
  let s := sel r p in
  let size := size_ (sk_data_ s) in
  let set := if 0 <? st then
               Z.lor (if was_empty then ZX_SOCKET_READABLE else 0)
                     (if (0 <? read_threshold_ s) && (read_threshold_ s <=? size)
                      then ZX_SOCKET_READ_THRESHOLD else 0)
             else 0 in
  let p := upd r (sk_update_if 0 set) p in
  let peer_write_threshold := write_threshold_ (sel (negb r) p) in
  let clear := if (0 <? st) && sk_peer_ s && (0 <? peer_write_threshold)
                  && (wrap64 (kSizeMax - size) <? peer_write_threshold)
               then ZX_SOCKET_WRITE_THRESHOLD else 0 in
  let clear := if sk_peer_ s && is_full (sk_data_ s) then Z.lor clear ZX_SOCKET_WRITABLE
               else clear in
  upd (negb r) (sk_update_if clear 0) p.

(** [WriteSelfLocked] on the endpoint [r]. *)
Definition sk_WriteSelfLocked (mem : Z -> bool) (r : bool) (p : Pair SocketDispatcher)
    (src : user_in_ptr) (len : Z) : option (Pair SocketDispatcher * zx_status_t * Z) :=
  let s := sel r p in
  if is_full (sk_data_ s) then Some (p, ZX_ERR_SHOULD_WAIT, 0) else
  let was_empty := is_empty (sk_data_ s) in
  '(c, status, st) ←
    (if sk_datagram s then Some (WriteDatagram mem (sk_data_ s) src len)
     else WriteStream mem (sk_data_ s) src len);
  let p := upd r (sk_set_data c) p in
  if decide (status = ZX_OK)
  then Some (sk_write_signals r was_empty st p, status, st)
  else Some (p, status, 0).

Definition sk_Write (mem : Z -> bool) (side : bool) (p : Pair SocketDispatcher)
    (src : user_in_ptr) (len : Z) : option (Pair SocketDispatcher * zx_status_t * Z) :=
  let s := sel side p in
  if negb (sk_peer_ s) then Some (p, ZX_ERR_PEER_CLOSED, 0) else
  if has_flag (signals_ (sk_base s)) ZX_SOCKET_WRITE_DISABLED then Some (p, ZX_ERR_BAD_STATE, 0) else
  if len =? 0 then Some (p, ZX_OK, 0) else
  if negb (len =? wrap32 len) then Some (p, ZX_ERR_INVALID_ARGS, 0) else
  sk_WriteSelfLocked mem (negb side) p src len.

(** The signal updates of [Read] on the endpoint [r] after [actual] bytes have been taken. *)
Definition sk_read_signals (r : bool) (was_full : bool) (actual : Z) (p : Pair SocketDispatcher)
    : Pair SocketDispatcher :=
  let s := sel r p in
  let size := size_ (sk_data_ s) in
  let clear := if (0 <? read_threshold_ s) && (size <? read_threshold_ s)
               then ZX_SOCKET_READ_THRESHOLD else 0 in
  let clear := if is_empty (sk_data_ s) then Z.lor clear ZX_SOCKET_READABLE else clear in
  let p := upd r (sk_update_if clear 0) p in
  let peer_write_threshold := write_threshold_ (sel (negb r) p) in
  let set := if (0 <? peer_write_threshold) && (peer_write_threshold <=? wrap64 (kSizeMax - size))
             then ZX_SOCKET_WRITE_THRESHOLD else 0 in
  let set := if was_full && (0 <? actual) then Z.lor set ZX_SOCKET_WRITABLE else set in
  if sk_peer_ s then upd (negb r) (sk_update_if 0 set) p else p.

(** [Read] on the endpoint [side]: the pair, the status, [*nread] and the bytes. *)
Definition sk_Read (side : bool) (p : Pair SocketDispatcher) (peek : bool) (dst : user_out_ptr)
    (len : Z) : option (Pair SocketDispatcher * zx_status_t * Z * list byte) :=
  let s := sel side p in
  if negb (len =? wrap32 len) then Some (p, ZX_ERR_INVALID_ARGS, 0, []) else
  if is_empty (sk_data_ s) then
    Some (p, if negb (sk_peer_ s) then ZX_ERR_PEER_CLOSED
             else if read_disabled_ s then ZX_ERR_BAD_STATE else ZX_ERR_SHOULD_WAIT, 0, []) else
  if peek then
    let '(status, actual, out) := Peek (sk_data_ s) dst len (sk_datagram s) in
    Some (p, status, if decide (status = ZX_OK) then actual else 0, out)
  else
    let was_full := is_full (sk_data_ s) in
    '(c, status, actual, out) ← Read (sk_data_ s) dst len (sk_datagram s);
    let p := upd side (sk_set_data c) p in
    if decide (status = ZX_OK)
    then Some (sk_read_signals side was_full actual p, ZX_OK, actual, out)
    else Some (p, status, 0, out).

(** ** Thresholds and information *)

Definition sk_SetReadThreshold (side : bool) (p : Pair SocketDispatcher) (value : Z)
    : Pair SocketDispatcher * zx_status_t :=
  if kSizeMax <? value then (p, ZX_ERR_INVALID_ARGS) else
  let p := upd side (sk_set_read_threshold value) p in
  let above := negb (value =? 0) && (value <=? size_ (sk_data_ (sel side p))) in
  (upd side (if above then ep_update_state 0 ZX_SOCKET_READ_THRESHOLD
             else ep_update_state ZX_SOCKET_READ_THRESHOLD 0) p, ZX_OK).

Definition sk_SetWriteThreshold (side : bool) (p : Pair SocketDispatcher) (value : Z)
    : Pair SocketDispatcher * zx_status_t :=
  if negb (sk_peer_ (sel side p)) then (p, ZX_ERR_PEER_CLOSED) else
  if kSizeMax <? value then (p, ZX_ERR_INVALID_ARGS) else
  let p := upd side (sk_set_write_threshold value) p in
  let room := wrap64 (kSizeMax - size_ (sk_data_ (sel (negb side) p))) in
  let above := negb (value =? 0) && (value <=? room) in
  (upd side (if above then ep_update_state 0 ZX_SOCKET_WRITE_THRESHOLD
             else ep_update_state ZX_SOCKET_WRITE_THRESHOLD 0) p, ZX_OK).

Record zx_info_socket_t := mkInfoSocket {
  options : Z;
  rx_buf_max : Z;
  rx_buf_size : Z;
  rx_buf_available : Z;
  tx_buf_max : Z;
  tx_buf_size : Z;
}.

Definition sk_GetInfo (side : bool) (p : Pair SocketDispatcher) : zx_info_socket_t :=
  let s := sel side p in
  let peer := sel (negb side) p in
  mkInfoSocket (flags_ s) kSizeMax (chain_size false (sk_data_ s))
    (chain_size (sk_datagram s) (sk_data_ s))
    (if sk_peer_ s then kSizeMax else 0)
    (if sk_peer_ s then chain_size false (sk_data_ peer) else 0).

(** ** What an endpoint shows, and the invariant of a pair *)

Record SockObs := mkSockObs {
  so_size : Z;
  so_linked : bool;
  so_rt : Z;
  so_wt : Z;
  so_rdis : bool;
  so_readable : bool;
  so_writable : bool;
  so_closed : bool;
  so_peer_wd : bool;
  so_wd : bool;
  so_rth : bool;
  so_wth : bool;
}.

Definition sk_bit (i : Z) (s : SocketDispatcher) : bool := Z.testbit (signals_ (sk_base s)) i.

Definition sk_obs (s : SocketDispatcher) : SockObs :=
  mkSockObs (size_ (sk_data_ s)) (sk_peer_ s) (read_threshold_ s) (write_threshold_ s)
    (read_disabled_ s) (sk_bit 0 s) (sk_bit 1 s) (sk_bit 2 s) (sk_bit 4 s) (sk_bit 5 s)
    (sk_bit 10 s) (sk_bit 11 s).

(** The endpoint [a] against its peer [b]: READABLE, READ_THRESHOLD and
    PEER_WRITE_DISABLED tell the state of its own data and of its own [read_disabled_];
    while the pair is connected WRITE_THRESHOLD, WRITE_DISABLED and WRITABLE tell the
    state of the peer's. *)
Definition sock_ok (a b : SockObs) : Prop :=
  0 <= so_size a <= kSizeMax /\
  so_readable a = negb (so_size a =? 0) /\
  so_rth a = (0 <? so_rt a) && (so_rt a <=? so_size a) /\
  so_peer_wd a = so_rdis a /\
  if so_linked a then
    so_closed a = false /\
    so_wth a = (0 <? so_wt a) && (so_wt a <=? kSizeMax - so_size b) /\
    so_wd a = so_rdis b /\
    (so_wd a = false -> so_writable a = (so_size b <? kSizeMax))
  else so_closed a = true -> so_writable a = false.

Definition sock_inv2 (a b : SockObs) : Prop :=
  sock_ok a b /\ sock_ok b a /\ so_linked a = so_linked b.

Definition so_update (c s : Z) (o : SockObs) : SockObs :=
  let bit i b := (b && negb (Z.testbit c i)) || Z.testbit s i in
  mkSockObs (so_size o) (so_linked o) (so_rt o) (so_wt o) (so_rdis o)
    (bit 0 (so_readable o)) (bit 1 (so_writable o)) (bit 2 (so_closed o)) (bit 4 (so_peer_wd o))
    (bit 5 (so_wd o)) (bit 10 (so_rth o)) (bit 11 (so_wth o)).

Definition so_set_size (n : Z) (o : SockObs) : SockObs :=
  mkSockObs n (so_linked o) (so_rt o) (so_wt o) (so_rdis o) (so_readable o) (so_writable o)
    (so_closed o) (so_peer_wd o) (so_wd o) (so_rth o) (so_wth o).

Lemma sk_obs_update c s x : sk_obs (ep_update_state c s x) = so_update c s (sk_obs x).
Proof.
  unfold sk_obs, so_update, sk_bit. cbn [sk_base ep_update_state ep_set_base ep_base socket_endpoint sk_set_base].
  by rewrite !UpdateStateLocked_bit by lia.
Qed.

Lemma sk_obs_update_if c s x : sk_obs (sk_update_if c s x) = so_update c s (sk_obs x).
Proof.
  unfold sk_update_if. case_if; [|apply sk_obs_update].
  apply andb_true_iff in E as [->%Z.eqb_eq ->%Z.eqb_eq]. unfold so_update.
  by rewrite !Z.bits_0, ?andb_true_r, ?orb_false_r.
Qed.

Arguments sk_bit : simpl never.

(** Case analysis on the conditions that build the masks, then boolean arithmetic. *)
Ltac sock_masks :=
  repeat match goal with
  | |- context [if ?b then ?x else 0] => let E := fresh "E" in destruct b eqn:E
  | |- context [if ?b then Z.lor ?x ?y else ?x] => let E := fresh "E" in destruct b eqn:E
  end; unfold so_update; cbv zeta; eval_bits; cbn -[kSizeMax].

(** Close the conjuncts of [sock_inv2] on explicit observations with known links. *)
Ltac sock_inv_tac Ha Hb :=
  unfold sock_inv2, sock_ok; cbn -[kSizeMax]; rewrite ?Ha, ?Hb;
  rewrite ?andb_true_r, ?andb_false_r, ?orb_false_r, ?orb_true_r;
  split_and!; try done; try lia; try congruence;
  try (intros; match goal with
       | H : ?x = _ |- ?x = _ => rewrite H; lia
       | H : _ -> ?x = _ |- ?x = _ => rewrite H by done; lia
       end).

Lemma sock_inv2_write a b n :
  sock_inv2 a b -> so_linked a = true -> 0 < n -> so_size a + n <= kSizeMax ->
  let clear := if (0 <? so_wt b) && (kSizeMax - (so_size a + n) <? so_wt b)
               then ZX_SOCKET_WRITE_THRESHOLD else 0 in
  sock_inv2
    (so_update 0 (Z.lor (if so_size a =? 0 then ZX_SOCKET_READABLE else 0)
                        (if (0 <? so_rt a) && (so_rt a <=? so_size a + n)
                         then ZX_SOCKET_READ_THRESHOLD else 0)) (so_set_size (so_size a + n) a))
    (so_update (if kSizeMax <=? so_size a + n then Z.lor clear ZX_SOCKET_WRITABLE else clear) 0 b).
Proof.
  intros (Ha & Hb & Hl) Hlink Hn Hmax. cbv zeta. rewrite Hlink in Hl. symmetry in Hl.
  unfold sock_ok in Ha, Hb. rewrite ?Hl, ?Hlink in *.
  destruct Ha as (? & ? & ? & ? & ? & ? & ? & ?), Hb as (? & ? & ? & ? & ? & ? & ? & ?).
  sock_masks. all: sock_inv_tac Hlink Hl.
Qed.

Lemma sock_inv2_read a b n actual :
  sock_inv2 a b -> 0 <= n <= so_size a -> 0 <= actual ->
  (actual = 0 -> n = so_size a) -> (0 < actual -> n < so_size a) ->
  let clear := if (0 <? so_rt a) && (n <? so_rt a) then ZX_SOCKET_READ_THRESHOLD else 0 in
  let set := if (0 <? so_wt b) && (so_wt b <=? kSizeMax - n) then ZX_SOCKET_WRITE_THRESHOLD else 0 in
  sock_inv2
    (so_update (if n =? 0 then Z.lor clear ZX_SOCKET_READABLE else clear) 0 (so_set_size n a))
    (if so_linked a
     then so_update 0 (if (kSizeMax <=? so_size a) && (0 <? actual)
                       then Z.lor set ZX_SOCKET_WRITABLE else set) b else b).
Proof.
  intros (Ha & Hb & Hl) Hn Hact Hz Hp. cbv zeta.
  unfold sock_ok in Ha, Hb. destruct (so_linked a) eqn:Hlink; symmetry in Hl; rewrite ?Hl in *.
  - destruct Ha as (? & ? & ? & ? & ? & ? & ? & ?), Hb as (? & ? & ? & ? & ? & ? & ? & ?).
    sock_masks. all: sock_inv_tac Hlink Hl.
  - destruct Ha as (? & ? & ? & ? & ?), Hb as (? & ? & ? & ? & ?).
    sock_masks. all: sock_inv_tac Hlink Hl.
Qed.

Definition so_set_rdis (o : SockObs) : SockObs :=
  mkSockObs (so_size o) (so_linked o) (so_rt o) (so_wt o) true (so_readable o) (so_writable o)
    (so_closed o) (so_peer_wd o) (so_wd o) (so_rth o) (so_wth o).

(** The two halves of a shutdown, on what the endpoints show. *)
Definition so_shutdown_self (r w : bool) (o : SockObs) : SockObs :=
  let set := if r then ZX_SOCKET_PEER_WRITE_DISABLED else 0 in
  so_update (if w then ZX_SOCKET_WRITABLE else 0)
    (if w then Z.lor set ZX_SOCKET_WRITE_DISABLED else set) (if r then so_set_rdis o else o).

Definition so_shutdown_other (r w : bool) (o : SockObs) : SockObs :=
  let set := if r then ZX_SOCKET_WRITE_DISABLED else 0 in
  so_update (if r then ZX_SOCKET_WRITABLE else 0)
    (if w then Z.lor set ZX_SOCKET_PEER_WRITE_DISABLED else set) (if w then so_set_rdis o else o).

Lemma sock_inv2_shutdown a b r w :
  sock_inv2 a b ->
  let a' := so_shutdown_self r w a in
  let b' := if so_linked a then so_shutdown_other r w b else b in
  sock_inv2 a' b' /\
  so_rdis a' = so_rdis a || r /\ so_wd a' = so_wd a || w /\
  so_rdis b' = so_rdis b || (so_linked a && w) /\ so_wd b' = so_wd b || (so_linked a && r).
Proof.
  intros (Ha & Hb & Hl). cbv zeta. unfold so_shutdown_self, so_shutdown_other.
  unfold sock_ok in Ha, Hb. destruct (so_linked a) eqn:Hlink; symmetry in Hl; rewrite ?Hl in *.
  - destruct Ha as (? & ? & ? & ? & ? & ? & ? & ?), Hb as (? & ? & ? & ? & ? & ? & ? & ?).
    destruct r, w; unfold so_update; cbv zeta; eval_bits; sock_inv_tac Hlink Hl.
  - destruct Ha as (? & ? & ? & ? & ?), Hb as (? & ? & ? & ? & ?).
    destruct r, w; unfold so_update; cbv zeta; eval_bits; sock_inv_tac Hlink Hl.
Qed.

(** ** Abstract specification

    Two queues of the kind the mode has, a connection, and for each endpoint whether its
    reading and its writing direction have been shut down. *)

Record SockSpec (Q : Type) := mkSockSpec {
  ss_q : Pair Q;
  ss_linked : bool;
  ss_noread : Pair bool;
  ss_nowrite : Pair bool;
}.
Arguments mkSockSpec {Q}.
Arguments ss_q {Q}.
Arguments ss_linked {Q}.
Arguments ss_noread {Q}.
Arguments ss_nowrite {Q}.

Inductive SockOp :=
| SkWrite (side : bool) (src : user_in_ptr) (len : Z)
| SkRead (side peek : bool) (dst : user_out_ptr) (len : Z)
| SkShutdown (side : bool) (how : Z)
| SkSetReadThreshold (side : bool) (value : Z)
| SkSetWriteThreshold (side : bool) (value : Z)
| SkSignal (side : bool) (clear_mask set_mask : Z)
| SkSignalPeer (side : bool) (clear_mask set_mask : Z)
| SkClose (side : bool).

(** The status, the count and the bytes delivered. *)
Definition SockResult : Type := zx_status_t * Z * list byte.

(** An operation with the outcomes of the allocations that it makes. *)
Definition SockCall : Type := (Z -> bool) * SockOp.

Definition sock_step (p : Pair SocketDispatcher) (call : SockCall)
    : option (Pair SocketDispatcher * SockResult) :=
  let '(mem, op) := call in
  match op with
  | SkWrite side src len =>
      '(p, st, n) ← sk_Write mem side p src len; Some (p, (st, n, []))
  | SkRead side peek dst len =>
      '(p, st, n, out) ← sk_Read side p peek dst len; Some (p, (st, n, out))
  | SkShutdown side how => let '(p, st) := sk_Shutdown side p how in Some (p, (st, 0, []))
  | SkSetReadThreshold side v =>
      let '(p, st) := sk_SetReadThreshold side p v in Some (p, (st, 0, []))
  | SkSetWriteThreshold side v =>
      let '(p, st) := sk_SetWriteThreshold side p v in Some (p, (st, 0, []))
  | SkSignal side c s => let '(p, st) := peered_user_signal_self side c s p in Some (p, (st, 0, []))
  | SkSignalPeer side c s => let '(p, st) := peered_user_signal_peer side c s p in Some (p, (st, 0, []))
  | SkClose side => Some (peered_on_zero_handles side p, (ZX_OK, 0, []))
  end.

Fixpoint sock_run (p : Pair SocketDispatcher) (calls : list SockCall)
    : option (Pair SocketDispatcher * list SockResult) :=
  match calls with
  | [] => Some (p, [])
  | call :: calls => '(p, r) ← sock_step p call; '(p, rs) ← sock_run p calls; Some (p, r :: rs)
  end.

Section SocketSpec.
Context {datagram : bool} {Q : Type} `{!ChainModel datagram Q}.
Implicit Types s : SockSpec Q.

Definition ss_set_q (side : bool) (q : Q) s : SockSpec Q :=
  mkSockSpec (upd side (fun _ => q) (ss_q s)) (ss_linked s) (ss_noread s) (ss_nowrite s).

(** [g] limits the bytes for which there is memory. *)
Definition spec_write (g : Z) (side : bool) s (src : user_in_ptr) (len : Z) : SockSpec Q * SockResult :=
  let q := sel (negb side) (ss_q s) in
  if negb (ss_linked s) then (s, (ZX_ERR_PEER_CLOSED, 0, [])) else
  if sel side (ss_nowrite s) then (s, (ZX_ERR_BAD_STATE, 0, [])) else
  if len =? 0 then (s, (ZX_OK, 0, [])) else
  if 2 ^ 32 <=? len then (s, (ZX_ERR_INVALID_ARGS, 0, [])) else
  if kSizeMax <=? cm_size q then (s, (ZX_ERR_SHOULD_WAIT, 0, [])) else
  let '(q, (st, n, _)) := cm_step g q (CWrite src len) in
  (ss_set_q (negb side) q s, (st, if decide (st = ZX_OK) then n else 0, [])).

Definition spec_read (g : Z) (side peek : bool) s (dst : user_out_ptr) (len : Z) : SockSpec Q * SockResult :=
  let q := sel side (ss_q s) in
  if 2 ^ 32 <=? len then (s, (ZX_ERR_INVALID_ARGS, 0, [])) else
  if cm_size q =? 0 then
    (s, (if negb (ss_linked s) then ZX_ERR_PEER_CLOSED
         else if sel side (ss_noread s) then ZX_ERR_BAD_STATE else ZX_ERR_SHOULD_WAIT, 0, [])) else
  let '(q, (st, n, out)) := cm_step g q (CRead dst len) in
  (if peek then s else ss_set_q side q s, (st, if decide (st = ZX_OK) then n else 0, out)).

(** Shutting down reading on one side is shutting down writing on the other. *)
Definition spec_shutdown (side : bool) s (how : Z) : SockSpec Q :=
  let r := has_flag how ZX_SOCKET_SHUTDOWN_READ in
  let w := has_flag how ZX_SOCKET_SHUTDOWN_WRITE in
  let peer x := orb (ss_linked s && x) in
  mkSockSpec (ss_q s) (ss_linked s)
    (upd (negb side) (peer w) (upd side (orb r) (ss_noread s)))
    (upd (negb side) (peer r) (upd side (orb w) (ss_nowrite s))).

Definition sock_spec_step (g : Z) s (op : SockOp) : SockSpec Q * SockResult :=
  match op with
  | SkWrite side src len => spec_write g side s src len
  | SkRead side peek dst len => spec_read g side peek s dst len
  | SkShutdown side how => (spec_shutdown side s how, (ZX_OK, 0, []))
  | SkSetReadThreshold _ v => (s, (if kSizeMax <? v then ZX_ERR_INVALID_ARGS else ZX_OK, 0, []))
  | SkSetWriteThreshold _ v =>
      (s, (if negb (ss_linked s) then ZX_ERR_PEER_CLOSED
           else if kSizeMax <? v then ZX_ERR_INVALID_ARGS else ZX_OK, 0, []))
  | SkSignal _ c b => (s, (if user_signals_only c b then ZX_OK else ZX_ERR_INVALID_ARGS, 0, []))
  | SkSignalPeer _ c b =>
      (s, (if user_signals_only c b
           then if ss_linked s then ZX_OK else ZX_ERR_PEER_CLOSED else ZX_ERR_INVALID_ARGS, 0, []))
  | SkClose _ => (mkSockSpec (ss_q s) false (ss_noread s) (ss_nowrite s), (ZX_OK, 0, []))
  end.

(** The runs of the abstract pair: each call with a limit that its allocations explain. *)
Inductive sock_spec_trace : SockSpec Q -> list SockCall -> SockSpec Q -> list SockResult -> Prop :=
| trace_nil s : sock_spec_trace s [] s []
| trace_call s mem op g calls s' rs :
    grant_ok mem g -> sock_spec_trace (fst (sock_spec_step g s op)) calls s' rs ->
    sock_spec_trace s ((mem, op) :: calls) s' (snd (sock_spec_step g s op) :: rs).

(** The run when every allocation succeeds. *)
Fixpoint sock_spec_run s (ops : list SockOp) : SockSpec Q * list SockResult :=
  match ops with
  | [] => (s, [])
  | op :: ops =>
      let '(s, r) := sock_spec_step kSizeMax s op in let '(s, rs) := sock_spec_run s ops in (s, r :: rs)
  end.

(** The requests the model of the chain allows ([size_t] and [uint32_t] arguments are not
    negative). *)
Definition sock_op_ok s (op : SockOp) : Prop :=
  match op with
  | SkWrite side src len => 0 <= len /\ cm_ok (sel (negb side) (ss_q s)) (CWrite src len)
  | SkRead side _ dst len => 0 <= len /\ cm_ok (sel side (ss_q s)) (CRead dst len)
  | SkSetReadThreshold _ v | SkSetWriteThreshold _ v => 0 <= v
  | _ => True
  end.

(** A sequence of such requests, however its allocations turn out. *)
Fixpoint sock_ops_ok s (calls : list SockCall) : Prop :=
  match calls with
  | [] => True
  | (mem, op) :: calls =>
      sock_op_ok s op /\ forall g, grant_ok mem g -> sock_ops_ok (fst (sock_spec_step g s op)) calls
  end.

(** ** Refinement *)

Record ep_rel (e : SocketDispatcher) (q : Q) (linked noread nowrite : bool) : Prop := {
  er_data : cm_rel (sk_data_ e) q;
  er_mode : sk_datagram e = datagram;
  er_linked : sk_peer_ e = linked;
  er_noread : read_disabled_ e = noread;
  er_nowrite : sk_bit 5 e = nowrite;
}.

Record sock_rel (p : Pair SocketDispatcher) s : Prop := {
  sr_ep : forall side, ep_rel (sel side p) (sel side (ss_q s)) (ss_linked s)
                              (sel side (ss_noread s)) (sel side (ss_nowrite s));
  sr_inv : forall side, sock_inv2 (sk_obs (sel side p)) (sk_obs (sel (negb side) p));
}.

End SocketSpec.

Section SocketRefines.
Context {datagram : bool} {Q : Type} `{!ChainModel datagram Q}.
Implicit Types s : SockSpec Q.

Lemma sock_inv2_sym a b : sock_inv2 a b -> sock_inv2 b a.
Proof. intros (? & ? & ?). by split_and!. Qed.

(** It is enough to look at one side and at its peer. *)
Lemma sock_rel_sides r p s :
  ep_rel (sel r p) (sel r (ss_q s)) (ss_linked s) (sel r (ss_noread s)) (sel r (ss_nowrite s)) ->
  ep_rel (sel (negb r) p) (sel (negb r) (ss_q s)) (ss_linked s)
    (sel (negb r) (ss_noread s)) (sel (negb r) (ss_nowrite s)) ->
  sock_inv2 (sk_obs (sel r p)) (sk_obs (sel (negb r) p)) -> sock_rel p s.
Proof.
  intros Hr Hn Hinv. pose proof (sock_inv2_sym _ _ Hinv).
  constructor; intros side; destruct r, side; done.
Qed.

(** What the simulation needs to know of an endpoint after an update of its signals. *)
Lemma ep_rel_obs e e' q linked noread nowrite :
  cm_rel (sk_data_ e') q -> flags_ e' = flags_ e -> sk_datagram e = datagram ->
  so_linked (sk_obs e') = linked -> so_rdis (sk_obs e') = noread -> so_wd (sk_obs e') = nowrite ->
  ep_rel e' q linked noread nowrite.
Proof. intros Hc Hf Hd Hl Hr Hw. constructor; try done. unfold sk_datagram in *. by rewrite Hf. Qed.

Lemma sk_update_if_fields c m e :
  sk_data_ (sk_update_if c m e) = sk_data_ e /\ flags_ (sk_update_if c m e) = flags_ e.
Proof. unfold sk_update_if. by case_if. Qed.

Lemma sk_set_data_obs c e : sk_obs (sk_set_data c e) = so_set_size (size_ c) (sk_obs e).
Proof. done. Qed.

(** Putting back the queue it had leaves an endpoint as it was shown. *)
Lemma so_set_size_same e c : size_ c = size_ (sk_data_ e) -> sk_obs (sk_set_data c e) = sk_obs e.
Proof. intros E. rewrite sk_set_data_obs, E. by destruct e. Qed.

Lemma len32 len : 0 <= len -> negb (len =? wrap32 len) = (2 ^ 32 <=? len).
Proof.
  intros. destruct (Z.leb_spec (2 ^ 32) len).
  - pose proof (wrap_range 32 len ltac:(lia)). lia.
  - rewrite wrap_small by lia. lia.
Qed.

Lemma sk_write_signals_sel r was_empty st p :
  let e := sel r p in
  let w := write_threshold_ (sel (negb r) p) in
  let size := size_ (sk_data_ e) in
  let clear := if (0 <? st) && sk_peer_ e && (0 <? w) && (wrap64 (kSizeMax - size) <? w)
               then ZX_SOCKET_WRITE_THRESHOLD else 0 in
  sel r (sk_write_signals r was_empty st p) =
    sk_update_if 0 (if 0 <? st then
       Z.lor (if was_empty then ZX_SOCKET_READABLE else 0)
             (if (0 <? read_threshold_ e) && (read_threshold_ e <=? size)
              then ZX_SOCKET_READ_THRESHOLD else 0) else 0) e /\
  sel (negb r) (sk_write_signals r was_empty st p) =
    sk_update_if (if sk_peer_ e && is_full (sk_data_ e) then Z.lor clear ZX_SOCKET_WRITABLE
                  else clear) 0 (sel (negb r) p).
Proof. by destruct r. Qed.

Lemma sk_read_signals_sel r was_full actual p :
  let e := sel r p in
  let w := write_threshold_ (sel (negb r) p) in
  let size := size_ (sk_data_ e) in
  let clear := if (0 <? read_threshold_ e) && (size <? read_threshold_ e)
               then ZX_SOCKET_READ_THRESHOLD else 0 in
  let set := if (0 <? w) && (w <=? wrap64 (kSizeMax - size)) then ZX_SOCKET_WRITE_THRESHOLD else 0 in
  sel r (sk_read_signals r was_full actual p) =
    sk_update_if (if is_empty (sk_data_ e) then Z.lor clear ZX_SOCKET_READABLE else clear) 0 e /\
  sel (negb r) (sk_read_signals r was_full actual p) =
    (if sk_peer_ e
     then sk_update_if 0 (if was_full && (0 <? actual) then Z.lor set ZX_SOCKET_WRITABLE else set)
            (sel (negb r) p)
     else sel (negb r) p).
Proof. unfold sk_read_signals. by destruct r, (sk_peer_ _) eqn:E; cbn in *; rewrite ?E. Qed.

(** A signal update that leaves WRITE_DISABLED alone relates as before. *)
Lemma ep_rel_update c m e q linked noread nowrite :
  ep_rel e q linked noread nowrite -> so_wd (so_update c m (sk_obs e)) = so_wd (sk_obs e) ->
  ep_rel (sk_update_if c m e) q linked noread nowrite.
Proof.
  intros [] Hw. destruct (sk_update_if_fields c m e) as [Ed Ef].
  apply (ep_rel_obs e); rewrite ?Ed, ?sk_obs_update_if; try done. by rewrite Hw.
Qed.

Lemma ep_rel_data e q linked noread nowrite c q' :
  ep_rel e q linked noread nowrite -> cm_rel c q' ->
  ep_rel (sk_set_data c e) q' linked noread nowrite.
Proof. intros [] ?. by constructor. Qed.

Lemma ss_set_q_sel r q s : sel r (ss_q (ss_set_q r q s)) = q.
Proof. by destruct r. Qed.

Lemma ss_set_q_other r q s : sel (negb r) (ss_q (ss_set_q r q s)) = sel (negb r) (ss_q s).
Proof. by destruct r. Qed.

Ltac so_wd_tac := sock_masks; by rewrite ?andb_true_r, ?orb_false_r.

(** A successful write of [n] bytes on the reading endpoint [r]. *)
Lemma sock_rel_write r p s c q n :
  sock_rel p s -> ss_linked s = true -> cm_rel c q -> 0 < n ->
  cm_size q = cm_size (sel r (ss_q s)) + n ->
  sock_rel (sk_write_signals r (is_empty (sk_data_ (sel r p))) n (upd r (sk_set_data c) p))
           (ss_set_q r q s).
Proof.
  intros [Hep Hinv] Hlink Hc Hn Hsz. pose proof (Hep r) as H1. pose proof (Hep (negb r)) as H2.
  pose proof (er_linked _ _ _ _ _ H1) as Hl. rewrite Hlink in *.
  destruct (cm_size_rel _ _ (er_data _ _ _ _ _ H1)) as [Es1 Hb1], (cm_size_rel _ _ Hc) as [Es2 Hb2].
  destruct payload_bounds as [_ HM].
  destruct (sk_write_signals_sel r (is_empty (sk_data_ (sel r p))) n (upd r (sk_set_data c) p))
    as [E1 E2]. cbv zeta in E1, E2. rewrite sel_upd_same in E1. rewrite sel_upd_same, sel_upd_other' in E2.
  cbn [sk_set_data sk_data_ sk_peer_ read_threshold_] in E1, E2.
  rewrite Hl in E2. cbn [andb] in E2.
  apply (sock_rel_sides r); rewrite ?E1, ?E2, ?ss_set_q_sel, ?ss_set_q_other; cbn [ss_linked ss_noread ss_nowrite ss_set_q];
    rewrite ?Hlink.
  - apply ep_rel_update; [by eapply ep_rel_data|]. so_wd_tac.
  - apply ep_rel_update; [done|]. so_wd_tac.
  - rewrite !sk_obs_update_if, sk_set_data_obs.
    pose proof (sock_inv2_write _ _ n (Hinv r) Hl Hn) as Hinv'. cbn zeta in Hinv'.
    unfold is_full, is_empty. rewrite wrap_small by lia.
    assert (size_ c = so_size (sk_obs (sel r p)) + n) as Ec by (cbn; lia). rewrite Ec in *.
    destruct (Z.ltb_spec 0 n); [|lia]. cbn [andb]. apply Hinv'. lia.
Qed.

(** A successful read of [actual] bytes on the endpoint [r]. *)
Lemma sock_rel_read r p s c q actual :
  sock_rel p s -> cm_rel c q -> 0 <= actual ->
  (actual = 0 -> q = sel r (ss_q s)) -> (0 < actual -> cm_size q < cm_size (sel r (ss_q s))) ->
  sock_rel (sk_read_signals r (is_full (sk_data_ (sel r p))) actual (upd r (sk_set_data c) p))
           (ss_set_q r q s).
Proof.
  intros [Hep Hinv] Hc Hact Hz Hp. pose proof (Hep r) as H1. pose proof (Hep (negb r)) as H2.
  pose proof (er_linked _ _ _ _ _ H1) as Hl.
  destruct (cm_size_rel _ _ (er_data _ _ _ _ _ H1)) as [Es1 Hb1], (cm_size_rel _ _ Hc) as [Es2 Hb2].
  assert (actual = 0 -> size_ c = size_ (sk_data_ (sel r p))) as Hz' by (intros Hq%Hz; subst q; lia).
  destruct payload_bounds as [_ HM].
  destruct (sk_read_signals_sel r (is_full (sk_data_ (sel r p))) actual (upd r (sk_set_data c) p))
    as [E1 E2]. cbv zeta in E1, E2. rewrite sel_upd_same in E1. rewrite sel_upd_same, sel_upd_other' in E2.
  cbn [sk_set_data sk_data_ sk_peer_ read_threshold_] in E1, E2. rewrite Hl in E2.
  apply (sock_rel_sides r); rewrite ?E1, ?E2, ?ss_set_q_sel, ?ss_set_q_other; cbn [ss_linked ss_noread ss_nowrite ss_set_q].
  - apply ep_rel_update; [by eapply ep_rel_data|]. so_wd_tac.
  - destruct (ss_linked s); [|done]. apply ep_rel_update; [done|]. so_wd_tac.
  - pose proof (sock_inv2_read _ _ (size_ c) actual (Hinv r)) as Hinv'. cbn zeta in Hinv'.
    unfold is_full, is_empty in *. rewrite wrap_small by lia.
    rewrite sk_obs_update_if, sk_set_data_obs.
    replace (sk_obs (if ss_linked s then _ else _)) with
      (if so_linked (sk_obs (sel r p)) then so_update 0
         (if (kSizeMax <=? so_size (sk_obs (sel r p))) && (0 <? actual)
          then Z.lor (if (0 <? so_wt (sk_obs (sel (negb r) p))) && (so_wt (sk_obs (sel (negb r) p)) <=? kSizeMax - size_ c)
                      then ZX_SOCKET_WRITE_THRESHOLD else 0) ZX_SOCKET_WRITABLE
          else if (0 <? so_wt (sk_obs (sel (negb r) p))) && (so_wt (sk_obs (sel (negb r) p)) <=? kSizeMax - size_ c)
               then ZX_SOCKET_WRITE_THRESHOLD else 0) (sk_obs (sel (negb r) p))
       else sk_obs (sel (negb r) p)).
    { apply Hinv'; cbn -[kSizeMax]; try done; lia. }
    change (so_linked (sk_obs (sel r p))) with (sk_peer_ (sel r p)). rewrite Hl.
    destruct (ss_linked s); [by rewrite sk_obs_update_if|done].
Qed.

(** An operation that leaves the chain as large as it was, and changes nothing else. *)
Lemma sock_rel_data r p s c q :
  sock_rel p s -> cm_rel c q -> q = sel r (ss_q s) -> sock_rel (upd r (sk_set_data c) p) (ss_set_q r q s).
Proof.
  intros [Hep Hinv] Hc ->. destruct (cm_size_rel _ _ (er_data _ _ _ _ _ (Hep r))) as [Es1 _].
  destruct (cm_size_rel _ _ Hc) as [Es2 _].
  apply (sock_rel_sides r); rewrite ?sel_upd_same, ?sel_upd_other', ?ss_set_q_sel, ?ss_set_q_other;
    cbn [ss_linked ss_noread ss_nowrite ss_set_q].
  - eapply ep_rel_data; eauto.
  - apply Hep.
  - rewrite so_set_size_same by lia. apply Hinv.
Qed.

Lemma sk_chain_write mem r p s src len c' res :
  sock_rel p s ->
  chain_step mem datagram (sk_data_ (sel r p)) (CWrite src len) = Some (c', res) ->
  (if sk_datagram (sel r p) then Some (WriteDatagram mem (sk_data_ (sel r p)) src len)
   else WriteStream mem (sk_data_ (sel r p)) src len) = Some (c', fst (fst res), snd (fst res))
  /\ snd res = [].
Proof.
  intros [Hep _]. rewrite (er_mode _ _ _ _ _ (Hep r)). cbn [chain_step]. destruct datagram.
  - destruct (WriteDatagram _ _ _ _) as [[c st] n]. by intros [= <- <-].
  - destruct (WriteStream _ _ _ _) as [[[c st] n]|]; [|done]. cbn. by intros [= <- <-].
Qed.

Lemma grant_all mem : grant_ok mem kSizeMax.
Proof. split; [destruct payload_bounds; lia|done]. Qed.

(** A call that makes the same step whatever the limit. *)
Lemma step_any_grant (P : Z -> Prop) mem : (forall g, P g) -> exists g, grant_ok mem g /\ P g.
Proof. intros H. exists kSizeMax. split; [apply grant_all|apply H]. Qed.

Lemma sock_write_step mem side p s src len :
  sock_rel p s -> sock_op_ok s (SkWrite side src len) ->
  exists g, grant_ok mem g /\ exists p' r, sock_step p (mem, SkWrite side src len) = Some (p', r) /\
    sock_rel p' (fst (spec_write g side s src len)) /\ snd (spec_write g side s src len) = r.
Proof.
  intros Hrel [Hlen Hok]. pose proof Hrel as [Hep Hinv]. cbn [sock_step]. unfold sk_Write, spec_write.
  pose proof (Hep side) as []. rewrite er_linked0. destruct (ss_linked s) eqn:Hlink; cbn [negb]; [|by apply step_any_grant; eauto].
  replace (has_flag (signals_ (sk_base (sel side p))) ZX_SOCKET_WRITE_DISABLED)
    with (sk_bit 5 (sel side p)) by (symmetry; apply (land_bit _ 5); lia).
  rewrite er_nowrite0. destruct (sel side (ss_nowrite s)); [by apply step_any_grant; eauto|].
  destruct (Z.eqb_spec len 0) as [|Hne]; [by apply step_any_grant; eauto|]. rewrite len32 by done.
  destruct (2 ^ 32 <=? len); [by apply step_any_grant; eauto|].
  set (r := negb side) in *. pose proof (er_data _ _ _ _ _ (Hep r)) as Hd.
  destruct (cm_size_rel _ _ Hd) as [Esz Hb]. unfold sk_WriteSelfLocked, is_full. rewrite Esz.
  destruct (kSizeMax <=? cm_size (sel r (ss_q s))) eqn:Hfull; [by apply step_any_grant; eauto|].
  destruct (cm_sim mem _ _ _ Hd Hok) as (g & c' & res & Hg & Hstep & Hc' & Hres). exists g. split; [done|].
  destruct (sk_chain_write mem r p s src len c' res Hrel Hstep) as [-> Hout].
  pose proof (cm_write g _ _ _ (proj1 (proj1 Hg)) Hok ltac:(lia) ltac:(lia)) as Hw.
  destruct (cm_step _ _ _) as [q [[st n] out]]. cbn in Hres, Hc', Hw. subst res. cbn in Hout. cbn [mbind option_bind fst snd].
  destruct (decide (st = ZX_OK)) as [->|].
  - destruct Hw as [Hn Hsz]. eexists _, _. split; [done|]. split; [|done].
    cbn [fst]. by apply sock_rel_write.
  - subst q. eexists _, _. split; [done|]. split; [|done]. cbn [fst]. by apply sock_rel_data.
Qed.

Lemma sock_read_step mem side peek p s dst len :
  sock_rel p s -> sock_op_ok s (SkRead side peek dst len) ->
  exists g, grant_ok mem g /\ exists p' r, sock_step p (mem, SkRead side peek dst len) = Some (p', r) /\
    sock_rel p' (fst (spec_read g side peek s dst len)) /\ snd (spec_read g side peek s dst len) = r.
Proof.
  intros Hrel [Hlen Hok]. pose proof Hrel as [Hep Hinv]. cbn [sock_step]. unfold sk_Read, spec_read.
  pose proof (Hep side) as []. rewrite len32 by done. destruct (2 ^ 32 <=? len); [by apply step_any_grant; eauto|].
  destruct (cm_size_rel _ _ er_data0) as [Esz Hb]. unfold is_empty. rewrite Esz, er_linked0, er_noread0.
  destruct (cm_size (sel side (ss_q s)) =? 0); [by apply step_any_grant; eauto|]. rewrite er_mode0.
  destruct (cm_sim mem _ _ _ er_data0 Hok) as (g & c' & res & Hg & Hstep & Hc' & Hres). exists g. split; [done|].
  pose proof (cm_peek g _ _ _ _ er_data0 Hok) as Hpeek. pose proof (cm_read g _ _ _ Hok) as Hr.
  destruct (cm_step _ _ _) as [q [[st n] out]]. cbn in Hres, Hc', Hr, Hpeek. subst res.
  destruct peek.
  - rewrite Hpeek. cbn. eauto.
  - cbn [chain_step] in Hstep. destruct (Read _ _ _ _) as [[[[c st'] n'] out']|]; [|done].
    cbn in Hstep. injection Hstep as -> -> -> ->. cbn [mbind option_bind].
    destruct (decide (st = ZX_OK)) as [->|].
    + destruct Hr as (Hn & Hz & Hp). eexists _, _. split; [done|]. split; [|done].
      cbn [fst]. by apply sock_rel_read.
    + subst q. eexists _, _. split; [done|]. split; [|done]. cbn [fst]. by apply sock_rel_data.
Qed.

Lemma sk_Shutdown_sel side p how :
  let e := sel side p in
  let r := has_flag how ZX_SOCKET_SHUTDOWN_READ in
  let w := has_flag how ZX_SOCKET_SHUTDOWN_WRITE in
  let set := if r then ZX_SOCKET_PEER_WRITE_DISABLED else 0 in
  let want := Z.lor set (if w then ZX_SOCKET_WRITE_DISABLED else 0) in
  let have := Z.land (signals_ (sk_base e))
                (Z.lor ZX_SOCKET_PEER_WRITE_DISABLED ZX_SOCKET_WRITE_DISABLED) in
  if want =? have then fst (sk_Shutdown side p how) = p else
  sel side (fst (sk_Shutdown side p how)) =
    ep_update_state (if w then ZX_SOCKET_WRITABLE else 0)
      (if w then Z.lor set ZX_SOCKET_WRITE_DISABLED else set) (if r then sk_set_read_disabled e else e) /\
  sel (negb side) (fst (sk_Shutdown side p how)) =
    if sk_peer_ e then sk_ShutdownOtherLocked how (sel (negb side) p) else sel (negb side) p.
Proof.
  cbv zeta. unfold sk_Shutdown. cbv zeta. destruct (Z.lor _ _ =? Z.land _ _); [done|].
  by destruct side, (has_flag how ZX_SOCKET_SHUTDOWN_READ), (sk_peer_ _).
Qed.

(** Already shut down in exactly the requested way. *)
Lemma shutdown_noop (r w : bool) e :
  Z.lor (if r then ZX_SOCKET_PEER_WRITE_DISABLED else 0) (if w then ZX_SOCKET_WRITE_DISABLED else 0) =
  Z.land (signals_ (sk_base e)) (Z.lor ZX_SOCKET_PEER_WRITE_DISABLED ZX_SOCKET_WRITE_DISABLED) ->
  sk_bit 4 e = r /\ sk_bit 5 e = w.
Proof.
  intros E. unfold sk_bit. set (sg := signals_ (sk_base e)) in *. split.
  - apply (f_equal (fun z => Z.testbit z 4)) in E. rewrite !Z.land_spec in E.
    destruct r, w; cbn in E; by rewrite ?andb_true_r in E.
  - apply (f_equal (fun z => Z.testbit z 5)) in E. rewrite !Z.land_spec in E.
    destruct r, w; cbn in E; by rewrite ?andb_true_r in E.
Qed.

Lemma spec_shutdown_sel side s how :
  let r := has_flag how ZX_SOCKET_SHUTDOWN_READ in
  let w := has_flag how ZX_SOCKET_SHUTDOWN_WRITE in
  sel side (ss_noread (spec_shutdown side s how)) = orb r (sel side (ss_noread s)) /\
  sel side (ss_nowrite (spec_shutdown side s how)) = orb w (sel side (ss_nowrite s)) /\
  sel (negb side) (ss_noread (spec_shutdown side s how)) =
    orb (ss_linked s && w) (sel (negb side) (ss_noread s)) /\
  sel (negb side) (ss_nowrite (spec_shutdown side s how)) =
    orb (ss_linked s && r) (sel (negb side) (ss_nowrite s)).
Proof. by destruct side. Qed.

Lemma ep_rel_flags e q linked noread nowrite noread' nowrite' :
  ep_rel e q linked noread nowrite -> noread' = noread -> nowrite' = nowrite ->
  ep_rel e q linked noread' nowrite'.
Proof. by intros ? -> ->. Qed.

Lemma sock_shutdown_step side p s how :
  sock_rel p s -> sock_rel (fst (sk_Shutdown side p how)) (spec_shutdown side s how).
Proof.
  intros [Hep Hinv]. pose proof (sk_Shutdown_sel side p how) as Hsel. cbv zeta in Hsel.
  pose proof (spec_shutdown_sel side s how) as (Hs1 & Hs2 & Hs3 & Hs4).
  set (r := has_flag how ZX_SOCKET_SHUTDOWN_READ) in *.
  set (w := has_flag how ZX_SOCKET_SHUTDOWN_WRITE) in *.
  pose proof (Hep side) as H1. pose proof (Hep (negb side)) as H2.
  pose proof H1 as [_ Hm1 Hl1 Hr1 Hw1]. pose proof H2 as [_ Hm2 Hl2 Hr2 Hw2].
  destruct (Z.lor _ _ =? Z.land _ _) eqn:E.
  - rewrite Hsel. apply Z.eqb_eq in E. apply shutdown_noop in E as [E4 E5].
    destruct (Hinv side) as (Ha & Hb & _).
    destruct Ha as (_ & _ & _ & Hpa & Hla), Hb as (_ & _ & _ & Hpb & Hlb).
    cbn in Hpa, Hla, Hpb, Hlb. rewrite Hl1 in Hla. rewrite Hl2 in Hlb.
    apply (sock_rel_sides side); [| |apply Hinv]; cbn [ss_q ss_linked spec_shutdown].
    + eapply ep_rel_flags; [exact H1|rewrite Hs1|rewrite Hs2].
      * rewrite <-Hr1, <-Hpa, E4. apply orb_diag.
      * rewrite <-Hw1, E5. apply orb_diag.
    + eapply ep_rel_flags; [exact H2|rewrite Hs3|rewrite Hs4]; destruct (ss_linked s); try done.
      * destruct Hla as (_ & _ & Hwd & _). rewrite <-Hr2, <-Hwd, E5. apply orb_diag.
      * destruct Hlb as (_ & _ & Hwd & _). rewrite <-Hw2, Hwd, <-Hpa, E4. apply orb_diag.
  - destruct Hsel as [E1 E2].
    pose proof (sock_inv2_shutdown _ _ r w (Hinv side)) as (Hinv' & Ra & Wa & Rb & Wb).
    assert (sk_obs (sel side (fst (sk_Shutdown side p how))) = so_shutdown_self r w (sk_obs (sel side p))) as O1.
    { rewrite E1, sk_obs_update. by destruct r. }
    assert (sk_obs (sel (negb side) (fst (sk_Shutdown side p how))) =
      if so_linked (sk_obs (sel side p)) then so_shutdown_other r w (sk_obs (sel (negb side) p))
      else sk_obs (sel (negb side) p)) as O2.
    { rewrite E2. change (so_linked (sk_obs (sel side p))) with (sk_peer_ (sel side p)).
      destruct (sk_peer_ (sel side p)); [|done]. unfold sk_ShutdownOtherLocked.
      fold r w. cbv zeta. rewrite sk_obs_update. by destruct w. }
    rewrite <-O1, <-O2 in *. change (so_linked (sk_obs (sel side p))) with (sk_peer_ (sel side p)) in *.
    rewrite Hl1 in *.
    apply (sock_rel_sides side); [| |exact Hinv']; cbn [ss_q ss_linked spec_shutdown].
    + apply (ep_rel_obs (sel side p)); try done.
      * rewrite E1. cbn. destruct r; apply H1.
      * rewrite E1. by destruct r.
      * rewrite O1. unfold so_shutdown_self. by destruct r.
      * rewrite Ra, Hs1, <-Hr1. apply orb_comm.
      * rewrite Wa, Hs2, <-Hw1. apply orb_comm.
    + apply (ep_rel_obs (sel (negb side) p)); try done.
      * rewrite E2. case_if; [|apply H2]. unfold sk_ShutdownOtherLocked. cbn.
        fold w. destruct w; apply H2.
      * rewrite E2. case_if; [|done]. unfold sk_ShutdownOtherLocked. cbn. fold w. by destruct w.
      * rewrite O2. case_if; [unfold so_shutdown_other; by destruct w|done].
      * rewrite Rb, Hs3, <-Hr2. apply orb_comm.
      * rewrite Wb, Hs4, <-Hw2. apply orb_comm.
Qed.

(** An update of one endpoint that keeps its queue, its mode and its flags. *)
Lemma sock_rel_upd r p s f :
  sock_rel p s ->
  (forall e, sk_data_ (f e) = sk_data_ e /\ flags_ (f e) = flags_ e /\ sk_peer_ (f e) = sk_peer_ e /\
             read_disabled_ (f e) = read_disabled_ e) ->
  so_wd (sk_obs (f (sel r p))) = so_wd (sk_obs (sel r p)) ->
  sock_inv2 (sk_obs (f (sel r p))) (sk_obs (sel (negb r) p)) -> sock_rel (upd r f p) s.
Proof.
  intros [Hep Hinv] Hf Hwd Hinv'. destruct (Hep r) as []. destruct (Hf (sel r p)) as (Ed & Ef & Ep & Er).
  apply (sock_rel_sides r); rewrite ?sel_upd_same, ?sel_upd_other'; [|apply Hep|done].
  apply (ep_rel_obs (sel r p)); [by rewrite Ed|done|done| | |by rewrite Hwd].
  - by transitivity (sk_peer_ (sel r p)).
  - by transitivity (read_disabled_ (sel r p)).
Qed.

Definition so_set_rt (v : Z) (o : SockObs) : SockObs :=
  mkSockObs (so_size o) (so_linked o) v (so_wt o) (so_rdis o) (so_readable o) (so_writable o)
    (so_closed o) (so_peer_wd o) (so_wd o) (so_rth o) (so_wth o).

Definition so_set_wt (v : Z) (o : SockObs) : SockObs :=
  mkSockObs (so_size o) (so_linked o) (so_rt o) v (so_rdis o) (so_readable o) (so_writable o)
    (so_closed o) (so_peer_wd o) (so_wd o) (so_rth o) (so_wth o).

Lemma sock_inv2_rt a b v :
  sock_inv2 a b -> 0 <= v ->
  sock_inv2 (if negb (v =? 0) && (v <=? so_size a)
             then so_update 0 ZX_SOCKET_READ_THRESHOLD (so_set_rt v a)
             else so_update ZX_SOCKET_READ_THRESHOLD 0 (so_set_rt v a)) b.
Proof.
  intros (Ha & Hb & Hl) Hv. unfold sock_ok in Ha, Hb.
  destruct (so_linked a) eqn:Hlink; symmetry in Hl; rewrite ?Hl in *.
  - destruct Ha as (? & ? & ? & ? & ? & ? & ? & ?), Hb as (? & ? & ? & ? & ? & ? & ? & ?).
    case_if; unfold so_update; cbv zeta; eval_bits; sock_inv_tac Hlink Hl.
  - destruct Ha as (? & ? & ? & ? & ?), Hb as (? & ? & ? & ? & ?).
    case_if; unfold so_update; cbv zeta; eval_bits; sock_inv_tac Hlink Hl.
Qed.

Lemma sock_inv2_wt a b v :
  sock_inv2 a b -> so_linked a = true -> 0 <= v ->
  sock_inv2 (if negb (v =? 0) && (v <=? kSizeMax - so_size b)
             then so_update 0 ZX_SOCKET_WRITE_THRESHOLD (so_set_wt v a)
             else so_update ZX_SOCKET_WRITE_THRESHOLD 0 (so_set_wt v a)) b.
Proof.
  intros (Ha & Hb & Hl) Hlink Hv. rewrite Hlink in Hl. symmetry in Hl.
  unfold sock_ok in Ha, Hb. rewrite ?Hl, ?Hlink in *.
  destruct Ha as (? & ? & ? & ? & ? & ? & ? & ?), Hb as (? & ? & ? & ? & ? & ? & ? & ?).
  case_if; unfold so_update; cbv zeta; eval_bits; sock_inv_tac Hlink Hl.
Qed.

Lemma upd_upd {E} r (f g : E -> E) p : upd r f (upd r g p) = upd r (fun e => f (g e)) p.
Proof. by destruct r. Qed.

Lemma sock_set_rt_step r p s v :
  sock_rel p s -> 0 <= v -> sock_rel (fst (sk_SetReadThreshold r p v)) s.
Proof.
  intros Hrel Hv. pose proof Hrel as [Hep Hinv]. unfold sk_SetReadThreshold.
  destruct (kSizeMax <? v); [done|]. cbn [fst]. rewrite upd_upd, sel_upd_same.
  pose proof (sock_inv2_rt _ _ v (Hinv r) Hv) as Hinv'. apply sock_rel_upd; [done| | |].
  - intros e. by case_if.
  - case_if; rewrite sk_obs_update; unfold so_update; cbv zeta; eval_bits; cbn;
      by rewrite andb_true_r, orb_false_r.
  - cbn [sk_set_read_threshold sk_data_]. 
    change (so_size (sk_obs (sel r p))) with (size_ (sk_data_ (sel r p))) in Hinv'.
    case_if; by rewrite sk_obs_update.
Qed.

Lemma sock_set_wt_step r p s v :
  sock_rel p s -> 0 <= v -> sock_rel (fst (sk_SetWriteThreshold r p v)) s.
Proof.
  intros Hrel Hv. pose proof Hrel as [Hep Hinv]. unfold sk_SetWriteThreshold.
  destruct (sk_peer_ (sel r p)) eqn:Hl; [|done]. cbn [negb].
  destruct (kSizeMax <? v); [done|]. cbn [fst]. rewrite upd_upd, sel_upd_other'.
  destruct (cm_size_rel _ _ (er_data _ _ _ _ _ (Hep (negb r)))) as [_ Hb]. destruct payload_bounds.
  rewrite wrap_small by lia.
  pose proof (sock_inv2_wt _ _ v (Hinv r) Hl Hv) as Hinv'. apply sock_rel_upd; [done| | |].
  - intros e. by case_if.
  - case_if; rewrite sk_obs_update; unfold so_update; cbv zeta; eval_bits; cbn;
      by rewrite andb_true_r, orb_false_r.
  - change (so_size (sk_obs (sel (negb r) p))) with (size_ (sk_data_ (sel (negb r) p))) in Hinv'.
    case_if; by rewrite sk_obs_update.
Qed.

Lemma sk_obs_user c m e :
  user_signals_only c m = true -> sk_obs (ep_update_state c m e) = sk_obs e.
Proof.
  intros [Hs%Z.eqb_eq Hc%Z.eqb_eq]%andb_true_iff. rewrite sk_obs_update. unfold so_update.
  rewrite !(user_mask_low c), !(user_mask_low m) by done. cbn.
  by rewrite ?andb_true_r, ?orb_false_r.
Qed.

Lemma sock_signal_step r p s c m :
  sock_rel p s -> user_signals_only c m = true -> sock_rel (upd r (ep_update_state c m) p) s.
Proof.
  intros Hrel Hu. apply sock_rel_upd; [done|done| |]; rewrite sk_obs_user by done; [done|apply Hrel].
Qed.

Definition so_unlink (o : SockObs) : SockObs :=
  mkSockObs (so_size o) false (so_rt o) (so_wt o) (so_rdis o) (so_readable o) (so_writable o)
    (so_closed o) (so_peer_wd o) (so_wd o) (so_rth o) (so_wth o).

Lemma sock_inv2_close a b :
  sock_inv2 a b ->
  sock_inv2 (so_unlink a)
    (if so_linked a then so_update ZX_SOCKET_WRITABLE ZX_SOCKET_PEER_CLOSED (so_unlink b) else b).
Proof.
  intros (Ha & Hb & Hl). unfold sock_ok in Ha, Hb.
  destruct (so_linked a) eqn:Hlink; symmetry in Hl; rewrite ?Hl in *.
  - destruct Ha as (? & ? & ? & ? & ? & ? & ? & ?), Hb as (? & ? & ? & ? & ? & ? & ? & ?).
    unfold so_update; cbv zeta; eval_bits; sock_inv_tac Hlink Hl.
  - destruct Ha as (? & ? & ? & ? & ?), Hb as (? & ? & ? & ? & ?). sock_inv_tac Hlink Hl.
Qed.

Lemma sock_close_step r p s :
  sock_rel p s ->
  sock_rel (peered_on_zero_handles r p) (mkSockSpec (ss_q s) false (ss_noread s) (ss_nowrite s)).
Proof.
  intros [Hep Hinv]. pose proof (sock_inv2_close _ _ (Hinv r)) as Hinv'.
  pose proof (Hep r) as []. pose proof (Hep (negb r)) as [].
  change (so_linked (sk_obs (sel r p))) with (sk_peer_ (sel r p)) in Hinv'.
  unfold peered_on_zero_handles. change (ep_peer (sel r p)) with (sk_peer_ (sel r p)).
  rewrite er_linked0 in *.
  apply (sock_rel_sides r); cbn [ss_q ss_linked ss_noread ss_nowrite].
  - destruct (ss_linked s); autorewrite with zx; by constructor.
  - destruct (ss_linked s); autorewrite with zx; [|by constructor].
    apply (ep_rel_obs (sel (negb r) p)); try done.
    change (OnPeerZeroHandlesLocked ?e) with (ep_update_state ZX_SOCKET_WRITABLE ZX_SOCKET_PEER_CLOSED e).
    rewrite sk_obs_update. unfold so_update. cbv zeta. eval_bits. cbn. by rewrite andb_true_r, orb_false_r.
  - destruct (ss_linked s); autorewrite with zx; [|done].
    change (OnPeerZeroHandlesLocked ?e) with (ep_update_state ZX_SOCKET_WRITABLE ZX_SOCKET_PEER_CLOSED e).
    by rewrite sk_obs_update.
Qed.

Lemma sock_step_spec mem p s op :
  sock_rel p s -> sock_op_ok s op ->
  exists g, grant_ok mem g /\ exists p' r, sock_step p (mem, op) = Some (p', r) /\ sock_rel p' (fst (sock_spec_step g s op)) /\
    snd (sock_spec_step g s op) = r.
Proof.
  intros Hrel Hok. pose proof Hrel as [Hep _].
  destruct op as [side src len|side peek dst len|side how|side v|side v|side c m|side c m|side];
    [by apply sock_write_step|by apply sock_read_step|apply step_any_grant; intros g; cbn [sock_spec_step sock_step]..].
  - pose proof (sock_shutdown_step side p s how Hrel) as H.
    assert (snd (sk_Shutdown side p how) = ZX_OK) as Hst by (unfold sk_Shutdown; by case_if).
    destruct (sk_Shutdown side p how) as [p' st]. cbn in *. subst. eauto.
  - pose proof (sock_set_rt_step side p s v Hrel Hok) as H.
    assert (snd (sk_SetReadThreshold side p v) = if kSizeMax <? v then ZX_ERR_INVALID_ARGS else ZX_OK)
      as Hst by (unfold sk_SetReadThreshold; by case_if).
    destruct (sk_SetReadThreshold side p v) as [p' st]. cbn in *. subst. eauto.
  - pose proof (sock_set_wt_step side p s v Hrel Hok) as H.
    assert (snd (sk_SetWriteThreshold side p v) = if negb (ss_linked s) then ZX_ERR_PEER_CLOSED
      else if kSizeMax <? v then ZX_ERR_INVALID_ARGS else ZX_OK) as Hst.
    { unfold sk_SetWriteThreshold. rewrite (er_linked _ _ _ _ _ (Hep side)).
      destruct (ss_linked s); cbn; [|done]. by case_if. }
    destruct (sk_SetWriteThreshold side p v) as [p' st]. cbn in *. subst. eauto.
  - unfold peered_user_signal_self. rewrite user_allowed.
    destruct (user_signals_only c m) eqn:Hu; cbn [negb]; [|by eauto].
    eexists _, _. split; [done|]. split; [|done]. by apply sock_signal_step.
  - unfold peered_user_signal_peer. rewrite user_allowed.
    destruct (user_signals_only c m) eqn:Hu; cbn [negb]; [|by eauto].
    change (ep_peer (sel side p)) with (sk_peer_ (sel side p)). rewrite (er_linked _ _ _ _ _ (Hep side)).
    destruct (ss_linked s) eqn:El; cbn [negb]; [|by eauto].
    eexists _, _. split; [done|]. split; [|done]. by apply sock_signal_step.
  - eexists _, _. split; [done|]. split; [|done]. by apply sock_close_step.
Qed.

Lemma sock_run_spec calls :
  forall p s, sock_rel p s -> sock_ops_ok s calls ->
  exists p' s' rs, sock_run p calls = Some (p', rs) /\ sock_spec_trace s calls s' rs /\ sock_rel p' s'.
Proof.
  induction calls as [|[mem op] calls IH]; intros p s Hrel Hok; cbn [sock_run].
  { exists p, s, []. split_and!; [done|constructor|done]. }
  destruct Hok as [Hop Hok]. destruct (sock_step_spec mem p s op Hrel Hop) as (g & Hg & p1 & r & -> & Hrel1 & <-). cbn [mbind option_bind].
  destruct (IH p1 _ Hrel1 (Hok g Hg)) as (p2 & s2 & rs & -> & Htr & Hrel2). cbn [mbind option_bind].
  eexists p2, s2, _. split_and!; [done|by constructor|done].
Qed.

(** When every allocation succeeds the abstract run is a function. *)
Lemma trace_all_memory ops :
  forall s s' rs, sock_spec_trace s (map (pair (fun _ => true)) ops) s' rs -> sock_spec_run s ops = (s', rs).
Proof.
  induction ops as [|op ops IH]; intros s s' rs Htr; inversion Htr as [|? ? ? g ? ? rs' [_ Hg] Htr']; subst; [done|].
  rewrite (Hg (fun _ => eq_refl)) in *. apply IH in Htr'. cbn [sock_spec_run]. destruct (sock_spec_step kSizeMax s op). cbn in *. by rewrite Htr'.
Qed.

Definition sock_spec_new : SockSpec Q :=
  mkSockSpec (mkPair cm_empty cm_empty) true (mkPair false false) (mkPair false false).

Lemma sk_Create_rel flags mem koid p :
  has_flag flags ZX_SOCKET_DATAGRAM = datagram ->
  sk_Create flags mem koid = (ZX_OK, Some p) -> sock_rel p sock_spec_new.
Proof.
  intros Hf. unfold sk_Create. case_if; [done|]. case_if; [done|]. cbn. intros [= <-].
  apply (sock_rel_sides false); cbn [sel negb ep_left ep_right].
  - constructor; try done. apply cm_new.
  - constructor; try done. apply cm_new.
  - assert (forall k, sk_obs (SocketDispatcher_new (mkDispatcher k 0 ZX_SOCKET_WRITABLE [] []) flags) =
      mkSockObs 0 true 0 0 false false true false false false false false) as Ho by done.
    rewrite !Ho. unfold sock_inv2, sock_ok. cbn. done.
Qed.

(** The signals of one endpoint. *)
Definition socket_signals_ok (p' : Pair SocketDispatcher) (side : bool) : Prop :=
  let e := sel side p' in
  let peer := sel (negb side) p' in
  let has sig := has_flag (signals_ (sk_base e)) sig in
  let room := kSizeMax - size_ (sk_data_ peer) in
  has ZX_SOCKET_READABLE = negb (size_ (sk_data_ e) =? 0) /\
  has ZX_SOCKET_READ_THRESHOLD = (0 <? read_threshold_ e) && (read_threshold_ e <=? size_ (sk_data_ e)) /\
  has ZX_SOCKET_PEER_WRITE_DISABLED = read_disabled_ e /\
  (sk_peer_ e = true ->
     has ZX_SOCKET_PEER_CLOSED = false /\
     has ZX_SOCKET_WRITE_THRESHOLD = (0 <? write_threshold_ e) && (write_threshold_ e <=? room) /\
     has ZX_SOCKET_WRITE_DISABLED = read_disabled_ peer /\
     (read_disabled_ peer = false -> has ZX_SOCKET_WRITABLE = (0 <? room))) /\
  (sk_peer_ e = false -> has ZX_SOCKET_PEER_CLOSED = true -> has ZX_SOCKET_WRITABLE = false).

Lemma socket_signals_exact p' s side : sock_rel p' s -> socket_signals_ok p' side.
Proof.
  cbv beta delta [socket_signals_ok]. intros Hrel e peer has room.
  destruct (sr_inv _ _ Hrel side) as ((_ & H1 & H2 & H3 & H4) & _). cbn -[kSizeMax] in H1, H2, H3, H4.
  assert (forall i, 0 <= i -> has (Z.shiftl 1 i) = sk_bit i e) as Hbit.
  { intros i Hi. unfold has, has_flag. rewrite Z.shiftl_1_l. by apply land_bit. }
  change (has ZX_SOCKET_READABLE) with (has (Z.shiftl 1 0)).
  change (has ZX_SOCKET_READ_THRESHOLD) with (has (Z.shiftl 1 10)).
  change (has ZX_SOCKET_PEER_WRITE_DISABLED) with (has (Z.shiftl 1 4)).
  change (has ZX_SOCKET_PEER_CLOSED) with (has (Z.shiftl 1 2)).
  change (has ZX_SOCKET_WRITE_THRESHOLD) with (has (Z.shiftl 1 11)).
  change (has ZX_SOCKET_WRITE_DISABLED) with (has (Z.shiftl 1 5)).
  change (has ZX_SOCKET_WRITABLE) with (has (Z.shiftl 1 1)). rewrite !Hbit by lia.
  split_and!; try done.
  - intros E. fold e in H4. rewrite E in H4. destruct H4 as (? & ? & Hwd & Hw).
    split_and!; try done. intros Hr. fold e peer in Hwd, Hw. rewrite Hw by congruence. unfold room. fold peer. lia.
  - intros E. fold e in H4. by rewrite E in H4.
Qed.


End SocketRefines.

Definition socket_example : Pair SocketDispatcher :=
  mkPair (SocketDispatcher_new (mkDispatcher 1024 0 ZX_SOCKET_WRITABLE [] []) 0)
         (SocketDispatcher_new (mkDispatcher 1025 0 ZX_SOCKET_WRITABLE [] []) 0).

Definition socket_example_ops : list SockOp :=
  [SkWrite false [1; 2; 3] 3; SkSetReadThreshold true 2; SkRead true true 2 2; SkShutdown false 1;
   SkWrite false [4] 1; SkRead true false 8 8; SkRead true false 8 8; SkClose true].


(** ** Signals lost on faults *)

Definition shows (signal : Z) (side : bool) (p : Pair SocketDispatcher) : bool :=
  has_flag (signals_ (sk_base (sel side p))) signal.

Lemma shows_readable side p : shows ZX_SOCKET_READABLE side p = so_readable (sk_obs (sel side p)).
Proof. apply (land_bit _ 0). lia. Qed.

Lemma shows_writable side p : shows ZX_SOCKET_WRITABLE side p = so_writable (sk_obs (sel side p)).
Proof. apply (land_bit _ 1). lia. Qed.

Lemma shows_disabled side p : shows ZX_SOCKET_WRITE_DISABLED side p = so_wd (sk_obs (sel side p)).
Proof. apply (land_bit _ 5). lia. Qed.

(** The ways a write returns: without a change, or with the chain of the reader as the write left it and
    the signals updated on success only. *)
Lemma sk_Write_cases mem side p src len p' st n :
  sk_Write mem side p src len = Some (p', st, n) ->
  p' = p \/
  exists c m, (if sk_datagram (sel (negb side) p) then Some (WriteDatagram mem (sk_data_ (sel (negb side) p)) src len)
    else WriteStream mem (sk_data_ (sel (negb side) p)) src len) = Some (c, st, m) /\
    is_full (sk_data_ (sel (negb side) p)) = false /\
    p' = (if decide (st = ZX_OK) then sk_write_signals (negb side) (is_empty (sk_data_ (sel (negb side) p))) m (upd (negb side) (sk_set_data c) p)
          else upd (negb side) (sk_set_data c) p).
Proof.
  unfold sk_Write, sk_WriteSelfLocked. repeat (case_match; [intros [= <- <- <-]; by left|]).
  destruct (if sk_datagram _ then _ else _) as [[[c st'] m]|] eqn:E; [|done]. cbn [mbind option_bind].
  intros H'. right. exists c, m. destruct (decide (st' = ZX_OK)) as [->|]; injection H' as <- <- <-.
  - by rewrite decide_True.
  - by rewrite decide_False.
Qed.

(** The same for a read that takes data. *)
Lemma sk_Read_cases side p dst len p' st n out :
  sk_Read side p false dst len = Some (p', st, n, out) ->
  p' = p /\ st <> ZX_OK \/
  exists c m, Read (sk_data_ (sel side p)) dst len (sk_datagram (sel side p)) = Some (c, st, m, out) /\
    n = (if decide (st = ZX_OK) then m else 0) /\
    p' = (if decide (st = ZX_OK) then sk_read_signals side (is_full (sk_data_ (sel side p))) m (upd side (sk_set_data c) p)
          else upd side (sk_set_data c) p).
Proof.
  unfold sk_Read. case_match; [intros [= <- <- <- <-]; by left|]. case_match; [intros [= <- <- <- <-]; left; split; [done|]; by repeat case_match|].
  destruct (Read _ _ _ _) as [[[[c st'] m] o]|] eqn:E; [|done]. cbn [mbind option_bind].
  intros H'. right. exists c, m. destruct (decide (st' = ZX_OK)) as [->|]; injection H' as <- <- <- <-.
  - by rewrite !decide_True.
  - by rewrite !decide_False.
Qed.

Lemma sel_set_data_signals r x c p : signals_ (sk_base (sel x (upd r (sk_set_data c) p))) = signals_ (sk_base (sel x p)).
Proof. by destruct r, x. Qed.

(** A write into a queue that is not empty does not assert READABLE. *)
Lemma write_keeps_readable_clear mem side p src len p' st n :
  sk_Write mem side p src len = Some (p', st, n) -> is_empty (sk_data_ (sel (negb side) p)) = false ->
  shows ZX_SOCKET_READABLE (negb side) p = false -> shows ZX_SOCKET_READABLE (negb side) p' = false.
Proof.
  intros [->|(c & m & _ & _ & ->)]%sk_Write_cases He Hs; [done|]. case_decide; [|unfold shows; by rewrite sel_set_data_signals].
  rewrite shows_readable in *. destruct (sk_write_signals_sel (negb side) (is_empty (sk_data_ (sel (negb side) p))) m (upd (negb side) (sk_set_data c) p))
    as [E1 _]. cbv zeta in E1. rewrite E1, He, sel_upd_same, sk_obs_update_if, sk_set_data_obs. cbn [sk_set_data sk_data_ read_threshold_].
  revert Hs. generalize (sk_obs (sel (negb side) p)). intros o Hs. sock_masks; by rewrite Hs.
Qed.

(** A read asserts WRITABLE on the peer only when the queue was full. *)
Lemma read_writable side p c m :
  shows ZX_SOCKET_WRITABLE (negb side) (sk_read_signals side (is_full (sk_data_ (sel side p))) m (upd side (sk_set_data c) p)) =
  shows ZX_SOCKET_WRITABLE (negb side) p || (sk_peer_ (sel side p) && is_full (sk_data_ (sel side p)) && (0 <? m)).
Proof.
  rewrite !shows_writable. destruct (sk_read_signals_sel side (is_full (sk_data_ (sel side p))) m (upd side (sk_set_data c) p)) as [_ E2].
  cbv zeta in E2. rewrite E2, sel_upd_same, sel_upd_other'. cbn [sk_set_data sk_data_ sk_peer_].
  destruct (sk_peer_ (sel side p)); [|by rewrite orb_false_r]. rewrite sk_obs_update_if. cbn [andb].
  generalize (sk_obs (sel (negb side) p)). intros o. destruct (is_full (sk_data_ (sel side p)) && (0 <? m)); sock_masks; by rewrite ?andb_true_r, ?orb_false_r, ?orb_true_r.
Qed.

Lemma read_keeps_disabled side p c m full :
  let p' := sk_read_signals side full m (upd side (sk_set_data c) p) in
  sk_peer_ (sel (negb side) p') = sk_peer_ (sel (negb side) p) /\
  shows ZX_SOCKET_WRITE_DISABLED (negb side) p' = shows ZX_SOCKET_WRITE_DISABLED (negb side) p.
Proof.
  cbv zeta. rewrite !shows_disabled. destruct (sk_read_signals_sel side full m (upd side (sk_set_data c) p)) as [_ E2].
  cbv zeta in E2. rewrite E2, sel_upd_same, sel_upd_other'. cbn [sk_set_data sk_data_ sk_peer_].
  destruct (sk_peer_ (sel side p)); [|done]. split; [unfold sk_update_if; by case_if|]. rewrite sk_obs_update_if.
  generalize (sk_obs (sel (negb side) p)). intros o. sock_masks; by rewrite ?andb_true_r, ?orb_false_r.
Qed.

(** C37. Three gaps in the signals of a socket, in any state. (1) A stream write that fails with
    INVALID_ARGS because the user memory ends may have queued its first part, but changes no
    signal; and while data is queued no write asserts READABLE, so that a reader that waits for it
    is not woken however much arrives. (2) A read that fails changes no signal, even if it
    consumed data of a full queue; and no read of a queue that is not full asserts WRITABLE on the
    peer, so that a writer that waits for it is not woken even when the queue is emptied. (3)
    A read from a full queue asserts WRITABLE on a peer whose writing direction was shut
    down, where every write fails. *)
Theorem socket_signal_gaps (side : bool) (p : Pair SocketDispatcher) :
  let reader := negb side in
  (sk_datagram (sel reader p) = false -> chain_wf (sk_data_ (sel reader p)) ->
   forall mem src len p' st n, 0 <= len -> sk_Write mem side p src len = Some (p', st, n) ->
   (exists k, 0 <= k /\ chain_bytes (sk_data_ (sel reader p')) = chain_bytes (sk_data_ (sel reader p)) ++ ztake k src) /\
   (st = ZX_ERR_INVALID_ARGS -> forall x, signals_ (sk_base (sel x p')) = signals_ (sk_base (sel x p))) /\
   (is_empty (sk_data_ (sel reader p)) = false -> shows ZX_SOCKET_READABLE reader p = false ->
    is_empty (sk_data_ (sel reader p')) = false /\ shows ZX_SOCKET_READABLE reader p' = false)) /\
  (forall dst len p' st n out, sk_Read side p false dst len = Some (p', st, n, out) ->
   (st <> ZX_OK -> forall x, signals_ (sk_base (sel x p')) = signals_ (sk_base (sel x p))) /\
   (is_full (sk_data_ (sel side p)) = false -> shows ZX_SOCKET_WRITABLE (negb side) p' = shows ZX_SOCKET_WRITABLE (negb side) p)) /\
  (is_full (sk_data_ (sel side p)) = true -> sk_peer_ (sel side p) = true -> sk_peer_ (sel (negb side) p) = true ->
   shows ZX_SOCKET_WRITE_DISABLED (negb side) p = true ->
   forall dst len p' n out, sk_Read side p false dst len = Some (p', ZX_OK, n, out) -> 0 < n ->
   shows ZX_SOCKET_WRITABLE (negb side) p' = true /\
   forall mem src len, sk_Write mem (negb side) p' src len = Some (p', ZX_ERR_BAD_STATE, 0)).
Proof.
  cbv zeta. split_and!.
  - intros Hm Hc mem src len p' st n Hlen Hw. pose proof (sk_Write_cases _ _ _ _ _ _ _ _ Hw) as [->|(c & m & Hs & Hf & Ep)].
    { split_and!; [|done|done]. exists 0. by rewrite ztake_le_0, app_nil_r by lia. }
    rewrite Hm in Hs. destruct (WriteStream_spec mem _ src len Hc Hlen) as ([[c' st'] m'] & E & k & Hk & Hc' & Hz & Hb & _).
    rewrite Hs in E. injection E as <- <- <-.
    assert (sk_data_ (sel (negb side) p') = c) as Ed.
    { rewrite Ep. case_decide; [|by rewrite sel_upd_same]. destruct (sk_write_signals_sel (negb side) (is_empty (sk_data_ (sel (negb side) p))) m
        (upd (negb side) (sk_set_data c) p)) as [-> _]. rewrite (proj1 (sk_update_if_fields _ _ _)). by rewrite sel_upd_same. }
    rewrite Ed. split_and!; [exists k; split; [lia|done]| |].
    + intros ->. rewrite Ep. rewrite decide_False by done. intros x. apply sel_set_data_signals.
    + intros He Hs'. split; [|by eapply write_keeps_readable_clear].
      pose proof (chain_size_nonneg _ Hc). unfold is_empty in *. lia.
  - intros dst len p' st n out [[-> ?]|(c & m & _ & -> & ->)]%sk_Read_cases; [done|]. split.
    + intros Hst. rewrite decide_False by done. intros x. apply sel_set_data_signals.
    + intros Hf. case_decide; [|unfold shows; by rewrite sel_set_data_signals]. rewrite read_writable, Hf. by rewrite andb_false_r, orb_false_r.
  - intros Hf Hp1 Hp2 Hd dst len p' n out [[_ ?]|(c & m & _ & -> & ->)]%sk_Read_cases Hn; [done|]. rewrite !decide_True in * by done. split.
    + rewrite read_writable, Hf, Hp1. by rewrite (proj2 (Z.ltb_lt 0 m)), orb_true_r.
    + intros mem src len'. unfold sk_Write.
      destruct (read_keeps_disabled side p c m (is_full (sk_data_ (sel side p)))) as [E1 E2]. rewrite E1, Hp2. cbn [negb].
      unfold shows in E2, Hd. by rewrite E2, Hd.
Qed.

(** A pair whose right queue was filled, mbuf by mbuf, before the left end shut down its writing. *)
Definition full_example : Pair SocketDispatcher :=
  match sock_run socket_example (map (pair (fun _ => true))
    (replicate 128 (SkWrite false (replicate (Z.to_nat kPayloadSize) 7) kPayloadSize) ++ [SkShutdown false ZX_SOCKET_SHUTDOWN_WRITE])) with
  | Some (p, _) => p
  | None => socket_example
  end.

(** A write of 3000 bytes of which the user memory holds 2008, which queues them and leaves READABLE
    clear; and a read of the full queue. *)
Lemma socket_signal_gaps_witness :
  (exists p', sk_Write (fun _ => true) false socket_example (replicate 2008 7) 3000 = Some (p', ZX_ERR_INVALID_ARGS, 0) /\
     size_ (sk_data_ (sel true p')) = 2008 /\ shows ZX_SOCKET_READABLE true p' = false) /\
  (exists p' out, sk_Read true full_example false 9 9 = Some (p', ZX_OK, 9, out) /\
     shows ZX_SOCKET_WRITABLE false p' = true /\ sk_Write (fun _ => true) false p' [1] 1 = Some (p', ZX_ERR_BAD_STATE, 0)).
Proof.
  split.
  - destruct (sk_Write (fun _ => true) false socket_example (replicate 2008 7) 3000) as [[[p' st] n]|] eqn:E.
    + assert (st = ZX_ERR_INVALID_ARGS /\ n = 0 /\ size_ (sk_data_ (sel true p')) = 2008) as (-> & -> & Hs).
      { assert (option_map (fun '(p', st, n) => (st, n, size_ (sk_data_ (sel true p')))) (sk_Write (fun _ => true) false socket_example (replicate 2008 7) 3000)
          = Some (ZX_ERR_INVALID_ARGS, 0, 2008)) as H by (vm_compute; reflexivity). rewrite E in H. cbn in H. injection H. auto. }
      exists p'. split; [done|]. split; [done|]. destruct (socket_signal_gaps false socket_example) as [H _].
      destruct (H eq_refl (chain_new_wf 0) (fun _ => true) (replicate 2008 7) 3000 p' ZX_ERR_INVALID_ARGS 0 ltac:(lia) E) as (_ & Hsig & _). unfold shows. by rewrite (Hsig eq_refl).
    + exfalso. assert (bool_decide (is_Some (sk_Write (fun _ => true) false socket_example (replicate 2008 7) 3000)) = true) as H by (vm_compute; reflexivity).
      by rewrite E in H.
  - destruct (sk_Read true full_example false 9 9) as [[[[p' st] n] out]|] eqn:E.
    + assert (st = ZX_OK /\ n = 9) as (-> & ->).
      { assert (option_map (fun '(p', st, n, out) => (st, n)) (sk_Read true full_example false 9 9) = Some (ZX_OK, 9)) as H by (vm_compute; reflexivity).
        rewrite E in H. cbn in H. injection H. auto. }
      exists p', out. split; [done|]. destruct (socket_signal_gaps true full_example) as (_ & _ & H).
      destruct (H ltac:(vm_compute; reflexivity) ltac:(vm_compute; reflexivity) ltac:(vm_compute; reflexivity) ltac:(vm_compute; reflexivity)
        9 9 p' 9 out E eq_refl) as [H1 H2]. split; [exact H1|apply H2].
    + exfalso. assert (bool_decide (is_Some (sk_Read true full_example false 9 9)) = true) as H by (vm_compute; reflexivity).
      by rewrite E in H.
Defined.
