(* ===== verification/Message.v ===== *)
(** * Message storage

    Models [zircon/kernel/object/include/object/buffer_chain.h] (chains of page-sized
    buffers) and [zircon/kernel/object/message_packet.cc] with its header (channel
    messages stored in such chains).

    The physical page allocator ([pmm_alloc_pages]) is outside the model: its answer,
    [None] or the pages with whatever they contain, is an argument of [Alloc]. *)

From S2P Require Import Prelude Types.

(** ** Buffer chains *)

Definition kSizeOfBuffer : Z := PAGE_SIZE.
Definition kSizeOfBufferFields : Z := 16.
Definition kRawDataSize : Z := kSizeOfBuffer - kSizeOfBufferFields.
(** [sizeof(BufferList) + sizeof(list_node)]: a pointer and a pair of pointers. *)
Definition kSizeOfBufferChain : Z := 8 + 16.
Definition kContig : Z := kRawDataSize - kSizeOfBufferChain.

Record Buffer := mkBuffer {
  reserved_ : Z;
  raw_data_ : list byte;
}.

(** [data()] and [size()] of a buffer: the bytes after the reserved prefix. *)
Definition buffer_data (b : Buffer) : list byte := zdrop (reserved_ b) (raw_data_ b).
Definition buffer_size (b : Buffer) : Z := kRawDataSize - reserved_ b.

(** Store [bytes] at [off] from [data()]. *)
Definition buffer_store (b : Buffer) (off : Z) (bytes : list byte) : Buffer :=
  mkBuffer (reserved_ b) (zsplice (reserved_ b + off) bytes (raw_data_ b)).

Record BufferChain := mkBufferChain {
  buffers_ : list Buffer;
  pages_ : list Z;
}.

(** A page handed out by the allocator: its identity and its contents. *)
Definition vm_page : Type := Z * list byte.

Definition set_reserved_front (reserved : Z) (bufs : list Buffer) : list Buffer :=
  match bufs with
  | [] => []
  | b :: rest => mkBuffer reserved (raw_data_ b) :: rest
  end.

Definition num_buffers (size : Z) : Z :=
  wrap64 (wrap64 (size + kSizeOfBufferChain) + kRawDataSize - 1) / kRawDataSize.

(** [Alloc]: [pmm] is the answer of [pmm_alloc_pages(num_buffers, ...)]; the buffers are
    pushed on the front of the list in the order of the pages. *)
Definition BufferChain_Alloc (pmm : Z -> option (list vm_page)) (size : Z) : option BufferChain :=
  match pmm (num_buffers size) with
  | None => None
  | Some pages =>
      let temp := fold_left (fun bufs (p : vm_page) => mkBuffer 0 (snd p) :: bufs) pages [] in
      Some (mkBufferChain (set_reserved_front kSizeOfBufferChain temp) (map fst pages))
  end.

(** [Free]: the pages that go back to the allocator. *)
Definition BufferChain_Free (chain : BufferChain) : list Z := pages_ chain.

(** The loop of [CopyOut]: the bytes delivered and whether every copy succeeded. *)
Fixpoint copy_out_loop (bufs : list Buffer) (dst : user_out_ptr) (pos copy_offset rem : Z)
    : list byte * bool :=
  match bufs with
  | b :: bufs =>
      if 0 <? rem then
        let copy_len := Z.min rem (buffer_size b - copy_offset) in
        if copy_array_to_user dst pos copy_len then
          let '(out, ok) := copy_out_loop bufs dst (pos + copy_len) 0 (rem - copy_len) in
          (zrange copy_offset copy_len (buffer_data b) ++ out, ok)
        else ([], false)
      else ([], true)
  | [] => ([], true)
  end.

Definition CopyOut (chain : BufferChain) (dst : user_out_ptr) (src_offset size : Z)
    : zx_status_t * list byte :=
  let '(out, ok) := copy_out_loop (buffers_ chain) dst 0 src_offset size in
  (if ok then ZX_OK else ZX_ERR_INVALID_ARGS, out).

(** The loop of [CopyInCommon]: the buffers and whether every copy succeeded. *)
Fixpoint copy_in_loop (bufs : list Buffer) (src : user_in_ptr) (pos copy_offset rem : Z)
    : list Buffer * bool :=
  match bufs with
  | b :: rest =>
      if 0 <? rem then
        let copy_len := Z.min rem (buffer_size b - copy_offset) in
        let '(bytes, ok) := copy_array_from_user src pos copy_len in
        let b := buffer_store b copy_offset bytes in
        if ok then
          let '(rest, ok) := copy_in_loop rest src (pos + copy_len) 0 (rem - copy_len) in (b :: rest, ok)
        else (b :: rest, false)
      else (bufs, true)
  | [] => ([], true)
  end.

Definition CopyIn (chain : BufferChain) (src : user_in_ptr) (dst_offset size : Z)
    : BufferChain * zx_status_t :=
  let '(bufs, ok) := copy_in_loop (buffers_ chain) src 0 dst_offset size in
  (mkBufferChain bufs (pages_ chain), if ok then ZX_OK else ZX_ERR_INVALID_ARGS).

(** ** Message packets *)

Definition kMaxMessageSize : Z := 65536.
Definition kMaxMessageHandles : Z := 64.
Definition sizeof_Handle_ptr : Z := 8.
Definition sizeof_txid : Z := 4.

(** The object itself: two list links, two pointers, two 32-bit words, a 16-bit word and
    a flag, padded to the alignment of a pointer. *)
Definition sizeof_MessagePacket : Z := 48.
Definition kHandlesOffset : Z := sizeof_MessagePacket.
Definition kContiguousBytes : Z :=
  sizeof_MessagePacket + kMaxMessageHandles * sizeof_Handle_ptr + sizeof_txid.

Definition PayloadOffset (num_handles : Z) : Z :=
  wrap32 (kHandlesOffset + wrap32 (num_handles * sizeof_Handle_ptr)).

(** The handle array lies in the first buffer between the object and the payload; it is
    kept as a list of handle identities, uninitialised ([None]) after [Create]. *)
Record MessagePacket := mkPacket {
  buffer_chain_ : BufferChain;
  handles_ : list (option Z);
  data_size_ : Z;
  payload_offset_ : Z;
  num_handles_ : Z;
  owns_handles_ : bool;
}.

Definition CreateCommon (pmm : Z -> option (list vm_page)) (data_size num_handles : Z)
    : zx_status_t * option MessagePacket :=
  if (kMaxMessageSize <? data_size) || (kMaxMessageHandles <? num_handles)
  then (ZX_ERR_OUT_OF_RANGE, None) else
  let payload_offset := PayloadOffset num_handles in
  match BufferChain_Alloc pmm (wrap32 (payload_offset + data_size)) with
  | None => (ZX_ERR_NO_MEMORY, None)
  | Some chain =>
      (ZX_OK, Some (mkPacket chain (replicate (Z.to_nat num_handles) None) data_size payload_offset
                      (wrap 16 num_handles) false))
  end.

(** [Create] from user memory. A packet whose copy faults is recycled. *)
Definition MessagePacket_Create (pmm : Z -> option (list vm_page)) (data : user_in_ptr)
    (data_size num_handles : Z) : zx_status_t * option MessagePacket :=
  match CreateCommon pmm data_size num_handles with
  | (ZX_OK, Some new_msg) =>
      let '(chain, status) :=
        CopyIn (buffer_chain_ new_msg) data (PayloadOffset num_handles) data_size in
      if decide (status = ZX_OK)
      then (ZX_OK, Some (mkPacket chain (handles_ new_msg) (data_size_ new_msg)
                           (payload_offset_ new_msg) (num_handles_ new_msg) (owns_handles_ new_msg)))
      else (status, None)
  | (status, _) => (status, None)
  end.

Definition CopyDataTo (m : MessagePacket) (buf : user_out_ptr) : zx_status_t * list byte :=
  CopyOut (buffer_chain_ m) buf (payload_offset_ m) (data_size_ m).

(** Little-endian words. *)
Fixpoint le_decode (bs : list byte) : Z :=
  match bs with [] => 0 | b :: bs => b + 256 * le_decode bs end.

Fixpoint le_encode (n : nat) (z : Z) : list byte :=
  match n with O => [] | S n => z mod 256 :: le_encode n (z / 256) end.

Definition front_buffer (m : MessagePacket) : Buffer :=
  match buffers_ (buffer_chain_ m) with [] => mkBuffer 0 [] | b :: _ => b end.

Definition get_txid (m : MessagePacket) : Z :=
  if data_size_ m <? sizeof_txid then 0
  else le_decode (zrange (payload_offset_ m) sizeof_txid (buffer_data (front_buffer m))).

Definition set_txid (txid : Z) (m : MessagePacket) : MessagePacket :=
  if sizeof_txid <=? data_size_ m then
    let chain := buffer_chain_ m in
    let bufs := match buffers_ chain with
                | [] => []
                | b :: rest => buffer_store b (payload_offset_ m) (le_encode 4 txid) :: rest
                end in
    mkPacket (mkBufferChain bufs (pages_ chain)) (handles_ m) (data_size_ m) (payload_offset_ m)
      (num_handles_ m) (owns_handles_ m)
  else m.

(** [recycle]: the handles closed by the destructor and the pages freed. *)
Definition recycle (m : MessagePacket) : list (option Z) * list Z :=
  (if owns_handles_ m then handles_ m else [], BufferChain_Free (buffer_chain_ m)).

(** ** The bytes of a chain *)

Definition chain_data (bufs : list Buffer) : list byte := concat (map buffer_data bufs).

Record buffer_wf (b : Buffer) : Prop := {
  bw_reserved : 0 <= reserved_ b < kRawDataSize;
  bw_raw : zlen (raw_data_ b) = kRawDataSize;
}.

Lemma zlen_buffer_data b : buffer_wf b -> zlen (buffer_data b) = buffer_size b /\ 0 < buffer_size b.
Proof. intros []. unfold buffer_data, buffer_size. rewrite zlen_zdrop. lia. Qed.

Lemma buffer_store_spec b off bytes :
  buffer_wf b -> 0 <= off -> off + zlen bytes <= buffer_size b ->
  buffer_wf (buffer_store b off bytes) /\ buffer_size (buffer_store b off bytes) = buffer_size b /\
  buffer_data (buffer_store b off bytes) = zsplice off bytes (buffer_data b).
Proof.
  intros [] Hoff Hfit. pose proof (zlen_nonneg bytes). unfold buffer_size in *.
  split_and!; [|done|].
  - constructor; cbn; [done|]. rewrite zlen_zsplice; lia.
  - unfold buffer_data, buffer_store. cbn. apply zdrop_zsplice; lia.
Qed.

Arguments chain_data : simpl never.
Arguments buffer_data : simpl never.
Arguments buffer_size : simpl never.

Lemma chain_data_cons b bufs : chain_data (b :: bufs) = buffer_data b ++ chain_data bufs.
Proof. done. Qed.

Lemma copy_out_loop_spec dst bufs :
  forall pos off rem, Forall buffer_wf bufs ->
  match bufs with [] => True | b :: _ => 0 <= off <= buffer_size b end ->
  0 <= rem -> 0 <= off -> off + rem <= zlen (chain_data bufs) -> (rem = 0 -> pos <= dst) ->
  exists out, copy_out_loop bufs dst pos off rem = (out, pos + rem <=? dst) /\
    out `prefix_of` zrange off rem (chain_data bufs) /\
    (pos + rem <= dst -> out = zrange off rem (chain_data bufs)).
Proof.
  induction bufs as [|b bufs IH]; intros pos off rem Hwf Hoff Hrem Ho Hfit Hz; cbn [copy_out_loop].
  { change (zlen (chain_data [])) with 0 in Hfit. assert (rem = 0) as -> by lia. exists [].
    rewrite (proj2 (Z.leb_le _ _)) by lia. split; [done|]. split; [apply prefix_nil|].
    intros _. unfold zrange. by rewrite ztake_le_0 by lia. }
  apply Forall_cons in Hwf as [Hb Hwf]. destruct (zlen_buffer_data b Hb) as [Hl Hp].
  rewrite chain_data_cons, zlen_app, Hl in Hfit.
  destruct (Z.ltb_spec 0 rem) as [Hr|Hr].
  2: { assert (rem = 0) as -> by lia. exists []. rewrite (proj2 (Z.leb_le _ _)) by lia.
       split; [done|]. split; [apply prefix_nil|]. intros _. unfold zrange. by rewrite ztake_le_0 by lia. }
  set (k := Z.min rem (buffer_size b - off)). pose proof (zlen_nonneg (chain_data bufs)).
  unfold copy_array_to_user. destruct (Z.leb_spec (pos + k) dst) as [Hk|Hk].
  2: { exists []. rewrite (proj2 (Z.leb_gt (pos + rem) dst)) by lia. split; [done|]. split; [apply prefix_nil|lia]. }
  destruct (IH (pos + k) 0 (rem - k)) as (out & -> & Hpre & Hout); try done; try lia.
  { destruct bufs; [done|]. apply Forall_cons in Hwf as [Hb' _].
    destruct (zlen_buffer_data _ Hb'). lia. }
  exists (zrange off k (buffer_data b) ++ out). split; [do 2 f_equal; lia|].
  assert (zrange off rem (chain_data (b :: bufs)) =
    zrange off k (buffer_data b) ++ zrange 0 (rem - k) (chain_data bufs)) as ->.
  { rewrite chain_data_cons. replace rem with (k + (rem - k)) at 1 by lia. rewrite zrange_app by lia. f_equal.
    - unfold zrange. rewrite zdrop_app_le, ztake_app_le by (rewrite ?zlen_zdrop; lia). done.
    - destruct (decide (rem = k)) as [E|]; [by unfold zrange; rewrite !ztake_le_0 by lia|].
      unfold zrange. rewrite (zdrop_app_ge (off + k)) by lia. do 2 f_equal. lia. }
  split; [by apply prefix_app|]. intros Hle. by rewrite Hout by lia.
Qed.

Lemma copy_in_loop_spec src bufs :
  forall pos off rem, Forall buffer_wf bufs ->
  match bufs with [] => True | b :: _ => 0 <= off <= buffer_size b end ->
  0 <= pos -> 0 <= rem -> 0 <= off -> off + rem <= zlen (chain_data bufs) ->
  (rem = 0 -> pos <= zlen src) ->
  exists bufs', copy_in_loop bufs src pos off rem = (bufs', pos + rem <=? zlen src) /\
    Forall buffer_wf bufs' /\ map buffer_size bufs' = map buffer_size bufs /\
    (pos + rem <= zlen src -> chain_data bufs' = zsplice off (zrange pos rem src) (chain_data bufs)).
Proof.
  induction bufs as [|b bufs IH]; intros pos off rem Hwf Hoff Hpos Hrem Ho Hfit Hz; cbn [copy_in_loop].
  { change (zlen (chain_data [])) with 0 in Hfit. assert (rem = 0) as -> by lia. exists [].
    rewrite (proj2 (Z.leb_le _ _)) by lia. split_and!; try done. intros _. unfold zrange.
    by rewrite ztake_le_0, zsplice_nil by lia. }
  apply Forall_cons in Hwf as [Hb Hwf]. destruct (zlen_buffer_data b Hb) as [Hl Hp].
  rewrite chain_data_cons, zlen_app, Hl in Hfit.
  destruct (Z.ltb_spec 0 rem) as [Hr|Hr].
  2: { assert (rem = 0) as -> by lia. exists (b :: bufs). rewrite (proj2 (Z.leb_le _ _)) by lia.
       split_and!; try done; [by constructor|]. intros _. unfold zrange.
       by rewrite ztake_le_0, zsplice_nil by lia. }
  set (k := Z.min rem (buffer_size b - off)). pose proof (zlen_nonneg (chain_data bufs)).
  assert (zlen (zrange pos k src) <= k) as Hbk by (rewrite zlen_zrange; lia).
  destruct (buffer_store_spec b off (zrange pos k src) Hb Ho ltac:(lia)) as (Hb1 & Hs1 & Hd1).
  unfold copy_array_from_user. destruct (Z.leb_spec (pos + k) (zlen src)) as [Hk|Hk].
  2: { eexists. rewrite (proj2 (Z.leb_gt (pos + rem) (zlen src))) by lia.
       split_and!; [done|by constructor|cbn; by rewrite Hs1|lia]. }
  destruct (IH (pos + k) 0 (rem - k)) as (bufs' & -> & Hwf' & Hs' & Hd'); try done; try lia.
  { destruct bufs; [done|]. apply Forall_cons in Hwf as [Hb' _].
    destruct (zlen_buffer_data _ Hb'). lia. }
  eexists. split; [do 2 f_equal; lia|]. split_and!; [by constructor|cbn; by rewrite Hs1, Hs'|].
  intros Hle. rewrite !chain_data_cons, Hd1, Hd' by lia.
  assert (zlen (zrange pos k src) = k) by (rewrite zlen_zrange; lia).
  replace rem with (k + (rem - k)) at 2 by lia. rewrite zrange_app by lia.
  destruct (decide (rem = k)) as [E|].
  - assert (zrange (pos + k) (rem - k) src = []) as -> by (unfold zrange; by rewrite ztake_le_0 by lia).
    rewrite zsplice_nil, app_nil_r by lia. symmetry. apply zsplice_app_l; lia.
  - symmetry. apply zsplice_app_split; lia.
Qed.

(** ** Message packets *)

(** The documented behaviour of [pmm_alloc_pages]: as many pages as asked for. *)
Definition pmm_ok (pmm : Z -> option (list vm_page)) : Prop :=
  forall n pages, 0 <= n -> pmm n = Some pages ->
    zlen pages = n /\ Forall (fun p : vm_page => zlen (snd p) = kRawDataSize) pages.

(** The payload of a packet. *)
Definition packet_data (m : MessagePacket) : list byte :=
  zrange (payload_offset_ m) (data_size_ m) (chain_data (buffers_ (buffer_chain_ m))).

Record packet_wf (m : MessagePacket) : Prop := {
  pw_bufs : Forall buffer_wf (buffers_ (buffer_chain_ m));
  pw_front : buffers_ (buffer_chain_ m) <> [] /\ buffer_size (front_buffer m) = kContig;
  pw_offset : 0 <= payload_offset_ m <= sizeof_MessagePacket + kMaxMessageHandles * sizeof_Handle_ptr;
  pw_size : 0 <= data_size_ m <= kMaxMessageSize;
  pw_fit : payload_offset_ m + data_size_ m <= zlen (chain_data (buffers_ (buffer_chain_ m)));
}.

Lemma kContiguousBytes_fit : kContiguousBytes <= kContig.
Proof. done. Qed.

Lemma zlen_chain_data bufs :
  Forall buffer_wf bufs -> Forall (fun b => reserved_ b = 0) bufs ->
  zlen (chain_data bufs) = zlen bufs * kRawDataSize.
Proof.
  induction bufs as [|b bufs IH]; [done|]. intros [Hb Hw]%Forall_cons [Hr Hz]%Forall_cons.
  rewrite chain_data_cons, zlen_app, zlen_cons, (IH Hw Hz).
  destruct (zlen_buffer_data b Hb) as [-> _]. unfold buffer_size. lia.
Qed.

Lemma num_buffers_bounds size :
  0 <= size < 2 ^ 32 ->
  0 < num_buffers size /\ size + kSizeOfBufferChain <= num_buffers size * kRawDataSize.
Proof.
  intros Hs. unfold num_buffers, kSizeOfBufferChain, kRawDataSize, kSizeOfBuffer, kSizeOfBufferFields, PAGE_SIZE.
  rewrite (wrap_small 64 (size + _)) by lia. rewrite wrap_small by lia.
  set (n := (size + (8 + 16) + (4096 - 16) - 1) / (4096 - 16)).
  pose proof (Z.div_mod (size + (8 + 16) + (4096 - 16) - 1) (4096 - 16)).
  pose proof (Z.mod_pos_bound (size + (8 + 16) + (4096 - 16) - 1) (4096 - 16)). lia.
Qed.

Lemma Alloc_spec pmm size chain :
  pmm_ok pmm -> 0 <= size < 2 ^ 32 -> BufferChain_Alloc pmm size = Some chain ->
  Forall buffer_wf (buffers_ chain) /\
  (exists b rest, buffers_ chain = b :: rest /\ buffer_size b = kContig) /\
  size <= zlen (chain_data (buffers_ chain)).
Proof.
  intros Hpmm Hs. unfold BufferChain_Alloc. destruct (pmm (num_buffers size)) as [pages|] eqn:Hp; [|done].
  destruct (num_buffers_bounds size Hs) as [Hn Hfit].
  destruct (Hpmm (num_buffers size) pages ltac:(lia) Hp) as [Hlen Hpages].
  intros [= <-]. cbn [buffers_].
  assert (forall ps acc, fold_left (fun bufs (p : vm_page) => mkBuffer 0 (snd p) :: bufs) ps acc =
    rev (map (fun p : vm_page => mkBuffer 0 (snd p)) ps) ++ acc) as Hfold.
  { induction ps as [|p ps IH]; intros acc; [done|]. cbn. by rewrite IH, <-app_assoc. }
  rewrite Hfold, app_nil_r. set (bufs := rev _).
  assert (Forall buffer_wf bufs /\ Forall (fun b => reserved_ b = 0) bufs) as [Hw Hz].
  { assert (Forall (fun b => buffer_wf b /\ reserved_ b = 0) bufs) as H.
    { unfold bufs. apply Forall_rev, Forall_fmap. eapply Forall_impl; [exact Hpages|].
      intros p Hl. cbn. split; [by constructor|done]. }
    by apply Forall_and in H. }
  assert (zlen bufs = num_buffers size) as Hnb.
  { unfold bufs, zlen in *. by rewrite length_rev, length_map. }
  pose proof (zlen_chain_data bufs Hw Hz) as Hd.
  destruct bufs as [|b rest]; [rewrite zlen_nil in Hnb; lia|]. cbn [set_reserved_front].
  apply Forall_cons in Hw as [Hb Hw]. apply Forall_cons in Hz as [Hr Hz].
  assert (buffer_wf (mkBuffer kSizeOfBufferChain (raw_data_ b))) as Hb' by (destruct Hb; by constructor).
  split_and!; [by constructor|by eexists _, _|].
  rewrite chain_data_cons in Hd |- *. rewrite zlen_app in Hd |- *.
  destruct (zlen_buffer_data b Hb) as [E _], (zlen_buffer_data _ Hb') as [E' _].
  rewrite E, Hnb in Hd. rewrite E'. unfold buffer_size in *. cbn [reserved_]. rewrite Hr in Hd. lia.
Qed.

Lemma PayloadOffset_small n :
  0 <= n <= kMaxMessageHandles -> PayloadOffset n = sizeof_MessagePacket + n * sizeof_Handle_ptr.
Proof.
  unfold PayloadOffset, kHandlesOffset, kMaxMessageHandles, sizeof_MessagePacket, sizeof_Handle_ptr.
  intros. rewrite (wrap_small 32 (n * 8)), wrap_small by lia. done.
Qed.

Lemma CreateCommon_spec pmm data_size num_handles m :
  pmm_ok pmm -> 0 <= data_size -> 0 <= num_handles ->
  CreateCommon pmm data_size num_handles = (ZX_OK, Some m) ->
  packet_wf m /\ data_size_ m = data_size /\ num_handles_ m = num_handles /\
  payload_offset_ m = PayloadOffset num_handles /\ zlen (handles_ m) = num_handles /\
  data_size <= kMaxMessageSize /\ num_handles <= kMaxMessageHandles.
Proof.
  intros Hpmm Hd Hh. unfold CreateCommon.
  destruct ((kMaxMessageSize <? data_size) || (kMaxMessageHandles <? num_handles)) eqn:E; [done|].
  apply orb_false_iff in E as [E1%Z.ltb_ge E2%Z.ltb_ge].
  pose proof (PayloadOffset_small num_handles ltac:(lia)) as Hpo.
  unfold kMaxMessageSize, kMaxMessageHandles, sizeof_MessagePacket, sizeof_Handle_ptr in *.
  rewrite (wrap_small 32) by lia.
  destruct (BufferChain_Alloc _ _) as [chain|] eqn:Ha; [|done]. intros [= <-].
  destruct (Alloc_spec pmm (PayloadOffset num_handles + data_size) chain Hpmm ltac:(lia) Ha) as (Hw & (b & rest & Eb & Hb) & Hfit).
  split_and!; try done; [|apply wrap_small; lia|cbn; apply zlen_zreplicate; lia].
  constructor; cbn; unfold kMaxMessageSize, kMaxMessageHandles, sizeof_MessagePacket, sizeof_Handle_ptr;
    try done; try lia. rewrite Eb. unfold front_buffer. cbn. by rewrite Eb.
Qed.

Lemma packet_front_fit m :
  packet_wf m -> 0 <= payload_offset_ m <= buffer_size (front_buffer m).
Proof.
  intros []. destruct pw_front0 as [_ ->]. pose proof kContiguousBytes_fit.
  unfold kContiguousBytes, sizeof_txid in *. lia.
Qed.

Lemma packet_bufs m :
  packet_wf m -> exists rest, buffers_ (buffer_chain_ m) = front_buffer m :: rest.
Proof.
  intros []. destruct pw_front0 as [Hne _]. unfold front_buffer.
  destruct (buffers_ (buffer_chain_ m)); [done|]. by eexists.
Qed.

Lemma CopyDataTo_spec m buf :
  packet_wf m -> 0 <= buf ->
  exists out, CopyDataTo m buf = (if data_size_ m <=? buf then ZX_OK else ZX_ERR_INVALID_ARGS, out) /\
    out `prefix_of` packet_data m /\ (data_size_ m <= buf -> out = packet_data m).
Proof.
  intros Hm Hbuf. destruct (packet_bufs m Hm) as [rest Eb]. pose proof (packet_front_fit m Hm).
  pose proof Hm as [].
  destruct (copy_out_loop_spec buf (buffers_ (buffer_chain_ m)) 0 (payload_offset_ m) (data_size_ m))
    as (out & Ho & Hpre & Hout); try done; try lia; [by rewrite Eb|].
  exists out. unfold CopyDataTo, CopyOut. rewrite Ho, Z.add_0_l. split; [done|]. split; [done|]. intros. by apply Hout.
Qed.

(** [Create] on every branch. *)
Definition Create_post (pmm : Z -> option (list vm_page)) (data : user_in_ptr)
    (data_size num_handles : Z) (r : zx_status_t * option MessagePacket) : Prop :=
  match r with
  | (ZX_OK, Some m) =>
      packet_wf m /\ packet_data m = ztake data_size data /\ zlen (packet_data m) = data_size /\
      data_size_ m = data_size /\ num_handles_ m = num_handles /\ zlen (handles_ m) = num_handles /\
      data_size <= kMaxMessageSize /\ num_handles <= kMaxMessageHandles
  | (ZX_ERR_OUT_OF_RANGE, None) => kMaxMessageSize < data_size \/ kMaxMessageHandles < num_handles
  | (ZX_ERR_NO_MEMORY, None) => exists n, pmm n = None
  | (ZX_ERR_INVALID_ARGS, None) => zlen data < data_size
  | _ => False
  end.

Lemma Create_spec pmm data data_size num_handles :
  pmm_ok pmm -> 0 <= data_size -> 0 <= num_handles ->
  Create_post pmm data data_size num_handles (MessagePacket_Create pmm data data_size num_handles).
Proof.
  intros Hpmm Hd Hh. unfold MessagePacket_Create.
  destruct (CreateCommon pmm data_size num_handles) as [st [m|]] eqn:Hc.
  - assert (st = ZX_OK) as ->.
    { revert Hc. unfold CreateCommon. case_if; [done|]. by destruct (BufferChain_Alloc _ _); intros [=]. }
    destruct (CreateCommon_spec _ _ _ _ Hpmm Hd Hh Hc) as (Hm & Eds & Enh & Epo & Hhl & Hr1 & Hr2).
    pose proof Hm as []. destruct (packet_bufs m Hm) as [rest Eb]. pose proof (packet_front_fit m Hm) as Hpf.
    unfold CopyIn. rewrite <-Epo. pose proof (zlen_nonneg data).
    destruct (copy_in_loop_spec data (buffers_ (buffer_chain_ m)) 0 (payload_offset_ m) data_size)
      as (bufs' & -> & Hw' & Hs' & Hd'); try done; try lia; [by rewrite Eb|].
    rewrite Z.add_0_l. destruct (Z.leb_spec data_size (zlen data)); cbn; [|done].
    unfold zrange in Hd'. rewrite zdrop_le_0 in Hd' by lia. specialize (Hd' ltac:(lia)).
    assert (zlen (ztake data_size data) = data_size) as Hz by (rewrite zlen_ztake; lia).
    assert (packet_data (mkPacket (mkBufferChain bufs' (pages_ (buffer_chain_ m))) (handles_ m)
      (data_size_ m) (payload_offset_ m) (num_handles_ m) (owns_handles_ m)) = ztake data_size data) as Hpd.
    { unfold packet_data. cbn. rewrite Hd'. rewrite zrange_zsplice_in by lia.
      rewrite Z.sub_diag. unfold zrange. rewrite zdrop_le_0 by lia. apply ztake_ge. lia. }
    split_and!; try done; [|by rewrite Hpd]. constructor; cbn; try done.
    + rewrite Eb in Hs'. destruct bufs' as [|b' bufs']; [done|]. split; [done|].
      unfold front_buffer. cbn. cbn in Hs'. injection Hs' as -> _. apply pw_front0.
    + rewrite Hd', zlen_zsplice by lia. lia.
  - revert Hc. unfold CreateCommon. case_if; [intros [= <-]|].
    + apply orb_true_iff in E as [?%Z.ltb_lt|?%Z.ltb_lt]; [by left|by right].
    + unfold BufferChain_Alloc. destruct (pmm _) eqn:Hp; intros [= <-]. by eexists.
Qed.

(** ** Transaction identifiers *)

Lemma zlen_le_encode n z : zlen (le_encode n z) = Z.of_nat n.
Proof. revert z. induction n as [|n IH]; intros z; [done|]. cbn [le_encode]. rewrite zlen_cons, IH. lia. Qed.

Lemma le_decode_encode n z : le_decode (le_encode n z) = z mod 256 ^ Z.of_nat n.
Proof.
  revert z. induction n as [|n IH]; intros z; cbn [le_encode le_decode]; [by rewrite Z.mod_1_r|].
  rewrite IH. replace (256 ^ Z.of_nat (S n)) with (256 * 256 ^ Z.of_nat n)
    by (rewrite Nat2Z.inj_succ, Z.pow_succ_r; lia).
  rewrite Z.rem_mul_r by (try lia; apply Z.pow_pos_nonneg; lia). done.
Qed.

(** The first bytes of the payload are in the first buffer. *)
Lemma txid_in_front m :
  packet_wf m -> sizeof_txid <= data_size_ m ->
  zrange (payload_offset_ m) sizeof_txid (buffer_data (front_buffer m)) =
  ztake sizeof_txid (packet_data m).
Proof.
  intros Hm Hs. destruct (packet_bufs m Hm) as [rest Eb]. pose proof Hm as [Hw Hf Ho _ _].
  rewrite Eb in Hw. apply Forall_cons in Hw as [Hb _]. destruct (zlen_buffer_data _ Hb) as [Hl _].
  destruct Hf as [_ Hf]. rewrite Hf in Hl. pose proof kContiguousBytes_fit.
  unfold kContiguousBytes, sizeof_txid in *.
  unfold packet_data, zrange. rewrite ztake_ztake, Z.min_l by lia. rewrite Eb, chain_data_cons.
  rewrite zdrop_app_le by lia. by rewrite ztake_app_le by (rewrite zlen_zdrop; lia).
Qed.

Lemma get_txid_spec m :
  packet_wf m ->
  get_txid m = if data_size_ m <? sizeof_txid then 0 else le_decode (ztake sizeof_txid (packet_data m)).
Proof.
  intros Hm. unfold get_txid. destruct (Z.ltb_spec (data_size_ m) sizeof_txid); [done|].
  by rewrite txid_in_front.
Qed.

Lemma set_txid_spec txid m :
  packet_wf m -> 0 <= txid < 2 ^ 32 ->
  let m' := set_txid txid m in
  packet_wf m' /\ data_size_ m' = data_size_ m /\ handles_ m' = handles_ m /\
  (data_size_ m < sizeof_txid -> m' = m) /\
  (sizeof_txid <= data_size_ m ->
     packet_data m' = le_encode 4 txid ++ zdrop sizeof_txid (packet_data m) /\ get_txid m' = txid).
Proof.
  intros Hm Ht. cbn zeta. unfold set_txid. destruct (Z.leb_spec sizeof_txid (data_size_ m)); [|by split_and!; auto; lia].
  destruct (packet_bufs m Hm) as [rest Eb]. pose proof Hm as [Hw [Hne Hf] Ho Hsz Hfit]. rewrite Eb in *.
  apply Forall_cons in Hw as [Hb Hw]. pose proof kContiguousBytes_fit.
  unfold kContiguousBytes in *. pose proof (zlen_le_encode 4 txid) as Hle.
  destruct (buffer_store_spec (front_buffer m) (payload_offset_ m) (le_encode 4 txid) Hb)
    as (Hb' & Hs' & Hd'); [lia|unfold sizeof_txid in *; lia|].
  destruct (zlen_buffer_data _ Hb) as [Hl _]. rewrite chain_data_cons in Hfit.
  set (m' := mkPacket _ _ _ _ _ _).
  assert (chain_data (buffers_ (buffer_chain_ m')) =
    zsplice (payload_offset_ m) (le_encode 4 txid) (buffer_data (front_buffer m) ++ chain_data rest)) as Hcd.
  { change (buffers_ (buffer_chain_ m')) with
      (buffer_store (front_buffer m) (payload_offset_ m) (le_encode 4 txid) :: rest).
    rewrite chain_data_cons, Hd'. symmetry. apply zsplice_app_l; unfold sizeof_txid in *; lia. }
  assert (packet_wf m') as Hm'.
  { constructor; [by constructor|split; [done|]|done|done|].
    - change (front_buffer m') with (buffer_store (front_buffer m) (payload_offset_ m) (le_encode 4 txid)).
      by rewrite Hs'.
    - rewrite Hcd, zlen_zsplice by (unfold sizeof_txid in *; lia). done. }
  assert (packet_data m' = le_encode 4 txid ++ zdrop sizeof_txid (packet_data m)) as Hpd.
  { unfold packet_data. rewrite Hcd, Eb, chain_data_cons. cbn [payload_offset_ data_size_ m'].
    replace (data_size_ m) with (sizeof_txid + (data_size_ m - sizeof_txid)) at 1 by lia.
    rewrite zrange_app by (unfold sizeof_txid in *; lia). f_equal.
    - rewrite zrange_zsplice_in by (unfold sizeof_txid in *; lia). rewrite Z.sub_diag. unfold zrange.
      rewrite zdrop_le_0 by lia. apply ztake_ge. unfold sizeof_txid. lia.
    - rewrite zrange_zsplice_after by (unfold sizeof_txid in *; lia).
      rewrite zdrop_zrange by (unfold sizeof_txid in *; lia). done. }
  split_and!; try done; [lia|]. intros _. split; [done|].
  rewrite get_txid_spec by done. cbn [data_size_ m']. destruct (Z.ltb_spec (data_size_ m) sizeof_txid); [lia|].
  rewrite Hpd, ztake_app_exact by (unfold sizeof_txid; lia). rewrite le_decode_encode.
  by apply Z.mod_small.
Qed.

(** The pages [Create] asks for. *)
Definition packet_pages (data_size num_handles : Z) : Z :=
  num_buffers (sizeof_MessagePacket + num_handles * sizeof_Handle_ptr + data_size).

(** [Create] refuses when the allocator does, once the sizes are in range. *)
Lemma Create_no_memory pmm data data_size num_handles :
  0 <= data_size <= kMaxMessageSize -> 0 <= num_handles <= kMaxMessageHandles ->
  MessagePacket_Create pmm data data_size num_handles = (ZX_ERR_NO_MEMORY, None) <->
  pmm (packet_pages data_size num_handles) = None.
Proof.
  intros Hd Hh. unfold MessagePacket_Create, CreateCommon, BufferChain_Alloc, packet_pages.
  rewrite (proj2 (orb_false_iff _ _)) by (split; apply Z.ltb_ge; lia).
  rewrite PayloadOffset_small, wrap_small by
    (unfold kMaxMessageSize, kMaxMessageHandles, sizeof_MessagePacket, sizeof_Handle_ptr in *; lia).
  destruct (pmm _) as [pages|]; [|done]. unfold CopyIn. cbn [buffer_chain_ buffers_].
  by destruct (copy_in_loop _ _ _ _ _) as [bufs []].
Qed.

(** C23. A channel message survives its storage. [Create] has exactly four outcomes: a message
    above the size limits is [ZX_ERR_OUT_OF_RANGE]; otherwise, if the allocator does not
    give the pages, [ZX_ERR_NO_MEMORY]; otherwise, if the bytes are not all readable,
    [ZX_ERR_INVALID_ARGS]; otherwise a packet. Copying the packet out to a buffer of which
    [buf] bytes are writable succeeds exactly when the message fits, and then gives the very
    bytes that were copied in, across page boundaries; if it faults, what was written is a
    prefix of them. *)
Theorem message_roundtrip pmm data data_size num_handles buf :
  pmm_ok pmm -> 0 <= data_size -> 0 <= num_handles -> 0 <= buf ->
  let create := MessagePacket_Create pmm data data_size num_handles in
  if (kMaxMessageSize <? data_size) || (kMaxMessageHandles <? num_handles) then create = (ZX_ERR_OUT_OF_RANGE, None)
  else if decide (pmm (packet_pages data_size num_handles) = None) then create = (ZX_ERR_NO_MEMORY, None)
  else if zlen data <? data_size then create = (ZX_ERR_INVALID_ARGS, None)
  else exists m out, create = (ZX_OK, Some m) /\ num_handles_ m = num_handles /\
    CopyDataTo m buf = (if data_size <=? buf then ZX_OK else ZX_ERR_INVALID_ARGS, out) /\
    out `prefix_of` ztake data_size data /\ (data_size <= buf -> out = ztake data_size data).
Proof.
  intros Hpmm Hd Hh Hbuf create. unfold create. clear create.
  pose proof (Create_spec pmm data data_size num_handles Hpmm Hd Hh) as Hpost.
  destruct (_ || _) eqn:Elarge; [unfold MessagePacket_Create, CreateCommon; by rewrite Elarge|].
  apply orb_false_iff in Elarge as [E1%Z.ltb_ge E2%Z.ltb_ge].
  pose proof (Create_no_memory pmm data data_size num_handles (conj Hd E1) (conj Hh E2)) as Hnm.
  destruct (decide _) as [Hp|Hp]; [by apply Hnm|]. pose proof (zlen_nonneg data).
  destruct (MessagePacket_Create pmm data data_size num_handles) as [st [m|]].
  - destruct st; try done. destruct Hpost as (Hm & Hpd & Hz & Eds & Enh & _).
    rewrite Hpd, zlen_ztake in Hz. destruct (Z.ltb_spec (zlen data) data_size); [lia|].
    destruct (CopyDataTo_spec m buf Hm Hbuf) as (out & Ho & Hpre & Hout). rewrite Eds in Ho, Hout.
    exists m, out. rewrite Hpd in Hpre, Hout. done.
  - destruct st; try done; cbn in Hpost.
    + by destruct Hnm as [Hnm _]; destruct Hp; apply Hnm.
    + by rewrite (proj2 (Z.ltb_lt _ _)).
    + lia.
Qed.

(** An allocator with an unlimited supply of zeroed pages. *)
Definition pmm_example (n : Z) : option (list vm_page) :=
  Some (replicate (Z.to_nat n) (0, replicate (Z.to_nat kRawDataSize) 0)).

Lemma pmm_example_ok : pmm_ok pmm_example.
Proof.
  intros n pages Hn [= <-]. split; [by apply zlen_zreplicate|].
  apply Forall_replicate. by vm_compute.
Qed.

Lemma message_roundtrip_witness :
  (exists m, MessagePacket_Create pmm_example (replicate (Z.to_nat 5000) 7) 5000 2 = (ZX_OK, Some m) /\
    CopyDataTo m 5000 = (ZX_OK, replicate (Z.to_nat 5000) 7)) /\
  MessagePacket_Create (fun _ => None) [1] 1 0 = (ZX_ERR_NO_MEMORY, None).
Proof.
  split.
  - pose proof (message_roundtrip pmm_example (replicate (Z.to_nat 5000) 7) 5000 2 5000
      pmm_example_ok ltac:(lia) ltac:(lia) ltac:(lia)) as H.
    change ((kMaxMessageSize <? 5000) || (kMaxMessageHandles <? 2)) with false in H. cbv zeta iota in H.
    rewrite decide_False in H by done.
    assert ((zlen (replicate (Z.to_nat 5000) 7) <? 5000) = false) as E by (by vm_compute). rewrite E in H.
    destruct H as (m & out & Hc & _ & Ho & _ & Hout). exists m. split; [done|]. rewrite Ho, Hout by lia.
    rewrite ztake_ge; [done|]. by vm_compute.
  - apply (message_roundtrip (fun _ => None) [1] 1 0 1); [by intros ? ?|lia..].
Defined.

(** The transaction identifier lives in the first four bytes of the payload and only
    there: after [set_txid] the message reads back as the identifier in little-endian
    order followed by the rest of the bytes, [get_txid] returns the identifier, and a
    message too short to hold one is unchanged and has identifier zero. *)
Lemma message_txid pmm data data_size num_handles m txid buf :
  pmm_ok pmm -> 0 <= data_size -> 0 <= num_handles ->
  MessagePacket_Create pmm data data_size num_handles = (ZX_OK, Some m) ->
  0 <= txid < 2 ^ 32 -> data_size <= buf ->
  let m' := set_txid txid m in
  if data_size <? sizeof_txid then m' = m /\ get_txid m' = 0
  else get_txid m' = txid /\
       CopyDataTo m' buf = (ZX_OK, le_encode 4 txid ++ zdrop sizeof_txid (ztake data_size data)).
Proof.
  intros Hpmm Hd Hh Hc Ht Hbuf m'.
  pose proof (Create_spec pmm data data_size num_handles Hpmm Hd Hh) as Hpost. rewrite Hc in Hpost.
  destruct Hpost as (Hm & Hpd & _ & Eds & _). unfold m'.
  destruct (set_txid_spec txid m Hm Ht) as (Hm' & Eds' & _ & Hsmall & Hbig). rewrite Eds in *.
  destruct (Z.ltb_spec data_size sizeof_txid) as [Hlt|Hge].
  - rewrite (Hsmall Hlt). split; [done|]. rewrite get_txid_spec, Eds by done.
    by destruct (Z.ltb_spec data_size sizeof_txid); [|lia].
  - destruct (Hbig Hge) as [Hpd' ->]. split; [done|].
    destruct (CopyDataTo_spec _ buf Hm' ltac:(lia)) as (out & Ho & _ & Hout). rewrite Eds' in *.
    rewrite Ho, (proj2 (Z.leb_le _ _)) by lia. by rewrite Hout, Hpd', Hpd by lia.
Qed.

Lemma message_txid_witness :
  exists m, MessagePacket_Create pmm_example [1; 2; 3; 4; 5] 5 0 = (ZX_OK, Some m) /\
    CopyDataTo (set_txid 0x80000007 m) 8 = (ZX_OK, [7; 0; 0; 128; 5]).
Proof.
  destruct (MessagePacket_Create pmm_example [1; 2; 3; 4; 5] 5 0) as [st [m|]] eqn:Hc;
    [|vm_compute in Hc; discriminate].
  assert (st = ZX_OK) as -> by (vm_compute in Hc; by injection Hc).
  exists m. split; [done|].
  apply (message_txid pmm_example [1; 2; 3; 4; 5] 5 0 m 0x80000007 8 pmm_example_ok); [lia|lia|exact Hc|lia|lia].
Defined.
