(* ===== verification/Channel.v ===== *)
(** * Channel objects

    Models [zircon/kernel/object/channel_dispatcher.cc] and its header: a pair of peered
    endpoints with unbounded message queues, and [Call], which sends a request and waits
    for the reply with the same transaction identifier.

    The waiters are embedded in the threads, so the state of the system is the pair
    together with the waiter of every thread ([threads]). [Call] is two steps: [ChCall]
    runs until the thread blocks, [ChFinish] is [ResumeInterruptedCall] once [Wait] has
    returned (event, deadline or interruption); any steps of other threads may come in
    between. The method calls an endpoint makes on waiters ([Deliver], [Cancel]) are
    collected in [calls_] and applied to the threads before the lock is released. *)

From S2P Require Import Prelude Types Dispatcher Message.

Definition ZX_CHANNEL_READABLE : Z := ZX_OBJECT_READABLE.
Definition ZX_CHANNEL_WRITABLE : Z := ZX_OBJECT_WRITABLE.
Definition ZX_CHANNEL_PEER_CLOSED : Z := ZX_OBJECT_PEER_CLOSED.

Definition kMaxPendingMessageCount : Z := 3500.

(** ** Waiters *)

(** [channel_] is the endpoint of the pair the thread waits on; [event_] is the status
    the event has been signaled with, if it has. *)
Record MessageWaiter := mkWaiter {
  channel_ : option bool;
  msg_ : option MessagePacket;
  event_ : option zx_status_t;
  w_txid_ : Z;
  status_ : zx_status_t;
}.

Definition MessageWaiter_new : MessageWaiter := mkWaiter None None None 0 ZX_ERR_BAD_STATE.

Definition BeginWait (side : bool) (w : MessageWaiter) : MessageWaiter * zx_status_t :=
  match channel_ w with
  | Some _ => (w, ZX_ERR_BAD_STATE)
  | None => (mkWaiter (Some side) (msg_ w) None (w_txid_ w) ZX_ERR_TIMED_OUT, ZX_OK)
  end.

Definition set_waiter_txid (txid : Z) (w : MessageWaiter) : MessageWaiter :=
  mkWaiter (channel_ w) (msg_ w) (event_ w) txid (status_ w).

Definition Deliver (msg : MessagePacket) (w : MessageWaiter) : MessageWaiter :=
  mkWaiter (channel_ w) (Some msg) (Some ZX_OK) (w_txid_ w) ZX_OK.

Definition waiter_Cancel (status : zx_status_t) (w : MessageWaiter) : MessageWaiter :=
  mkWaiter (channel_ w) (msg_ w) (Some status) (w_txid_ w) status.

(** The waiter, the status and the message moved out. *)
Definition EndWait (w : MessageWaiter) : MessageWaiter * zx_status_t * option MessagePacket :=
  match channel_ w with
  | None => (w, ZX_ERR_BAD_STATE, None)
  | Some _ => (mkWaiter None None (event_ w) (w_txid_ w) (status_ w), status_ w, msg_ w)
  end.

(** ** Endpoints *)

Inductive WaiterCall :=
| WDeliver (thread : Z) (msg : MessagePacket)
| WCancel (thread : Z) (status : zx_status_t).

Record ChannelDispatcher := mkChannel {
  ch_base : Dispatcher;
  ch_peer_ : bool;
  messages_ : list MessagePacket;
  max_message_count_ : Z;
  owner_ : Z;
  txid_ : Z;
  waiters_ : list Z;
  calls_ : list WaiterCall;
  exceptions_ : Z;
}.

Definition ch_set_base (d : Dispatcher) (c : ChannelDispatcher) : ChannelDispatcher :=
  mkChannel d (ch_peer_ c) (messages_ c) (max_message_count_ c) (owner_ c) (txid_ c)
    (waiters_ c) (calls_ c) (exceptions_ c).
Definition ch_set_peer (b : bool) (c : ChannelDispatcher) : ChannelDispatcher :=
  mkChannel (ch_base c) b (messages_ c) (max_message_count_ c) (owner_ c) (txid_ c)
    (waiters_ c) (calls_ c) (exceptions_ c).
Definition ch_set_messages (l : list MessagePacket) (n : Z) (c : ChannelDispatcher) : ChannelDispatcher :=
  mkChannel (ch_base c) (ch_peer_ c) l n (owner_ c) (txid_ c) (waiters_ c) (calls_ c) (exceptions_ c).
Definition ch_set_owner (o : Z) (c : ChannelDispatcher) : ChannelDispatcher :=
  mkChannel (ch_base c) (ch_peer_ c) (messages_ c) (max_message_count_ c) o (txid_ c)
    (waiters_ c) (calls_ c) (exceptions_ c).
Definition ch_set_txid (t : Z) (c : ChannelDispatcher) : ChannelDispatcher :=
  mkChannel (ch_base c) (ch_peer_ c) (messages_ c) (max_message_count_ c) (owner_ c) t
    (waiters_ c) (calls_ c) (exceptions_ c).
Definition ch_set_waiters (l : list Z) (calls : list WaiterCall) (c : ChannelDispatcher)
    : ChannelDispatcher :=
  mkChannel (ch_base c) (ch_peer_ c) (messages_ c) (max_message_count_ c) (owner_ c) (txid_ c)
    l calls (exceptions_ c).
Definition ch_raise (c : ChannelDispatcher) : ChannelDispatcher :=
  mkChannel (ch_base c) (ch_peer_ c) (messages_ c) (max_message_count_ c) (owner_ c) (txid_ c)
    (waiters_ c) (calls_ c) (exceptions_ c + 1).

(** [while (!waiters_.is_empty()) waiters_.pop_front()->Cancel(status)]. *)
Definition cancel_waiters (status : zx_status_t) (c : ChannelDispatcher) : ChannelDispatcher :=
  ch_set_waiters [] (calls_ c ++ map (fun t => WCancel t status) (waiters_ c)) c.

Definition ch_on_zero_handles_locked (c : ChannelDispatcher) : ChannelDispatcher :=
  cancel_waiters ZX_ERR_CANCELED c.

Definition ch_OnPeerZeroHandlesLocked (c : ChannelDispatcher) : ChannelDispatcher :=
  cancel_waiters ZX_ERR_PEER_CLOSED
    (ch_set_base (UpdateStateLocked (ch_base c) ZX_CHANNEL_WRITABLE ZX_CHANNEL_PEER_CLOSED) c).

#[global] Instance channel_endpoint : Endpoint ChannelDispatcher := {|
  ep_base := ch_base;
  ep_set_base := ch_set_base;
  ep_peer := ch_peer_;
  ep_set_peer := ch_set_peer;
  ep_extra_signals := 0;
  on_zero_handles_locked := ch_on_zero_handles_locked;
  OnPeerZeroHandlesLocked := ch_OnPeerZeroHandlesLocked;
|}.

#[global] Instance channel_laws : EndpointLaws ChannelDispatcher.
Proof. by constructor. Qed.

Definition ChannelDispatcher_new (base : Dispatcher) : ChannelDispatcher :=
  mkChannel base true [] 0 ZX_KOID_INVALID 0 [] [] 0.

(** [Create]: [mem] answers the three allocations in program order. *)
Definition ch_Create (mem : nat -> bool) (koid : Z)
    : zx_status_t * option (Pair ChannelDispatcher) :=
  if negb (mem 0%nat && mem 1%nat && mem 2%nat) then (ZX_ERR_NO_MEMORY, None) else
  let '(d0, koid) := Dispatcher_new koid ZX_CHANNEL_WRITABLE in
  let '(d1, _) := Dispatcher_new koid ZX_CHANNEL_WRITABLE in
  (ZX_OK, Some (mkPair (ChannelDispatcher_new d0) (ChannelDispatcher_new d1))).

Definition set_owner (new_owner : Z) (c : ChannelDispatcher) : ChannelDispatcher :=
  if new_owner =? ZX_KOID_INVALID then c else ch_set_owner new_owner c.

(** ** The system: the pair and the waiters of the threads *)

Record ChannelSys := mkSys {
  sys_pair : Pair ChannelDispatcher;
  threads : gmap Z MessageWaiter;
  killed : list Z;
}.

Definition waiter (s : ChannelSys) (t : Z) : MessageWaiter := default MessageWaiter_new (threads s !! t).

Definition set_waiter (t : Z) (w : MessageWaiter) (s : ChannelSys) : ChannelSys :=
  mkSys (sys_pair s) (<[t := w]> (threads s)) (killed s).
Definition set_pair (p : Pair ChannelDispatcher) (s : ChannelSys) : ChannelSys :=
  mkSys p (threads s) (killed s).
Definition sys_upd (side : bool) (f : ChannelDispatcher -> ChannelDispatcher) (s : ChannelSys) : ChannelSys :=
  set_pair (upd side f (sys_pair s)) s.

Definition apply_call (s : ChannelSys) (c : WaiterCall) : ChannelSys :=
  match c with
  | WDeliver t m => set_waiter t (Deliver m (waiter s t)) s
  | WCancel t st => set_waiter t (waiter_Cancel st (waiter s t)) s
  end.

(** Apply the calls the endpoints have made, and return them. *)
Definition flush (s : ChannelSys) : ChannelSys * list WaiterCall :=
  let calls := calls_ (ep_left (sys_pair s)) ++ calls_ (ep_right (sys_pair s)) in
  let clear c := ch_set_waiters (waiters_ c) [] c in
  let s := fold_left apply_call calls s in
  (set_pair (mkPair (clear (ep_left (sys_pair s))) (clear (ep_right (sys_pair s)))) s, calls).

(** ** Messages *)

(** [waiters_.erase( *waiter)]: [None] when the waiter is not in the list, where the
    intrusive list would follow null links. *)
Fixpoint erase_waiter (t : Z) (l : list Z) : option (list Z) :=
  match l with
  | [] => None
  | x :: l => if x =? t then Some l else l ← erase_waiter t l; Some (x :: l)
  end.

(** [WriteSelf] on the endpoint [c], reading the identifiers of the waiters. *)
Definition WriteSelf (txid_of : Z -> Z) (msg : MessagePacket) (c : ChannelDispatcher)
    : ChannelDispatcher :=
  let txid := get_txid msg in
  match List.find (fun t => txid_of t =? txid) (waiters_ c) with
  | Some t =>
      ch_set_waiters (default [] (erase_waiter t (waiters_ c))) (calls_ c ++ [WDeliver t msg]) c
  | None =>
      let messages := messages_ c ++ [msg] in
      let count := zlen messages in
      let c := ch_set_messages messages (Z.max (max_message_count_ c) count) c in
      let c := if kMaxPendingMessageCount <? count then ch_raise c else c in
      ep_update_state 0 ZX_CHANNEL_READABLE c
  end.

Definition sys_WriteSelf (r : bool) (msg : MessagePacket) (s : ChannelSys) : ChannelSys :=
  sys_upd r (WriteSelf (fun t => w_txid_ (waiter s t)) msg) s.

(** The new state, the status and the message handed to the caller. *)
Definition ChResult : Type := zx_status_t * option MessagePacket.

(** [Read]: the endpoint, the status, the message, and the two sizes reported. *)
Definition ch_Read (owner max_size max_handle_count : Z) (may_discard : bool) (c : ChannelDispatcher)
    : ChannelDispatcher * zx_status_t * option MessagePacket * (Z * Z) :=
  if negb (owner =? owner_ c) then (c, ZX_ERR_BAD_HANDLE, None, (max_size, max_handle_count)) else
  match messages_ c with
  | [] => (c, if ch_peer_ c then ZX_ERR_SHOULD_WAIT else ZX_ERR_PEER_CLOSED, None,
           (max_size, max_handle_count))
  | m :: rest =>
      let sizes := (data_size_ m, num_handles_ m) in
      let small := (max_size <? data_size_ m) || (max_handle_count <? num_handles_ m) in
      if small && negb may_discard then (c, ZX_ERR_BUFFER_TOO_SMALL, None, sizes) else
      let c := ch_set_messages rest (max_message_count_ c) c in
      let c := match rest with [] => ep_update_state ZX_CHANNEL_READABLE 0 c | _ => c end in
      (c, if small then ZX_ERR_BUFFER_TOO_SMALL else ZX_OK, Some m, sizes)
  end.

Definition ch_Write (side : bool) (owner : Z) (msg : MessagePacket) (s : ChannelSys)
    : ChannelSys * ChResult :=
  let c := sel side (sys_pair s) in
  if negb (owner =? owner_ c) then (s, (ZX_ERR_BAD_HANDLE, None)) else
  if negb (ch_peer_ c) then (s, (ZX_ERR_PEER_CLOSED, None)) else
  (sys_WriteSelf (negb side) msg s, (ZX_OK, None)).

(** The [alloc_txid] loop: the counter and the identifier. *)
Fixpoint alloc_txid (fuel : nat) (used : list Z) (counter : Z) : option (Z * Z) :=
  match fuel with
  | O => None
  | S fuel =>
      let counter := wrap32 (counter + 1) in
      let txid := Z.lor counter 0x80000000 in
      if existsb (fun x => x =? txid) used then alloc_txid fuel used counter else Some (counter, txid)
  end.

(** [Call] until the thread blocks, which is the status [None]. *)
Definition ch_Call (t : Z) (side : bool) (owner : Z) (msg : MessagePacket) (s : ChannelSys)
    : option (ChannelSys * option ChResult) :=
  let '(w, st) := BeginWait side (waiter s t) in
  if decide (st <> ZX_OK)
  then Some (mkSys (sys_pair s) (threads s) (t :: killed s), Some (ZX_ERR_BAD_STATE, None)) else
  let s := set_waiter t w s in
  let c := sel side (sys_pair s) in
  if negb (owner =? owner_ c) then Some (s, Some (ZX_ERR_BAD_HANDLE, None)) else
  if negb (ch_peer_ c) then
    let '(w, _, reply) := EndWait w in Some (set_waiter t w s, Some (ZX_ERR_PEER_CLOSED, reply))
  else
    let used := map (fun t => w_txid_ (waiter s t)) (waiters_ c) in
    '(counter, txid) ← alloc_txid (S (length used)) used (txid_ c);
    let s := set_waiter t (set_waiter_txid txid w) s in
    let msg := set_txid txid msg in
    let s := sys_upd side (fun c => ch_set_waiters (waiters_ c ++ [t]) (calls_ c) (ch_set_txid counter c)) s in
    Some (sys_WriteSelf (negb side) msg s, None).

(** [zx_channel_call_finish] / the second half of [Call]: [get_channel] and then
    [ResumeInterruptedCall], where [interrupted] says that [Wait] returned
    [ZX_ERR_INTERNAL_INTR_RETRY]. *)
Definition ch_Finish (t : Z) (interrupted : bool) (s : ChannelSys) : option (ChannelSys * ChResult) :=
  match channel_ (waiter s t) with
  | None => Some (s, (ZX_ERR_BAD_STATE, None))
  | Some side =>
      if interrupted then Some (s, (ZX_ERR_INTERNAL_INTR_RETRY, None)) else
      let '(w, st, reply) := EndWait (waiter s t) in
      let s := set_waiter t w s in
      if decide (st = ZX_ERR_TIMED_OUT) then
        l ← erase_waiter t (waiters_ (sel side (sys_pair s)));
        Some (sys_upd side (fun c => ch_set_waiters l (calls_ c) c) s, (st, reply))
      else Some (s, (st, reply))
  end.

(** The destructor of the waiter of a thread that goes away: [RemoveWaiter] and the
    release of what it still holds. *)
Definition ch_ThreadExit (t : Z) (s : ChannelSys) : ChannelSys :=
  let s' := match channel_ (waiter s t) with
            | None => s
            | Some side =>
                sys_upd side (fun c => match erase_waiter t (waiters_ c) with
                                       | None => c
                                       | Some l => ch_set_waiters l (calls_ c) c
                                       end) s
            end in
  mkSys (sys_pair s') (delete t (threads s')) (killed s').

Inductive ChanOp :=
| ChWrite (side : bool) (owner : Z) (msg : MessagePacket)
| ChRead (side : bool) (owner max_size max_handle_count : Z) (may_discard : bool)
| ChCall (t : Z) (side : bool) (owner : Z) (msg : MessagePacket)
| ChFinish (t : Z) (interrupted : bool)
| ChThreadExit (t : Z)
| ChSetOwner (side : bool) (koid : Z)
| ChSignal (side : bool) (clear_mask set_mask : Z)
| ChSignalPeer (side : bool) (clear_mask set_mask : Z)
| ChClose (side : bool).

Definition ch_do (s : ChannelSys) (op : ChanOp) : option (ChannelSys * option ChResult) :=
  match op with
  | ChWrite side owner msg => let '(s, r) := ch_Write side owner msg s in Some (s, Some r)
  | ChRead side owner max_size max_handles may_discard =>
      let '(c, st, m, _) := ch_Read owner max_size max_handles may_discard (sel side (sys_pair s)) in
      Some (sys_upd side (fun _ => c) s, Some (st, m))
  | ChCall t side owner msg => ch_Call t side owner msg s
  | ChFinish t interrupted => '(s, r) ← ch_Finish t interrupted s; Some (s, Some r)
  | ChThreadExit t => Some (ch_ThreadExit t s, Some (ZX_OK, None))
  | ChSetOwner side koid => Some (sys_upd side (set_owner koid) s, Some (ZX_OK, None))
  | ChSignal side c m =>
      let '(p, st) := peered_user_signal_self side c m (sys_pair s) in
      Some (set_pair p s, Some (st, None))
  | ChSignalPeer side c m =>
      let '(p, st) := peered_user_signal_peer side c m (sys_pair s) in
      Some (set_pair p s, Some (st, None))
  | ChClose side => Some (set_pair (peered_on_zero_handles side (sys_pair s)) s, Some (ZX_OK, None))
  end.

(** One step: the operation and the calls on waiters it made. *)
Definition ch_step (s : ChannelSys) (op : ChanOp)
    : option (ChannelSys * option ChResult * list WaiterCall) :=
  '(s, r) ← ch_do s op; let '(s, calls) := flush s in Some (s, r, calls).

Definition sys_new (p : Pair ChannelDispatcher) : ChannelSys := mkSys p ∅ [].

(** ** Invariant *)

Definition ch_bit (i : Z) (c : ChannelDispatcher) : bool := Z.testbit (signals_ (ch_base c)) i.

(** A waiter that has been neither answered nor canceled. *)
Definition waiting (side : bool) (w : MessageWaiter) : Prop :=
  channel_ w = Some side /\ status_ w = ZX_ERR_TIMED_OUT.

(** The list of an endpoint, given the waiters [W] of the threads: exactly the threads
    that wait on the endpoint, with distinct kernel-generated identifiers; a disconnected
    endpoint has none. *)
Record waiters_ok (W : Z -> MessageWaiter) (side linked : bool) (l : list Z) : Prop := {
  wo_in : forall t, t ∈ l <-> waiting side (W t);
  wo_nodup : NoDup l;
  wo_txids : NoDup (map (fun t => w_txid_ (W t)) l);
  wo_range : forall t, t ∈ l -> 2 ^ 31 <= w_txid_ (W t) < 2 ^ 32;
  wo_unlinked : linked = false -> l = [];
}.

(** The link, the signals and the counters of an endpoint. *)
Record end_ok (linked : bool) (c : ChannelDispatcher) : Prop := {
  eo_peer : ch_peer_ c = linked;
  eo_readable : ch_bit 0 c = negb (zlen (messages_ c) =? 0);
  eo_writable : linked = true -> ch_bit 1 c = true /\ ch_bit 2 c = false;
  eo_closed : ch_bit 2 c = true -> ch_bit 1 c = false;
  eo_max : zlen (messages_ c) <= max_message_count_ c;
  eo_txid : 0 <= txid_ c < 2 ^ 32;
}.

Definition side_ok (W : Z -> MessageWaiter) (side linked : bool) (c : ChannelDispatcher) : Prop :=
  waiters_ok W side linked (waiters_ c) /\ end_ok linked c /\ calls_ c = [].

(** A thread: idle, waiting with nothing received, or answered: with a message that has
    its identifier, or without one when an endpoint was closed. *)
Definition thread_ok (w : MessageWaiter) : Prop :=
  match channel_ w with
  | None => msg_ w = None
  | Some _ =>
      match status_ w with
      | ZX_ERR_TIMED_OUT => msg_ w = None /\ event_ w = None
      | ZX_OK => event_ w = Some ZX_OK /\ exists m, msg_ w = Some m /\ get_txid m = w_txid_ w
      | ZX_ERR_CANCELED => event_ w = Some ZX_ERR_CANCELED /\ msg_ w = None
      | ZX_ERR_PEER_CLOSED => event_ w = Some ZX_ERR_PEER_CLOSED /\ msg_ w = None
      | _ => False
      end
  end.

Record chan_inv (s : ChannelSys) (linked : bool) : Prop := {
  ci_side : forall side, side_ok (waiter s) side linked (sel side (sys_pair s));
  ci_thread : forall t, thread_ok (waiter s t);
}.

(** ** The waiter map *)

Lemma waiter_set_waiter t w s u : waiter (set_waiter t w s) u = if u =? t then w else waiter s u.
Proof.
  unfold waiter, set_waiter. cbn. destruct (Z.eqb_spec u t) as [->|].
  - by rewrite lookup_insert_eq.
  - by rewrite lookup_insert_ne.
Qed.

Lemma waiter_upd side f s u : waiter (sys_upd side f s) u = waiter s u.
Proof. done. Qed.

Definition call_thread (c : WaiterCall) : Z := match c with WDeliver t _ | WCancel t _ => t end.
Definition call_run (c : WaiterCall) (w : MessageWaiter) : MessageWaiter :=
  match c with WDeliver _ m => Deliver m w | WCancel _ st => waiter_Cancel st w end.

Lemma apply_call_waiter s c u :
  waiter (apply_call s c) u = if u =? call_thread c then call_run c (waiter s (call_thread c)) else waiter s u.
Proof. destruct c; apply waiter_set_waiter. Qed.

Lemma apply_calls_pair calls s : sys_pair (fold_left apply_call calls s) = sys_pair s.
Proof. revert s. induction calls as [|c calls IH]; intros s; [done|]. cbn. rewrite IH. by destruct c. Qed.

Lemma apply_calls_other calls s u :
  u ∉ map call_thread calls -> waiter (fold_left apply_call calls s) u = waiter s u.
Proof.
  revert s. induction calls as [|c calls IH]; intros s; [done|]. cbn. intros [Hne Hni]%not_elem_of_cons.
  rewrite IH, apply_call_waiter by done. by destruct (Z.eqb_spec u (call_thread c)).
Qed.

Lemma apply_calls_in calls s c :
  NoDup (map call_thread calls) -> c ∈ calls ->
  waiter (fold_left apply_call calls s) (call_thread c) = call_run c (waiter s (call_thread c)).
Proof.
  revert s. induction calls as [|c' calls IH]; intros s; [by rewrite elem_of_nil|]. cbn.
  intros [Hni Hnd]%NoDup_cons [->|Hin]%elem_of_cons.
  - rewrite apply_calls_other, apply_call_waiter by done. by rewrite Z.eqb_refl.
  - rewrite IH, apply_call_waiter by done. destruct (Z.eqb_spec (call_thread c) (call_thread c')) as [E|]; [|done].
    destruct Hni. rewrite <-E. apply list_elem_of_fmap. eauto.
Qed.

Lemma apply_calls_ext calls s s' u :
  (forall t, waiter s t = waiter s' t) ->
  waiter (fold_left apply_call calls s) u = waiter (fold_left apply_call calls s') u.
Proof.
  revert s s'. induction calls as [|c calls IH]; intros s s' Hw; [done|]. cbn. apply IH.
  intros t. by rewrite !apply_call_waiter, !Hw.
Qed.

Lemma flush_sel s side :
  sel side (sys_pair (fst (flush s))) =
  ch_set_waiters (waiters_ (sel side (sys_pair s))) [] (sel side (sys_pair s)).
Proof. unfold flush. cbn. rewrite apply_calls_pair. by destruct side. Qed.

Lemma flush_waiter s u :
  waiter (fst (flush s)) u =
  waiter (fold_left apply_call (calls_ (ep_left (sys_pair s)) ++ calls_ (ep_right (sys_pair s))) s) u.
Proof. done. Qed.

Lemma clear_calls c : calls_ c = [] -> ch_set_waiters (waiters_ c) [] c = c.
Proof. destruct c. cbn. by intros ->. Qed.

(** Nothing to apply. *)
Lemma flush_quiet s :
  (forall side, calls_ (sel side (sys_pair s)) = []) ->
  flush s = (s, []).
Proof.
  intros H. pose proof (H false) as Hl. pose proof (H true) as Hr. cbn in Hl, Hr.
  unfold flush. rewrite Hl, Hr. cbn. rewrite !clear_calls by done. by destruct s as [[] ? ?].
Qed.

(** ** Erasing waiters *)

Lemma erase_waiter_spec t l :
  NoDup l ->
  match erase_waiter t l with
  | Some l' => t ∈ l /\ NoDup l' /\ forall u, u ∈ l' <-> u ∈ l /\ u <> t
  | None => t ∉ l
  end.
Proof.
  induction l as [|x l IH]; cbn; [intros _; apply not_elem_of_nil|]. intros [Hx Hnd]%NoDup_cons.
  specialize (IH Hnd). destruct (Z.eqb_spec x t) as [->|Hne].
  - split_and!; [by left|done|]. intros u. rewrite elem_of_cons. split; [|naive_solver].
    intros Hu. split; [by right|]. by intros ->.
  - destruct (erase_waiter t l) as [l'|]; cbn.
    + destruct IH as (Hin & Hnd' & Hiff). split_and!; [by right| |].
      * apply NoDup_cons. split; [|done]. rewrite Hiff. tauto.
      * intros u. rewrite !elem_of_cons, Hiff. naive_solver.
    + rewrite not_elem_of_cons. naive_solver.
Qed.

Lemma erase_waiter_sublist t l l' : erase_waiter t l = Some l' -> sublist l' l.
Proof.
  revert l'. induction l as [|x l IH]; cbn; intros l'; [done|]. destruct (x =? t).
  - intros [= <-]. by apply sublist_cons.
  - destruct (erase_waiter t l); [|done]. intros [= <-]. by apply sublist_skip, IH.
Qed.

(** ** Preservation, waiters *)

Section Waiters.
  Context (W W' : Z -> MessageWaiter) (side linked : bool).

Lemma wo_frame l :
  waiters_ok W side linked l -> (forall t, waiting side (W' t) <-> waiting side (W t)) ->
  (forall t, t ∈ l -> w_txid_ (W' t) = w_txid_ (W t)) -> waiters_ok W' side linked l.
Proof.
  intros [Hin Hnd Htx Hr Hu] Hw Ht. constructor; try done.
  - intros t. by rewrite Hw.
  - rewrite (map_ext_in _ (fun t => w_txid_ (W t))); [done|]. intros t Hi. apply Ht. by apply list_elem_of_In.
  - intros t Hi. rewrite Ht by done. auto.
Qed.

(** Only thread [t] changes, and it does not wait here, before or after. *)
Lemma wo_other t l :
  waiters_ok W side linked l -> (forall u, u <> t -> W' u = W u) ->
  ~ waiting side (W t) -> ~ waiting side (W' t) -> waiters_ok W' side linked l.
Proof.
  intros Hl Hu H1 H2. apply wo_frame; [done| |].
  - intros u. destruct (decide (u = t)) as [->|]; [tauto|]. by rewrite Hu.
  - intros u Hi%(wo_in _ _ _ _ Hl). rewrite Hu; [done|]. by intros ->.
Qed.

(** Thread [t] leaves the list. *)
Lemma wo_erase t l l' :
  waiters_ok W side linked l -> erase_waiter t l = Some l' -> (forall u, u <> t -> W' u = W u) ->
  ~ waiting side (W' t) -> waiters_ok W' side linked l'.
Proof.
  intros Hl He Hu Ht. pose proof (erase_waiter_spec t l (wo_nodup _ _ _ _ Hl)) as Hs. rewrite He in Hs.
  destruct Hs as (_ & Hnd & Hiff). pose proof (erase_waiter_sublist _ _ _ He) as Hsub.
  constructor; [|done| | |].
  - intros u. rewrite Hiff, (wo_in _ _ _ _ Hl). destruct (decide (u = t)) as [->|]; [tauto|].
    rewrite Hu by done. tauto.
  - rewrite (map_ext_in _ (fun t => w_txid_ (W t))).
    + eapply sublist_NoDup; [apply (wo_txids _ _ _ _ Hl)|]. by apply (fmap_sublist _ l' l).
    + intros u Hi. rewrite Hu; [done|]. apply list_elem_of_In, Hiff in Hi. tauto.
  - intros u Hi. pose proof Hi as [Hi' Hne]%Hiff. rewrite Hu by done. by apply Hl.
  - intros E. rewrite (wo_unlinked _ _ _ _ Hl E) in He. done.
Qed.

(** Thread [t] joins the list. *)
Lemma wo_push t l :
  waiters_ok W side true l -> ~ waiting side (W t) -> (forall u, u <> t -> W' u = W u) ->
  waiting side (W' t) -> 2 ^ 31 <= w_txid_ (W' t) < 2 ^ 32 ->
  w_txid_ (W' t) ∉ map (fun u => w_txid_ (W u)) l -> waiters_ok W' side true (l ++ [t]).
Proof.
  intros Hl Hnot Hu Ht Hr Hni. assert (t ∉ l) as Htl by (by rewrite (wo_in _ _ _ _ Hl)).
  assert (forall u, u ∈ l -> W' u = W u) as Hul by (intros u Hi; apply Hu; by intros ->).
  constructor; [| | | |done].
  - intros u. rewrite elem_of_app, list_elem_of_singleton, (wo_in _ _ _ _ Hl).
    destruct (decide (u = t)) as [->|]; [tauto|]. rewrite Hu by done. tauto.
  - apply NoDup_app. split_and!; [apply Hl|set_solver|apply NoDup_singleton].
  - rewrite map_app. cbn. rewrite (map_ext_in _ (fun t => w_txid_ (W t)) l).
    + apply NoDup_app. split_and!; [apply Hl| |apply NoDup_singleton]. set_solver.
    + intros u Hi. rewrite Hul; [done|]. by apply list_elem_of_In.
  - intros u [Hi| ->%list_elem_of_singleton]%elem_of_app; [|done]. rewrite Hul by done. by apply Hl.
Qed.

Lemma wo_none : (forall t, ~ waiting side (W' t)) -> waiters_ok W' side linked [].
Proof.
  intros H. constructor; try done; try apply NoDup_nil_2.
  - intros t. split; [by rewrite elem_of_nil|]. by intros ?%H.
  - intros t. by rewrite elem_of_nil.
Qed.
End Waiters.

(** ** Transaction identifiers *)

Lemma lor_high x : 0 <= x < 2 ^ 32 -> Z.lor x 0x80000000 = 2 ^ 31 + x mod 2 ^ 31.
Proof.
  intros Hx. change 0x80000000 with (2 ^ 31).
  rewrite (Z.div_mod (Z.lor x (2 ^ 31)) (2 ^ 31)) by done.
  rewrite <-Z.shiftr_div_pow2, Z.shiftr_lor, !Z.shiftr_div_pow2 by done.
  rewrite <-(Z.land_ones (Z.lor _ _) 31), Z.land_lor_distr_l, Z.land_ones by done.
  change (Z.land (2 ^ 31) (Z.ones 31)) with 0. rewrite Z.lor_0_r, Z.div_same by done.
  assert (x / 2 ^ 31 = 0 \/ x / 2 ^ 31 = 1) as [-> | ->]; [|done..].
  pose proof (Z.div_pos x (2 ^ 31) ltac:(lia) ltac:(lia)).
  pose proof (Z.div_lt_upper_bound x (2 ^ 31) 2 ltac:(lia) ltac:(lia)). lia.
Qed.

Definition nth_txid (counter : Z) (i : nat) : Z := 2 ^ 31 + (counter + 1 + Z.of_nat i) mod 2 ^ 31.

Lemma nth_txid_range counter i : 2 ^ 31 <= nth_txid counter i < 2 ^ 32.
Proof. unfold nth_txid. pose proof (Z.mod_pos_bound (counter + 1 + Z.of_nat i) (2 ^ 31)). lia. Qed.

Lemma txid_next counter i : nth_txid (wrap32 (counter + 1)) i = nth_txid counter (S i).
Proof.
  unfold nth_txid. f_equal. transitivity ((counter + 1 + (1 + Z.of_nat i)) mod 2 ^ 31); [|f_equal; lia].
  rewrite <-(Z.add_assoc (wrap32 _)). apply mod_eq_add, wrap_mod_pow2. lia.
Qed.

Lemma alloc_txid_next counter : Z.lor (wrap32 (counter + 1)) 0x80000000 = nth_txid counter 0.
Proof.
  rewrite lor_high by (apply (wrap_range 32); lia). rewrite wrap_mod_pow2 by lia.
  unfold nth_txid. do 2 f_equal. lia.
Qed.

(** When the loop gives up, every identifier it has tried is in use. *)
Lemma alloc_txid_none fuel used counter :
  alloc_txid fuel used counter = None -> forall i, (i < fuel)%nat -> nth_txid counter i ∈ used.
Proof.
  revert counter. induction fuel as [|fuel IH]; intros counter; [lia|]. cbn [alloc_txid].
  destruct (existsb _ used) eqn:E; [|done]. intros Hn [|i] Hi.
  - apply existsb_exists in E as (x & Hx & Ex%Z.eqb_eq). rewrite <-alloc_txid_next, <-Ex.
    by apply list_elem_of_In.
  - rewrite <-txid_next. apply IH; [done|lia].
Qed.

Lemma alloc_txid_some fuel used counter c' txid :
  alloc_txid fuel used counter = Some (c', txid) ->
  (txid ∉ used) /\ 2 ^ 31 <= txid < 2 ^ 32 /\ 0 <= c' < 2 ^ 32.
Proof.
  revert counter. induction fuel as [|fuel IH]; intros counter; [done|]. cbn [alloc_txid].
  destruct (existsb _ used) eqn:E; [apply IH|]. intros [= <- <-]. split; [|split].
  - intros Hx. apply not_true_iff_false in E. apply E, existsb_exists.
    eexists. split; [by apply list_elem_of_In|apply Z.eqb_refl].
  - rewrite alloc_txid_next. apply nth_txid_range.
  - apply (wrap_range 32). lia.
Qed.

Lemma alloc_txid_total used counter :
  zlen used < 2 ^ 31 -> exists r, alloc_txid (S (length used)) used counter = Some r.
Proof.
  intros Hlen. destruct (alloc_txid _ used counter) as [r|] eqn:E; [eauto|exfalso].
  pose proof (alloc_txid_none _ _ _ E) as Hall.
  assert (NoDup (map (nth_txid counter) (seq 0 (S (length used))))) as Hnd.
  { apply NoDup_fmap_2_strong; [|apply NoDup_seq]. intros i j Hi%elem_of_seq Hj%elem_of_seq.
    unfold nth_txid, zlen in *. intros Heq.
    apply Z.add_cancel_l, Z.cong_iff_0 in Heq. replace (_ - _) with (Z.of_nat i - Z.of_nat j) in Heq by lia.
    apply Z.mod_divide in Heq as [q Hq]; [|lia]. assert (q = 0) by nia. lia. }
  pose proof (NoDup_submseteq _ used Hnd) as Hs. apply submseteq_length in Hs.
  - rewrite length_map, length_seq in Hs. lia.
  - intros x (i & -> & Hi%elem_of_seq)%list_elem_of_fmap. apply Hall. lia.
Qed.

(** ** Preservation, operations *)

Lemma find_waiter (txid_of : Z -> Z) txid (l : list Z) :
  match List.find (fun t => txid_of t =? txid) l with
  | Some t => t ∈ l /\ txid_of t = txid
  | None => forall t, t ∈ l -> txid_of t <> txid
  end.
Proof.
  destruct (List.find _ _) as [t|] eqn:E.
  - apply find_some in E as [Hi Ht%Z.eqb_eq]. by rewrite list_elem_of_In.
  - intros t Hi Ht. apply list_elem_of_In in Hi. apply (find_none _ _ E) in Hi. by rewrite Ht, Z.eqb_refl in Hi.
Qed.

Definition quiet (s : ChannelSys) : Prop := forall side, calls_ (sel side (sys_pair s)) = [].

Definition delivered (r : bool) (t : Z) (msg : MessagePacket) (s : ChannelSys) : ChannelSys :=
  set_waiter t (Deliver msg (waiter s t))
    (sys_upd r (fun c => ch_set_waiters (default [] (erase_waiter t (waiters_ c))) [] c) s).

(** What [WriteSelf] does, with the [Deliver] call applied. *)
Lemma WriteSelf_flush r msg s :
  quiet s ->
  flush (sys_WriteSelf r msg s) =
  match List.find (fun t => w_txid_ (waiter s t) =? get_txid msg) (waiters_ (sel r (sys_pair s))) with
  | Some t => (delivered r t msg s, [WDeliver t msg])
  | None => (sys_WriteSelf r msg s, [])
  end.
Proof.
  intros Hq. destruct (List.find _ _) as [t|] eqn:E.
  - assert (WriteSelf (fun t => w_txid_ (waiter s t)) msg (sel r (sys_pair s)) =
      ch_set_waiters (default [] (erase_waiter t (waiters_ (sel r (sys_pair s))))) [WDeliver t msg]
        (sel r (sys_pair s))) as Hw by (unfold WriteSelf; by rewrite E, Hq).
    pose proof (Hq (negb r)) as Ho. unfold sys_WriteSelf, delivered, sys_upd, flush.
    destruct r; cbn in Hw, Ho |- *; rewrite Hw, Ho; cbn; by rewrite clear_calls.
  - apply flush_quiet. intros side. unfold sys_WriteSelf, sys_upd. cbn [sys_pair set_pair].
    destruct (decide (side = r)) as [->|Hne].
    + rewrite sel_upd_same. unfold WriteSelf. rewrite E. cbn zeta.
      destruct (kMaxPendingMessageCount <? _); apply Hq.
    + replace r with (negb side) by (by destruct side, r). rewrite sel_upd_other. apply Hq.
Qed.

Lemma both_sides (r : bool) (P : bool -> Prop) : P r -> P (negb r) -> forall side, P side.
Proof. intros ? ? []; by destruct r. Qed.

Lemma chan_inv_quiet s linked : chan_inv s linked -> quiet s.
Proof. intros Hs side. apply (ci_side _ _ Hs side). Qed.

Lemma end_ok_waiters linked l k c : end_ok linked c -> end_ok linked (ch_set_waiters l k c).
Proof. intros []. by constructor. Qed.

Lemma waiting_other side w : waiting side w -> ~ waiting (negb side) w.
Proof. intros [H _] [H' _]. rewrite H in H'. by destruct side. Qed.

Lemma ch_bit_update i clear set c c' :
  0 <= i ->
  ch_bit i (ch_set_base (UpdateStateLocked (ch_base c) clear set) c') =
  (ch_bit i c && negb (Z.testbit clear i)) || Z.testbit set i.
Proof. apply UpdateStateLocked_bit. Qed.

(** A signal update outside the three kernel signals. *)
Lemma end_ok_update linked clear set c :
  end_ok linked c ->
  (forall i, 0 <= i <= 2 -> Z.testbit clear i = false /\ Z.testbit set i = false) ->
  end_ok linked (ch_set_base (UpdateStateLocked (ch_base c) clear set) c).
Proof.
  intros [] Hbits.
  assert (forall i, 0 <= i <= 2 -> ch_bit i (ch_set_base (UpdateStateLocked (ch_base c) clear set) c) = ch_bit i c) as Hb.
  { intros i Hi. rewrite ch_bit_update by lia. destruct (Hbits i Hi) as [-> ->]. by rewrite andb_true_r, orb_false_r. }
  constructor; rewrite ?Hb by lia; done.
Qed.

Lemma end_ok_push linked msg n c :
  end_ok linked c -> zlen (messages_ c ++ [msg]) <= n ->
  end_ok linked (ch_set_base (UpdateStateLocked (ch_base c) 0 ZX_CHANNEL_READABLE)
                   (ch_set_messages (messages_ c ++ [msg]) n c)).
Proof.
  intros [Hp Hr Hw Hc Hm Ht] Hn. pose proof (zlen_nonneg (messages_ c)) as Hlen.
  constructor; rewrite ?ch_bit_update by lia; cbn [ch_set_base ch_set_messages messages_ max_message_count_];
    eval_bits; rewrite ?andb_true_r, ?orb_false_r; try done.
  rewrite orb_true_r, zlen_app. by destruct (Z.eqb_spec (zlen (messages_ c) + zlen [msg]) 0) as [E|];
    [change (zlen [msg]) with 1 in E; lia|].
Qed.

Lemma WriteSelf_inv r msg s linked :
  chan_inv s linked -> chan_inv (fst (flush (sys_WriteSelf r msg s))) linked.
Proof.
  intros Hs. rewrite WriteSelf_flush by (by eapply chan_inv_quiet).
  pose proof (find_waiter (fun t => w_txid_ (waiter s t)) (get_txid msg) (waiters_ (sel r (sys_pair s)))) as Hf.
  destruct (ci_side _ _ Hs r) as (Hwo & Heo & Hca). destruct (ci_side _ _ Hs (negb r)) as (Hwo' & Heo' & Hca').
  destruct (List.find _ _) as [t|] eqn:E; cbn [fst].
  - destruct Hf as [Hin Htx]. pose proof (proj1 (wo_in _ _ _ _ Hwo t) Hin) as Hwt.
    pose proof (erase_waiter_spec t _ (wo_nodup _ _ _ _ Hwo)) as He.
    destruct (erase_waiter t (waiters_ (sel r (sys_pair s)))) as [l'|] eqn:El; [|done].
    assert (forall u, waiter (delivered r t msg s) u = if u =? t then Deliver msg (waiter s t) else waiter s u)
      as Hw' by (intros u; unfold delivered; by rewrite waiter_set_waiter).
    assert (forall u, u <> t -> waiter (delivered r t msg s) u = waiter s u) as Hother.
    { intros u Hu. rewrite Hw'. by destruct (Z.eqb_spec u t). }
    assert (forall side, ~ waiting side (waiter (delivered r t msg s) t)) as Hnot.
    { intros side. rewrite Hw', Z.eqb_refl. by intros [_ ?]. }
    split; [apply (both_sides r)|]; cbn [delivered sys_pair set_waiter sys_upd set_pair].
    + rewrite sel_upd_same, El. split; [|by split; [apply end_ok_waiters|]]. by eapply wo_erase.
    + rewrite sel_upd_other'. split; [|done]. eapply (wo_other (waiter s)); [done..| |done]. by apply waiting_other.
    + intros u. rewrite Hw'. destruct (Z.eqb_spec u t) as [->|]; [|apply Hs].
      destruct Hwt as [Hch _]. unfold thread_ok. cbn. rewrite Hch. split; [done|]. by exists msg.
  - split; [apply (both_sides r)|]; cbn [sys_WriteSelf sys_pair sys_upd set_pair].
    + rewrite sel_upd_same. unfold WriteSelf. rewrite E. cbn zeta.
      pose proof (end_ok_push linked msg _ _ Heo (Z.le_max_r (max_message_count_ (sel r (sys_pair s))) _)) as Hpush.
      destruct (kMaxPendingMessageCount <? _); (split; [done|split; [|done]]).
      * destruct Hpush. by constructor.
      * exact Hpush.
    + rewrite sel_upd_other'. done.
    + apply Hs.
Qed.

(** What the invariant of this file needs from an operation: a call of an idle thread is
    made by the owner of the endpoint, and fewer than 2^31 threads wait on it. Calls that
    are refused with [ZX_ERR_BAD_HANDLE], after which the invariant no longer holds for
    the calling thread, are added in [ChannelRuns]. *)
Definition chan_op_ok (s : ChannelSys) (op : ChanOp) : Prop :=
  match op with
  | ChCall t side owner _ =>
      (channel_ (waiter s t) = None -> owner = owner_ (sel side (sys_pair s))) /\
      zlen (waiters_ (sel side (sys_pair s))) < 2 ^ 31
  | _ => True
  end.

(** An operation that changes one endpoint only, outside its waiters. *)
Lemma upd_inv side f s linked :
  chan_inv s linked ->
  (forall c, end_ok linked c -> end_ok linked (f c)) ->
  (forall c, waiters_ (f c) = waiters_ c /\ calls_ (f c) = calls_ c) ->
  chan_inv (sys_upd side f s) linked.
Proof.
  intros Hs Hf Hw. split; [apply (both_sides side)|]; cbn [sys_upd set_pair sys_pair].
  - rewrite sel_upd_same. destruct (ci_side _ _ Hs side) as (? & ? & ?).
    destruct (Hw (sel side (sys_pair s))) as [E1 E2].
    split; [by rewrite E1|split; [by apply Hf|by rewrite E2]].
  - rewrite sel_upd_other'. apply Hs.
  - apply Hs.
Qed.

Lemma user_signal_inv side c m s linked :
  chan_inv s linked -> user_signals_only c m = true ->
  chan_inv (sys_upd side (ep_update_state c m) s) linked.
Proof.
  intros Hs Hu. unfold user_signals_only in Hu. apply andb_true_iff in Hu as [Hm%Z.eqb_eq Hc%Z.eqb_eq].
  apply upd_inv; [done| |done]. intros e He. apply end_ok_update; [done|].
  intros i Hi. assert (Z.testbit ZX_USER_SIGNAL_ALL i = false) as Hlow.
  { assert (i = 0 \/ i = 1 \/ i = 2) as [->|[->| ->]] by lia; done. }
  split; apply user_mask_low; done || lia.
Qed.

(** Taking the first message, when it is the last one and when it is not. *)
Lemma end_ok_pop_last linked m c :
  end_ok linked c -> messages_ c = [m] ->
  end_ok linked (ch_set_base (UpdateStateLocked (ch_base c) ZX_CHANNEL_READABLE 0)
                   (ch_set_messages [] (max_message_count_ c) c)).
Proof.
  intros [Hp Hr Hw Hc Hm Ht] E. constructor; rewrite ?ch_bit_update by lia; try done;
    cbn [ch_set_base ch_set_messages messages_ max_message_count_]; eval_bits;
    rewrite ?andb_true_r, ?andb_false_r, ?orb_false_r; try done.
  pose proof (zlen_nonneg (messages_ c)). change (zlen []) with 0. lia.
Qed.

Lemma end_ok_pop linked m m' rest c :
  end_ok linked c -> messages_ c = m :: m' :: rest ->
  end_ok linked (ch_set_messages (m' :: rest) (max_message_count_ c) c).
Proof.
  intros [Hp Hr Hw Hc Hm Ht] E. pose proof (zlen_nonneg rest).
  constructor; try done; unfold ch_bit in *; cbn [ch_set_messages ch_base messages_ max_message_count_] in *;
    rewrite E, !zlen_cons in *; [|lia].
  rewrite Hr. destruct (Z.eqb_spec (1 + (1 + zlen rest)) 0), (Z.eqb_spec (1 + zlen rest) 0); lia || done.
Qed.

Lemma ch_Read_end linked owner n h d c :
  end_ok linked c -> end_ok linked (ch_Read owner n h d c).1.1.1.
Proof.
  intros He. unfold ch_Read. case_if; [done|]. destruct (messages_ c) as [|m rest] eqn:Em; [done|].
  case_if; [done|]. destruct rest as [|m' rest]; [exact (end_ok_pop_last _ _ _ He Em)|by eapply end_ok_pop].
Qed.

Lemma ch_Read_waiters owner n h d c :
  waiters_ (ch_Read owner n h d c).1.1.1 = waiters_ c /\ calls_ (ch_Read owner n h d c).1.1.1 = calls_ c.
Proof.
  unfold ch_Read. case_if; [done|]. destruct (messages_ c) as [|m [|m' rest]]; [done| |];
    case_if; done.
Qed.

Lemma upd_ext {E} side (f g : E -> E) p : f (sel side p) = g (sel side p) -> upd side f p = upd side g p.
Proof. destruct side; cbn; by intros ->. Qed.

Lemma ch_Read_inv side owner n h d s linked :
  chan_inv s linked -> chan_inv (sys_upd side (fun c => (ch_Read owner n h d c).1.1.1) s) linked.
Proof.
  intros Hs. apply upd_inv; [done|intros c; apply ch_Read_end|intros c; apply ch_Read_waiters].
Qed.

(** A thread in no list whose new state waits for nothing. *)
Lemma set_waiter_inv t w s linked :
  chan_inv s linked -> (forall side, ~ waiting side (waiter s t)) -> (forall side, ~ waiting side w) ->
  thread_ok w -> chan_inv (set_waiter t w s) linked.
Proof.
  intros Hs Hold Hnew Hok. split; cbn [set_waiter sys_pair].
  - intros side. destruct (ci_side _ _ Hs side) as (Hwo & ? & ?). split; [|done].
    eapply (wo_other (waiter s) _ _ _ t); [done| |done|].
    + intros u Hu. rewrite waiter_set_waiter. by destruct (Z.eqb_spec u t).
    + by rewrite waiter_set_waiter, Z.eqb_refl.
  - intros u. rewrite waiter_set_waiter. case_if; [done|]. apply Hs.
Qed.

(** A thread that waits leaves the list. *)
Lemma leave_inv t w side l s linked :
  chan_inv s linked -> waiting side (waiter s t) -> channel_ w = None -> msg_ w = None ->
  erase_waiter t (waiters_ (sel side (sys_pair s))) = Some l ->
  chan_inv (sys_upd side (fun c => ch_set_waiters l (calls_ c) c) (set_waiter t w s)) linked.
Proof.
  intros Hs Hwt Hch Hmsg He.
  assert (forall u, u <> t -> waiter (set_waiter t w s) u = waiter s u) as Hother.
  { intros u Hu. rewrite waiter_set_waiter. by destruct (Z.eqb_spec u t). }
  assert (forall sd, ~ waiting sd (waiter (set_waiter t w s) t)) as Hnot.
  { intros sd. rewrite waiter_set_waiter, Z.eqb_refl. intros [? _]. congruence. }
  split; [apply (both_sides side); cbn [sys_upd set_pair sys_pair set_waiter]|].
  - destruct (ci_side _ _ Hs side) as (? & ? & ?). rewrite sel_upd_same.
    split; [|split; [by apply end_ok_waiters|done]]. by eapply (wo_erase (waiter s)).
  - destruct (ci_side _ _ Hs (negb side)) as (? & ? & ?). rewrite sel_upd_other'.
    split; [|done]. eapply (wo_other (waiter s)); [done|exact Hother|by apply waiting_other|apply Hnot].
  - intros u. rewrite waiter_upd, waiter_set_waiter.
    case_if; [|apply Hs]. unfold thread_ok. by rewrite Hch.
Qed.

Lemma set_waiter_twice t w w' s : set_waiter t w' (set_waiter t w s) = set_waiter t w' s.
Proof. unfold set_waiter. cbn. by rewrite insert_insert_eq. Qed.

(** The state in which thread [t] waits with identifier [txid]. *)
Definition joined (t : Z) (side : bool) (counter txid : Z) (s : ChannelSys) : ChannelSys :=
  sys_upd side (fun c => ch_set_waiters (waiters_ c ++ [t]) (calls_ c) (ch_set_txid counter c))
    (set_waiter t (mkWaiter (Some side) (msg_ (waiter s t)) None txid ZX_ERR_TIMED_OUT) s).

Lemma joined_inv t side counter txid s :
  chan_inv s true -> channel_ (waiter s t) = None -> 0 <= counter < 2 ^ 32 -> 2 ^ 31 <= txid < 2 ^ 32 ->
  txid ∉ map (fun u => w_txid_ (waiter s u)) (waiters_ (sel side (sys_pair s))) ->
  chan_inv (joined t side counter txid s) true.
Proof.
  intros Hs Hch Hct Htx Hni. set (w := mkWaiter (Some side) (msg_ (waiter s t)) None txid ZX_ERR_TIMED_OUT).
  assert (forall sd, ~ waiting sd (waiter s t)) as Hold by (intros sd [? _]; congruence).
  assert (forall u, u <> t -> waiter (set_waiter t w s) u = waiter s u) as Hother.
  { intros u Hu. rewrite waiter_set_waiter. by destruct (Z.eqb_spec u t). }
  assert (waiter (set_waiter t w s) t = w) as Ht by (by rewrite waiter_set_waiter, Z.eqb_refl).
  split; [apply (both_sides side); cbn [joined sys_upd set_pair sys_pair set_waiter]|].
  - rewrite sel_upd_same. destruct (ci_side _ _ Hs side) as (Hwo & He & ?).
    split; [|split; [|done]].
    + cbn [waiters_ ch_set_waiters]. change (waiter _) with (waiter (set_waiter t w s)).
      apply (wo_push (waiter s)); rewrite ?Ht; done.
    + apply end_ok_waiters. destruct He. by constructor.
  - rewrite sel_upd_other'. destruct (ci_side _ _ Hs (negb side)) as (Hwo & ?). split; [|done].
    change (waiter _) with (waiter (set_waiter t w s)).
    eapply (wo_other (waiter s)); [done|exact Hother|done|]. rewrite Ht. intros [E _]. by destruct side.
  - intros u. unfold joined. rewrite waiter_upd, waiter_set_waiter. case_if; [|apply Hs]. cbn.
    pose proof (ci_thread _ _ Hs t) as Hk. unfold thread_ok in Hk. by rewrite Hch in Hk.
Qed.

(** [Call]: refused, or the thread joins the list and the request is written. *)
Lemma ch_Call_cases t side owner msg s linked :
  chan_inv s linked -> chan_op_ok s (ChCall t side owner msg) ->
  match channel_ (waiter s t) with
  | Some _ => ch_Call t side owner msg s =
      Some (mkSys (sys_pair s) (threads s) (t :: killed s), Some (ZX_ERR_BAD_STATE, None))
  | None =>
      if linked then exists counter txid,
        ch_Call t side owner msg s =
          Some (sys_WriteSelf (negb side) (set_txid txid msg) (joined t side counter txid s), None) /\
        2 ^ 31 <= txid < 2 ^ 32 /\ chan_inv (joined t side counter txid s) true
      else exists w, channel_ w = None /\ msg_ w = None /\
        ch_Call t side owner msg s = Some (set_waiter t w s, Some (ZX_ERR_PEER_CLOSED, None))
  end.
Proof.
  intros Hs [Ho Hl]. unfold ch_Call, BeginWait. destruct (ci_side _ _ Hs side) as (Hwo & He & Hca).
  destruct (channel_ (waiter s t)) as [r|] eqn:Hch; cbn [fst].
  { by destruct (decide _) as [_|[]]. }
  destruct (decide (ZX_OK <> ZX_OK)) as [[]|_]; [done|].
  change (sys_pair (set_waiter _ _ s)) with (sys_pair s). rewrite Ho, Z.eqb_refl, (eo_peer _ _ He) by done.
  cbn [negb]. destruct linked; cbn [negb].
  - set (W := fun u => w_txid_ (waiter s u)). rewrite (map_ext_in _ W).
    2: { intros u Hu%list_elem_of_In%(wo_in _ _ _ _ Hwo). rewrite waiter_set_waiter.
         destruct (Z.eqb_spec u t) as [->|]; [|done]. destruct Hu. congruence. }
    set (used := map W (waiters_ (sel side (sys_pair s)))).
    assert (zlen used < 2 ^ 31) as Hused by (unfold used, zlen; by rewrite length_map).
    destruct (alloc_txid_total used (txid_ (sel side (sys_pair s))) Hused) as [[counter txid] Ha].
    rewrite Ha. cbn. apply alloc_txid_some in Ha as (Hni & Hr & Hc). exists counter, txid.
    rewrite set_waiter_twice. split; [done|]. split; [done|]. by apply joined_inv.
  - pose proof (ci_thread _ _ Hs t) as Hk. unfold thread_ok in Hk. rewrite Hch in Hk. cbn.
    rewrite set_waiter_twice, Hk.
    by exists (mkWaiter None None None (w_txid_ (waiter s t)) ZX_ERR_TIMED_OUT).
Qed.

Lemma chan_inv_ext s s' linked :
  chan_inv s linked -> sys_pair s' = sys_pair s -> (forall u, waiter s' u = waiter s u) -> chan_inv s' linked.
Proof.
  intros Hs Hp Hw. split.
  - intros side. rewrite Hp. destruct (ci_side _ _ Hs side) as (? & ? & ?). split; [|done].
    by apply (wo_frame (waiter s)); [done|intros t; rewrite Hw|intros t _; rewrite Hw].
  - intros t. rewrite Hw. apply Hs.
Qed.

Lemma erase_waiting t side s linked :
  chan_inv s linked -> waiting side (waiter s t) ->
  exists l, erase_waiter t (waiters_ (sel side (sys_pair s))) = Some l.
Proof.
  intros Hs Hw. destruct (ci_side _ _ Hs side) as (Hwo & _).
  pose proof (erase_waiter_spec t _ (wo_nodup _ _ _ _ Hwo)) as He.
  destruct (erase_waiter _ _); [by eauto|]. by apply (wo_in _ _ _ _ Hwo) in Hw.
Qed.

(** The second half of a call always ends it, with what the waiter holds. *)
Lemma ch_Finish_cases t (interrupted : bool) s linked :
  chan_inv s linked ->
  match channel_ (waiter s t) with
  | None => ch_Finish t interrupted s = Some (s, (ZX_ERR_BAD_STATE, None))
  | Some side =>
      if interrupted then ch_Finish t interrupted s = Some (s, (ZX_ERR_INTERNAL_INTR_RETRY, None))
      else exists s', ch_Finish t interrupted s = Some (s', (status_ (waiter s t), msg_ (waiter s t))) /\
        chan_inv s' linked /\ channel_ (waiter s' t) = None /\ (forall u, u <> t -> waiter s' u = waiter s u) /\
        (forall sd, messages_ (sel sd (sys_pair s')) = messages_ (sel sd (sys_pair s)))
  end.
Proof.
  intros Hs. unfold ch_Finish, EndWait. destruct (channel_ (waiter s t)) as [side|] eqn:Hch; [|done].
  destruct interrupted; [done|]. set (w := mkWaiter None None _ _ _).
  assert (forall u, u <> t -> waiter (set_waiter t w s) u = waiter s u) as Hother.
  { intros u Hu. rewrite waiter_set_waiter. by destruct (Z.eqb_spec u t). }
  assert (channel_ (waiter (set_waiter t w s) t) = None) as Ht by (by rewrite waiter_set_waiter, Z.eqb_refl).
  destruct (decide (status_ (waiter s t) = ZX_ERR_TIMED_OUT)) as [Hst|Hst].
  - destruct (erase_waiting t side s linked Hs) as [l Hl]; [done|].
    change (sys_pair (set_waiter t w s)) with (sys_pair s). rewrite Hl. cbn [mbind option_bind].
    eexists. split; [done|]. split; [by apply leave_inv|]. rewrite waiter_upd. split_and!; [done..|].
    intros sd. cbn [sys_upd set_pair sys_pair set_waiter]. by destruct sd, side.
  - eexists. split; [done|]. split; [|done]. apply set_waiter_inv; [done| | |done].
    + intros sd [_ ?]. done.
    + intros sd [? _]. done.
Qed.

Lemma ch_ThreadExit_inv t s linked :
  chan_inv s linked -> chan_inv (ch_ThreadExit t s) linked.
Proof.
  intros Hs. unfold ch_ThreadExit.
  assert (forall p k, forall u, waiter (mkSys p (delete t (threads s)) k) u =
    waiter (set_waiter t MessageWaiter_new s) u) as Hdel.
  { intros p k u. rewrite waiter_set_waiter. unfold waiter. cbn.
    destruct (Z.eqb_spec u t) as [->|]; [by rewrite lookup_delete_eq|by rewrite lookup_delete_ne]. }
  assert (forall sd, ~ waiting sd MessageWaiter_new) as Hnew by (by intros ? [? _]).
  destruct (channel_ (waiter s t)) as [side|] eqn:Hch; cbn zeta.
  - destruct (decide (status_ (waiter s t) = ZX_ERR_TIMED_OUT)) as [Hst|Hst].
    + destruct (erase_waiting t side s linked Hs) as [l Hl]; [done|].
      eapply chan_inv_ext; [by apply (leave_inv t MessageWaiter_new side l s)| |].
      * cbn. apply upd_ext. by rewrite Hl.
      * intros u. rewrite waiter_upd. apply Hdel.
    + eapply chan_inv_ext; [apply (set_waiter_inv t MessageWaiter_new s)| |]; try done.
      * by intros sd [_ ?].
      * cbn. rewrite (upd_ext side _ id); [by destruct (sys_pair s), side|].
        destruct (ci_side _ _ Hs side) as (Hwo & _).
        pose proof (erase_waiter_spec t _ (wo_nodup _ _ _ _ Hwo)) as He.
        destruct (erase_waiter t _); [|done]. destruct He as ([_ ?]%(wo_in _ _ _ _ Hwo) & _). done.
  - eapply chan_inv_ext; [apply (set_waiter_inv t MessageWaiter_new s)| |]; try done.
    intros sd [? _]. congruence.
Qed.

(** ** Closing *)

(** The status the waiters of endpoint [r] get when [side] is closed. *)
Definition close_status (side r : bool) : zx_status_t :=
  if Bool.eqb side r then ZX_ERR_CANCELED else ZX_ERR_PEER_CLOSED.

Definition close_calls (side r : bool) (s : ChannelSys) : list WaiterCall :=
  map (fun t => WCancel t (close_status side r)) (waiters_ (sel r (sys_pair s))).

Definition ch_closed (side : bool) (s : ChannelSys) : ChannelSys :=
  set_pair (peered_on_zero_handles side (sys_pair s)) s.

Lemma close_calls_eq side s :
  chan_inv s true ->
  (forall r, calls_ (sel r (sys_pair (ch_closed side s))) = close_calls side r s) /\
  (forall r, waiters_ (sel r (sys_pair (ch_closed side s))) = []) /\
  (forall r, end_ok false (sel r (sys_pair (ch_closed side s)))).
Proof.
  intros Hs. destruct (ci_side _ _ Hs side) as (_ & He & Hc).
  destruct (ci_side _ _ Hs (negb side)) as (_ & He' & Hc'). destruct (sys_pair s) as [l r'] eqn:Ep.
  assert (ch_peer_ (sel side (sys_pair s)) = true) as Hp by (rewrite Ep; apply He).
  unfold ch_closed, peered_on_zero_handles, close_calls. cbn zeta.
  change (ep_peer (sel side (sys_pair s))) with (ch_peer_ (sel side (sys_pair s))). rewrite Hp, Ep.
  split_and!; [intros []; destruct side; cbn in *; by rewrite ?Hc, ?Hc'|by intros []; destruct side|].
  assert (forall c, end_ok true c -> end_ok false (cancel_waiters ZX_ERR_CANCELED (ch_set_peer false c))) as H1.
  { intros c [Hp1 Hr Hw Hcl Hm Ht]. by constructor. }
  assert (forall c, end_ok true c -> end_ok false (ch_OnPeerZeroHandlesLocked (ch_set_peer false c))) as H2.
  { intros c [Hp1 Hr Hw Hcl Hm Ht]. unfold ch_OnPeerZeroHandlesLocked, cancel_waiters. apply end_ok_waiters.
    constructor; try done; rewrite ?ch_bit_update by lia; eval_bits;
      rewrite ?andb_true_r, ?andb_false_r, ?orb_false_r; done. }
  cbn [sys_pair set_pair]. destruct side; intros []; cbn in He, He' |- *; auto.
Qed.

Lemma close_threads_nodup side s linked :
  chan_inv s linked -> NoDup (map call_thread (close_calls side false s ++ close_calls side true s)).
Proof.
  intros Hs. rewrite map_app. unfold close_calls. rewrite !map_map. cbn [call_thread]. rewrite !map_id.
  destruct (ci_side _ _ Hs false) as (Hl & _), (ci_side _ _ Hs true) as (Hr & _).
  apply NoDup_app. split_and!; [apply Hl| |apply Hr].
  intros t Ht%(wo_in _ _ _ _ Hl) Ht'%(wo_in _ _ _ _ Hr). by apply (waiting_other false) in Ht'.
Qed.

Lemma flush_close side s :
  chan_inv s true ->
  let s' := fst (flush (ch_closed side s)) in
  (forall r t, t ∈ waiters_ (sel r (sys_pair s)) ->
     waiter s' t = waiter_Cancel (close_status side r) (waiter s t)) /\
  (forall t, (forall r, t ∉ waiters_ (sel r (sys_pair s))) -> waiter s' t = waiter s t).
Proof.
  intros Hs. destruct (close_calls_eq side s Hs) as (Hc & _). cbn zeta.
  assert (forall u, waiter (fst (flush (ch_closed side s))) u =
    waiter (fold_left apply_call (close_calls side false s ++ close_calls side true s) s) u) as Hw.
  { intros u. rewrite flush_waiter. pose proof (Hc false) as Hl. pose proof (Hc true) as Hr. cbn [sel] in Hl, Hr.
    rewrite Hl, Hr. generalize (close_calls side false s ++ close_calls side true s). intros l.
    apply apply_calls_ext. done. }
  pose proof (close_threads_nodup side s true Hs) as Hnd. split.
  - intros r t Ht. rewrite Hw.
    apply (apply_calls_in _ s (WCancel t (close_status side r)) Hnd). apply elem_of_app.
    destruct r; [right|left]; apply list_elem_of_fmap; eauto.
  - intros t Ht. rewrite Hw. apply apply_calls_other. rewrite map_app, elem_of_app.
    unfold close_calls. rewrite !map_map. cbn [call_thread]. rewrite !map_id. by intros [?%Ht|?%Ht].
Qed.

Lemma close_inv side s linked :
  chan_inv s linked -> chan_inv (fst (flush (ch_closed side s))) false.
Proof.
  intros Hs. destruct linked.
  - destruct (close_calls_eq side s Hs) as (Hc & Hw & He). destruct (flush_close side s Hs) as [Hin Hout].
    assert (forall t, (exists r, t ∈ waiters_ (sel r (sys_pair s))) \/ (forall r, t ∉ waiters_ (sel r (sys_pair s)))) as Hdec.
    { intros t. destruct (decide (t ∈ waiters_ (sel false (sys_pair s)))), (decide (t ∈ waiters_ (sel true (sys_pair s)))); eauto.
      right. by intros []. }
    split.
    + intros r. rewrite flush_sel, Hw. split; [|split; [by apply end_ok_waiters|done]].
      apply wo_none. intros t [H1 H2]. destruct (Hdec t) as [[r' Hi]|Hni].
      * rewrite (Hin r' t Hi) in H2. cbn in H2. unfold close_status in H2. by destruct (Bool.eqb side r').
      * rewrite Hout in H1, H2 by done. apply (Hni r). by apply (wo_in _ _ _ _ (proj1 (ci_side _ _ Hs r))).
    + intros t. destruct (Hdec t) as [[r' Hi]|Hni]; [|rewrite Hout by done; apply Hs].
      rewrite (Hin r' t Hi). apply (wo_in _ _ _ _ (proj1 (ci_side _ _ Hs r'))) in Hi as [H1 H2].
      pose proof (ci_thread _ _ Hs t) as Hk. unfold thread_ok in *. cbn. rewrite H1, H2 in *.
      unfold close_status. by destruct (Bool.eqb side r'), Hk as [-> _].
  - assert (ch_closed side s = s) as ->.
    { unfold ch_closed, peered_on_zero_handles. destruct (ci_side _ _ Hs side) as (Hwo & He & Hc).
      pose proof (wo_unlinked _ _ _ _ Hwo eq_refl) as Hnil. destruct He as [Hp _ _ _ _ _]. cbn zeta.
      change (ep_peer (sel side (sys_pair s))) with (ch_peer_ (sel side (sys_pair s))). rewrite Hp.
      destruct s as [p th k]. unfold set_pair. cbn in *. f_equal.
      rewrite (upd_ext side _ id); [by destruct p, side|].
      destruct (sel side p). cbn in *. by rewrite Hp, Hnil, Hc. }
    rewrite flush_quiet; [done|]. by eapply chan_inv_quiet.
Qed.

(** ** Events *)

Definition is_ch_close (op : ChanOp) : bool := match op with ChClose _ => true | _ => false end.

Inductive ChanEvent :=
| Sent (r : bool) (m : MessagePacket)
| Received (r : bool) (m : MessagePacket)
| Delivered (r : bool) (m : MessagePacket).

(** What a step sends to, takes out of the queue of, and hands to a waiter of an endpoint. *)
Definition call_events (s : ChannelSys) (c : WaiterCall) : list ChanEvent :=
  match c with
  | WDeliver t m => match channel_ (waiter s t) with Some r => [Delivered r m] | None => [] end
  | WCancel _ _ => []
  end.

Definition op_events (op : ChanOp) (res : option ChResult) (s' : ChannelSys) : list ChanEvent :=
  match op, res with
  | ChWrite side _ msg, Some (ZX_OK, _) => [Sent (negb side) msg]
  | ChCall t side _ msg, None => [Sent (negb side) (set_txid (w_txid_ (waiter s' t)) msg)]
  | ChRead side _ _ _ _, Some (_, Some m) => [Received side m]
  | _, _ => []
  end.

Definition step_events (op : ChanOp) (res : option ChResult) (calls : list WaiterCall) (s' : ChannelSys)
    : list ChanEvent :=
  op_events op res s' ++ flat_map (call_events s') calls.

Definition sent_to (r : bool) (evs : list ChanEvent) : list MessagePacket :=
  flat_map (fun e => match e with Sent r' m => if Bool.eqb r' r then [m] else [] | _ => [] end) evs.
Definition received_by (r : bool) (evs : list ChanEvent) : list MessagePacket :=
  flat_map (fun e => match e with Received r' m => if Bool.eqb r' r then [m] else [] | _ => [] end) evs.
Definition delivered_to (r : bool) (evs : list ChanEvent) : list MessagePacket :=
  flat_map (fun e => match e with Delivered r' m => if Bool.eqb r' r then [m] else [] | _ => [] end) evs.

Lemma ch_Create_inv mem koid p : ch_Create mem koid = (ZX_OK, Some p) -> chan_inv (sys_new p) true.
Proof.
  unfold ch_Create. case_if; [done|]. cbn. intros [= <-]. split; [|done].
  intros side. split; [|split; [|by destruct side]].
  - replace (waiters_ _) with (@nil Z) by (by destruct side). apply wo_none. by intros t [? _].
  - by destruct side; constructor.
Qed.

(** A step that makes no calls on waiters. *)
Lemma quiet_step s linked : chan_inv s linked -> flush s = (s, []).
Proof. intros Hs. apply flush_quiet. by eapply chan_inv_quiet. Qed.

Lemma flush_result s (res : option ChResult) linked :
  chan_inv (fst (flush s)) linked ->
  exists s' res' calls, (let '(s, calls) := flush s in Some (s, res, calls)) = Some (s', res', calls) /\
    chan_inv s' linked.
Proof. destruct (flush s). eauto 6. Qed.

Lemma quiet_result s (res : option ChResult) linked :
  chan_inv s linked ->
  exists s' res' calls, (let '(s, calls) := flush s in Some (s, res, calls)) = Some (s', res', calls) /\
    chan_inv s' linked.
Proof. intros Hs. apply flush_result. by rewrite (quiet_step s linked). Qed.

Lemma ch_step_inv s op linked :
  chan_inv s linked -> chan_op_ok s op ->
  exists s' res calls, ch_step s op = Some (s', res, calls) /\
    chan_inv s' (linked && negb (is_ch_close op)).
Proof.
  intros Hs Hop. unfold ch_step.
  destruct op as [side owner msg|side owner n h d|t side owner msg|t i|t|side k|side c m|side c m|side];
    cbn [ch_do is_ch_close negb]; rewrite ?andb_true_r, ?andb_false_r.
  - unfold ch_Write. case_if; [by apply quiet_result|]. case_if; [by apply quiet_result|].
    by apply flush_result, WriteSelf_inv.
  - pose proof (ch_Read_inv side owner n h d s linked Hs) as Hs'.
    destruct (ch_Read owner n h d (sel side (sys_pair s))) as [[[c st] m] sz] eqn:Er. apply quiet_result.
    eapply chan_inv_ext; [done| |done]. cbn. apply upd_ext. by rewrite Er.
  - pose proof (ch_Call_cases t side owner msg s linked Hs Hop) as Hc.
    destruct (channel_ (waiter s t)) eqn:Hch; [|destruct linked].
    + rewrite Hc. apply quiet_result. by eapply chan_inv_ext.
    + destruct Hc as (counter & txid & -> & _ & Hj). by apply flush_result, WriteSelf_inv.
    + destruct Hc as (w & Hw & Hm & ->). apply quiet_result.
      apply set_waiter_inv; [done| | |unfold thread_ok; by rewrite Hw]; intros sd [? _]; congruence.
  - pose proof (ch_Finish_cases t i s linked Hs) as Hf.
    destruct (channel_ (waiter s t)) as [side|]; [destruct i|]; [rewrite Hf| |rewrite Hf]; try by apply quiet_result.
    destruct Hf as (s' & -> & Hs' & _). by apply quiet_result.
  - apply quiet_result. by apply ch_ThreadExit_inv.
  - apply quiet_result, upd_inv; [done|..]; intros e; unfold set_owner; case_if; try done. intros []. by constructor.
  - unfold peered_user_signal_self. rewrite user_allowed.
    case_if; apply quiet_result; [by eapply chan_inv_ext|]. apply user_signal_inv; [done|by apply negb_false_iff].
  - unfold peered_user_signal_peer. rewrite user_allowed.
    case_if; [|case_if]; apply quiet_result; [by eapply chan_inv_ext..|].
    apply user_signal_inv; [done|by apply negb_false_iff].
  - apply flush_result. by eapply close_inv.
Qed.

(** ** Conservation *)

Definition queue (r : bool) (s : ChannelSys) : list MessagePacket := messages_ (sel r (sys_pair s)).

(** The account of one step for endpoint [r]: a sent message goes to a waiter, or to the
    end of the queue from whose front messages are received. *)
Definition accounted (r : bool) (q : list MessagePacket) (evs : list ChanEvent) (q' : list MessagePacket) : Prop :=
  (sent_to r evs = delivered_to r evs /\ received_by r evs = [] /\ q' = q) \/
  (delivered_to r evs = [] /\ received_by r evs ++ q' = q ++ sent_to r evs).

Lemma accounted_none r q : accounted r q [] q.
Proof. by left. Qed.

Lemma flush_queue r s : queue r (fst (flush s)) = queue r s.
Proof. unfold queue. by rewrite flush_sel. Qed.

Lemma upd_queue r side f s :
  (forall c, messages_ (f c) = messages_ c) -> queue r (sys_upd side f s) = queue r s.
Proof. intros Hf. unfold queue. cbn. by destruct r, side; cbn; rewrite ?Hf. Qed.

Lemma ThreadExit_queue r t s : queue r (ch_ThreadExit t s) = queue r s.
Proof.
  unfold ch_ThreadExit. destruct (channel_ (waiter s t)) as [side|]; [|done].
  change (queue r (sys_upd side (fun c => match erase_waiter t (waiters_ c) with
    | None => c | Some l => ch_set_waiters l (calls_ c) c end) s) = queue r s).
  apply upd_queue. intros c. by destruct (erase_waiter _ _).
Qed.

Lemma closed_queue r side s : queue r (ch_closed side s) = queue r s.
Proof.
  unfold queue, ch_closed, peered_on_zero_handles. cbn zeta.
  destruct (ep_peer _), r, side; done.
Qed.

(** [WriteSelf]: to the waiter with the identifier of the message, or to the queue. *)
Lemma WriteSelf_routes r msg s linked :
  chan_inv s linked ->
  let s' := fst (flush (sys_WriteSelf r msg s)) in
  let calls := snd (flush (sys_WriteSelf r msg s)) in
  (forall u, w_txid_ (waiter s' u) = w_txid_ (waiter s u) /\ channel_ (waiter s' u) = channel_ (waiter s u)) /\
  queue (negb r) s' = queue (negb r) s /\
  ((exists t, t ∈ waiters_ (sel r (sys_pair s)) /\ w_txid_ (waiter s t) = get_txid msg /\
      calls = [WDeliver t msg] /\ queue r s' = queue r s /\ channel_ (waiter s t) = Some r /\
      waiter s' t = Deliver msg (waiter s t)) \/
   (forall t, t ∈ waiters_ (sel r (sys_pair s)) -> w_txid_ (waiter s t) <> get_txid msg) /\
   calls = [] /\ queue r s' = queue r s ++ [msg]).
Proof.
  intros Hs. cbn zeta. rewrite WriteSelf_flush by (by eapply chan_inv_quiet).
  pose proof (find_waiter (fun t => w_txid_ (waiter s t)) (get_txid msg) (waiters_ (sel r (sys_pair s)))) as Hf.
  destruct (List.find _ _) as [t|] eqn:E; cbn [fst snd].
  - destruct Hf as [Hin Htx]. unfold delivered. split_and!.
    + intros u. rewrite waiter_set_waiter. by destruct (Z.eqb_spec u t) as [->|].
    + unfold queue. cbn [set_waiter sys_pair sys_upd set_pair]. by rewrite sel_upd_other'.
    + left. exists t. unfold queue. cbn [set_waiter sys_pair sys_upd set_pair]. rewrite sel_upd_same.
      apply (wo_in _ _ _ _ (proj1 (ci_side _ _ Hs r))) in Hin as Hw. destruct Hw as [Hw _].
      rewrite waiter_set_waiter, Z.eqb_refl. by split_and!.
  - split; [done|]. unfold queue, sys_WriteSelf. cbn [sys_pair sys_upd set_pair].
    rewrite sel_upd_other', sel_upd_same. split; [done|]. right. split; [done|]. split; [done|].
    unfold WriteSelf. rewrite E. cbn zeta. by destruct (kMaxPendingMessageCount <? _).
Qed.

Lemma WriteSelf_accounted q msg s linked :
  chan_inv s linked ->
  let s' := fst (flush (sys_WriteSelf q msg s)) in
  forall r, accounted r (queue r s)
    (Sent q msg :: flat_map (call_events s') (snd (flush (sys_WriteSelf q msg s)))) (queue r s').
Proof.
  intros Hs. pose proof (WriteSelf_routes q msg s linked Hs) as Hr.
  destruct (flush (sys_WriteSelf q msg s)) as [s' calls]. destruct Hr as (Hw & Hoq & Hq). cbn [fst snd] in *.
  apply (both_sides q).
  - destruct Hq as [(t & Hin & Htx & -> & -> & Hch & Hd)|(_ & -> & ->)].
    + left. cbn. rewrite Hd. cbn. rewrite Hch. cbn. by rewrite !Bool.eqb_reflx.
    + right. cbn. by rewrite Bool.eqb_reflx.
  - rewrite Hoq. left. destruct Hq as [(t & Hin & Htx & -> & _ & Hch & Hd)|(_ & -> & _)]; cbn; [|by destruct q].
    rewrite Hd. cbn. rewrite Hch. by destruct q.
Qed.

Lemma ch_Read_accounted owner n h d c c' st m sz :
  ch_Read owner n h d c = (c', st, m, sz) ->
  match m with Some m => messages_ c = m :: messages_ c' | None => c' = c end.
Proof.
  unfold ch_Read. case_if; [by intros [= <- <- <- <-]|].
  destruct (messages_ c) as [|m0 rest]; [by intros [= <- <- <- <-]|].
  case_if; [by intros [= <- <- <- <-]|]. intros [= <- <- <- <-]. by destruct rest.
Qed.

Lemma close_no_events side s linked s' :
  chan_inv s linked -> flat_map (call_events s') (snd (flush (ch_closed side s))) = [].
Proof.
  intros Hs. destruct linked.
  - destruct (close_calls_eq side s Hs) as (Hc & _). unfold flush. cbn [snd].
    pose proof (Hc false) as Hl. pose proof (Hc true) as Hr. cbn [sel] in Hl, Hr. rewrite Hl, Hr.
    unfold close_calls. rewrite flat_map_app. 
    assert (forall l st, flat_map (call_events s') (map (fun t => WCancel t st) l) = []) as Hnil
      by (intros l st; induction l; done).
    by rewrite !Hnil.
  - pose proof (close_inv side s false Hs) as Hs'. rewrite flush_quiet; [done|].
    intros r. destruct (ci_side _ _ Hs r) as (Hwo & He & Hc). destruct (ci_side _ _ Hs side) as (_ & He' & _).
    pose proof (wo_unlinked _ _ _ _ Hwo eq_refl) as Hnil. unfold ch_closed, peered_on_zero_handles. cbn zeta.
    change (ep_peer (sel side (sys_pair s))) with (ch_peer_ (sel side (sys_pair s))). rewrite (eo_peer _ _ He').
    destruct r, side; cbn in *; rewrite ?Hnil, ?Hc; done.
Qed.

Lemma quiet_accounted s s1 linked res s' (res' : option ChResult) calls op r :
  chan_inv s1 linked -> (let '(s, calls) := flush s1 in Some (s, res, calls)) = Some (s', res', calls) ->
  queue r s1 = queue r s -> op_events op res s' = [] ->
  accounted r (queue r s) (step_events op res' calls s') (queue r s').
Proof.
  intros Hs1. rewrite (quiet_step s1 linked Hs1). intros [= <- <- <-] Hq He. unfold step_events.
  rewrite He, Hq. apply accounted_none.
Qed.

Lemma Read_step_accounted side owner n h d s linked s' res calls r :
  chan_inv s linked -> ch_step s (ChRead side owner n h d) = Some (s', res, calls) ->
  accounted r (queue r s) (step_events (ChRead side owner n h d) res calls s') (queue r s').
Proof.
  intros Hs Hstep. unfold ch_step in Hstep. cbn [ch_do mbind option_bind] in Hstep.
  pose proof (ch_Read_inv side owner n h d s linked Hs) as Hs'.
  destruct (ch_Read owner n h d (sel side (sys_pair s))) as [[[c st] m] sz] eqn:Er. cbn [mbind option_bind] in Hstep.
  rewrite (quiet_step _ linked) in Hstep.
  2: { eapply chan_inv_ext; [done| |done]. cbn. apply upd_ext. by rewrite Er. }
  injection Hstep as <- <- <-. apply ch_Read_accounted in Er. unfold queue. cbn [sys_upd set_pair sys_pair].
  revert r. apply (both_sides side); rewrite ?sel_upd_same, ?sel_upd_other'.
  - right. destruct m as [m|]; cbn; rewrite ?Bool.eqb_reflx, ?app_nil_r; [done|]. by subst.
  - left. destruct m as [m|]; cbn; [|done]. by destruct side.
Qed.

Lemma Call_step_accounted t side owner msg s linked s' res calls r :
  chan_inv s linked -> chan_op_ok s (ChCall t side owner msg) ->
  ch_step s (ChCall t side owner msg) = Some (s', res, calls) ->
  accounted r (queue r s) (step_events (ChCall t side owner msg) res calls s') (queue r s').
Proof.
  intros Hs Hop Hstep. unfold ch_step in Hstep. cbn [ch_do mbind option_bind] in Hstep.
  pose proof (ch_Call_cases t side owner msg s linked Hs Hop) as Hc.
  destruct (channel_ (waiter s t)) eqn:Hch; [|destruct linked].
  - rewrite Hc in Hstep. eapply quiet_accounted; [|exact Hstep|done|done]. by eapply chan_inv_ext.
  - destruct Hc as (counter & txid & Hc & _ & Hj). rewrite Hc in Hstep. cbn [mbind option_bind] in Hstep.
    pose proof (WriteSelf_accounted (negb side) (set_txid txid msg) _ _ Hj r) as Ha.
    pose proof (WriteSelf_routes (negb side) (set_txid txid msg) _ _ Hj) as (Hw & _).
    replace (queue r (joined t side counter txid s)) with (queue r s) in Ha.
    2: { unfold joined. by rewrite upd_queue. }
    destruct (Hw t) as [Ht _]. unfold joined in Ht. rewrite waiter_upd, waiter_set_waiter, Z.eqb_refl in Ht.
    fold (joined t side counter txid s) in Ht. destruct (flush _) as [s1 calls1]. cbn [fst snd] in *.
    injection Hstep as <- <- <-. unfold step_events. cbn [op_events]. rewrite Ht. exact Ha.
  - destruct Hc as (w & Hw & Hm & Hc). rewrite Hc in Hstep.
    eapply quiet_accounted; [|exact Hstep|done|done].
    apply set_waiter_inv; [exact Hs| | |unfold thread_ok; by rewrite Hw]; intros sd [? _]; congruence.
Qed.

Lemma ch_step_accounted s op linked s' res calls :
  chan_inv s linked -> chan_op_ok s op -> ch_step s op = Some (s', res, calls) ->
  forall r, accounted r (queue r s) (step_events op res calls s') (queue r s').
Proof.
  intros Hs Hop Hstep r. unfold ch_step in Hstep.
  destruct op as [side owner msg|side owner n h d|t side owner msg|t i|t|side k|side c m|side c m|side];
    cbn [ch_do mbind option_bind] in Hstep.
  - unfold ch_Write in Hstep. revert Hstep. case_if; [intros H; by eapply quiet_accounted; [exact Hs|exact H|..]|].
    case_if; [intros H; by eapply quiet_accounted; [exact Hs|exact H|..]|]. cbn [mbind option_bind].
    pose proof (WriteSelf_accounted (negb side) msg s linked Hs r) as Ha. cbn zeta in Ha.
    destruct (flush _) as [s1 calls1]. by intros [= <- <- <-].
  - by eapply Read_step_accounted.
  - by eapply Call_step_accounted.
  - pose proof (ch_Finish_cases t i s linked Hs) as Hf.
    destruct (channel_ (waiter s t)) as [side|]; [destruct i|]; [rewrite Hf in Hstep| |rewrite Hf in Hstep];
      try by eapply quiet_accounted; [exact Hs|exact Hstep|..].
    destruct Hf as (s1 & Hf & Hs1 & _ & _ & Hq). rewrite Hf in Hstep. eapply quiet_accounted; [exact Hs1|exact Hstep|apply Hq|done].
  - eapply quiet_accounted; [by apply ch_ThreadExit_inv|exact Hstep|apply ThreadExit_queue|done].
  - eapply quiet_accounted; [|exact Hstep| |done].
    + apply upd_inv; [exact Hs|..]; intros e; unfold set_owner; case_if; try done. intros []. by constructor.
    + apply upd_queue. intros e. unfold set_owner. by case_if.
  - revert Hstep. unfold peered_user_signal_self. rewrite user_allowed.
    case_if; intros H; (eapply quiet_accounted; [|exact H| |done]).
    + by eapply chan_inv_ext.
    + done.
    + apply user_signal_inv; [exact Hs|by apply negb_false_iff].
    + by apply upd_queue.
  - revert Hstep. unfold peered_user_signal_peer. rewrite user_allowed.
    case_if; [|case_if]; intros H; (eapply quiet_accounted; [|exact H| |done]); try done; try by eapply chan_inv_ext.
    + apply user_signal_inv; [exact Hs|by apply negb_false_iff].
    + by apply upd_queue.
  - fold (ch_closed side s) in Hstep. pose proof (close_no_events side s linked s' Hs) as Hn.
    pose proof (flush_queue r (ch_closed side s)) as Hq. rewrite closed_queue in Hq.
    destruct (flush _) as [s1 calls1]. cbn [fst snd] in *. injection Hstep as <- <- <-.
    unfold step_events. cbn [op_events app]. rewrite Hn, Hq. apply accounted_none.
Qed.

(** ** Steps of other threads *)

(** Anything but the next call, the end of the call or the exit of thread [t]. *)
Definition other_op (t : Z) (op : ChanOp) : Prop :=
  match op with
  | ChCall u _ _ _ | ChFinish u false | ChThreadExit u => u <> t
  | _ => True
  end.

Definition same_call (w w' : MessageWaiter) : Prop := w_txid_ w' = w_txid_ w /\ channel_ w' = channel_ w.

Lemma flush_same_call s u : same_call (waiter s u) (waiter (fst (flush s)) u).
Proof.
  rewrite flush_waiter. generalize (calls_ (ep_left (sys_pair s)) ++ calls_ (ep_right (sys_pair s))).
  intros calls. revert s. induction calls as [|c calls IH]; intros s; [done|]. cbn.
  unfold same_call. destruct (IH (apply_call s c)) as [-> ->]. rewrite apply_call_waiter.
  by destruct (Z.eqb_spec u (call_thread c)) as [->|], c.
Qed.

Lemma set_waiter_other t u w s : u <> t -> waiter (set_waiter u w s) t = waiter s t.
Proof. intros. rewrite waiter_set_waiter. by destruct (Z.eqb_spec t u). Qed.

Lemma ch_do_other t s op s1 res :
  other_op t op -> ch_do s op = Some (s1, res) -> waiter s1 t = waiter s t.
Proof.
  intros Ho. destruct op as [side owner msg|side owner n h d|u side owner msg|u i|u|side k|side c m|side c m|side]; cbn [ch_do].
  - unfold ch_Write. do 2 (case_if; [by intros [= <- _]|]). by intros [= <- _].
  - destruct (ch_Read _ _ _ _ _) as [[[c st] m] sz]. by intros [= <- _].
  - unfold ch_Call. cbn in Ho. destruct (BeginWait side (waiter s u)) as [w st]. case_if; [by intros [= <- _]|].
    case_if; [intros [= <- _]; by apply set_waiter_other|]. case_if.
    + destruct (EndWait w) as [[w' ?] ?]. intros [= <- _]. by rewrite !set_waiter_other.
    + destruct (alloc_txid _ _ _) as [[counter txid]|]; [|done]. cbn [mbind option_bind].
      intros [= <- _]. unfold sys_WriteSelf. by rewrite !waiter_upd, !set_waiter_other.
  - unfold ch_Finish. destruct (channel_ (waiter s u)) as [side|]; cbn [mbind option_bind]; [|by intros [= <- _]].
    destruct i; cbn [mbind option_bind]; [by intros [= <- _]|]. cbn in Ho.
    destruct (EndWait _) as [[w st] reply]. case_if.
    + destruct (erase_waiter _ _); [|done]. cbn [mbind option_bind]. intros [= <- _].
      by rewrite waiter_upd, set_waiter_other.
    + cbn [mbind option_bind]. intros [= <- _]. by rewrite set_waiter_other.
  - cbn in Ho. intros [= <- _]. unfold ch_ThreadExit.
    destruct (channel_ (waiter s u)); unfold waiter; cbn; by rewrite lookup_delete_ne.
  - by intros [= <- _].
  - destruct (peered_user_signal_self _ _ _ _). by intros [= <- _].
  - destruct (peered_user_signal_peer _ _ _ _). by intros [= <- _].
  - by intros [= <- _].
Qed.

Lemma ch_step_other t s op s' res calls :
  other_op t op -> ch_step s op = Some (s', res, calls) -> same_call (waiter s t) (waiter s' t).
Proof.
  intros Ho. unfold ch_step. destruct (ch_do s op) as [[s1 r]|] eqn:E; [|done]. cbn [mbind option_bind].
  pose proof (flush_same_call s1 t) as Hf. destruct (flush s1) as [s2 c2]. intros [= <- _ _].
  by rewrite (ch_do_other t s op s1 r Ho E) in Hf.
Qed.

(** After the first half of a call the thread waits, with a kernel-generated identifier. *)
Lemma Call_blocks t side owner msg s linked s1 calls :
  chan_inv s linked -> chan_op_ok s (ChCall t side owner msg) ->
  ch_step s (ChCall t side owner msg) = Some (s1, None, calls) ->
  channel_ (waiter s1 t) = Some side /\ 2 ^ 31 <= w_txid_ (waiter s1 t) < 2 ^ 32.
Proof.
  intros Hs Hop. pose proof (ch_Call_cases t side owner msg s linked Hs Hop) as Hc. unfold ch_step. cbn [ch_do].
  destruct (channel_ (waiter s t)) eqn:Hch; [|destruct linked].
  - rewrite Hc. cbn [mbind option_bind]. by destruct (flush _).
  - destruct Hc as (counter & txid & -> & Hr & Hj). cbn [mbind option_bind].
    pose proof (flush_same_call (sys_WriteSelf (negb side) (set_txid txid msg) (joined t side counter txid s)) t) as [E1 E2].
    destruct (flush _) as [s2 c2]. intros [= <- _]. cbn [fst] in *. unfold sys_WriteSelf, joined in E1, E2.
    rewrite !waiter_upd, waiter_set_waiter, Z.eqb_refl in E1, E2. cbn in E1, E2. by rewrite E1, E2.
  - destruct Hc as (w & _ & _ & ->). cbn [mbind option_bind]. by destruct (flush _).
Qed.
