(* ===== verification/ChannelRuns.v ===== *)
(** * Runs of a channel

    The executions of the channel of [Channel] under any interleaving of the operations
    of any number of threads, calls that are refused because the endpoint belongs to
    another process included. A refused call ([ZX_ERR_BAD_HANDLE]) leaves the waiter of its
    thread attached to the channel, so a run keeps the set of the threads that have had
    one. The proofs compare a run with the run in which those threads do not exist
    ([without]): a refused thread is invisible to everybody else. *)

From S2P Require Import Prelude Types Dispatcher Message Channel.

(** ** Runs *)

(** The bound on the identifiers: fewer than 2^31 threads wait on an endpoint. *)
Definition op_room (s : ChannelSys) (op : ChanOp) : Prop :=
  match op with
  | ChCall _ side _ _ => zlen (waiters_ (sel side (sys_pair s))) < 2 ^ 31
  | _ => True
  end.

(** The threads that have had a call refused, after a step. *)
Definition refused_after (s : ChannelSys) (R : gset Z) (op : ChanOp) : gset Z :=
  match op with
  | ChCall t side owner _ =>
      match channel_ (waiter s t) with
      | None => if owner =? owner_ (sel side (sys_pair s)) then R else {[t]} ∪ R
      | Some _ => R
      end
  | ChThreadExit t => R ∖ {[t]}
  | _ => R
  end.

(** The states reachable from a new channel, with the threads that have had a call refused
    and the events so far; [linked] is whether no endpoint has been closed. *)
Inductive chan_run : ChannelSys -> gset Z -> bool -> list ChanEvent -> Prop :=
| run_new mem koid p :
    ch_Create mem koid = (ZX_OK, Some p) -> chan_run (sys_new p) ∅ true []
| run_step s R linked evs op s' res calls :
    chan_run s R linked evs -> op_room s op -> ch_step s op = Some (s', res, calls) ->
    chan_run s' (refused_after s R op) (linked && negb (is_ch_close op)) (evs ++ step_events op res calls s').

(** ** The system without a set of threads *)

Definition without (R : gset Z) (s : ChannelSys) : ChannelSys :=
  mkSys (sys_pair s) (filter (fun kv => kv.1 ∉ R) (threads s)) (killed s).

Lemma waiter_without R s t :
  waiter (without R s) t = if decide (t ∈ R) then MessageWaiter_new else waiter s t.
Proof.
  unfold waiter, without. cbn. destruct (decide (t ∈ R)).
  - rewrite map_lookup_filter_None_2; [done|]. right. intros ? _. cbn. by intros [].
  - destruct (threads s !! t) as [w|] eqn:E.
    + by rewrite (map_lookup_filter_Some_2 _ _ _ w).
    + rewrite map_lookup_filter_None_2; [done|]. by left.
Qed.

Lemma waiter_kept R s t : t ∉ R -> waiter (without R s) t = waiter s t.
Proof. intros. rewrite waiter_without. by destruct (decide (t ∈ R)). Qed.

Lemma waiter_gone R s t : t ∈ R -> waiter (without R s) t = MessageWaiter_new.
Proof. intros. rewrite waiter_without. by destruct (decide (t ∈ R)). Qed.

Lemma without_set_waiter R t w s :
  t ∉ R -> without R (set_waiter t w s) = set_waiter t w (without R s).
Proof. intros Ht. unfold without, set_waiter. cbn. f_equal. by rewrite map_filter_insert_True. Qed.

Lemma without_upd R side f s : without R (sys_upd side f s) = sys_upd side f (without R s).
Proof. done. Qed.

(** No thread of [R] is in a list. *)
Definition unlisted (R : gset Z) (s : ChannelSys) : Prop :=
  forall r t, t ∈ waiters_ (sel r (sys_pair s)) -> t ∉ R.

Lemma WriteSelf_ext f g msg c :
  (forall t, t ∈ waiters_ c -> f t = g t) -> WriteSelf f msg c = WriteSelf g msg c.
Proof.
  intros Hfg. unfold WriteSelf.
  assert (forall x, List.find (fun t => f t =? x) (waiters_ c) = List.find (fun t => g t =? x) (waiters_ c)) as Hf.
  { intros x. induction (waiters_ c) as [|t l IH]; [done|]. cbn. rewrite Hfg by (by left).
    rewrite IH; [done|]. intros u Hu. apply Hfg. by right. }
  by rewrite Hf.
Qed.

Lemma without_WriteSelf R r msg s :
  (forall t, t ∈ waiters_ (sel r (sys_pair s)) -> t ∉ R) ->
  sys_WriteSelf r msg (without R s) = without R (sys_WriteSelf r msg s).
Proof.
  intros Hu. unfold sys_WriteSelf. rewrite without_upd. unfold sys_upd. f_equal. apply upd_ext.
  apply WriteSelf_ext. intros t Ht. by rewrite waiter_kept by eauto.
Qed.

Lemma without_calls R calls s :
  (forall c, c ∈ calls -> call_thread c ∉ R) ->
  fold_left apply_call calls (without R s) = without R (fold_left apply_call calls s).
Proof.
  revert s. induction calls as [|c calls IH]; intros s Hc; [done|]. cbn.
  rewrite <-IH by (intros c' ?; apply Hc; by right). f_equal.
  assert (call_thread c ∉ R) as Ht by (apply Hc; by left).
  destruct c as [t m|t st]; cbn in *; by rewrite without_set_waiter, waiter_kept.
Qed.

Lemma without_flush R s :
  (forall r c, c ∈ calls_ (sel r (sys_pair s)) -> call_thread c ∉ R) ->
  flush (without R s) = (without R (flush s).1, (flush s).2).
Proof.
  intros Hc. unfold flush. cbn [sys_pair without fst snd]. fold (without R s). rewrite without_calls; [done|].
  intros c [H|H]%elem_of_app; [by apply (Hc false)|by apply (Hc true)].
Qed.

(** ** Steps without the threads of [R] *)

Definition op_thread (op : ChanOp) : option Z :=
  match op with ChCall t _ _ _ | ChFinish t _ | ChThreadExit t => Some t | _ => None end.

Definition not_by (R : gset Z) (op : ChanOp) : Prop := forall t, op_thread op = Some t -> t ∉ R.

Definition keep {A} (R : gset Z) (r : ChannelSys * A) : ChannelSys * A := (without R r.1, r.2).

Lemma without_Call R t side owner msg s :
  t ∉ R -> unlisted R s ->
  ch_Call t side owner msg (without R s) = keep R <$> ch_Call t side owner msg s.
Proof.
  intros Ht Hu. unfold ch_Call. rewrite waiter_kept by done.
  destruct (BeginWait side (waiter s t)) as [w st]. case_if; [done|]. cbn [without sys_pair]. fold (without R s).
  rewrite <-without_set_waiter by done. change (sys_pair (without R ?x)) with (sys_pair x).
  case_if; [done|]. case_if.
  { destruct (EndWait w) as [[w' ?] ?]. by rewrite <-without_set_waiter. }
  rewrite (map_ext_in _ (fun u => w_txid_ (waiter (set_waiter t w s) u))).
  2: { intros u Hi%list_elem_of_In. rewrite waiter_kept; [done|]. by apply (Hu side). }
  destruct (alloc_txid _ _ _) as [[counter txid]|]; [|done]. cbn [mbind option_bind fmap option_fmap option_map].
  rewrite <-without_set_waiter, <-without_upd, without_WriteSelf; [done| |done].
  intros u Hi. cbn [sys_upd set_pair sys_pair set_waiter] in Hi. apply (Hu (negb side)).
  by rewrite sel_upd_other' in Hi.
Qed.

Lemma without_Finish R t i s :
  t ∉ R -> ch_Finish t i (without R s) = keep R <$> ch_Finish t i s.
Proof.
  intros Ht. unfold ch_Finish. rewrite waiter_kept by done. destruct (channel_ (waiter s t)) as [side|]; [|done].
  destruct i; [done|]. destruct (EndWait (waiter s t)) as [[w st] reply].
  rewrite <-without_set_waiter by done. case_if; [|done]. change (sys_pair (without R ?x)) with (sys_pair x).
  by destruct (erase_waiter _ _).
Qed.

Lemma without_delete R t p (th : gmap Z MessageWaiter) k :
  without R (mkSys p (delete t th) k) = mkSys p (delete t (filter (fun kv => kv.1 ∉ R) th)) k.
Proof. unfold without. cbn. f_equal. by rewrite map_filter_delete. Qed.

Lemma without_ThreadExit R t s :
  t ∉ R -> ch_ThreadExit t (without R s) = without R (ch_ThreadExit t s).
Proof.
  intros Ht. unfold ch_ThreadExit. rewrite waiter_kept, without_delete by done.
  by destruct (channel_ (waiter s t)).
Qed.

Lemma without_do R op s :
  not_by R op -> unlisted R s -> ch_do (without R s) op = keep R <$> ch_do s op.
Proof.
  intros Hop Hu. destruct op as [side owner msg|side owner n h d|t side owner msg|t i|t|side k|side c m|side c m|side]; cbn [ch_do].
  - unfold ch_Write. cbn [without sys_pair]. fold (without R s). do 2 (case_if; [done|]).
    by rewrite without_WriteSelf by apply Hu.
  - change (sys_pair (without R s)) with (sys_pair s). by destruct (ch_Read _ _ _ _ _) as [[[? ?] ?] ?].
  - apply without_Call; [by apply Hop|done].
  - rewrite without_Finish by (by apply Hop). destruct (ch_Finish t i s) as [[s1 r]|]; done.
  - by rewrite without_ThreadExit by (by apply Hop).
  - done.
  - change (sys_pair (without R s)) with (sys_pair s). by destruct (peered_user_signal_self _ _ _ _).
  - change (sys_pair (without R s)) with (sys_pair s). by destruct (peered_user_signal_peer _ _ _ _).
  - done.
Qed.

(** Prove a goal about every endpoint for one and for the other. *)
Ltac by_sides q := match goal with |- forall r, @?P r => apply (both_sides q P) end.

(** The calls a step makes are on threads of the lists. *)
Definition calls_listed (s s1 : ChannelSys) : Prop :=
  forall r c, c ∈ calls_ (sel r (sys_pair s1)) -> call_thread c ∈ waiters_ (sel r (sys_pair s)).

Lemma quiet_listed s s1 : quiet s1 -> calls_listed s s1.
Proof. intros Hq r c. rewrite Hq. by rewrite elem_of_nil. Qed.

Lemma upd_quiet side f s : quiet s -> (forall c, calls_ (f c) = calls_ c) -> quiet (sys_upd side f s).
Proof.
  intros Hq Hf. intros r. cbn [sys_upd set_pair sys_pair].
  revert r. apply (both_sides side); rewrite ?sel_upd_same, ?sel_upd_other', ?Hf; apply Hq.
Qed.

Lemma WriteSelf_listed q msg s : quiet s -> calls_listed s (sys_WriteSelf q msg s).
Proof.
  intros Hq. unfold sys_WriteSelf. intros r c. cbn [sys_upd set_pair sys_pair]. revert r.
  by_sides q; rewrite ?sel_upd_same, ?sel_upd_other'; [|by rewrite Hq, elem_of_nil].
  unfold WriteSelf. destruct (List.find _ _) as [t|] eqn:E.
  - cbn [calls_ ch_set_waiters]. rewrite Hq. cbn. rewrite list_elem_of_singleton. intros ->. cbn.
    apply find_some in E as [E _]. by apply list_elem_of_In.
  - cbn zeta. destruct (kMaxPendingMessageCount <? _); cbn; by rewrite Hq, elem_of_nil.
Qed.

Lemma close_listed side s : quiet s -> calls_listed s (ch_closed side s).
Proof.
  intros Hq r c. unfold ch_closed, peered_on_zero_handles. cbn [sys_pair set_pair].
  assert (forall e st, calls_ e = [] -> c ∈ calls_ (cancel_waiters st e) -> call_thread c ∈ waiters_ e) as H.
  { intros e st He. cbn. rewrite He. by intros (t & -> & Ht)%list_elem_of_fmap. }
  pose proof (Hq false) as Hf. pose proof (Hq true) as Ht. destruct (sys_pair s) as [l r']. cbn in Hf, Ht.
  cbn zeta. destruct (ep_peer _); destruct side, r; cbn; rewrite ?Hf, ?Ht, ?elem_of_nil; cbn;
    try done; by intros (t & -> & Hi)%list_elem_of_fmap.
Qed.

Lemma Call_listed t side owner msg s s1 res :
  quiet s -> ch_Call t side owner msg s = Some (s1, res) -> calls_listed s s1.
Proof.
  intros Hq. unfold ch_Call. destruct (BeginWait _ _) as [w st]. case_if; [intros [= <- _]; by apply quiet_listed|].
  case_if; [intros [= <- _]; by apply quiet_listed|]. case_if.
  { destruct (EndWait w) as [[? ?] ?]. intros [= <- _]. by apply quiet_listed. }
  destruct (alloc_txid _ _ _) as [[counter txid]|]; [|done]. cbn [mbind option_bind]. intros [= <- _].
  match goal with |- calls_listed s (sys_WriteSelf _ _ ?x) => set (s0 := x) end.
  assert (quiet s0) as Hq0 by (by apply upd_quiet).
  intros r c Hc. pose proof (WriteSelf_listed (negb side) (set_txid txid msg) s0 Hq0 r c Hc) as Hi.
  destruct (decide (r = side)) as [->|Hne].
  - unfold sys_WriteSelf in Hc. cbn [sys_upd set_pair sys_pair] in Hc. rewrite sel_upd_other in Hc.
    by rewrite Hq0, elem_of_nil in Hc.
  - replace r with (negb side) in * by (by destruct r, side). unfold s0 in Hi.
    cbn [sys_upd set_pair sys_pair set_waiter] in Hi. by rewrite sel_upd_other' in Hi.
Qed.

Lemma Finish_quiet t i s s1 res : quiet s -> ch_Finish t i s = Some (s1, res) -> quiet s1.
Proof.
  intros Hq. unfold ch_Finish. destruct (channel_ (waiter s t)) as [side|]; [|by intros [= <- _]].
  destruct i; [by intros [= <- _]|]. destruct (EndWait _) as [[w st] reply]. case_if; [|by intros [= <- _]].
  destruct (erase_waiter _ _); [|done]. cbn [mbind option_bind]. intros [= <- _]. by apply upd_quiet.
Qed.

Lemma ThreadExit_quiet t s : quiet s -> quiet (ch_ThreadExit t s).
Proof.
  intros Hq. unfold ch_ThreadExit. destruct (channel_ (waiter s t)) as [side|]; [|done].
  apply (upd_quiet side _ s Hq). intros c. by destruct (erase_waiter _ _).
Qed.

Lemma ch_do_listed s op s1 res : quiet s -> ch_do s op = Some (s1, res) -> calls_listed s s1.
Proof.
  intros Hq. destruct op as [side owner msg|side owner n h d|t side owner msg|t i|t|side k|side c m|side c m|side]; cbn [ch_do].
  - unfold ch_Write. do 2 (case_if; [intros [= <- _]; by apply quiet_listed|]). intros [= <- _]. by apply WriteSelf_listed.
  - destruct (ch_Read owner n h d (sel side (sys_pair s))) as [[[c st] m] sz] eqn:Er. intros [= <- _].
    apply quiet_listed. intros r. cbn [sys_upd set_pair sys_pair].
    pose proof (ch_Read_waiters owner n h d (sel side (sys_pair s))) as [_ Hc]. rewrite Er in Hc. cbn in Hc.
    revert r. apply (both_sides side); rewrite ?sel_upd_same, ?sel_upd_other', ?Hc; apply Hq.
  - by apply Call_listed.
  - destruct (ch_Finish t i s) as [[s2 r]|] eqn:E; [|done]. intros [= <- _]. apply quiet_listed. by eapply Finish_quiet.
  - intros [= <- _]. by apply quiet_listed, ThreadExit_quiet.
  - intros [= <- _]. apply quiet_listed, upd_quiet; [done|]. intros c. unfold set_owner. by case_if.
  - unfold peered_user_signal_self. rewrite user_allowed. case_if; intros [= <- _]; apply quiet_listed; [done|].
    by apply (upd_quiet side).
  - unfold peered_user_signal_peer. rewrite user_allowed. case_if; [|case_if]; intros [= <- _]; apply quiet_listed; [done..|].
    by apply (upd_quiet (negb side)).
  - intros [= <- _]. by apply close_listed.
Qed.

Lemma without_step R op s :
  not_by R op -> unlisted R s -> quiet s ->
  ch_step (without R s) op = (fun r => (keep R r.1, r.2)) <$> ch_step s op.
Proof.
  intros Hop Hu Hq. unfold ch_step. rewrite without_do by done.
  destruct (ch_do s op) as [[s1 res]|] eqn:E; [|done]. cbn [fmap option_fmap option_map mbind option_bind keep fst snd].
  rewrite without_flush; [by destruct (flush s1)|].
  intros r c Hc. apply (Hu r). by eapply ch_do_listed.
Qed.

(** ** The invariant of runs *)

(** Without the threads that had a call refused the system is sound, and those threads
    have waiters that look as if they waited, with nothing received. *)
Record run_inv (s : ChannelSys) (R : gset Z) (linked : bool) : Prop := {
  ri_rest : chan_inv (without R s) linked;
  ri_stuck : forall t, t ∈ R -> (exists side, waiting side (waiter s t)) /\ msg_ (waiter s t) = None;
}.

Lemma run_unlisted s R linked : run_inv s R linked -> unlisted R s.
Proof.
  intros [Hs _] r t Ht HR. apply (wo_in _ _ _ _ (proj1 (ci_side _ _ Hs r))) in Ht as [Ht _].
  by rewrite waiter_gone in Ht.
Qed.

Lemma run_quiet s R linked : run_inv s R linked -> quiet s.
Proof. intros [Hs _]. exact (chan_inv_quiet _ _ Hs). Qed.

Lemma run_step_eq s R linked op :
  run_inv s R linked -> not_by R op ->
  ch_step (without R s) op = (fun r => (keep R r.1, r.2)) <$> ch_step s op.
Proof. intros Hs Hop. apply without_step; [done|by eapply run_unlisted|by eapply run_quiet]. Qed.

(** The threads of the calls of a step are not refused ones. *)
Lemma step_calls_listed s op s' res calls c :
  quiet s -> ch_step s op = Some (s', res, calls) -> c ∈ calls ->
  exists r, call_thread c ∈ waiters_ (sel r (sys_pair s)).
Proof.
  intros Hq. unfold ch_step. destruct (ch_do s op) as [[s1 r]|] eqn:E; [|done]. cbn [mbind option_bind].
  unfold flush. intros [= _ _ <-] [Hc|Hc]%elem_of_app;
    [exists false|exists true]; by apply (ch_do_listed s op s1 r).
Qed.

Lemma step_events_eq s R linked op s' res calls :
  run_inv s R linked -> not_by R op -> ch_step s op = Some (s', res, calls) ->
  step_events op res calls (without R s') = step_events op res calls s'.
Proof.
  intros Hs Hop Hstep. unfold step_events. f_equal.
  - destruct op; cbn; try done. rewrite waiter_kept; [done|]. by apply Hop.
  - assert (forall c, c ∈ calls -> call_thread c ∉ R) as Hc.
    { intros c Hc. destruct (step_calls_listed s op s' res calls c) as [r Hr]; [by eapply run_quiet|done..|].
      by apply (run_unlisted _ _ _ Hs r). }
    clear Hstep. induction calls as [|c calls IH]; [done|]. cbn. rewrite IH by (intros c' ?; apply Hc; by right).
    f_equal. assert (call_thread c ∉ R) by (apply Hc; by left). destruct c; cbn in *; [|done].
    by rewrite waiter_kept.
Qed.

(** Anything a refused thread does not do leaves it stuck. *)
Lemma stuck_other s R linked op s' res calls t :
  run_inv s R linked -> not_by R op -> ch_step s op = Some (s', res, calls) -> t ∈ R ->
  waiter s' t = waiter s t.
Proof.
  intros Hs Hop Hstep Ht. pose proof (run_unlisted _ _ _ Hs) as Hu. pose proof (run_quiet _ _ _ Hs) as Hq.
  unfold ch_step in Hstep. destruct (ch_do s op) as [[s1 r]|] eqn:E; [|done]. cbn [mbind option_bind] in Hstep.
  pose proof (flush_waiter s1 t) as Hw. destruct (flush s1) as [s2 c2]. injection Hstep as <- <- <-. cbn [fst] in Hw.
  rewrite Hw, apply_calls_other.
  - apply (ch_do_other t s op s1 r); [|done]. destruct op as [| |u ? ? ?|u []|u| | | |]; cbn; try done;
      intros ->; by apply (Hop t).
  - intros (c & -> & Hc)%list_elem_of_fmap. apply elem_of_app in Hc as [Hc|Hc];
      [apply (Hu false (call_thread c)); [|done]|apply (Hu true (call_thread c)); [|done]];
      by apply (ch_do_listed s op s1 r Hq E).
Qed.

Lemma refused_after_other s R op :
  not_by R op ->
  (forall t side owner msg, op = ChCall t side owner msg -> channel_ (waiter s t) = None ->
     owner = owner_ (sel side (sys_pair s))) -> refused_after s R op = R.
Proof.
  intros Hop Ho. destruct op as [| |t side owner msg|t i|t| | | |]; cbn; try done.
  - destruct (channel_ (waiter s t)) eqn:E; [done|]. by rewrite (Ho t side owner msg), Z.eqb_refl.
  - apply leibniz_equiv. pose proof (Hop t eq_refl). set_solver.
Qed.

(** What a step does: it ends in a state of the invariant and its messages are accounted
    for. *)
Definition step_sound (s : ChannelSys) (R : gset Z) (linked : bool) (op : ChanOp) : Prop :=
  exists s' res calls, ch_step s op = Some (s', res, calls) /\
    run_inv s' (refused_after s R op) (linked && negb (is_ch_close op)) /\
    forall r, accounted r (queue r s) (step_events op res calls s') (queue r s').

(** A step of a thread that had no call refused, other than a refused call. *)
Lemma plain_step_sound s R linked op :
  run_inv s R linked -> op_room s op -> not_by R op ->
  (forall t side owner msg, op = ChCall t side owner msg -> channel_ (waiter s t) = None ->
     owner = owner_ (sel side (sys_pair s))) -> step_sound s R linked op.
Proof.
  intros Hs Hroom Hop Ho. pose proof (run_step_eq _ _ _ _ Hs Hop) as Heq.
  assert (chan_op_ok (without R s) op) as Hok.
  { destruct op as [| |t side owner msg| | | | | |]; try done. split; [|done].
    rewrite waiter_kept by (by apply Hop). by apply (Ho t side owner msg). }
  destruct (ch_step_inv _ _ _ (ri_rest _ _ _ Hs) Hok) as (s1 & res & calls & Hstep & Hinv).
  pose proof (ch_step_accounted _ _ _ _ _ _ (ri_rest _ _ _ Hs) Hok Hstep) as Hacc. rewrite Heq in Hstep.
  destruct (ch_step s op) as [[[s' res'] calls']|] eqn:E; [|done]. cbn in Hstep. injection Hstep as <- <- <-.
  exists s', res', calls'. split; [exact E|]. rewrite refused_after_other by done. split; [split; [done|]|].
  - intros t Ht. rewrite (stuck_other _ _ _ _ _ _ _ _ Hs Hop E Ht). by apply Hs.
  - intros r. rewrite <-(step_events_eq _ _ _ _ _ _ _ Hs Hop E). apply Hacc.
Qed.

(** A refused call. *)
Lemma refused_call s R linked t side owner msg :
  run_inv s R linked -> channel_ (waiter s t) = None -> owner <> owner_ (sel side (sys_pair s)) ->
  let w := mkWaiter (Some side) (msg_ (waiter s t)) None (w_txid_ (waiter s t)) ZX_ERR_TIMED_OUT in
  ch_step s (ChCall t side owner msg) = Some (set_waiter t w s, Some (ZX_ERR_BAD_HANDLE, None), []) /\
  run_inv (set_waiter t w s) ({[t]} ∪ R) linked.
Proof.
  intros Hs Hch Ho w. pose proof (run_quiet _ _ _ Hs) as Hq.
  assert (t ∉ R) as Ht. { intros Ht. destruct (ri_stuck _ _ _ Hs t Ht) as [[sd [? _]] _]. congruence. }
  split.
  - unfold ch_step. cbn [ch_do]. unfold ch_Call, BeginWait. rewrite Hch. destruct (decide _) as [[]|_]; [done|].
    fold w. change (sys_pair (set_waiter _ _ s)) with (sys_pair s).
    destruct (Z.eqb_spec owner (owner_ (sel side (sys_pair s)))); [done|].
    cbn [negb mbind option_bind]. by rewrite (flush_quiet (set_waiter t w s)).
  - pose proof (ci_thread _ _ (ri_rest _ _ _ Hs) t) as Hok. rewrite waiter_kept in Hok by done.
    unfold thread_ok in Hok. rewrite Hch in Hok. split.
    + eapply chan_inv_ext; [apply (set_waiter_inv t MessageWaiter_new (without R s))| |]; [apply Hs| | | |done|].
      * intros sd [H _]. rewrite waiter_kept in H by done. congruence.
      * by intros sd [H _].
      * done.
      * intros u. rewrite waiter_set_waiter, !waiter_without, waiter_set_waiter.
        destruct (Z.eqb_spec u t) as [->|]; [by rewrite decide_True by set_solver|].
        destruct (decide (u ∈ R)); [by rewrite decide_True by set_solver|by rewrite decide_False by set_solver].
    + intros u Hu. rewrite waiter_set_waiter. destruct (Z.eqb_spec u t) as [->|].
      * split; [|done]. by exists side.
      * apply (ri_stuck _ _ _ Hs). set_solver.
Qed.

(** The steps of a thread that had a call refused. *)
Lemma stuck_call s R linked t side owner msg :
  run_inv s R linked -> t ∈ R ->
  ch_step s (ChCall t side owner msg) =
    Some (mkSys (sys_pair s) (threads s) (t :: killed s), Some (ZX_ERR_BAD_STATE, None), []).
Proof.
  intros Hs Ht. destruct (ri_stuck _ _ _ Hs t Ht) as [[sd [Hch _]] _]. pose proof (run_quiet _ _ _ Hs) as Hq.
  unfold ch_step. cbn [ch_do]. unfold ch_Call, BeginWait. rewrite Hch. destruct (decide _) as [_|[]]; [|done].
  cbn [mbind option_bind]. by rewrite flush_quiet.
Qed.

Lemma stuck_finish s R linked t i :
  run_inv s R linked -> t ∈ R ->
  ch_step s (ChFinish t i) = if i then Some (s, Some (ZX_ERR_INTERNAL_INTR_RETRY, None), []) else None.
Proof.
  intros Hs Ht. destruct (ri_stuck _ _ _ Hs t Ht) as [[sd [Hch Hst]] _]. pose proof (run_quiet _ _ _ Hs) as Hq.
  unfold ch_step. cbn [ch_do]. unfold ch_Finish, EndWait. rewrite Hch.
  destruct i; cbn [mbind option_bind]; [by rewrite flush_quiet|]. rewrite Hst. destruct (decide _) as [_|[]]; [|done].
  cbn [set_waiter sys_pair]. destruct (ci_side _ _ (ri_rest _ _ _ Hs) sd) as (Hwo & _). cbn [without sys_pair] in Hwo.
  pose proof (erase_waiter_spec t _ (wo_nodup _ _ _ _ Hwo)) as He. destruct (erase_waiter t _); [|done].
  destruct He as [Hi _]. by apply (run_unlisted _ _ _ Hs) in Hi.
Qed.

Lemma stuck_exit s R linked t :
  run_inv s R linked -> t ∈ R ->
  ch_step s (ChThreadExit t) =
    Some (mkSys (sys_pair s) (delete t (threads s)) (killed s), Some (ZX_OK, None), []).
Proof.
  intros Hs Ht. destruct (ri_stuck _ _ _ Hs t Ht) as [[sd [Hch Hst]] _]. pose proof (run_quiet _ _ _ Hs) as Hq.
  unfold ch_step. cbn [ch_do]. unfold ch_ThreadExit. rewrite Hch. cbn zeta. cbn [mbind option_bind].
  assert (sys_pair (sys_upd sd (fun c => match erase_waiter t (waiters_ c) with
    | None => c | Some l => ch_set_waiters l (calls_ c) c end) s) = sys_pair s) as ->.
  { cbn. rewrite (upd_ext sd _ id); [by destruct (sys_pair s), sd|].
    destruct (ci_side _ _ (ri_rest _ _ _ Hs) sd) as (Hwo & _). cbn [without sys_pair] in Hwo.
    pose proof (erase_waiter_spec t _ (wo_nodup _ _ _ _ Hwo)) as He. destruct (erase_waiter t _); [|done].
    destruct He as [Hi _]. by apply (run_unlisted _ _ _ Hs) in Hi. }
  cbn [sys_upd set_pair threads killed]. by rewrite flush_quiet.
Qed.

Lemma stuck_step_sound s R linked op t :
  run_inv s R linked -> op_thread op = Some t -> t ∈ R -> op <> ChFinish t false -> step_sound s R linked op.
Proof.
  intros Hs Hop Ht Hne. pose proof Hs as [Hr Hk].
  destruct op as [| |u side owner msg|u i|u| | | |]; try done; injection Hop as ->.
  - pose proof (stuck_call s R linked t side owner msg Hs Ht) as Hstep. destruct (Hk t Ht) as [[sd [Hch _]] _].
    do 3 eexists. split; [exact Hstep|]. cbn [refused_after is_ch_close negb]. rewrite Hch, andb_true_r.
    split; [|intros r; apply accounted_none]. split; [|exact Hk]. by eapply chan_inv_ext.
  - pose proof (stuck_finish s R linked t i Hs Ht) as Hstep. destruct i; [|done].
    do 3 eexists. split; [exact Hstep|]. cbn [refused_after is_ch_close negb]. rewrite andb_true_r.
    split; [done|]. intros r. apply accounted_none.
  - pose proof (stuck_exit s R linked t Hs Ht) as Hstep.
    do 3 eexists. split; [exact Hstep|]. cbn [refused_after is_ch_close negb]. rewrite andb_true_r.
    assert (forall u, waiter (mkSys (sys_pair s) (delete t (threads s)) (killed s)) u =
      if decide (u = t) then MessageWaiter_new else waiter s u) as Hw.
    { intros u. unfold waiter. cbn. destruct (decide (u = t)) as [->|]; [by rewrite lookup_delete_eq|by rewrite lookup_delete_ne]. }
    split; [|intros r; apply accounted_none]. split.
    + eapply chan_inv_ext; [exact Hr|done|]. intros u. rewrite !waiter_without, Hw.
      destruct (decide (u = t)) as [->|]; [rewrite decide_False, decide_True by set_solver; done|].
      destruct (decide (u ∈ R)); [by rewrite decide_True by set_solver|by rewrite decide_False by set_solver].
    + intros u [Hu Hne']%elem_of_difference. rewrite Hw, decide_False by set_solver. by apply Hk.
Qed.

Lemma run_step_sound s R linked op :
  run_inv s R linked -> op_room s op -> (forall t, t ∈ R -> op <> ChFinish t false) -> step_sound s R linked op.
Proof.
  intros Hs Hroom Hne.
  assert ((exists t, op_thread op = Some t /\ t ∈ R) \/ not_by R op) as [(t & Hop & Ht)|Hop].
  { unfold not_by. destruct (op_thread op) as [t|]; [|by right]. destruct (decide (t ∈ R)); [by eauto|].
    right. by intros ? [= <-]. }
  { eapply stuck_step_sound; [done..|by apply Hne]. }
  destruct op as [| |t side owner msg| | | | | |]; try by apply plain_step_sound.
  destruct (decide (channel_ (waiter s t) = None /\ owner <> owner_ (sel side (sys_pair s)))) as [[Hch Ho]|Hok].
  - destruct (refused_call s R linked t side owner msg Hs Hch Ho) as [Hstep Hinv].
    do 3 eexists. split; [exact Hstep|]. cbn [refused_after is_ch_close negb]. rewrite Hch, andb_true_r.
    destruct (Z.eqb_spec owner (owner_ (sel side (sys_pair s)))); [done|]. split; [done|]. intros r. apply accounted_none.
  - apply plain_step_sound; [done..|]. intros ? ? ? ? [= <- <- <- <-] Hch.
    destruct (decide (owner = owner_ (sel side (sys_pair s)))); [done|]. by destruct Hok.
Qed.

Lemma step_not_fault s R linked op out :
  run_inv s R linked -> ch_step s op = Some out -> forall t, t ∈ R -> op <> ChFinish t false.
Proof. intros Hs Hstep t Ht ->. by rewrite (stuck_finish s R linked t false Hs Ht) in Hstep. Qed.

Lemma chan_run_inv s R linked evs : chan_run s R linked evs -> run_inv s R linked.
Proof.
  induction 1 as [mem koid p Hc|s R linked evs op s' res calls _ IH Hroom Hstep].
  - split; [|intros t; set_solver]. eapply chan_inv_ext; [by eapply ch_Create_inv|done|].
    intros u. by rewrite waiter_kept by set_solver.
  - pose proof (step_not_fault _ _ _ _ _ IH Hstep) as Hne.
    destruct (run_step_sound s R linked op IH Hroom Hne) as (? & ? & ? & Hs & Hinv & _).
    rewrite Hstep in Hs. by simplify_eq.
Qed.

(** ** Steps of other threads *)

(** One step of the rest of the system. *)
Definition other_step (t : Z) (s s' : ChannelSys) : Prop :=
  exists op res calls, other_op t op /\ op_room s op /\ ch_step s op = Some (s', res, calls).

Lemma refused_after_thread s R op t :
  other_op t op -> t ∈ refused_after s R op <-> t ∈ R.
Proof.
  intros Ho. destruct op as [| |u side owner msg|u i|u| | | |]; cbn in *; try done.
  - destruct (channel_ _); [done|]. destruct (owner =? _); set_solver.
  - set_solver.
Qed.

Lemma other_steps t s s' R linked evs :
  chan_run s R linked evs -> rtc (other_step t) s s' ->
  (exists R' linked' evs', chan_run s' R' linked' evs' /\ (t ∈ R' <-> t ∈ R)) /\
  same_call (waiter s t) (waiter s' t).
Proof.
  intros He Hr. revert R linked evs He. induction Hr as [s|s s1 s2 (op & res & calls & Ho & Hroom & Hs) _ IH]; intros R linked evs He.
  - split; [by eauto 6|done].
  - destruct (IH _ _ _ (run_step _ _ _ _ _ _ _ _ He Hroom Hs)) as [(R' & l' & e' & Hex & HR) [E1 E2]]. split.
    + exists R', l', e'. split; [done|]. by rewrite HR, refused_after_thread.
    + destruct (ch_step_other t s op s1 res calls Ho Hs) as [F1 F2]. split; congruence.
Qed.

(** Executable runs. *)
Definition op_roomb (s : ChannelSys) (op : ChanOp) : bool :=
  match op with
  | ChCall _ side _ _ => zlen (waiters_ (sel side (sys_pair s))) <? 2 ^ 31
  | _ => true
  end.

Fixpoint ch_run (s : ChannelSys) (R : gset Z) (linked : bool) (evs : list ChanEvent) (ops : list ChanOp)
    : option (ChannelSys * gset Z * bool * list ChanEvent) :=
  match ops with
  | [] => Some (s, R, linked, evs)
  | op :: ops =>
      if op_roomb s op then
        '(s', res, calls) ← ch_step s op;
        ch_run s' (refused_after s R op) (linked && negb (is_ch_close op)) (evs ++ step_events op res calls s') ops
      else None
  end.

Lemma ch_run_sound s R linked evs ops s' R' linked' evs' :
  chan_run s R linked evs -> ch_run s R linked evs ops = Some (s', R', linked', evs') -> chan_run s' R' linked' evs'.
Proof.
  revert s R linked evs. induction ops as [|op ops IH]; intros s R linked evs He; cbn [ch_run]; [by intros [= <- <- <- <-]|].
  destruct (op_roomb s op) eqn:Eo; [|done]. destruct (ch_step s op) as [[[s1 res] calls]|] eqn:Es; [|done].
  apply IH. eapply run_step; [done| |done]. destruct op; try done. by apply Z.ltb_lt.
Qed.

Definition packet_example (txid : Z) : MessagePacket :=
  mkPacket (mkBufferChain [mkBuffer 0 (le_encode 4 txid)] [1]) [] 4 0 0 false.

Definition chan_example : ChannelSys :=
  let '(d0, koid) := Dispatcher_new 1024 ZX_CHANNEL_WRITABLE in
  let '(d1, _) := Dispatcher_new koid ZX_CHANNEL_WRITABLE in
  sys_new (mkPair (ChannelDispatcher_new d0) (ChannelDispatcher_new d1)).

Lemma chan_example_run ops s R linked evs :
  ch_run chan_example ∅ true [] ops = Some (s, R, linked, evs) -> chan_run s R linked evs.
Proof. apply ch_run_sound. by apply (run_new (fun _ => true) 1024). Qed.

(** The state after a run of the example. *)
Definition chan_after (ops : list ChanOp) : ChannelSys :=
  match ch_run chan_example ∅ true [] ops with Some (s, _, _, _) => s | None => chan_example end.

Definition call_example : ChanOp := ChCall 7 false 0 (packet_example 0).
Definition reply_example : ChanOp := ChWrite true 0 (packet_example 0x80000001).
Definition refused_example : ChanOp := ChCall 9 false 1 (packet_example 0).

(** ** Theorems *)

(** C4. The waiter bookkeeping of channel calls is sound. In every state reachable by any
    interleaving of operations, calls refused with [ZX_ERR_BAD_HANDLE] included, on each
    endpoint: the list holds exactly the threads whose call is still open and unanswered,
    each once, apart from the threads that have had a call refused ([R]); their transaction
    identifiers are pairwise distinct and have the high bit set. With fewer than 2^31
    threads waiting, an operation fails to complete exactly when it finishes the call of a
    thread of [R]: nothing else ever erases a waiter from a list it is not in, and the
    search for a free identifier ends. *)
Theorem channel_waiters_sound s R linked evs :
  chan_run s R linked evs ->
  (forall side, let l := waiters_ (sel side (sys_pair s)) in
     NoDup l /\ NoDup (map (fun t => w_txid_ (waiter s t)) l) /\
     (forall t, t ∈ l <-> waiting side (waiter s t) /\ t ∉ R) /\
     (forall t, t ∈ l -> 2 ^ 31 <= w_txid_ (waiter s t) < 2 ^ 32)) /\
  (forall op, op_room s op -> ch_step s op = None <-> exists t, t ∈ R /\ op = ChFinish t false).
Proof.
  intros Hs%chan_run_inv. pose proof (run_unlisted _ _ _ Hs) as Hu. split.
  - intros side l. destruct (ci_side _ _ (ri_rest _ _ _ Hs) side) as ([Hin Hnd Htx Hr _] & _).
    cbn [without sys_pair] in *. fold l in Hin, Hnd, Htx, Hr. fold (without R s) in *.
    assert (forall t, t ∈ l -> waiter (without R s) t = waiter s t) as Hw
      by (intros t Ht; apply waiter_kept; by apply (Hu side)).
    split_and!; [done| | |].
    + rewrite (map_ext_in _ (fun t => w_txid_ (waiter (without R s) t))); [done|].
      intros t Ht%list_elem_of_In. by rewrite Hw.
    + intros t. rewrite Hin, waiter_without. destruct (decide (t ∈ R)); [|tauto].
      split; [by intros [? _]|tauto].
    + intros t Ht. rewrite <-Hw by done. by apply Hr.
  - intros op Hroom. split.
    + intros Hnone. destruct op as [| | |t []| | | | |];
        try (destruct (run_step_sound s R linked _ Hs Hroom) as (? & ? & ? & Hstep & _); [done|congruence]).
      destruct (decide (t ∈ R)); [by eauto|].
      destruct (run_step_sound s R linked _ Hs Hroom) as (? & ? & ? & Hstep & _); [|congruence].
      by intros u Hu' [= ->].
    + intros (t & Ht & ->). by rewrite (stuck_finish s R linked t false Hs Ht).
Qed.

Lemma channel_waiters_sound_witness :
  exists s R evs, ch_run chan_example ∅ true []
      [call_example; refused_example; ChCall 8 false 0 (packet_example 0)] = Some (s, R, true, evs) /\
  (forall t, t ∈ waiters_ (sel false (sys_pair s)) <-> waiting false (waiter s t) /\ t ∉ R) /\
  ch_step s (ChFinish 9 false) = None /\ ch_step s (ChFinish 7 false) <> None.
Proof.
  destruct (ch_run chan_example ∅ true [] [call_example; refused_example; ChCall 8 false 0 (packet_example 0)])
    as [[[[s R] linked] evs]|] eqn:E; [|vm_compute in E; discriminate].
  pose proof (channel_waiters_sound s R linked evs (chan_example_run _ _ _ _ _ E)) as [Hl Hop].
  assert (R = {[9]}) as ->.
  { apply (f_equal (option_map (fun r => r.1.1.2))) in E. vm_compute in E. by injection E as <-. }
  exists s, {[9]}, evs. split_and!.
  - apply (f_equal (option_map (fun r => r.1.2))) in E. vm_compute in E. by injection E as <-.
  - apply Hl.
  - apply Hop; [done|]. exists 9. split; [set_solver|done].
  - intros Hn. apply Hop in Hn as (t & Ht & [= <-]); [set_solver|done].
Defined.

(** The signals of one endpoint. *)
Definition channel_signals_ok s linked side : Prop :=
  let c := sel side (sys_pair s) in
  let has sig := negb (Z.land (signals_ (ch_base c)) sig =? 0) in
  has ZX_CHANNEL_READABLE = negb (zlen (messages_ c) =? 0) /\
  (linked = true -> has ZX_CHANNEL_WRITABLE = true /\ has ZX_CHANNEL_PEER_CLOSED = false) /\
  (has ZX_CHANNEL_PEER_CLOSED = true -> has ZX_CHANNEL_WRITABLE = false).

Lemma channel_signals_exact s R linked evs side : chan_run s R linked evs -> channel_signals_ok s linked side.
Proof.
  cbv beta delta [channel_signals_ok]. intros [Hs _]%chan_run_inv c has.
  destruct (ci_side _ _ Hs side) as (_ & [_ Hr Hw Hc _ _] & _).
  assert (has ZX_CHANNEL_READABLE = ch_bit 0 c) as -> by (apply (land_bit _ 0); lia).
  assert (has ZX_CHANNEL_WRITABLE = ch_bit 1 c) as -> by (apply (land_bit _ 1); lia).
  assert (has ZX_CHANNEL_PEER_CLOSED = ch_bit 2 c) as -> by (apply (land_bit _ 2); lia).
  done.
Qed.

Lemma messages_conserved s R linked evs r :
  chan_run s R linked evs ->
  sent_to r evs ≡ₚ received_by r evs ++ queue r s ++ delivered_to r evs /\
  sublist (received_by r evs ++ queue r s) (sent_to r evs).
Proof.
  induction 1 as [mem koid p Hc|s R linked evs op s' res calls He [IHp IHs] Hroom Hstep].
  { unfold ch_Create in Hc. revert Hc. case_if; [done|]. intros [= <-]. by destruct r. }
  apply chan_run_inv in He as Hs. pose proof (step_not_fault _ _ _ _ _ Hs Hstep) as Hne.
  destruct (run_step_sound s R linked op Hs Hroom Hne) as (? & ? & ? & Hstep' & _ & Ha).
  rewrite Hstep in Hstep'. injection Hstep' as <- <- <-. specialize (Ha r).
  set (E := step_events op res calls s') in *. clearbody E.
  unfold sent_to, received_by, delivered_to in *. rewrite !flat_map_app.
  destruct Ha as [(E1 & E2 & ->)|[E1 E2]]; unfold sent_to, received_by, delivered_to in *.
  - rewrite E1, E2, app_nil_r. split; [|by apply sublist_inserts_r]. rewrite IHp. solve_Permutation.
  - rewrite E1, app_nil_r. rewrite <-!app_assoc, (app_assoc _ (queue r s')), E2. split.
    + rewrite IHp. solve_Permutation.
    + rewrite !app_assoc. by apply sublist_app.
Qed.

(** C10. No message is lost, duplicated or reordered. In every execution, refused calls
    included, what has been sent to an endpoint is exactly what was read from it, what is
    in its queue and what was handed to waiting calls; and the messages read so far
    followed by the queue are in the order in which they were sent. The signals are exact:
    READABLE says that the endpoint has a message queued; while the endpoints are connected
    WRITABLE is set and PEER_CLOSED clear on both; an endpoint that shows PEER_CLOSED is
    not WRITABLE. *)
Theorem channel_messages_conserved s R linked evs r :
  chan_run s R linked evs ->
  sent_to r evs ≡ₚ received_by r evs ++ queue r s ++ delivered_to r evs /\
  sublist (received_by r evs ++ queue r s) (sent_to r evs) /\
  channel_signals_ok s linked r.
Proof. intros He. destruct (messages_conserved s R linked evs r He). split_and!; [done..|by eapply channel_signals_exact]. Qed.

Lemma channel_messages_conserved_witness :
  exists s R linked evs,
    ch_run chan_example ∅ true [] [ChWrite false 0 (packet_example 5); refused_example; call_example;
      ChRead true 0 4 0 false; reply_example] = Some (s, R, linked, evs) /\
    sent_to true evs ≡ₚ received_by true evs ++ queue true s ++ delivered_to true evs.
Proof.
  destruct (ch_run chan_example ∅ true [] _) as [[[[s R] linked] evs]|] eqn:E; [|vm_compute in E; discriminate].
  exists s, R, linked, evs. split; [done|].
  apply (channel_messages_conserved s R linked evs true (chan_example_run _ _ _ _ _ E)).
Defined.

(** A call that blocks is by a thread with no refused call, on an endpoint its process owns. *)
Lemma blocked_call s R linked t side owner msg s1 calls :
  run_inv s R linked -> op_room s (ChCall t side owner msg) ->
  ch_step s (ChCall t side owner msg) = Some (s1, None, calls) ->
  (t ∉ R) /\ (t ∉ refused_after s R (ChCall t side owner msg)) /\
  channel_ (waiter s1 t) = Some side /\ 2 ^ 31 <= w_txid_ (waiter s1 t) < 2 ^ 32.
Proof.
  intros Hs Hroom Hstep.
  assert (t ∉ R) as Ht. { intros Ht. by rewrite (stuck_call s R linked t side owner msg Hs Ht) in Hstep. }
  assert (channel_ (waiter s t) = None -> owner = owner_ (sel side (sys_pair s))) as Ho.
  { intros Hch. destruct (decide (owner = owner_ (sel side (sys_pair s)))) as [|Hne]; [done|].
    destruct (refused_call s R linked t side owner msg Hs Hch Hne) as [Hr _]. by rewrite Hr in Hstep. }
  assert (not_by R (ChCall t side owner msg)) as Hby by (by intros u [= <-]).
  rewrite refused_after_other by (try done; by intros ? ? ? ? [= <- <- <- <-]).
  pose proof (run_step_eq _ _ _ _ Hs Hby) as Heq. rewrite Hstep in Heq. cbn in Heq.
  split; [done|]. split; [done|]. rewrite <-(waiter_kept R s1 t Ht).
  eapply Call_blocks; [apply Hs| |exact Heq]. split; [|done]. by rewrite waiter_kept.
Qed.

(** The second half of the call of a thread that had none refused. *)
Lemma finish_ends s R linked t side :
  run_inv s R linked -> t ∉ R -> channel_ (waiter s t) = Some side ->
  exists s', ch_step s (ChFinish t false) = Some (s', Some (status_ (waiter s t), msg_ (waiter s t)), []) /\
    channel_ (waiter s' t) = None.
Proof.
  intros Hs Ht Hch. pose proof (ri_rest _ _ _ Hs) as Hr.
  pose proof (ch_Finish_cases t false _ linked Hr) as Hf. rewrite waiter_kept, Hch in Hf by done.
  destruct Hf as (s1 & Hf & Hs1 & Hidle & _).
  assert (not_by R (ChFinish t false)) as Hby by (by intros u [= <-]).
  pose proof (run_step_eq _ _ _ _ Hs Hby) as Heq. unfold ch_step in Heq at 1. cbn [ch_do] in Heq.
  rewrite Hf in Heq. cbn [mbind option_bind] in Heq. rewrite (quiet_step s1 linked) in Heq by done.
  destruct (ch_step s (ChFinish t false)) as [[[s' res] calls]|]; [|done]. cbn in Heq.
  injection Heq as -> <- <-. rewrite waiter_kept in Hidle by done. eauto.
Qed.

(** C21. A call gets its own reply. Once the first half of a call has blocked, whatever the
    rest of the system does, refused calls of other threads included, and however often
    the call is interrupted, its second half succeeds in ending the call and leaves the
    thread idle; the result is a message that carries the identifier the kernel put into
    the request, or an error and no message: the deadline, the closing of the caller's
    endpoint or that of its peer. *)
Theorem channel_call_reply s R linked evs t side owner msg s1 calls s2 :
  chan_run s R linked evs -> op_room s (ChCall t side owner msg) ->
  ch_step s (ChCall t side owner msg) = Some (s1, None, calls) ->
  rtc (other_step t) s1 s2 ->
  exists s3 st reply, ch_step s2 (ChFinish t false) = Some (s3, Some (st, reply), []) /\
    channel_ (waiter s3 t) = None /\
    sent_to (negb side) (step_events (ChCall t side owner msg) None calls s1) =
      [set_txid (w_txid_ (waiter s1 t)) msg] /\
    match st with
    | ZX_OK => exists m, reply = Some m /\ get_txid m = w_txid_ (waiter s1 t)
    | ZX_ERR_TIMED_OUT | ZX_ERR_CANCELED | ZX_ERR_PEER_CLOSED => reply = None
    | _ => False
    end.
Proof.
  intros He Hroom Hstep Hrtc. pose proof (chan_run_inv _ _ _ _ He) as Hs.
  destruct (blocked_call s R linked t side owner msg s1 calls Hs Hroom Hstep) as (_ & HtR & Hch1 & _).
  destruct (other_steps t s1 s2 _ _ _ (run_step _ _ _ _ _ _ _ _ He Hroom Hstep) Hrtc)
    as [(R' & linked' & evs' & Hs2%chan_run_inv & HR') [Etx Ech]].
  assert (t ∉ R') as Ht by (by rewrite HR'). pose proof (ri_rest _ _ _ Hs2) as Hr2.
  rewrite Hch1 in Ech. destruct (finish_ends s2 R' linked' t side Hs2 Ht Ech) as (s3 & Hf & Hidle).
  do 3 eexists. split; [exact Hf|]. split; [done|]. split.
  - unfold step_events, sent_to. cbn [op_events]. rewrite flat_map_app. cbn. rewrite Bool.eqb_reflx. cbn. f_equal.
    clear. induction calls as [|[u m|u st] calls IH]; cbn; [done| |done].
    destruct (channel_ (waiter s1 u)); [|done]. cbn. done.
  - pose proof (ci_thread _ _ Hr2 t) as Hk. rewrite waiter_kept in Hk by done. unfold thread_ok in Hk.
    rewrite Ech in Hk. rewrite <-Etx. destruct (status_ (waiter s2 t)); tauto.
Qed.

Lemma channel_call_reply_witness :
  exists s3 m, ch_step (chan_after [call_example; refused_example; reply_example]) (ChFinish 7 false) =
      Some (s3, Some (ZX_OK, Some m), []) /\ get_txid m = 0x80000001.
Proof.
  destruct (channel_call_reply chan_example ∅ true [] 7 false 0 (packet_example 0)
    (chan_after [call_example]) [] (chan_after [call_example; refused_example; reply_example]))
    as (s3 & st & reply & Hstep & _ & _ & Hst).
  - by apply (chan_example_run []).
  - done.
  - vm_compute. reflexivity.
  - eapply (rtc_l _ _ (chan_after [call_example; refused_example])); [|apply rtc_once].
    + exists refused_example, (Some (ZX_ERR_BAD_HANDLE, None)), [].
      split; [done|]. split; [done|]. vm_compute. reflexivity.
    + exists reply_example, (Some (ZX_OK, None)), [WDeliver 7 (packet_example 0x80000001)].
      split; [done|]. split; [done|]. vm_compute. reflexivity.
  - assert (st = ZX_OK) as ->.
    { apply (f_equal (option_map (fun r => option_map fst r.1.2))) in Hstep. vm_compute in Hstep. by injection Hstep as <-. }
    destruct Hst as (m & -> & Hm). exists s3, m. split; [exact Hstep|]. rewrite Hm. vm_compute. reflexivity.
Defined.

(** A message written to an endpoint goes to the waiting call it answers and to no
    other: if a thread waits there under the identifier of the message, that thread is
    woken with the message and the queue is unchanged; otherwise no thread is disturbed
    and the message joins the end of the queue. *)
Lemma channel_write_routes s R evs side msg :
  chan_run s R true evs ->
  let r := negb side in
  exists s' calls,
    ch_step s (ChWrite side (owner_ (sel side (sys_pair s))) msg) = Some (s', Some (ZX_OK, None), calls) /\
    ((exists t, (t ∉ R) /\ waiting r (waiter s t) /\ w_txid_ (waiter s t) = get_txid msg /\
        waiter s' t = Deliver msg (waiter s t) /\ calls = [WDeliver t msg] /\ queue r s' = queue r s) \/
     (forall t, t ∉ R -> waiting r (waiter s t) -> w_txid_ (waiter s t) <> get_txid msg) /\
     calls = [] /\ queue r s' = queue r s ++ [msg]).
Proof.
  intros Hs%chan_run_inv r. pose proof (ri_rest _ _ _ Hs) as Hr. pose proof (run_unlisted _ _ _ Hs) as Hu.
  unfold ch_step. cbn [ch_do]. unfold ch_Write. rewrite Z.eqb_refl. cbn [negb].
  pose proof (eo_peer _ _ (proj1 (proj2 (ci_side _ _ Hr side)))) as Hp. cbn [without sys_pair] in Hp. rewrite Hp.
  cbn [negb mbind option_bind]. fold r.
  destruct (WriteSelf_routes r msg (without R s) true Hr) as (_ & _ & Hro).
  rewrite without_WriteSelf, without_flush in Hro by
    (try apply Hu; intros q c Hc; apply (Hu q); by eapply WriteSelf_listed; [eapply run_quiet|]).
  pose proof (wo_in _ _ _ _ (proj1 (ci_side _ _ Hr r))) as Hin. cbn [without sys_pair] in Hin, Hro.
  fold (without R s) in Hin, Hro.
  destruct (flush (sys_WriteSelf r msg s)) as [s' calls]. cbn [fst snd] in Hro. fold (without R s') in Hro.
  exists s', calls. split; [done|]. destruct Hro as [(t & Ht & Htx & Hc & Hq & _ & Hw)|(Hno & ? & ?)].
  - left. exists t. pose proof (Hu r t Ht) as HtR. apply Hin in Ht. rewrite !waiter_kept in * by done. by split_and!.
  - right. split; [|done]. intros t HtR Ht. specialize (Hno t). rewrite waiter_kept in Hno by done. apply Hno.
    apply Hin. by rewrite waiter_kept.
Qed.

Lemma close_without R side s :
  unlisted R s -> quiet s ->
  fst (flush (ch_closed side (without R s))) = without R (fst (flush (ch_closed side s))).
Proof.
  intros Hu Hq. change (ch_closed side (without R s)) with (without R (ch_closed side s)).
  rewrite without_flush; [done|]. intros r c Hc. apply (Hu r). by eapply close_listed.
Qed.

(** A call on a disconnected endpoint does not block. *)
Lemma unlinked_call s t side owner msg s' calls :
  ch_peer_ (sel side (sys_pair s)) = false -> ch_step s (ChCall t side owner msg) <> Some (s', None, calls).
Proof.
  intros Hp. unfold ch_step. cbn [ch_do]. unfold ch_Call. destruct (BeginWait _ _) as [w st].
  case_if; cbn [mbind option_bind]; [by destruct (flush _)|]. cbn [set_waiter sys_pair].
  case_if; cbn [mbind option_bind]; [by destruct (flush _)|]. rewrite Hp. cbn [negb].
  destruct (EndWait w) as [[? ?] ?]. cbn [mbind option_bind]. by destruct (flush _).
Qed.

(** C22. Closing an endpoint never leaves a call hanging. Every call that is waiting on the
    closed endpoint is woken with [ZX_ERR_CANCELED], every call waiting on its peer with
    [ZX_ERR_PEER_CLOSED]; both lists become empty, other threads, those that have had a
    call refused among them, are not disturbed, and the endpoints are disconnected, so no
    call can start to wait again. *)
Theorem channel_close_wakes s R evs side :
  chan_run s R true evs ->
  exists s' calls, ch_step s (ChClose side) = Some (s', Some (ZX_OK, None), calls) /\
    (forall r t, t ∉ R -> waiting r (waiter s t) ->
       let st := if Bool.eqb side r then ZX_ERR_CANCELED else ZX_ERR_PEER_CLOSED in
       event_ (waiter s' t) = Some st /\
       exists s'', ch_step s' (ChFinish t false) = Some (s'', Some (st, None), [])) /\
    (forall t, t ∈ R \/ (forall r, ~ waiting r (waiter s t)) -> waiter s' t = waiter s t) /\
    (forall r, waiters_ (sel r (sys_pair s')) = [] /\ ch_peer_ (sel r (sys_pair s')) = false) /\
    (forall t r owner msg s'' calls', ch_step s' (ChCall t r owner msg) <> Some (s'', None, calls')).
Proof.
  intros Hrun. pose proof (chan_run_inv _ _ _ _ Hrun) as Hs. pose proof (ri_rest _ _ _ Hs) as Hr.
  set (s' := fst (flush (ch_closed side s))).
  assert (ch_step s (ChClose side) = Some (s', Some (ZX_OK, None), snd (flush (ch_closed side s)))) as Hstep by done.
  destruct (run_step_sound s R true (ChClose side) Hs I) as (? & ? & ? & Hstep' & Hs' & _); [done|].
  rewrite Hstep in Hstep'. injection Hstep' as <- <- <-. cbn [refused_after is_ch_close negb andb] in Hs'.
  destruct (flush_close side (without R s) Hr) as [Hin Hout].
  rewrite close_without in Hin, Hout by (by eapply run_unlisted || eapply run_quiet). fold s' in Hin, Hout.
  assert (forall r t, t ∈ waiters_ (sel r (sys_pair s)) <-> waiting r (waiter (without R s) t)) as Hw
    by (intros r; apply (wo_in _ _ _ _ (proj1 (ci_side _ _ Hr r)))).
  do 2 eexists. split; [exact Hstep|]. split_and!.
  - intros r t HtR Ht st. pose proof Ht as [Hch Hst]. rewrite <-(waiter_kept R s t) in Ht by done. apply Hw in Ht.
    specialize (Hin r t Ht). rewrite !waiter_kept in Hin by done. rewrite Hin. split; [done|].
    assert (channel_ (waiter s' t) = Some r) as Hch' by (by rewrite Hin).
    destruct (finish_ends s' R false t r Hs' HtR Hch') as (s'' & Hf & _). rewrite Hin in Hf. cbn in Hf.
    pose proof (ci_thread _ _ Hr t) as Hk. rewrite waiter_kept in Hk by done. unfold thread_ok in Hk.
    rewrite Hch, Hst in Hk. destruct Hk as [Hmsg _]. rewrite Hmsg in Hf. by exists s''.
  - intros t Ht. destruct (decide (t ∈ R)) as [HtR|HtR].
    { eapply stuck_other; [exact Hs| |exact Hstep|done]. by intros ? ?. }
    destruct Ht as [|Ht]; [done|].
    specialize (Hout t). rewrite !waiter_kept in Hout by done. apply Hout.
    intros r Hi%Hw. rewrite waiter_kept in Hi by done. by apply (Ht r).
  - intros r. destruct (ci_side _ _ (ri_rest _ _ _ Hs') r) as (Hwo & He & _).
    split; [by apply (wo_unlinked _ _ _ _ Hwo)|apply He].
  - intros t r owner msg s'' calls'. apply unlinked_call.
    apply (ci_side _ _ (ri_rest _ _ _ Hs') r).
Qed.

Lemma channel_close_wakes_witness :
  exists s' calls, ch_step (chan_after [call_example; refused_example]) (ChClose true) = Some (s', Some (ZX_OK, None), calls) /\
    event_ (waiter s' 7) = Some ZX_ERR_PEER_CLOSED /\
    waiter s' 9 = waiter (chan_after [call_example; refused_example]) 9.
Proof.
  destruct (channel_close_wakes (chan_after [call_example; refused_example]) {[9]}
    [Sent true (packet_example 0x80000001)] true) as (s' & calls & Hs & Hw & Hk & _).
  - apply (chan_example_run [call_example; refused_example] _ _ true). vm_compute. reflexivity.
  - exists s', calls. split; [exact Hs|]. split.
    + apply (Hw false 7); [set_solver|]. vm_compute. done.
    + apply Hk. left. set_solver.
Defined.

(** C35. A refused call disables the thread for good. Whenever an idle thread makes a call on an
    endpoint that has moved to another process, the call answers [ZX_ERR_BAD_HANDLE] and
    changes neither endpoint, but it leaves the waiter of the thread attached. From then
    on, whatever the rest of the system does until the thread exits, the thread looks as if
    it waited, every further call it makes, on any endpoint and as its owner or not, kills
    its process with [ZX_ERR_BAD_STATE], and finishing the refused call erases a waiter that
    is in no list. *)
Theorem refused_call_poisons_thread s R linked evs t side owner msg :
  chan_run s R linked evs -> channel_ (waiter s t) = None -> owner <> owner_ (sel side (sys_pair s)) ->
  op_room s (ChCall t side owner msg) ->
  exists s1, ch_step s (ChCall t side owner msg) = Some (s1, Some (ZX_ERR_BAD_HANDLE, None), []) /\
    sys_pair s1 = sys_pair s /\
    forall s2, rtc (other_step t) s1 s2 ->
      waiting side (waiter s2 t) /\
      (forall side' owner' msg', exists s3,
         ch_step s2 (ChCall t side' owner' msg') = Some (s3, Some (ZX_ERR_BAD_STATE, None), []) /\
         killed s3 = t :: killed s2) /\
      ch_step s2 (ChFinish t false) = None.
Proof.
  intros He Hch Ho Hroom. pose proof (chan_run_inv _ _ _ _ He) as Hs.
  destruct (refused_call s R linked t side owner msg Hs Hch Ho) as [Hstep _].
  eexists. split; [exact Hstep|]. split; [done|]. intros s2 Hrtc.
  pose proof (run_step _ _ _ _ _ _ _ _ He Hroom Hstep) as He1.
  destruct (other_steps t _ s2 _ _ _ He1 Hrtc) as [(R' & linked' & evs' & Hs2%chan_run_inv & HR') [_ Ech]].
  assert (t ∈ R') as Ht.
  { rewrite HR'. cbn [refused_after]. rewrite Hch. destruct (Z.eqb_spec owner (owner_ (sel side (sys_pair s)))); set_solver. }
  rewrite waiter_set_waiter, Z.eqb_refl in Ech. cbn in Ech. split_and!.
  - destruct (ri_stuck _ _ _ Hs2 t Ht) as [[sd [Hsd Hst]] _]. done.
  - intros side' owner' msg'. eexists. split; [by eapply stuck_call|done].
  - by rewrite (stuck_finish s2 R' linked' t false Hs2 Ht).
Qed.

Lemma refused_call_poisons_thread_witness :
  exists s1, ch_step (chan_after [call_example]) refused_example = Some (s1, Some (ZX_ERR_BAD_HANDLE, None), []) /\
    ch_step s1 (ChFinish 9 false) = None.
Proof.
  destruct (refused_call_poisons_thread (chan_after [call_example]) ∅ true [Sent true (packet_example 0x80000001)]
    9 false 1 (packet_example 0)) as (s1 & Hstep & _ & Hk).
  - apply (chan_example_run [call_example] _ _ true). vm_compute. reflexivity.
  - vm_compute. reflexivity.
  - vm_compute. discriminate.
  - vm_compute. reflexivity.
  - exists s1. split; [exact Hstep|]. apply Hk. apply rtc_refl.
Defined.
