(* ===== verification/JobPolicy.v ===== *)
(** * Job policy

    Models [zircon/kernel/object/job_policy.cc] (the packed encoding of the basic policy
    and the rules for merging a policy into it), the bit-field members of [fbl/bits.h] it
    is built on, and the policy operations of [job_dispatcher.cc].

    The cookie is the 64-bit word of the source: each condition has a three-bit action
    and a one-bit override. *)

From S2P Require Import Prelude Types.

(** ** Constants *)

Definition ZX_JOB_POL_RELATIVE : Z := 0.
Definition ZX_JOB_POL_ABSOLUTE : Z := 1.

Definition ZX_POL_BAD_HANDLE : Z := 0.
Definition ZX_POL_WRONG_OBJECT : Z := 1.
Definition ZX_POL_VMAR_WX : Z := 2.
Definition ZX_POL_NEW_ANY : Z := 3.
Definition ZX_POL_NEW_VMO : Z := 4.
Definition ZX_POL_NEW_CHANNEL : Z := 5.
Definition ZX_POL_NEW_EVENT : Z := 6.
Definition ZX_POL_NEW_EVENTPAIR : Z := 7.
Definition ZX_POL_NEW_PORT : Z := 8.
Definition ZX_POL_NEW_SOCKET : Z := 9.
Definition ZX_POL_NEW_FIFO : Z := 10.
Definition ZX_POL_NEW_TIMER : Z := 11.
Definition ZX_POL_NEW_PROCESS : Z := 12.
Definition ZX_POL_NEW_PROFILE : Z := 13.
Definition ZX_POL_AMBIENT_MARK_VMO_EXEC : Z := 14.
Definition ZX_POL_MAX : Z := 15.

Definition ZX_POL_ACTION_ALLOW : Z := 0.
Definition ZX_POL_ACTION_DENY : Z := 1.
Definition ZX_POL_ACTION_MAX : Z := 5.
Definition ZX_POL_OVERRIDE_ALLOW : Z := 0.
Definition ZX_POL_OVERRIDE_DENY : Z := 1.

Definition kNewObjectPolicies : list Z :=
  [ZX_POL_NEW_VMO; ZX_POL_NEW_CHANNEL; ZX_POL_NEW_EVENT; ZX_POL_NEW_EVENTPAIR;
   ZX_POL_NEW_PORT; ZX_POL_NEW_SOCKET; ZX_POL_NEW_FIFO; ZX_POL_NEW_TIMER;
   ZX_POL_NEW_PROCESS; ZX_POL_NEW_PROFILE].

(** ** Bit fields *)

(** [BitFieldMember<uint64_t, Offset, BitCount>]: reading, and assigning, where the value
    is not masked: that it fits is a debug assertion. *)
Definition field_get (offset count v : Z) : Z := Z.land (Z.shiftr v offset) (2 ^ count - 1).

Definition field_set (offset count new_value v : Z) : Z :=
  let mask := Z.shiftl (2 ^ count - 1) offset in
  wrap64 (Z.lor (Z.land v (Z.lnot mask)) (Z.shiftl new_value offset)).

(** The members of [JobPolicyBits], selected by condition: the offset of the action; the
    override follows its three bits. *)
Definition FieldSelector (condition : Z) : option Z :=
  if condition =? ZX_POL_BAD_HANDLE then Some 0
  else if condition =? ZX_POL_WRONG_OBJECT then Some 4
  else if condition =? ZX_POL_VMAR_WX then Some 8
  else if condition =? ZX_POL_NEW_VMO then Some 12
  else if condition =? ZX_POL_NEW_CHANNEL then Some 16
  else if condition =? ZX_POL_NEW_EVENT then Some 20
  else if condition =? ZX_POL_NEW_EVENTPAIR then Some 24
  else if condition =? ZX_POL_NEW_PORT then Some 28
  else if condition =? ZX_POL_NEW_SOCKET then Some 32
  else if condition =? ZX_POL_NEW_FIFO then Some 36
  else if condition =? ZX_POL_NEW_TIMER then Some 40
  else if condition =? ZX_POL_NEW_PROCESS then Some 44
  else if condition =? ZX_POL_NEW_PROFILE then Some 48
  else if condition =? ZX_POL_AMBIENT_MARK_VMO_EXEC then Some 52
  else None.

Definition field_action (off v : Z) : Z := field_get off 3 v.
Definition field_override (off v : Z) : Z := field_get (off + 3) 1 v.

(** ** Merging policies *)

(** [AddPartial]: the status and the new bits. *)
Definition AddPartial (mode condition action override bits : Z) : zx_status_t * Z :=
  if ZX_POL_ACTION_MAX <=? action then (ZX_ERR_NOT_SUPPORTED, bits) else
  if ZX_POL_OVERRIDE_DENY <? override then (ZX_ERR_INVALID_ARGS, bits) else
  match FieldSelector condition with
  | None => (ZX_ERR_INVALID_ARGS, bits)
  | Some off =>
      if field_override off bits =? ZX_POL_OVERRIDE_ALLOW
      then (ZX_OK, field_set (off + 3) 1 override (field_set off 3 action bits))
      else if (field_action off bits =? action) && (override =? ZX_POL_OVERRIDE_DENY)
      then (ZX_OK, bits)
      else (if mode =? ZX_JOB_POL_ABSOLUTE then ZX_ERR_ALREADY_EXISTS else ZX_OK, bits)
  end.

Definition SetOverride (policy condition override : Z) : zx_status_t * Z :=
  match FieldSelector condition with
  | None => (ZX_ERR_INVALID_ARGS, policy)
  | Some off => (ZX_OK, field_set (off + 3) 1 override policy)
  end.

Definition GetAction (policy condition : Z) : Z :=
  match FieldSelector condition with None => ZX_POL_ACTION_DENY | Some off => field_action off policy end.

Definition GetOverride (policy condition : Z) : Z :=
  match FieldSelector condition with None => ZX_POL_OVERRIDE_DENY | Some off => field_override off policy end.

Record zx_policy_basic_v2_t := mkPolicyV2 {
  condition : Z;
  action : Z;
  flags : Z;
}.

(** The loops over [kNewObjectPolicies]: stop at the first error. *)
Fixpoint for_conds (f : Z -> Z -> zx_status_t * Z) (conds : list Z) (bits : Z) : zx_status_t * Z :=
  match conds with
  | [] => (ZX_OK, bits)
  | cond :: conds =>
      let '(res, bits) := f cond bits in
      if decide (res = ZX_OK) then for_conds f conds bits else (res, bits)
  end.

(** The loop over the input: the status, the bits, and the override of the last
    [ZX_POL_NEW_ANY] entry ([has_new_any] and [new_any_override]). *)
Fixpoint add_entries (mode : Z) (policy_input : list zx_policy_basic_v2_t) (bits : Z) (new_any : option Z)
    : zx_status_t * Z * option Z :=
  match policy_input with
  | [] => (ZX_OK, bits, new_any)
  | e :: rest =>
      if condition e =? ZX_POL_NEW_ANY then
        let '(res, bits) :=
          for_conds (fun cond => AddPartial mode cond (action e) ZX_POL_OVERRIDE_ALLOW) kNewObjectPolicies bits in
        if decide (res = ZX_OK) then add_entries mode rest bits (Some (flags e)) else (res, bits, new_any)
      else
        let '(res, bits) := AddPartial mode (condition e) (action e) (flags e) bits in
        if decide (res = ZX_OK) then add_entries mode rest bits new_any else (res, bits, new_any)
  end.

(** [AddBasicPolicy]: the status and the new cookie. *)
Definition AddBasicPolicy (mode : Z) (policy_input : list zx_policy_basic_v2_t) (cookie_ : Z) : zx_status_t * Z :=
  if ZX_POL_MAX <? zlen policy_input then (ZX_ERR_OUT_OF_RANGE, cookie_) else
  match add_entries mode policy_input cookie_ None with
  | (ZX_OK, pol_new, None) => (ZX_OK, pol_new)
  | (ZX_OK, pol_new, Some override) =>
      match for_conds (fun cond bits => SetOverride bits cond override) kNewObjectPolicies pol_new with
      | (ZX_OK, pol_new) => (ZX_OK, pol_new)
      | (res, _) => (res, cookie_)
      end
  | (res, _, _) => (res, cookie_)
  end.

(** ** Policies *)

(** The timer slack policy: an amount and a mode. *)
Record TimerSlack := mkSlack { slack_amount : Z; slack_mode : Z }.

Record JobPolicy := mkPolicy { cookie_ : Z; slack_ : TimerSlack }.

Definition CreateRootPolicy (none : TimerSlack) : JobPolicy := mkPolicy 0 none.

Definition policy_AddBasicPolicy (mode : Z) (input : list zx_policy_basic_v2_t) (p : JobPolicy)
    : zx_status_t * JobPolicy :=
  let '(res, c) := AddBasicPolicy mode input (cookie_ p) in (res, mkPolicy c (slack_ p)).

Definition QueryBasicPolicy (p : JobPolicy) (condition : Z) : Z := wrap32 (GetAction (cookie_ p) condition).
Definition QueryBasicPolicyOverride (p : JobPolicy) (condition : Z) : Z :=
  wrap32 (GetOverride (cookie_ p) condition).
Definition SetTimerSlack (slack : TimerSlack) (p : JobPolicy) : JobPolicy := mkPolicy (cookie_ p) slack.
Definition GetTimerSlack (p : JobPolicy) : TimerSlack := slack_ p.

(** The counter that [IncrementCounter] bumps: the deny or the kill counter of a condition. *)
Inductive PolicyCounter := DenyCount (condition : Z) | KillCount (condition : Z).

Definition IncrementCounter (action condition : Z) : option PolicyCounter :=
  if condition =? ZX_POL_NEW_ANY then None
  else if (action =? ZX_POL_ACTION_DENY) || (action =? 3) then Some (DenyCount condition)
  else if action =? 4 then Some (KillCount condition)
  else None.

(** ** Specification: a finite map from conditions to actions and overrides *)

Definition kConditions : list Z := [0; 1; 2; 4; 5; 6; 7; 8; 9; 10; 11; 12; 13; 14].

Abbreviation PolicyMap := (gmap Z (Z * Z)) (only parsing).

Definition policy_map (v : Z) : PolicyMap :=
  list_to_map (map (fun c => (c, (GetAction v c, GetOverride v c))) kConditions).

(** One condition: settable while its override allows, and otherwise only to itself. *)
Definition spec_partial (mode cond a o : Z) (m : PolicyMap) : zx_status_t * PolicyMap :=
  if 5 <=? a then (ZX_ERR_NOT_SUPPORTED, m) else
  if 1 <? o then (ZX_ERR_INVALID_ARGS, m) else
  match m !! cond with
  | None => (ZX_ERR_INVALID_ARGS, m)
  | Some (_, 0) => (ZX_OK, <[cond := (a, o)]> m)
  | Some (a', _) =>
      if (a' =? a) && (o =? 1) then (ZX_OK, m)
      else (if mode =? ZX_JOB_POL_ABSOLUTE then ZX_ERR_ALREADY_EXISTS else ZX_OK, m)
  end.

Fixpoint spec_conds (f : Z -> PolicyMap -> zx_status_t * PolicyMap) (conds : list Z) (m : PolicyMap)
    : zx_status_t * PolicyMap :=
  match conds with
  | [] => (ZX_OK, m)
  | c :: conds => let '(res, m) := f c m in if decide (res = ZX_OK) then spec_conds f conds m else (res, m)
  end.

Fixpoint spec_entries (mode : Z) (input : list zx_policy_basic_v2_t) (m : PolicyMap) (any : option Z)
    : zx_status_t * PolicyMap * option Z :=
  match input with
  | [] => (ZX_OK, m, any)
  | e :: rest =>
      if condition e =? ZX_POL_NEW_ANY then
        let '(res, m) := spec_conds (fun c => spec_partial mode c (action e) 0) kNewObjectPolicies m in
        if decide (res = ZX_OK) then spec_entries mode rest m (Some (flags e)) else (res, m, any)
      else
        let '(res, m) := spec_partial mode (condition e) (action e) (flags e) m in
        if decide (res = ZX_OK) then spec_entries mode rest m any else (res, m, any)
  end.

(** Setting the override of every object-creation condition. *)
Definition spec_override (o : Z) (m : PolicyMap) : PolicyMap :=
  fold_left (fun m c => alter (fun '(a, _) => (a, o)) c m) kNewObjectPolicies m.

Definition spec_merge (mode : Z) (input : list zx_policy_basic_v2_t) (m : PolicyMap) : zx_status_t * PolicyMap :=
  if 15 <? zlen input then (ZX_ERR_OUT_OF_RANGE, m) else
  match spec_entries mode input m None with
  | (ZX_OK, m', None) => (ZX_OK, m')
  | (ZX_OK, m', Some o) => (ZX_OK, spec_override o m')
  | (res, _, _) => (res, m)
  end.

(** The inputs whose [ZX_POL_NEW_ANY] entries have a valid override. *)
Definition any_flags_ok (input : list zx_policy_basic_v2_t) : Prop :=
  Forall (fun e => condition e = ZX_POL_NEW_ANY -> 0 <= flags e <= 1) input.

Definition entries_u32 (input : list zx_policy_basic_v2_t) : Prop :=
  Forall (fun e => 0 <= condition e < 2 ^ 32 /\ 0 <= action e < 2 ^ 32 /\ 0 <= flags e < 2 ^ 32) input.

(** ** Bit fields *)

Lemma field_get_bit off cnt v i :
  0 <= off -> 0 <= cnt -> 0 <= i ->
  Z.testbit (field_get off cnt v) i = (i <? cnt) && Z.testbit v (off + i).
Proof.
  intros. unfold field_get. rewrite Z.land_spec, Z.shiftr_spec by lia.
  replace (2 ^ cnt - 1) with (Z.ones cnt) by (rewrite Z.ones_equiv; lia).
  rewrite Z.testbit_ones by lia. rewrite (proj2 (Z.leb_le 0 i)) by lia. rewrite (Z.add_comm i), andb_comm. done.
Qed.

Lemma field_set_bit off cnt nv v i :
  0 <= off -> 0 <= cnt -> off + cnt <= 64 -> 0 <= nv < 2 ^ cnt -> 0 <= v < 2 ^ 64 -> 0 <= i ->
  Z.testbit (field_set off cnt nv v) i =
  if (off <=? i) && (i <? off + cnt) then Z.testbit nv (i - off) else Z.testbit v i.
Proof.
  intros Ho Hc Hoc Hnv Hv Hi. unfold field_set, wrap.
  destruct (Z.ltb_spec i 64) as [Hlt|Hge].
  - rewrite Z.mod_pow2_bits_low, Z.lor_spec, Z.land_spec, Z.lnot_spec, !Z.shiftl_spec by lia.
    replace (2 ^ cnt - 1) with (Z.ones cnt) by (rewrite Z.ones_equiv; lia). rewrite Z.testbit_ones by lia.
    destruct (Z.leb_spec off i), (Z.ltb_spec i (off + cnt)); cbn [andb].
    + rewrite (proj2 (Z.leb_le 0 (i - off))), (proj2 (Z.ltb_lt (i - off) cnt)) by lia. cbn. by rewrite andb_false_r.
    + rewrite (proj2 (Z.ltb_ge (i - off) cnt)), (bits_above cnt nv) by lia. by rewrite andb_false_r, andb_true_r, orb_false_r.
    + rewrite (proj2 (Z.leb_gt 0 (i - off))), (Z.testbit_neg_r nv) by lia. by rewrite andb_true_r, orb_false_r.
    + lia.
  - rewrite Z.mod_pow2_bits_high by lia. rewrite (bits_above 64 v) by lia.
    rewrite (proj2 (Z.ltb_ge i (off + cnt))) by lia. by rewrite andb_false_r.
Qed.

Lemma field_set_range off cnt nv v : 0 <= field_set off cnt nv v < 2 ^ 64.
Proof. apply (wrap_range 64). lia. Qed.

(** A field reads back what was stored in it, and stores elsewhere do not change it. *)
Lemma field_get_set off cnt nv v :
  0 <= off -> 0 <= cnt -> off + cnt <= 64 -> 0 <= nv < 2 ^ cnt -> 0 <= v < 2 ^ 64 ->
  field_get off cnt (field_set off cnt nv v) = nv.
Proof.
  intros. apply Z.bits_inj'. intros i Hi. rewrite field_get_bit, field_set_bit by lia.
  destruct (Z.ltb_spec i cnt); cbn [andb].
  - rewrite (proj2 (Z.leb_le off (off + i))), (proj2 (Z.ltb_lt (off + i) (off + cnt))) by lia. cbn. f_equal. lia.
  - by rewrite (bits_above cnt nv).
Qed.

Lemma field_get_set_other off cnt nv v off' cnt' :
  0 <= off -> 0 <= cnt -> off + cnt <= 64 -> 0 <= nv < 2 ^ cnt -> 0 <= v < 2 ^ 64 ->
  0 <= off' -> 0 <= cnt' -> off' + cnt' <= off \/ off + cnt <= off' ->
  field_get off' cnt' (field_set off cnt nv v) = field_get off' cnt' v.
Proof.
  intros. apply Z.bits_inj'. intros i Hi. rewrite !field_get_bit, field_set_bit by lia.
  destruct (Z.ltb_spec i cnt'); cbn [andb]; [|done].
  destruct (Z.leb_spec off (off' + i)), (Z.ltb_spec (off' + i) (off + cnt)); cbn [andb]; try done. lia.
Qed.

Lemma field_get_range off cnt v : 0 <= cnt -> 0 <= field_get off cnt v < 2 ^ cnt.
Proof.
  intros. unfold field_get. replace (2 ^ cnt - 1) with (Z.ones cnt) by (rewrite Z.ones_equiv; lia).
  rewrite Z.land_ones by lia. apply Z.mod_pos_bound. lia.
Qed.

(** ** The layout *)

Lemma FieldSelector_some c off :
  FieldSelector c = Some off -> 0 <= c <= 14 /\ c <> 3 /\ off = 4 * (if c <? 3 then c else c - 1).
Proof.
  unfold FieldSelector. intros H.
  repeat match type of H with
  | (if ?c =? ?k then _ else _) = _ =>
      destruct (Z.eqb_spec c k) as [->|]; [injection H as <-; vm_compute; intuition congruence|]
  end. done.
Qed.

Lemma FieldSelector_range c off : FieldSelector c = Some off -> 0 <= off <= 52.
Proof. intros (H1 & H2 & ->)%FieldSelector_some. case_if; lia. Qed.

Lemma FieldSelector_in c : is_Some (FieldSelector c) <-> c ∈ kConditions.
Proof.
  split.
  - intros [off (H1 & H2 & _)%FieldSelector_some]. unfold kConditions.
    assert (c = 0 \/ c = 1 \/ c = 2 \/ c = 4 \/ c = 5 \/ c = 6 \/ c = 7 \/ c = 8 \/ c = 9 \/ c = 10
      \/ c = 11 \/ c = 12 \/ c = 13 \/ c = 14) as H by lia. set_solver.
  - unfold kConditions. intros H. rewrite !elem_of_cons, elem_of_nil in H.
    destruct_or!; subst; by eexists.
Qed.

(** The fields of different conditions are disjoint. *)
Lemma FieldSelector_disjoint c c' off off' :
  FieldSelector c = Some off -> FieldSelector c' = Some off' -> c <> c' -> off + 4 <= off' \/ off' + 4 <= off.
Proof.
  intros (H1 & H2 & ->)%FieldSelector_some (H1' & H2' & ->)%FieldSelector_some Hne.
  destruct (Z.ltb_spec c 3), (Z.ltb_spec c' 3); lia.
Qed.

Lemma policy_map_lookup v c :
  policy_map v !! c = off ← FieldSelector c; Some (field_action off v, field_override off v).
Proof.
  unfold policy_map. destruct (FieldSelector c) as [off|] eqn:E; cbn [mbind option_bind].
  - apply elem_of_list_to_map_1.
    + rewrite <-list_fmap_compose. change (list_fmap _ _ _ kConditions) with (map (fun c : Z => c) kConditions).
      rewrite map_id. apply (bool_decide_unpack _). by vm_compute.
    + apply list_elem_of_fmap. exists c. split; [|apply FieldSelector_in; by eexists].
      unfold GetAction, GetOverride. by rewrite E.
  - apply not_elem_of_list_to_map_1. intros ((c' & p) & -> & Hi)%list_elem_of_fmap.
    apply list_elem_of_fmap in Hi as (c'' & [= <- _] & Hi). apply FieldSelector_in in Hi as [? Hi]. cbn in E. congruence.
Qed.

(** Storing in one condition updates one entry of the map. *)
Lemma policy_map_set c off a o v :
  FieldSelector c = Some off -> 0 <= a < 8 -> 0 <= o <= 1 -> 0 <= v < 2 ^ 64 ->
  policy_map (field_set (off + 3) 1 o (field_set off 3 a v)) = <[c := (a, o)]> (policy_map v).
Proof.
  intros Hs Ha Ho Hv. pose proof (FieldSelector_range c off Hs) as Hr.
  pose proof (field_set_range off 3 a v) as Hv'. apply map_eq. intros c'. rewrite policy_map_lookup.
  destruct (decide (c' = c)) as [->|Hne].
  - rewrite lookup_insert_eq, Hs. cbn [mbind option_bind]. unfold field_action, field_override.
    rewrite field_get_set_other, !field_get_set by lia. done.
  - rewrite lookup_insert_ne, policy_map_lookup by done.
    destruct (FieldSelector c') as [off'|] eqn:E; [|done]. cbn [mbind option_bind].
    pose proof (FieldSelector_disjoint c' c off' off E Hs Hne). pose proof (FieldSelector_range c' off' E).
    unfold field_action, field_override. by rewrite !field_get_set_other by lia.
Qed.

Lemma policy_map_override c off o v :
  FieldSelector c = Some off -> 0 <= o <= 1 -> 0 <= v < 2 ^ 64 ->
  policy_map (field_set (off + 3) 1 o v) = alter (fun '(a, _) => (a, o)) c (policy_map v).
Proof.
  intros Hs Ho Hv. pose proof (FieldSelector_range c off Hs) as Hr. apply map_eq. intros c'.
  rewrite policy_map_lookup. destruct (decide (c' = c)) as [->|Hne].
  - rewrite lookup_alter_eq, policy_map_lookup, Hs. cbn [mbind option_bind fmap option_fmap option_map].
    unfold field_action, field_override. by rewrite field_get_set_other, field_get_set by lia.
  - rewrite lookup_alter_ne, policy_map_lookup by done.
    destruct (FieldSelector c') as [off'|] eqn:E; [|done]. cbn [mbind option_bind].
    pose proof (FieldSelector_disjoint c' c off' off E Hs Hne). pose proof (FieldSelector_range c' off' E).
    unfold field_action, field_override. by rewrite !field_get_set_other by lia.
Qed.

(** ** Refinement *)

Definition cookie_ok (v : Z) : Prop := 0 <= v < 2 ^ 64.

Lemma AddPartial_refines mode c a o v :
  cookie_ok v -> 0 <= a -> 0 <= o ->
  let '(res, v') := AddPartial mode c a o v in
  cookie_ok v' /\ spec_partial mode c a o (policy_map v) = (res, policy_map v').
Proof.
  intros Hv Ha Ho. unfold AddPartial, spec_partial. change ZX_POL_ACTION_MAX with 5. change ZX_POL_OVERRIDE_DENY with 1.
  destruct (Z.leb_spec 5 a); [done|]. destruct (Z.ltb_spec 1 o); [done|].
  rewrite policy_map_lookup. destruct (FieldSelector c) as [off|] eqn:E; [|done]. cbn [mbind option_bind].
  assert (0 <= field_override off v < 2 ^ 1) as Hov by (apply field_get_range; lia). change ZX_POL_OVERRIDE_ALLOW with 0.
  assert (field_override off v = 0 \/ field_override off v = 1) as [-> | ->] by lia; cbn [Z.eqb].
  - split; [apply field_set_range|]. rewrite (policy_map_set c) by (done || lia). done.
  - by destruct ((field_action off v =? a) && (o =? 1)).
Qed.

Lemma for_conds_refines f g conds v :
  cookie_ok v ->
  (forall c v, cookie_ok v -> let '(res, v') := f c v in cookie_ok v' /\ g c (policy_map v) = (res, policy_map v')) ->
  let '(res, v') := for_conds f conds v in
  cookie_ok v' /\ spec_conds g conds (policy_map v) = (res, policy_map v').
Proof.
  intros Hv Hf. revert v Hv. induction conds as [|c conds IH]; intros v Hv; cbn [for_conds spec_conds]; [done|].
  specialize (Hf c v Hv). destruct (f c v) as [res v1]. destruct Hf as [Hv1 ->].
  destruct (decide (res = ZX_OK)); [by apply IH|done].
Qed.

Lemma add_entries_refines mode input v any :
  cookie_ok v -> entries_u32 input ->
  let '(res, v', any') := add_entries mode input v any in
  cookie_ok v' /\ spec_entries mode input (policy_map v) any = (res, policy_map v', any').
Proof.
  intros Hv Hu. revert v any Hv. induction Hu as [|e rest (Hc & Ha & Hf) _ IH]; intros v any Hv;
    cbn [add_entries spec_entries]; [done|]. destruct (condition e =? ZX_POL_NEW_ANY).
  - pose proof (for_conds_refines (fun c => AddPartial mode c (action e) ZX_POL_OVERRIDE_ALLOW)
      (fun c => spec_partial mode c (action e) 0) kNewObjectPolicies v Hv) as H.
    destruct (for_conds _ _ _) as [res v1]. destruct H as [Hv1 ->].
    { intros c w Hw. apply AddPartial_refines; [done|lia|done]. }
    destruct (decide (res = ZX_OK)); [by apply IH|done].
  - pose proof (AddPartial_refines mode (condition e) (action e) (flags e) v Hv ltac:(lia) ltac:(lia)) as H.
    destruct (AddPartial _ _ _ _ _) as [res v1]. destruct H as [Hv1 ->].
    destruct (decide (res = ZX_OK)); [by apply IH|done].
Qed.

Lemma SetOverride_all conds o v :
  cookie_ok v -> 0 <= o <= 1 -> Forall (fun c => is_Some (FieldSelector c)) conds ->
  exists v', for_conds (fun c bits => SetOverride bits c o) conds v = (ZX_OK, v') /\ cookie_ok v' /\
    policy_map v' = fold_left (fun m c => alter (fun '(a, _) => (a, o)) c m) conds (policy_map v).
Proof.
  intros Hv Ho Hc. revert v Hv. induction Hc as [|c conds [off E] _ IH]; intros v Hv; cbn [for_conds fold_left]; [by eauto|].
  unfold SetOverride at 1. rewrite E. cbn [decide]. destruct (decide (ZX_OK = ZX_OK)) as [_|]; [|done].
  rewrite <-(policy_map_override c off o v) by done. apply IH. apply field_set_range.
Qed.

Lemma new_object_fields : Forall (fun c => is_Some (FieldSelector c)) kNewObjectPolicies.
Proof. repeat constructor; by eexists. Qed.

Lemma add_entries_any mode input v any res v' any' :
  any_flags_ok input -> (forall o, any = Some o -> 0 <= o <= 1) ->
  add_entries mode input v any = (res, v', any') -> forall o, any' = Some o -> 0 <= o <= 1.
Proof.
  intros Hf. revert v any. induction Hf as [|e rest He _ IH]; intros v any Hany; cbn [add_entries]; [by intros [= <- <- <-]|].
  destruct (Z.eqb_spec (condition e) ZX_POL_NEW_ANY).
  - destruct (for_conds _ _ _) as [res1 v1]. destruct (decide (res1 = ZX_OK)); [|by intros [= <- <- <-]].
    apply IH. intros o [= <-]. by apply He.
  - destruct (AddPartial _ _ _ _ _) as [res1 v1]. destruct (decide (res1 = ZX_OK)); [|by intros [= <- <- <-]]. by apply IH.
Qed.

(** Setting the overrides succeeds with any value; what does not fit spills upwards. *)
Lemma SetOverride_any conds o v :
  cookie_ok v -> 0 <= o -> Forall (fun c => is_Some (FieldSelector c)) conds ->
  exists v', for_conds (fun c bits => SetOverride bits c o) conds v = (ZX_OK, v') /\ cookie_ok v' /\
    forall i, 0 <= i -> (forall c off, c ∈ conds -> FieldSelector c = Some off -> i < off + 3) -> Z.testbit v' i = Z.testbit v i.
Proof.
  intros Hv Ho Hc. revert v Hv. induction Hc as [|c conds [off E] _ IH]; intros v Hv; cbn [for_conds]; [by eauto|].
  unfold SetOverride at 1. rewrite E. cbn [decide]. destruct (decide (ZX_OK = ZX_OK)) as [_|]; [|done].
  destruct (IH (field_set (off + 3) 1 o v)) as (v' & -> & Hv' & Hi); [apply field_set_range|].
  pose proof (FieldSelector_range c off E). exists v'. split; [done|]. split; [done|]. intros i H0 Hlow.
  rewrite Hi by (try done; intros c' off' Hc'; apply Hlow; by right).
  assert (i < off + 3) by (apply (Hlow c off); [by left|done]). unfold field_set, wrap.
  rewrite Z.mod_pow2_bits_low, Z.lor_spec, Z.land_spec, Z.lnot_spec, !Z.shiftl_spec by lia.
  rewrite !(Z.testbit_neg_r _ (i - (off + 3))) by lia. by rewrite andb_true_r, orb_false_r.
Qed.

Lemma field_get_ext off cnt v v' :
  0 <= off -> 0 <= cnt -> (forall i, off <= i < off + cnt -> Z.testbit v' i = Z.testbit v i) ->
  field_get off cnt v' = field_get off cnt v.
Proof.
  intros Ho Hc Hb. apply Z.bits_inj'. intros i Hi. rewrite !field_get_bit by lia.
  destruct (Z.ltb_spec i cnt); [|done]. cbn. apply Hb. lia.
Qed.

(** The fields below those of the object-creation conditions. *)
Lemma SetOverride_low o v :
  cookie_ok v -> 0 <= o ->
  exists v', for_conds (fun c bits => SetOverride bits c o) kNewObjectPolicies v = (ZX_OK, v') /\ cookie_ok v' /\
    forall c, c <= ZX_POL_VMAR_WX -> policy_map v' !! c = policy_map v !! c.
Proof.
  intros Hv Ho. destruct (SetOverride_any kNewObjectPolicies o v Hv Ho new_object_fields) as (v' & -> & Hv' & Hb).
  exists v'. split; [done|]. split; [done|]. intros c Hc. change ZX_POL_VMAR_WX with 2 in Hc.
  rewrite !policy_map_lookup. destruct (FieldSelector c) as [off|] eqn:E; [|done].
  apply FieldSelector_some in E as (? & ? & ->). rewrite (proj2 (Z.ltb_lt c 3)) by lia. cbn [mbind option_bind].
  assert (forall i, 0 <= i < 12 -> Z.testbit v' i = Z.testbit v i) as Hlow.
  { intros i Hi. apply Hb; [lia|]. intros c' off' Hc' E'. apply FieldSelector_some in E' as (? & ? & ->).
    assert (4 <= c') by (revert Hc'; unfold kNewObjectPolicies; rewrite !elem_of_cons, elem_of_nil; intros; destruct_or!; subst; try done; lia).
    rewrite (proj2 (Z.ltb_ge c' 3)) by lia. lia. }
  unfold field_action, field_override.
  rewrite !(field_get_ext _ _ v v') by (try lia; intros i Hi; apply Hlow; lia). done.
Qed.

Lemma add_entries_any_nonneg mode input v any res v' any' :
  entries_u32 input -> (forall o, any = Some o -> 0 <= o) ->
  add_entries mode input v any = (res, v', any') -> forall o, any' = Some o -> 0 <= o.
Proof.
  intros Hf. revert v any. induction Hf as [|e rest He _ IH]; intros v any Hany; cbn [add_entries]; [by intros [= <- <- <-]|].
  destruct (condition e =? ZX_POL_NEW_ANY).
  - destruct (for_conds _ _ _) as [res1 v1]. destruct (decide (res1 = ZX_OK)); [|by intros [= <- <- <-]].
    apply IH. intros o [= <-]. apply He.
  - destruct (AddPartial _ _ _ _ _) as [res1 v1]. destruct (decide (res1 = ZX_OK)); [|by intros [= <- <- <-]]. by apply IH.
Qed.

Lemma spec_override_low o m c : c <= ZX_POL_VMAR_WX -> spec_override o m !! c = m !! c.
Proof.
  change ZX_POL_VMAR_WX with 2. intros Hc. unfold spec_override.
  assert (Forall (fun c' => 4 <= c') kNewObjectPolicies) as Hl by (repeat constructor; by vm_compute).
  revert m. induction Hl as [|c' l Hc' _ IH]; intros m; [done|]. cbn [fold_left]. rewrite IH. by rewrite lookup_alter_ne by lia.
Qed.

Lemma AddBasicPolicy_refines mode input v :
  cookie_ok v -> entries_u32 input ->
  let '(res, v') := AddBasicPolicy mode input v in
  cookie_ok v' /\ (spec_merge mode input (policy_map v)).1 = res /\ (res <> ZX_OK -> v' = v) /\
  (any_flags_ok input -> (spec_merge mode input (policy_map v)).2 = policy_map v') /\
  (forall c, c <= ZX_POL_VMAR_WX -> (spec_merge mode input (policy_map v)).2 !! c = policy_map v' !! c).
Proof.
  intros Hv Hu. unfold AddBasicPolicy, spec_merge. change ZX_POL_MAX with 15.
  destruct (15 <? zlen input); [done|].
  pose proof (add_entries_refines mode input v None Hv Hu) as H.
  destruct (add_entries mode input v None) as [[res v1] any] eqn:E. destruct H as [Hv1 ->].
  assert (forall o, any = Some o -> 0 <= o) as Hany.
  { eapply add_entries_any_nonneg; [exact Hu| |exact E]. by intros o [=]. }
  destruct res, any as [o|]; try done. specialize (Hany o eq_refl).
  destruct (SetOverride_low o v1 Hv1 Hany) as (v2 & Ev2 & Hv2 & Hlow). rewrite Ev2. split; [done|]. split; [done|]. split; [done|]. split.
  - intros Hf. assert (0 <= o <= 1) as Ho.
    { refine (add_entries_any _ _ _ _ _ _ _ Hf _ E o eq_refl). by intros o' [=]. }
    destruct (SetOverride_all kNewObjectPolicies o v1 Hv1 Ho new_object_fields) as (v2' & Ev2' & _ & Hm).
    rewrite Ev2 in Ev2'. injection Ev2' as <-. cbn [snd]. unfold spec_override. by rewrite Hm.
  - intros c Hc. cbn [snd]. by rewrite spec_override_low, Hlow.
Qed.

(** ** Locks *)

(** An entry whose override is denied. *)
Definition locked (m : PolicyMap) (c a : Z) : Prop := m !! c = Some (a, 1).

Lemma spec_partial_locked mode c a o m c0 a0 res m' :
  locked m c0 a0 -> spec_partial mode c a o m = (res, m') ->
  locked m' c0 a0 /\ (mode = ZX_JOB_POL_ABSOLUTE -> c = c0 -> o = 0 -> res <> ZX_OK).
Proof.
  unfold spec_partial, locked. intros Hl. case_if; [by intros [= <- <-]|]. case_if; [by intros [= <- <-]|].
  destruct (decide (c = c0)) as [->|Hne].
  - rewrite Hl. destruct (_ && _) eqn:Ea; intros [= <- <-]; (split; [done|]); intros -> _ ->.
    + by rewrite andb_false_r in Ea.
    + done.
  - assert (forall r, (r, m) = (res, m') -> m' !! c0 = Some (a0, 1) /\ (mode = ZX_JOB_POL_ABSOLUTE -> c = c0 -> o = 0 -> res <> ZX_OK))
      as Hsame by (by intros r [= _ <-]).
    destruct (m !! c) as [[a' o']|]; [|apply Hsame]. destruct o'; [|case_if; apply Hsame|case_if; apply Hsame].
    intros [= <- <-]. by rewrite lookup_insert_ne.
Qed.

Lemma spec_conds_locked mode a conds m c0 a0 res m' :
  locked m c0 a0 -> spec_conds (fun c => spec_partial mode c a 0) conds m = (res, m') ->
  locked m' c0 a0 /\ (mode = ZX_JOB_POL_ABSOLUTE -> c0 ∈ conds -> res <> ZX_OK).
Proof.
  revert m. induction conds as [|c conds IH]; intros m Hl; cbn [spec_conds].
  { intros [= <- <-]. split; [done|]. by intros _ ?%elem_of_nil. }
  destruct (spec_partial mode c a 0 m) as [res1 m1] eqn:E. apply (spec_partial_locked _ _ _ _ _ c0 a0) in E as [Hl1 Hr1]; [|done].
  destruct (decide (res1 = ZX_OK)) as [->|Hne].
  - intros H. destruct (IH m1 Hl1 H) as [? Hr]. split; [done|]. intros Hm [->|Hi]%elem_of_cons; [by destruct Hr1|by apply Hr].
  - intros [= <- <-]. done.
Qed.

Lemma spec_entries_locked mode input m any c0 a0 res m' any' :
  locked m c0 a0 -> spec_entries mode input m any = (res, m', any') ->
  locked m' c0 a0 /\
  (mode = ZX_JOB_POL_ABSOLUTE -> c0 ∈ kNewObjectPolicies -> any = None -> res = ZX_OK -> any' = None) /\
  (Forall (fun e => condition e <> ZX_POL_NEW_ANY) input -> any' = any).
Proof.
  revert m any. induction input as [|e rest IH]; intros m any Hl; cbn [spec_entries]; [by intros [= <- <- <-]|].
  destruct (Z.eqb_spec (condition e) ZX_POL_NEW_ANY) as [Hc|Hc].
  - destruct (spec_conds _ _ _) as [res1 m1] eqn:E. apply (spec_conds_locked _ _ _ _ c0 a0) in E as [Hl1 Hr1]; [|done].
    destruct (decide (res1 = ZX_OK)) as [->|Hne].
    + intros H. destruct (IH m1 _ Hl1 H) as (? & _ & _). split; [done|]. split.
      * intros -> Hi. by destruct (Hr1 eq_refl Hi).
      * by intros [? _]%Forall_cons.
    + intros [= <- <- <-]. done.
  - destruct (spec_partial _ _ _ _ _) as [res1 m1] eqn:E. apply (spec_partial_locked _ _ _ _ _ c0 a0) in E as [Hl1 _]; [|done].
    destruct (decide (res1 = ZX_OK)) as [->|Hne].
    + intros H. destruct (IH m1 _ Hl1 H) as (? & Habs & Hnone). split; [done|]. split; [done|].
      intros [_ Hr]%Forall_cons. auto.
    + intros [= <- <- <-]. done.
Qed.

Lemma spec_override_other o m c :
  c ∉ kNewObjectPolicies -> spec_override o m !! c = m !! c.
Proof.
  unfold spec_override. revert m. induction kNewObjectPolicies as [|c' l IH]; intros m; [done|].
  intros [Hne Hni]%not_elem_of_cons. cbn [fold_left]. rewrite IH by done. by rewrite lookup_alter_ne.
Qed.

(** The merges that respect locks: the absolute ones, and those that do not use the
    pseudo-condition [ZX_POL_NEW_ANY]. *)
Definition lock_safe (mode : Z) (input : list zx_policy_basic_v2_t) : Prop :=
  mode = ZX_JOB_POL_ABSOLUTE \/ Forall (fun e => condition e <> ZX_POL_NEW_ANY) input.

Lemma spec_merge_locked mode input m c0 a0 :
  lock_safe mode input -> locked m c0 a0 -> locked (snd (spec_merge mode input m)) c0 a0.
Proof.
  intros Hs Hl. unfold spec_merge. case_if; [done|].
  destruct (spec_entries mode input m None) as [[res m'] any] eqn:Ee.
  apply (spec_entries_locked _ _ _ _ c0 a0) in Ee as (Hl' & Habs & Hrel); [|done].
  destruct res, any as [o|]; try done. cbn [snd]. destruct Hs as [->|Hno]; [|by specialize (Hrel Hno)].
  unfold locked. rewrite spec_override_other; [done|]. intros Hi. by specialize (Habs eq_refl Hi eq_refl eq_refl).
Qed.

Lemma Query_lookup p c a :
  cookie_ok (cookie_ p) -> c ∈ kConditions ->
  (QueryBasicPolicy p c = a /\ QueryBasicPolicyOverride p c = 1 <-> locked (policy_map (cookie_ p)) c a) /\
  policy_map (cookie_ p) !! c = Some (QueryBasicPolicy p c, QueryBasicPolicyOverride p c).
Proof.
  intros Hp [off E]%FieldSelector_in. unfold locked, QueryBasicPolicy, QueryBasicPolicyOverride, GetAction, GetOverride.
  rewrite policy_map_lookup, E. cbn [mbind option_bind]. unfold field_action, field_override.
  pose proof (field_get_range off 3 (cookie_ p)). pose proof (field_get_range (off + 3) 1 (cookie_ p)).
  rewrite !wrap_small by lia. split; [|done]. split; [by intros [-> ->]|]. by intros [= -> ->].
Qed.

(** ** Theorems *)

(** C26. The packed policy word implements a finite map from the fourteen conditions to an
    action and an override. Merging an input policy, in either mode and for any 32-bit
    entries, has the status of the merge on the map, an error leaves the policy unchanged,
    the timer slack is untouched, and the queries read the map. When the overrides of the
    [ZX_POL_NEW_ANY] entries are valid, which the code does not check, the effect is that of
    the merge on the map, so that fields never overlap or overflow and each entry is applied
    to its condition only; whatever they are, this holds for the conditions before the
    object-creation ones. *)
Theorem job_policy_refines_map mode input p :
  cookie_ok (cookie_ p) -> entries_u32 input ->
  let '(res, p') := policy_AddBasicPolicy mode input p in
  let '(spec_res, m) := spec_merge mode input (policy_map (cookie_ p)) in
  cookie_ok (cookie_ p') /\ res = spec_res /\ (res <> ZX_OK -> p' = p) /\ slack_ p' = slack_ p /\
  (any_flags_ok input -> policy_map (cookie_ p') = m) /\
  (forall c, c <= ZX_POL_VMAR_WX -> policy_map (cookie_ p') !! c = m !! c) /\
  (forall c, c ∈ kConditions ->
     policy_map (cookie_ p') !! c = Some (QueryBasicPolicy p' c, QueryBasicPolicyOverride p' c)).
Proof.
  intros Hp Hu. unfold policy_AddBasicPolicy.
  pose proof (AddBasicPolicy_refines mode input (cookie_ p) Hp Hu) as H.
  destruct (AddBasicPolicy mode input (cookie_ p)) as [res c], (spec_merge _ _ _) as [res' m]. cbn [fst snd] in H.
  destruct H as (Hc & Hres & Herr & Hm & Hlow). split; [done|]. split; [done|].
  split; [intros ->%Herr; by destruct p|]. split; [done|]. split; [intros Hf; symmetry; by apply Hm|].
  split; [intros c' Hc'; symmetry; by apply Hlow|].
  intros c' Hc'. by apply (Query_lookup (mkPolicy c (slack_ p)) c' 0).
Qed.

Definition no_slack : TimerSlack := mkSlack 0 0.
Definition deny_new_channel : zx_policy_basic_v2_t := mkPolicyV2 ZX_POL_NEW_CHANNEL ZX_POL_ACTION_DENY ZX_POL_OVERRIDE_DENY.
Definition allow_new_any : zx_policy_basic_v2_t := mkPolicyV2 ZX_POL_NEW_ANY ZX_POL_ACTION_ALLOW ZX_POL_OVERRIDE_ALLOW.

Lemma job_policy_refines_map_witness :
  let '(res, p') := policy_AddBasicPolicy ZX_JOB_POL_ABSOLUTE [deny_new_channel] (CreateRootPolicy no_slack) in
  res = ZX_OK /\ policy_map (cookie_ p') !! ZX_POL_NEW_CHANNEL = Some (ZX_POL_ACTION_DENY, ZX_POL_OVERRIDE_DENY).
Proof.
  pose proof (job_policy_refines_map ZX_JOB_POL_ABSOLUTE [deny_new_channel] (CreateRootPolicy no_slack)) as H.
  assert (entries_u32 [deny_new_channel]) as Hu by (apply Forall_singleton; vm_compute; intuition congruence).
  specialize (H ltac:(done) Hu).
  destruct (policy_AddBasicPolicy _ _ _) as [res p'] eqn:E, (spec_merge _ _ _) as [res' m].
  destruct H as (_ & _ & _ & _ & _ & _ & Hq).
  vm_compute in E. injection E as <- <-. split; [done|]. rewrite Hq by (unfold kConditions; set_solver). done.
Defined.

(** Locked conditions cannot be changed. Once a condition has a policy whose override
    is denied, no sequence of merges changes its action or its override, whether a merge
    succeeds or fails, provided that each merge is absolute or does not use the
    pseudo-condition [ZX_POL_NEW_ANY]. *)
Lemma policy_locks_hold merges p c :
  cookie_ok (cookie_ p) -> c ∈ kConditions ->
  Forall (fun '(mode, input) => entries_u32 input /\ any_flags_ok input /\ lock_safe mode input) merges ->
  QueryBasicPolicyOverride p c = ZX_POL_OVERRIDE_DENY ->
  let p' := fold_left (fun p '(mode, input) => snd (policy_AddBasicPolicy mode input p)) merges p in
  QueryBasicPolicy p' c = QueryBasicPolicy p c /\ QueryBasicPolicyOverride p' c = ZX_POL_OVERRIDE_DENY.
Proof.
  intros Hp Hc Hm Ho. cbn zeta. apply Query_lookup; [|done|].
  - clear Ho. revert p Hp. induction Hm as [|[mode input] merges (Hu & Hf & _) _ IH]; intros p Hp; [done|]. cbn [fold_left].
    apply IH. unfold policy_AddBasicPolicy. pose proof (AddBasicPolicy_refines mode input (cookie_ p) Hp Hu) as H.
    destruct (AddBasicPolicy _ _ _). apply H.
  - pose proof (proj1 (proj1 (Query_lookup p c _ Hp Hc)) (conj eq_refl Ho)) as Hl.
    generalize dependent (QueryBasicPolicy p c). intros a Hl. clear Ho. revert p Hp Hl.
    induction Hm as [|[mode input] merges (Hu & Hf & Hs) _ IH]; intros p Hp Hl; [done|]. cbn [fold_left].
    pose proof (AddBasicPolicy_refines mode input (cookie_ p) Hp Hu) as H.
    pose proof (spec_merge_locked mode input _ c a Hs Hl) as Hl'. unfold policy_AddBasicPolicy.
    destruct (AddBasicPolicy _ _ _) as [res v']. destruct H as (Hv' & _ & _ & Hsp & _).
    rewrite (Hsp Hf) in Hl'. by apply IH.
Qed.

Lemma policy_locks_hold_witness :
  let p := snd (policy_AddBasicPolicy ZX_JOB_POL_ABSOLUTE [deny_new_channel] (CreateRootPolicy no_slack)) in
  QueryBasicPolicy (snd (policy_AddBasicPolicy ZX_JOB_POL_ABSOLUTE [allow_new_any] p)) ZX_POL_NEW_CHANNEL
  = ZX_POL_ACTION_DENY.
Proof.
  cbn zeta. set (p := snd (policy_AddBasicPolicy ZX_JOB_POL_ABSOLUTE [deny_new_channel] (CreateRootPolicy no_slack))).
  destruct (policy_locks_hold [(ZX_JOB_POL_ABSOLUTE, [allow_new_any])] p ZX_POL_NEW_CHANNEL) as [H _].
  - by vm_compute.
  - unfold kConditions. set_solver.
  - apply Forall_singleton. split_and!; [apply Forall_singleton; vm_compute; intuition congruence..|by left].
  - by vm_compute.
  - cbn [fold_left] in H. rewrite H. vm_compute. reflexivity.
Defined.

(** A relative merge never fails on a condition that exists. *)
Lemma spec_conds_relative a conds m :
  0 <= a < 5 -> (forall c, c ∈ conds -> is_Some (m !! c)) ->
  exists m', spec_conds (fun c => spec_partial ZX_JOB_POL_RELATIVE c a 0) conds m = (ZX_OK, m').
Proof.
  intros Ha. revert m. induction conds as [|c conds IH]; intros m Hm; cbn [spec_conds]; [by eauto|].
  assert (exists m1, spec_partial ZX_JOB_POL_RELATIVE c a 0 m = (ZX_OK, m1) /\ forall c', is_Some (m !! c') -> is_Some (m1 !! c'))
    as (m1 & -> & Hm1).
  { unfold spec_partial. rewrite (proj2 (Z.leb_gt 5 a)) by lia. cbn [Z.ltb Z.compare].
    destruct (Hm c) as [[a' o'] ->]; [by left|]. rewrite andb_false_r. change (ZX_JOB_POL_RELATIVE =? ZX_JOB_POL_ABSOLUTE) with false.
    destruct o'; eexists; (split; [done|]); intros c' Hc'; [|done..].
    destruct (decide (c' = c)) as [->|]; [rewrite lookup_insert_eq; by eauto|by rewrite lookup_insert_ne]. }
  destruct (decide (ZX_OK = ZX_OK)) as [_|]; [|done]. apply IH. intros c' Hc'. apply Hm1, Hm. by right.
Qed.

Lemma spec_override_in o m c a o' :
  c ∈ kNewObjectPolicies -> m !! c = Some (a, o') -> spec_override o m !! c = Some (a, o).
Proof.
  unfold spec_override. generalize kNewObjectPolicies as l. intros l Hc Hm.
  assert (forall (l : list Z) (m : PolicyMap), m !! c = Some (a, o) -> fold_left (fun m c => alter (fun '(a, _) => (a, o)) c m) l m !! c = Some (a, o)) as Hk.
  { clear. intros l. induction l as [|c' l IH]; intros m Hm; [done|]. cbn [fold_left]. apply IH.
    destruct (decide (c' = c)) as [->|]; [by rewrite lookup_alter_eq, Hm|by rewrite lookup_alter_ne]. }
  revert m Hm. induction l as [|c' l IH]; intros m Hm; [by apply elem_of_nil in Hc|]. cbn [fold_left].
  destruct (decide (c' = c)) as [->|Hne]; [apply Hk; by rewrite lookup_alter_eq, Hm|].
  apply IH; [by apply elem_of_cons in Hc as [->|]|]. by rewrite lookup_alter_ne.
Qed.

Lemma new_object_conditions c : c ∈ kNewObjectPolicies -> c ∈ kConditions.
Proof. intros Hc. apply FieldSelector_in. pose proof new_object_fields as H. rewrite Forall_forall in H. by apply H. Qed.

(** The relative merge of one [ZX_POL_NEW_ANY] entry that allows overriding. *)
Lemma relative_any_unlocks p a c :
  cookie_ok (cookie_ p) -> 0 <= a < 5 -> c ∈ kNewObjectPolicies -> QueryBasicPolicyOverride p c = ZX_POL_OVERRIDE_DENY ->
  let '(st, p1) := policy_AddBasicPolicy ZX_JOB_POL_RELATIVE [mkPolicyV2 ZX_POL_NEW_ANY a ZX_POL_OVERRIDE_ALLOW] p in
  st = ZX_OK /\ cookie_ok (cookie_ p1) /\ policy_map (cookie_ p1) !! c = Some (QueryBasicPolicy p c, 0).
Proof.
  intros Hp Ha Hc Ho. pose proof (new_object_conditions c Hc) as Hc'. set (e := mkPolicyV2 _ _ _).
  assert (entries_u32 [e]) as Hu by (apply Forall_singleton; unfold e; cbn; unfold ZX_POL_NEW_ANY, ZX_POL_OVERRIDE_ALLOW; lia).
  assert (any_flags_ok [e]) as Hf by (apply Forall_singleton; unfold e; cbn; unfold ZX_POL_OVERRIDE_ALLOW; lia).
  pose proof (AddBasicPolicy_refines ZX_JOB_POL_RELATIVE [e] (cookie_ p) Hp Hu) as H. unfold policy_AddBasicPolicy.
  destruct (AddBasicPolicy _ _ _) as [st v1]. destruct H as (Hv1 & Hst & _ & Hm & _). specialize (Hm Hf).
  pose proof (proj1 (proj1 (Query_lookup p c _ Hp Hc')) (conj eq_refl Ho)) as Hl.
  set (m0 := policy_map (cookie_ p)) in *.
  destruct (spec_conds_relative a kNewObjectPolicies m0 Ha) as [m1 Hm1].
  { intros c' Hc''%new_object_conditions. unfold m0. destruct (Query_lookup p c' 0 Hp Hc'') as [_ ->]. by eauto. }
  destruct (spec_conds_locked _ _ _ _ c _ _ _ Hl Hm1) as [Hl1 _].
  assert (spec_merge ZX_JOB_POL_RELATIVE [e] m0 = (ZX_OK, spec_override 0 m1)) as Hmerge.
  { unfold spec_merge. change (15 <? zlen [e]) with false. cbn [spec_entries]. change (condition e =? ZX_POL_NEW_ANY) with true.
    change (action e) with a. rewrite Hm1. done. }
  rewrite Hmerge in Hst, Hm. cbn [fst snd cookie_] in *. split; [done|]. split; [done|].
  rewrite <-Hm. by eapply spec_override_in.
Qed.

(** A merge of one entry on a condition that can be overridden. *)
Lemma absolute_sets p c a o a' :
  cookie_ok (cookie_ p) -> c ∈ kConditions -> 0 <= a < 5 -> 0 <= o <= 1 -> policy_map (cookie_ p) !! c = Some (a', 0) ->
  let '(st, p1) := policy_AddBasicPolicy ZX_JOB_POL_ABSOLUTE [mkPolicyV2 c a o] p in
  st = ZX_OK /\ QueryBasicPolicy p1 c = a.
Proof.
  intros Hp Hc Ha Ho Hm. set (e := mkPolicyV2 c a o).
  assert (0 <= c <= 14 /\ c <> 3) as [Hr Hne].
  { apply FieldSelector_in in Hc as [off (?&?&_)%FieldSelector_some]. done. }
  assert (entries_u32 [e]) as Hu by (apply Forall_singleton; unfold e; cbn; lia).
  assert (any_flags_ok [e]) as Hf by (apply Forall_singleton; unfold e; cbn; unfold ZX_POL_NEW_ANY; lia).
  pose proof (AddBasicPolicy_refines ZX_JOB_POL_ABSOLUTE [e] (cookie_ p) Hp Hu) as H. unfold policy_AddBasicPolicy.
  destruct (AddBasicPolicy _ _ _) as [st v1]. destruct H as (Hv1 & Hst & _ & Hm1 & _). specialize (Hm1 Hf).
  assert (spec_merge ZX_JOB_POL_ABSOLUTE [e] (policy_map (cookie_ p)) = (ZX_OK, <[c := (a, o)]> (policy_map (cookie_ p)))) as Hmerge.
  { unfold spec_merge. change (15 <? zlen [e]) with false. unfold e. cbn [spec_entries condition action flags].
    rewrite (proj2 (Z.eqb_neq c ZX_POL_NEW_ANY)) by done. unfold spec_partial.
    rewrite (proj2 (Z.leb_gt 5 a)), (proj2 (Z.ltb_ge 1 o)), Hm by lia. done. }
  rewrite Hmerge in Hst, Hm1. cbn [fst snd] in *. split; [done|].
  destruct (Query_lookup (mkPolicy v1 (slack_ p)) c 0 Hv1 Hc) as [_ Hq]. cbn [cookie_] in Hq.
  rewrite <-Hm1, lookup_insert_eq in Hq. by injection Hq.
Qed.

(** Storing a value in a one-bit field sets the bits of its rest above the field. *)
Lemma field_set_spills off o v i :
  0 <= off -> 0 <= i -> off + 1 + i < 64 -> Z.testbit o (1 + i) = true ->
  Z.testbit (field_set off 1 o v) (off + 1 + i) = true.
Proof.
  intros Ho Hi Hlt Hb. unfold field_set, wrap. rewrite Z.mod_pow2_bits_low, Z.lor_spec, !Z.shiftl_spec by lia.
  replace (off + 1 + i - off) with (1 + i) by lia. rewrite Hb. apply orb_true_r.
Qed.

(** C40. Two gaps of [ZX_POL_NEW_ANY], for every policy. A relative merge with it unlocks: if the
    policy forbids overriding the action of an object-creation condition, one relative merge of
    an entry for [ZX_POL_NEW_ANY] that allows overriding, whatever its action, succeeds, leaves
    the action alone and clears the lock, and then an absolute merge sets any action. And the
    override is not validated: whenever a merge of an entry for [ZX_POL_NEW_ANY] succeeds, the
    bits of its override above the lowest appear in the action of
    [ZX_POL_AMBIENT_MARK_VMO_EXEC], which the merge does not name. *)
Theorem new_any_gaps p a :
  cookie_ok (cookie_ p) -> 0 <= a < ZX_POL_ACTION_MAX ->
  (forall c, c ∈ kNewObjectPolicies -> QueryBasicPolicyOverride p c = ZX_POL_OVERRIDE_DENY ->
     let '(st1, p1) := policy_AddBasicPolicy ZX_JOB_POL_RELATIVE [mkPolicyV2 ZX_POL_NEW_ANY a ZX_POL_OVERRIDE_ALLOW] p in
     st1 = ZX_OK /\ QueryBasicPolicy p1 c = QueryBasicPolicy p c /\ QueryBasicPolicyOverride p1 c = ZX_POL_OVERRIDE_ALLOW /\
     forall a' o, 0 <= a' < ZX_POL_ACTION_MAX -> 0 <= o <= ZX_POL_OVERRIDE_DENY ->
       let '(st2, p2) := policy_AddBasicPolicy ZX_JOB_POL_ABSOLUTE [mkPolicyV2 c a' o] p1 in
       st2 = ZX_OK /\ QueryBasicPolicy p2 c = a') /\
  (forall mode o p1, 0 <= o < 2 ^ 32 ->
     policy_AddBasicPolicy mode [mkPolicyV2 ZX_POL_NEW_ANY a o] p = (ZX_OK, p1) ->
     let exec := QueryBasicPolicy p1 ZX_POL_AMBIENT_MARK_VMO_EXEC in Z.lor exec ((o / 2) mod 8) = exec).
Proof.
  intros Hp Ha. split.
  - intros c Hc Ho. pose proof (relative_any_unlocks p a c Hp Ha Hc Ho) as H.
    destruct (policy_AddBasicPolicy ZX_JOB_POL_RELATIVE _ p) as [st1 p1]. destruct H as (-> & Hp1 & Hl).
    pose proof (new_object_conditions c Hc) as Hc'. destruct (Query_lookup p1 c 0 Hp1 Hc') as [_ Hq].
    rewrite Hl in Hq. injection Hq as Hq1 Hq2. split_and!; [done..|]. intros a' o Ha' Hov. by eapply absolute_sets.
  - intros mode o p1 Ho. unfold policy_AddBasicPolicy, AddBasicPolicy.
    change (ZX_POL_MAX <? zlen _) with false. cbn [add_entries condition action flags].
    change (ZX_POL_NEW_ANY =? ZX_POL_NEW_ANY) with true. cbn match.
    destruct (for_conds _ kNewObjectPolicies (cookie_ p)) as [res v1]. destruct (decide (res = ZX_OK)) as [->|Hne].
    2: { intros H. by destruct res. }
    assert (exists w, for_conds (fun cond bits => SetOverride bits cond o) kNewObjectPolicies v1 = (ZX_OK, field_set 51 1 o w))
      as [w Hw] by (by eexists).
    rewrite Hw. intros [= <-]. cbn zeta. unfold QueryBasicPolicy. cbn [cookie_].
    change (GetAction (field_set 51 1 o w) ZX_POL_AMBIENT_MARK_VMO_EXEC) with (field_get 52 3 (field_set 51 1 o w)).
    pose proof (field_get_range 52 3 (field_set 51 1 o w)) as Hr. rewrite wrap_small by lia.
    apply Z.bits_inj'. intros i Hi. rewrite Z.lor_spec. change 8 with (2 ^ 3).
    destruct (Z.ltb_spec i 3); [|rewrite Z.mod_pow2_bits_high by lia; apply orb_false_r].
    rewrite Z.mod_pow2_bits_low by lia. change 2 with (2 ^ 1). rewrite Z.div_pow2_bits, (Z.add_comm i) by lia.
    destruct (Z.testbit o (1 + i)) eqn:Hb; [|apply orb_false_r].
    rewrite field_get_bit, (proj2 (Z.ltb_lt i 3)) by lia. pose proof (field_set_spills 51 o w i ltac:(lia) Hi ltac:(lia) Hb) as Hs.
    change (51 + 1 + i) with (52 + i) in Hs. by rewrite Hs.
Qed.

Lemma new_any_gaps_witness :
  let p := snd (policy_AddBasicPolicy ZX_JOB_POL_ABSOLUTE [deny_new_channel] (CreateRootPolicy no_slack)) in
  let '(st1, p1) := policy_AddBasicPolicy ZX_JOB_POL_RELATIVE [allow_new_any] p in
  st1 = ZX_OK /\ QueryBasicPolicyOverride p1 ZX_POL_NEW_CHANNEL = ZX_POL_OVERRIDE_ALLOW.
Proof.
  cbn zeta. set (p := snd _).
  destruct (new_any_gaps p ZX_POL_ACTION_ALLOW) as [H _]; [by vm_compute|by vm_compute|].
  specialize (H ZX_POL_NEW_CHANNEL). change (mkPolicyV2 ZX_POL_NEW_ANY ZX_POL_ACTION_ALLOW ZX_POL_OVERRIDE_ALLOW) with allow_new_any in H.
  destruct (policy_AddBasicPolicy ZX_JOB_POL_RELATIVE [allow_new_any] p) as [st1 p1].
  destruct H as (H1 & _ & H2 & _); [unfold kNewObjectPolicies; set_solver|by vm_compute|]. done.
Defined.
