(* ===== verification/Arena.v ===== *)
(** * The growable persistent arena

    Models [zircon/kernel/lib/fbl/include/fbl/gparena.h]: a lock-free allocator of
    fixed-size slots, with a free list whose head is updated together with a generation
    number by compare-and-exchange, and a bump pointer that commits memory as it grows.

    The concurrent algorithm is a transition system: each thread has a program point
    ([APC]) and a step performs one atomic access to shared memory. [Alloc] and [Free]
    run without interference are the functions [arena_Alloc] and [arena_Free], which the
    handle code uses. Mapping pages ([MapRange]) is outside the model: its answer is an
    argument of the step that grows the arena.

    Addresses are integers; the null pointer is 0. *)

From S2P Require Import Prelude Types.

Section Arena.
Context (ObjectSize : Z).

(** [next] is the [FreeNode::next] field of each slot. *)
Record GPArena := mkArena {
  start_ : Z;
  end_ : Z;
  top_ : Z;
  committed_ : Z;
  count_ : Z;
  head : Z;
  gen : Z;
  next : gmap Z Z;
}.

Definition next_of (a : GPArena) (p : Z) : Z := default 0 (next a !! p).

Definition set_head_node (h g : Z) (a : GPArena) : GPArena :=
  mkArena (start_ a) (end_ a) (top_ a) (committed_ a) (count_ a) h g (next a).
Definition set_top (t : Z) (a : GPArena) : GPArena :=
  mkArena (start_ a) (end_ a) t (committed_ a) (count_ a) (head a) (gen a) (next a).
Definition set_committed (c : Z) (a : GPArena) : GPArena :=
  mkArena (start_ a) (end_ a) (top_ a) c (count_ a) (head a) (gen a) (next a).
Definition set_count (n : Z) (a : GPArena) : GPArena :=
  mkArena (start_ a) (end_ a) (top_ a) (committed_ a) n (head a) (gen a) (next a).
Definition set_node_next (p v : Z) (a : GPArena) : GPArena :=
  mkArena (start_ a) (end_ a) (top_ a) (committed_ a) (count_ a) (head a) (gen a) (<[p := v]> (next a)).

(** [Init], with the address the mapping got. *)
Definition ROUNDUP (n m : Z) : Z := (n + m - 1) / m * m.

Definition arena_Init (base max_count : Z) : option GPArena :=
  if max_count =? 0 then None else
  Some (mkArena base (base + ROUNDUP (max_count * ObjectSize) PAGE_SIZE) base base 0 0 0 ∅).

(** [Grow], under the mapping lock. *)
Definition Grow (map_ok : bool) (next_top : Z) (a : GPArena) : GPArena * bool :=
  if committed_ a <? next_top then
    let nc := Z.min (committed_ a + 4 * PAGE_SIZE) (end_ a) in
    if nc =? committed_ a then (a, false)
    else if map_ok then (set_committed nc a, true) else (a, false)
  else (a, true).

Definition Committed (a : GPArena) (node : Z) : bool := (start_ a <=? node) && (node <? top_ a).

(** [Confine]: [confine_array_index] gives the index if it is below the size, else 0. *)
Definition confine_array_index (index size : Z) : Z := if index <? size then index else 0.

Definition Confine (a : GPArena) (address : Z) : Z :=
  start_ a + confine_array_index (wrap64 (address - start_ a)) (top_ a - start_ a).

(** ** Without interference *)

Definition arena_Alloc (map_ok : bool) (a : GPArena) : GPArena * Z :=
  if negb (head a =? 0)
  then (set_count (count_ a + 1) (set_head_node (next_of a (head a)) (wrap64 (gen a + 1)) a), head a)
  else
    let next_top := top_ a + ObjectSize in
    let '(a', ok) := if committed_ a <? next_top then Grow map_ok next_top a else (a, true) in
    if ok then (set_count (count_ a' + 1) (set_top next_top a'), top_ a) else (a', 0).

Definition arena_Free (node : Z) (a : GPArena) : GPArena :=
  set_count (count_ a - 1) (set_head_node node (wrap64 (gen a + 1)) (set_node_next node (head a) a)).

(** ** Threads *)

Inductive APC :=
| AIdle
| ALoop (h g : Z)                (* Alloc: head_node read, at the test of the while *)
| ACas (h g nx : Z)              (* Alloc: next_head_node built, before the exchange *)
| ATop (t : Z)                   (* Alloc: top read, before the check of committed_ *)
| AGrow (t : Z)                  (* Alloc: about to call Grow *)
| ATopCas (t : Z)                (* Alloc: before the exchange of top_ *)
| ACount (p : Z)                 (* Alloc: before count_.fetch_add *)
| FLoop (p h g : Z)              (* Free: head_node read, before the store of next *)
| FCas (p h g : Z)               (* Free: before the exchange *)
| FCount.                        (* Free: before count_.fetch_sub *)

(** One atomic step of a thread; the last component is the result when [Alloc] returns. *)
Definition thread_step (map_ok : bool) (a : GPArena) (pc : APC) : GPArena * APC * option Z :=
  match pc with
  | AIdle => (a, AIdle, None)
  | ALoop h g => if h =? 0 then (a, ATop (top_ a), None) else (a, ACas h g (next_of a h), None)
  | ACas h g nx =>
      if (head a =? h) && (gen a =? g) then (set_head_node nx (wrap64 (g + 1)) a, ACount h, None)
      else (a, ALoop (head a) (gen a), None)
  | ATop t => if committed_ a <? t + ObjectSize then (a, AGrow t, None) else (a, ATopCas t, None)
  | AGrow t =>
      let '(a, ok) := Grow map_ok (t + ObjectSize) a in
      if ok then (a, ATopCas t, None) else (a, AIdle, Some 0)
  | ATopCas t => if top_ a =? t then (set_top (t + ObjectSize) a, ACount t, None) else (a, ATop (top_ a), None)
  | ACount p => (set_count (count_ a + 1) a, AIdle, Some p)
  | FLoop p h g => (set_node_next p h a, FCas p h g, None)
  | FCas p h g =>
      if (head a =? h) && (gen a =? g) then (set_head_node p (wrap64 (g + 1)) a, FCount, None)
      else (a, FLoop p (head a) (gen a), None)
  | FCount => (set_count (count_ a - 1) a, AIdle, None)
  end.

Fixpoint remove_one (p : Z) (l : list Z) : list Z :=
  match l with [] => [] | x :: l => if x =? p then l else x :: remove_one p l end.

(** The whole system: the threads, and the slots that callers of [Alloc] hold. *)
Record ArenaSys := mkASys {
  arena : GPArena;
  pcs : list APC;
  owned : list Z;
}.

Inductive ArenaOp :=
| OpAlloc (t : nat)              (* thread t calls Alloc *)
| OpFree (t : nat) (p : Z)       (* thread t calls Free on a slot some caller holds *)
| OpRun (t : nat) (map_ok : bool)(* thread t performs its next step *)
| OpStore (p v : Z).             (* a holder stores anything where a free slot keeps its link *)

(** [None]: the operation is not possible (the thread is busy, or the slot not held). *)
Definition arena_step (s : ArenaSys) (op : ArenaOp) : option ArenaSys :=
  match op with
  | OpAlloc t =>
      match pcs s !! t with
      | Some AIdle => Some (mkASys (arena s) (<[t := ALoop (head (arena s)) (gen (arena s))]> (pcs s)) (owned s))
      | _ => None
      end
  | OpFree t p =>
      match pcs s !! t with
      | Some AIdle =>
          if bool_decide (p ∈ owned s) then
            Some (mkASys (arena s) (<[t := FLoop p (head (arena s)) (gen (arena s))]> (pcs s))
                    (remove_one p (owned s)))
          else None
      | _ => None
      end
  | OpRun t map_ok =>
      match pcs s !! t with
      | Some pc =>
          let '(a, pc', ret) := thread_step map_ok (arena s) pc in
          let got := match ret with Some p => if p =? 0 then [] else [p] | None => [] end in
          Some (mkASys a (<[t := pc']> (pcs s)) (got ++ owned s))
      | None => None
      end
  | OpStore p v =>
      if bool_decide (p ∈ owned s) then Some (mkASys (set_node_next p v (arena s)) (pcs s) (owned s)) else None
  end.

Fixpoint arena_run (s : ArenaSys) (ops : list ArenaOp) : option ArenaSys :=
  match ops with
  | [] => Some s
  | op :: ops => s ← arena_step s op; arena_run s ops
  end.

End Arena.

Arguments Grow : simpl never.

(** ** Invariant *)

(** The free list starting at [h]. *)
Fixpoint chain (nx : Z -> Z) (h : Z) (l : list Z) : Prop :=
  match l with
  | [] => h = 0
  | x :: l => h = x /\ x <> 0 /\ chain nx (nx x) l
  end.

(** The slot a thread holds on its way into or out of the free list. *)
Definition pc_nodes (pc : APC) : list Z :=
  match pc with ACount p | FLoop p _ _ | FCas p _ _ => [p] | _ => [] end.

(** Whether a thread is in [Free] with its slot still counted. *)
Definition pc_counted (pc : APC) : Z :=
  match pc with FLoop _ _ _ | FCas _ _ _ | FCount => 1 | _ => 0 end.

Definition sum_counted (l : list APC) : Z := foldr (fun pc n => pc_counted pc + n) 0 l.

Section ArenaSafety.
Context (ObjectSize : Z).

(** A thread's copy of the head node is current as long as its generation is. *)
Definition pc_ok (a : GPArena) (pc : APC) : Prop :=
  match pc with
  | ALoop h g | FLoop _ h g => g <= gen a /\ (g = gen a -> h = head a)
  | ACas h g nx => g <= gen a /\ h <> 0 /\ (g = gen a -> h = head a /\ nx = next_of a h)
  | FCas p h g => g <= gen a /\ (g = gen a -> h = head a) /\ next_of a p = h
  | ATop t | AGrow t => t <= top_ a
  | ATopCas t => t + ObjectSize <= committed_ a
  | _ => True
  end.

Definition slots (a : GPArena) (n : Z) : list Z := map (fun i => start_ a + i * ObjectSize) (seqZ 0 n).

Record arena_wf (a : GPArena) (n : Z) : Prop := {
  aw_start : 0 < start_ a;
  aw_n : 0 <= n;
  aw_top : top_ a = start_ a + n * ObjectSize;
  aw_committed : top_ a <= committed_ a <= end_ a;
  aw_pages : (PAGE_SIZE | committed_ a - start_ a) /\ (PAGE_SIZE | end_ a - start_ a);
}.

(** [l] is the free list, [n] the number of slots ever handed out by the bump pointer, and
    [m] bounds the generation. *)
Record arena_inv (s : ArenaSys) (l : list Z) (n m : Z) : Prop := {
  ai_wf : arena_wf (arena s) n;
  ai_chain : chain (next_of (arena s)) (head (arena s)) l;
  ai_part : l ++ owned s ++ flat_map pc_nodes (pcs s) ≡ₚ slots (arena s) n;
  ai_pcs : Forall (pc_ok (arena s)) (pcs s);
  ai_gen : 0 <= gen (arena s) <= m;
  ai_count : count_ (arena s) = zlen (owned s) + sum_counted (pcs s);
}.

(** ** Lemmas *)

Lemma pcs_split (l : list APC) (t : nat) pc :
  l !! t = Some pc -> exists rest, l ≡ₚ pc :: rest /\ forall pc', <[t := pc']> l ≡ₚ pc' :: rest.
Proof.
  intros Ht. exists (take t l ++ drop (S t) l). pose proof (lookup_lt_Some _ _ _ Ht) as Hlt.
  split.
  - rewrite <-(take_drop_middle l t pc Ht) at 1. by rewrite Permutation_middle.
  - intros pc'. rewrite insert_take_drop by done. by rewrite Permutation_middle.
Qed.

#[global] Instance sum_counted_perm : Proper (Permutation ==> eq) sum_counted.
Proof. unfold sum_counted. intros l l' H. induction H; cbn; lia. Qed.

Lemma flat_map_perm (l l' : list APC) : l ≡ₚ l' -> flat_map pc_nodes l ≡ₚ flat_map pc_nodes l'.
Proof.
  induction 1 as [|x l l' _ IH|x y l|l l' l'' _ IH1 _ IH2]; cbn; [done|by rewrite IH| |by rewrite IH1].
  rewrite !app_assoc. by rewrite (Permutation_app_comm (pc_nodes y)).
Qed.

Lemma chain_store nx p v h l :
  p ∉ l -> chain nx h l -> chain (fun q => if decide (q = p) then v else nx q) h l.
Proof.
  revert h. induction l as [|x l IH]; intros h; [done|]. intros [Hne Hni]%not_elem_of_cons (-> & Hx & Hc).
  cbn. split; [done|]. split; [done|]. destruct (decide (x = p)); [done|]. by apply IH.
Qed.

Lemma chain_ext nx nx' h l : (forall x, x ∈ l -> nx x = nx' x) -> chain nx h l -> chain nx' h l.
Proof.
  revert h. induction l as [|x l IH]; intros h Hx; [done|]. intros (-> & Hne & Hc). cbn. split_and!; [done..|].
  rewrite <-Hx by (by left). apply IH; [|done]. intros y Hy. apply Hx. by right.
Qed.

Lemma next_of_store p v a q : next_of (set_node_next p v a) q = if decide (q = p) then v else next_of a q.
Proof.
  unfold next_of, set_node_next. cbn. case_decide as E; [subst; by rewrite lookup_insert_eq|by rewrite lookup_insert_ne].
Qed.

Lemma head_in_chain nx h l : chain nx h l -> h <> 0 -> h ∈ l.
Proof. destruct l as [|x l]; cbn; [done|]. intros (-> & _) _. by left. Qed.

(** Another thread's exchange makes every copy of the head stale. *)
Lemma pc_ok_bump a h pc : pc_ok a pc -> pc_ok (set_head_node h (gen a + 1) a) pc.
Proof. destruct pc; cbn; try done; intros; split_and!; try tauto; lia. Qed.

(** A store to a slot that is neither the head nor held by the thread. *)
Lemma pc_ok_store a p v pc :
  pc_ok a pc -> p <> head a -> p ∉ pc_nodes pc -> pc_ok (set_node_next p v a) pc.
Proof.
  intros Hok Hh Hp. destruct pc; try done; cbn [pc_ok pc_nodes] in *; rewrite ?next_of_store in *;
    change (head (set_node_next p v a)) with (head a); change (gen (set_node_next p v a)) with (gen a).
  - destruct Hok as (? & ? & Heq). split_and!; [done..|]. intros E. destruct (Heq E) as [-> ->].
    by rewrite decide_False by congruence.
  - destruct Hok as (? & ? & <-). split_and!; [done..|]. apply decide_False. set_solver.
Qed.

Lemma pc_ok_same a a' pc :
  pc_ok a pc -> head a' = head a -> gen a' = gen a -> next a' = next a -> committed_ a <= committed_ a' ->
  top_ a <= top_ a' -> pc_ok a' pc.
Proof.
  intros Hok Hh Hg Hn Hc Ht. assert (forall p, next_of a' p = next_of a p) as Hx by (intros p; unfold next_of; by rewrite Hn).
  destruct pc; cbn in *; rewrite ?Hh, ?Hg, ?Hx; try done; lia.
Qed.

Lemma inv_perm a p p' o l n m :
  p ≡ₚ p' -> arena_inv (mkASys a p o) l n m -> arena_inv (mkASys a p' o) l n m.
Proof.
  intros Hp [Hwf Hc Hpart Hpcs Hg Hct]. cbn in *. constructor; cbn; try done.
  - by rewrite <-(flat_map_perm _ _ Hp).
  - by rewrite <-Hp.
  - by rewrite <-Hp.
Qed.

Context (Hsize : 0 < ObjectSize <= PAGE_SIZE).

Lemma slots_nodup a n : NoDup (slots a n).
Proof. apply NoDup_fmap_2_strong; [|apply NoDup_seqZ]. intros i j _ _ H. nia. Qed.

Lemma slots_elem a n p :
  0 < start_ a -> p ∈ slots a n -> exists i, 0 <= i < n /\ p = start_ a + i * ObjectSize /\ 0 < p.
Proof.
  intros Hs (i & -> & Hi%elem_of_seqZ)%list_elem_of_fmap. exists i. split_and!; [lia..|]. nia.
Qed.

Lemma slots_S a n : 0 <= n -> slots a (n + 1) = slots a n ++ [start_ a + n * ObjectSize].
Proof. intros. unfold slots. rewrite seqZ_app by lia. by rewrite map_app. Qed.

Lemma inv_nodup s l n m : arena_inv s l n m -> NoDup (l ++ owned s ++ flat_map pc_nodes (pcs s)).
Proof. intros Hs. rewrite (ai_part _ _ _ _ Hs). apply slots_nodup. Qed.

Lemma inv_nonnull s l n m p :
  arena_inv s l n m -> p ∈ l ++ owned s ++ flat_map pc_nodes (pcs s) -> p <> 0.
Proof.
  intros Hs Hp. rewrite (ai_part _ _ _ _ Hs) in Hp.
  destruct (slots_elem _ _ _ (aw_start _ _ (ai_wf _ _ _ _ Hs)) Hp) as (? & _ & _ & ?). lia.
Qed.

Lemma Grow_spec map_ok t a n a' ok :
  arena_wf a n -> t <= top_ a -> Grow map_ok (t + ObjectSize) a = (a', ok) ->
  arena_wf a' n /\ (ok = true -> t + ObjectSize <= committed_ a') /\
  head a' = head a /\ gen a' = gen a /\ next a' = next a /\ count_ a' = count_ a /\ start_ a' = start_ a /\
  committed_ a <= committed_ a' /\ top_ a' = top_ a.
Proof.
  intros Hwf Ht. unfold Grow. destruct (Z.ltb_spec (committed_ a) (t + ObjectSize)).
  - destruct Hwf as [Hs Hn Htop Hc [Hpc Hpe]].
    destruct (Z.eqb_spec (Z.min (committed_ a + 4 * PAGE_SIZE) (end_ a)) (committed_ a)); [by intros [= <- <-]|].
    destruct map_ok; intros [= <- <-]; [|done].
    assert (PAGE_SIZE <= end_ a - committed_ a) as Hroom.
    { assert (PAGE_SIZE | end_ a - committed_ a) as [q Hq].
      { replace (end_ a - committed_ a) with ((end_ a - start_ a) - (committed_ a - start_ a)) by lia.
        by apply Z.divide_sub_r. }
      unfold PAGE_SIZE in *. nia. }
    unfold PAGE_SIZE in *. split; [|cbn; split_and!; try done; try lia].
    constructor; cbn; try done; try lia. split; [|done].
    destruct (Z.min_dec (committed_ a + 4 * 4096) (end_ a)) as [-> | ->]; [|done].
    replace (_ - _) with (committed_ a - start_ a + 4096 * 4) by lia. apply Z.divide_add_r; [done|]. by exists 4.
  - intros [= <- <-]. split_and!; try done; lia.
Qed.

(** A step of the thread at [pc] that changes nothing shared. *)
Lemma run_local a pc pc' rest o l n m :
  arena_inv (mkASys a (pc :: rest) o) l n m -> pc_nodes pc' = pc_nodes pc -> pc_counted pc' = pc_counted pc ->
  pc_ok a pc' -> arena_inv (mkASys a (pc' :: rest) o) l n m.
Proof.
  intros [Hwf Hc Hpart Hpcs Hg Hct] Hn Hk Hok. cbn in *. constructor; cbn; try done.
  - by rewrite Hn.
  - apply Forall_cons in Hpcs as [_ ?]. by constructor.
  - by rewrite Hk.
Qed.

(** Taking the head of the free list. *)
Lemma run_pop a h g rest o l n m :
  arena_inv (mkASys a (ACas h g (next_of a h) :: rest) o) l n m -> head a = h -> gen a = g ->
  exists l', arena_inv (mkASys (set_head_node (next_of a h) (gen a + 1) a) (ACount h :: rest) o) l' n (m + 1).
Proof.
  intros [Hwf Hc Hpart Hpcs Hg Hct] Hh Hgen. cbn in *. apply Forall_cons in Hpcs as [(_ & Hnz & _) Hrest].
  destruct l as [|x l]; [by cbn in Hc; congruence|]. destruct Hc as (E & _ & Hc). rewrite Hh in E. subst x. exists l.
  constructor; cbn; try done.
  - destruct Hwf. by constructor.
  - change (slots (set_head_node _ _ a) n) with (slots a n). rewrite <-Hpart. cbn. solve_Permutation.
  - constructor; [done|]. eapply Forall_impl; [exact Hrest|]. intros pc. apply pc_ok_bump.
  - lia.
Qed.

(** Linking a slot into the free list. *)
Lemma run_push a p rest o l n m :
  arena_inv (mkASys a (FCas p (head a) (gen a) :: rest) o) l n m ->
  arena_inv (mkASys (set_head_node p (gen a + 1) a) (FCount :: rest) o) (p :: l) n (m + 1).
Proof.
  intros Hs. assert (p <> 0) as Hp.
  { apply (inv_nonnull _ _ _ _ p Hs). cbn. rewrite !elem_of_app. right. right. by left. }
  destruct Hs as [Hwf Hc Hpart Hpcs Hg Hct]. cbn in *. apply Forall_cons in Hpcs as [(_ & _ & Hnx) Hrest].
  constructor; cbn; try done.
  - destruct Hwf. by constructor.
  - split; [done|]. split; [done|]. change (next_of (set_head_node p (gen a + 1) a)) with (next_of a). by rewrite Hnx.
  - change (slots (set_head_node _ _ a) n) with (slots a n). rewrite <-Hpart. cbn. solve_Permutation.
  - constructor; [done|]. eapply Forall_impl; [exact Hrest|]. intros pc. apply pc_ok_bump.
  - lia.
Qed.

(** A store to the link of a slot outside the free list. *)
Lemma store_inv a p v rest o l n m :
  arena_inv (mkASys a rest o) l n m -> p ∉ l -> p <> 0 ->
  (forall pc, pc ∈ rest -> p ∉ pc_nodes pc \/ exists h g, pc = FLoop p h g) ->
  arena_inv (mkASys (set_node_next p v a) rest o) l n m.
Proof.
  intros [Hwf Hc Hpart Hpcs Hg Hct] Hpl Hp0 Hpr. cbn in *. constructor; cbn; try done.
  - destruct Hwf. by constructor.
  - apply (chain_ext (fun q => if decide (q = p) then v else next_of a q)); [intros; by rewrite next_of_store|].
    by apply chain_store.
  - apply Forall_forall. intros pc Hi. rewrite Forall_forall in Hpcs.
    destruct (Hpr pc Hi) as [Hni|(h & g & ->)]; [|exact (Hpcs _ Hi)].
    apply pc_ok_store; [auto| |done]. intros ->. apply Hpl. by eapply head_in_chain.
Qed.

(** The slot a thread is about to free is in no list. *)
Lemma run_store a p h g v rest o l n m :
  arena_inv (mkASys a (FLoop p h g :: rest) o) l n m ->
  arena_inv (mkASys (set_node_next p v a) (FLoop p h g :: rest) o) l n m.
Proof.
  intros Hs. pose proof (inv_nodup _ _ _ _ Hs) as Hnd. cbn in Hnd.
  apply NoDup_app in Hnd as (_ & Hl & Hnd). apply NoDup_app in Hnd as (_ & _ & Hnd).
  apply NoDup_cons in Hnd as [Hp _]. apply store_inv; [done| | |].
  - intros Hi%Hl. apply Hi. apply elem_of_app. right. by left.
  - apply (inv_nonnull _ _ _ _ p Hs). cbn. rewrite !elem_of_app. right. right. by left.
  - intros pc [->|Hi]%elem_of_cons; [right; by eauto|]. left. intros Hn. apply Hp.
    apply list_elem_of_In, in_flat_map. exists pc. by rewrite <-!list_elem_of_In.
Qed.

(** Moving the bump pointer. *)
Lemma run_bump a rest o l n m :
  arena_inv (mkASys a (ATopCas (top_ a) :: rest) o) l n m ->
  arena_inv (mkASys (set_top (top_ a + ObjectSize) a) (ACount (top_ a) :: rest) o) l (n + 1) m.
Proof.
  intros [Hwf Hc Hpart Hpcs Hg Hct]. cbn in *. apply Forall_cons in Hpcs as [Hroom Hrest]. cbn in Hroom.
  destruct Hwf as [Hs Hn Htop Hcm Hpg]. constructor; cbn; try done.
  - constructor; cbn; try done; lia.
  - change (slots (set_top _ a) (n + 1)) with (slots a (n + 1)). rewrite slots_S by done. rewrite <-Hpart, Htop. solve_Permutation.
  - constructor; [done|]. eapply Forall_impl; [exact Hrest|]. intros pc Hok. eapply pc_ok_same; [exact Hok|done..|cbn; lia].
Qed.

(** Growing the committed range. *)
Lemma run_grow map_ok a t rest o l n m a' ok :
  arena_inv (mkASys a (AGrow t :: rest) o) l n m -> Grow map_ok (t + ObjectSize) a = (a', ok) ->
  arena_inv (mkASys a' ((if ok then ATopCas t else AIdle) :: rest) o) l n m.
Proof.
  intros [Hwf Hc Hpart Hpcs Hg Hct] HG. cbn in *. apply Forall_cons in Hpcs as [Ht Hrest].
  destruct (Grow_spec map_ok t a n a' ok Hwf Ht HG) as (Hwf' & Hok & Eh & Eg & En & Ec & Es & Hcm & Etop).
  assert (forall p, next_of a' p = next_of a p) as Hx by (intros; unfold next_of; by rewrite En).
  constructor; cbn; rewrite ?Eh, ?Eg; try done.
  - by apply (chain_ext (next_of a)).
  - unfold slots. rewrite Es. by destruct ok.
  - constructor; [destruct ok; cbn; auto|]. eapply Forall_impl; [exact Hrest|]. intros pc Hpc.
    eapply pc_ok_same; [exact Hpc|done..|lia].
  - rewrite Ec. by destruct ok.
Qed.

Definition got (ret : option Z) : list Z := match ret with Some p => if p =? 0 then [] else [p] | None => [] end.

Lemma thread_step_inv map_ok a pc rest o l n m a' pc' ret :
  arena_inv (mkASys a (pc :: rest) o) l n m -> m + 1 < 2 ^ 64 ->
  thread_step ObjectSize map_ok a pc = (a', pc', ret) ->
  exists l' n', arena_inv (mkASys a' (pc' :: rest) (got ret ++ o)) l' n' (m + 1).
Proof.
  intros Hs Hm.
  assert (forall s l' n', arena_inv s l' n' m -> arena_inv s l' n' (m + 1)) as Hmono.
  { intros s l' n' []. constructor; try done. lia. }
  pose proof (ai_pcs _ _ _ _ Hs) as Hpc. cbn in Hpc. apply Forall_cons in Hpc as [Hpc _].
  pose proof (ai_gen _ _ _ _ Hs) as Hg. cbn in Hg.
  destruct pc as [|h g|h g nx|t|t|t|p|p h g|p h g|]; cbn [thread_step].
  - intros [= <- <- <-]. eauto.
  - case_if; intros [= <- <- <-]; exists l, n; apply Hmono; eapply run_local; try done; cbn; [lia|].
    apply Z.eqb_neq in E. cbn in Hpc. naive_solver.
  - destruct (Z.eqb_spec (head a) h) as [Eh|], (Z.eqb_spec (gen a) g) as [Eg|]; cbn [andb]; intros [= <- <- <-];
      try (exists l, n; apply Hmono; by eapply run_local).
    cbn in Hpc. destruct Hpc as (_ & _ & Heq). destruct (Heq (eq_sym Eg)) as [_ ->].
    destruct (run_pop a h g rest o l n m Hs Eh Eg) as [l' Hl']. rewrite wrap_small by lia. subst g. eauto.
  - cbn in Hpc. destruct (Z.ltb_spec (committed_ a) (t + ObjectSize)); intros [= <- <- <-]; exists l, n; apply Hmono;
      by eapply run_local.
  - destruct (Grow map_ok (t + ObjectSize) a) as [a1 ok] eqn:HG. pose proof (run_grow _ _ _ _ _ _ _ _ _ _ Hs HG) as H.
    destruct ok; intros [= <- <- <-]; eauto.
  - destruct (Z.eqb_spec (top_ a) t) as [<-|]; intros [= <- <- <-].
    + exists l, (n + 1). by apply Hmono, run_bump.
    + exists l, n. apply Hmono. eapply run_local; try done. cbn. lia.
  - intros [= <- <- <-]. exists l, n. apply Hmono. assert (p <> 0) as Hp.
    { apply (inv_nonnull _ _ _ _ p Hs). cbn. rewrite !elem_of_app. right. right. by left. }
    unfold got. destruct (Z.eqb_spec p 0); [done|]. destruct Hs as [Hwf Hc Hpart Hpcs _ Hct]. cbn in *.
    apply Forall_cons in Hpcs as [_ Hrest]. constructor; cbn; try done.
    + destruct Hwf. by constructor.
    + change (slots (set_count _ a) n) with (slots a n). rewrite <-Hpart. solve_Permutation.
    + constructor; [done|]. eapply Forall_impl; [exact Hrest|]. intros pc Hok. eapply pc_ok_same; [exact Hok|done..].
    + rewrite zlen_cons. lia.
  - intros [= <- <- <-]. exists l, n. apply Hmono. cbn in Hpc. destruct Hpc as [Hle Heq].
    apply run_local with (pc := FLoop p h g); [by apply run_store|done..|].
    cbn. rewrite next_of_store. by rewrite decide_True.
  - destruct (Z.eqb_spec (head a) h) as [<-|], (Z.eqb_spec (gen a) g) as [<-|]; cbn [andb]; intros [= <- <- <-];
      try (exists l, n; apply Hmono; by eapply run_local).
    rewrite wrap_small by lia. exists (p :: l), n. by apply run_push.
  - intros [= <- <- <-]. exists l, n. apply Hmono. destruct Hs as [Hwf Hc Hpart Hpcs _ Hct]. cbn in *.
    apply Forall_cons in Hpcs as [_ Hrest]. constructor; cbn; try done.
    + destruct Hwf. by constructor.
    + constructor; [done|]. eapply Forall_impl; [exact Hrest|]. intros pc Hok. eapply pc_ok_same; [exact Hok|done..].
    + lia.
Qed.

Lemma remove_one_perm p l : p ∈ l -> l ≡ₚ p :: remove_one p l.
Proof.
  induction l as [|x l IH]; [by intros ?%elem_of_nil|]. cbn. destruct (Z.eqb_spec x p) as [->|Hne]; [done|].
  intros [?|Hi]%elem_of_cons; [congruence|]. rewrite (IH Hi) at 1. constructor.
Qed.

Lemma arena_step_inv s op s' l n m :
  arena_inv s l n m -> m + 1 < 2 ^ 64 -> arena_step ObjectSize s op = Some s' ->
  exists l' n', arena_inv s' l' n' (m + 1).
Proof.
  intros Hs Hm. assert (forall s l' n', arena_inv s l' n' m -> arena_inv s l' n' (m + 1)) as Hmono.
  { intros s0 l' n' []. constructor; try done. lia. }
  destruct s as [a ps o]. destruct op as [t|t p|t ok|p v]; cbn [arena_step pcs arena owned].
  - destruct (ps !! t) as [[]|] eqn:Et; try done. intros [= <-]. exists l, n. apply Hmono.
    destruct (pcs_split ps t _ Et) as (rest & Hp & Hins). apply (inv_perm _ _ _ _ _ _ _ Hp) in Hs.
    eapply inv_perm; [symmetry; apply Hins|]. by eapply run_local.
  - destruct (ps !! t) as [[]|] eqn:Et; try done. case_bool_decide as Hin; [|done]. intros [= <-]. exists l, n. apply Hmono.
    destruct (pcs_split ps t _ Et) as (rest & Hp & Hins). apply (inv_perm _ _ _ _ _ _ _ Hp) in Hs.
    eapply inv_perm; [symmetry; apply Hins|]. destruct Hs as [Hwf Hc Hpart Hpcs Hg Hct]. cbn in *.
    pose proof (remove_one_perm p o Hin) as Ho. set (o' := remove_one p o) in *. clearbody o'. apply Forall_cons in Hpcs as [_ Hrest]. constructor; cbn; try done.
    + rewrite <-Hpart, Ho. solve_Permutation.
    + by constructor.
    + rewrite Hct. unfold zlen. rewrite Ho. cbn. lia.
  - destruct (ps !! t) as [pc|] eqn:Et; [|done]. destruct (thread_step ObjectSize ok a pc) as [[a' pc'] ret] eqn:Eth.
    intros [= <-]. destruct (pcs_split ps t _ Et) as (rest & Hp & Hins). apply (inv_perm _ _ _ _ _ _ _ Hp) in Hs.
    destruct (thread_step_inv _ _ _ _ _ _ _ _ _ _ _ Hs Hm Eth) as (l' & n' & H). exists l', n'.
    eapply inv_perm; [symmetry; apply Hins|]. exact H.
  - case_bool_decide as Hin; [|done]. intros [= <-]. exists l, n. apply Hmono.
    pose proof (inv_nodup _ _ _ _ Hs) as Hnd. cbn in Hnd.
    apply NoDup_app in Hnd as (_ & Hl & Hnd). apply NoDup_app in Hnd as (_ & Ho & _). apply store_inv; [done| | |].
    + intros Hi%Hl. apply Hi, elem_of_app. by left.
    + apply (inv_nonnull _ _ _ _ p Hs). cbn. rewrite !elem_of_app. by right; left.
    + intros pc Hi. left. intros Hn. apply (Ho p Hin). apply list_elem_of_In, in_flat_map. exists pc. by rewrite <-!list_elem_of_In.
Qed.

Lemma arena_run_inv ops s s' l n m :
  arena_inv s l n m -> m + zlen ops < 2 ^ 64 -> arena_run ObjectSize s ops = Some s' ->
  exists l' n', arena_inv s' l' n' (m + zlen ops).
Proof.
  revert s l n m. induction ops as [|op ops IH]; intros s l n m Hs Hm; cbn [arena_run].
  - intros [= <-]. exists l, n. change (zlen []) with 0. by rewrite Z.add_0_r.
  - rewrite zlen_cons in *. pose proof (zlen_nonneg ops).
    destruct (arena_step ObjectSize s op) as [s1|] eqn:E; [|done]. cbn [mbind option_bind]. intros Hr.
    destruct (arena_step_inv s op s1 l n m Hs ltac:(lia) E) as (l1 & n1 & H1).
    destruct (IH s1 l1 n1 (m + 1) H1 ltac:(lia) Hr) as (l2 & n2 & H2). exists l2, n2.
    by replace (m + (1 + zlen ops)) with (m + 1 + zlen ops) by lia.
Qed.

Lemma arena_Init_inv base max_count a k :
  0 < base -> 0 <= max_count -> arena_Init ObjectSize base max_count = Some a ->
  arena_inv (mkASys a (replicate k AIdle) []) [] 0 0.
Proof.
  intros Hb Hm. unfold arena_Init. case_if; [done|]. intros [= <-].
  assert (0 <= ROUNDUP (max_count * ObjectSize) PAGE_SIZE) as Hr.
  { unfold ROUNDUP. apply Z.mul_nonneg_nonneg; [|done]. apply Z.div_pos; unfold PAGE_SIZE in *; nia. }
  constructor; cbn; try done.
  - constructor; cbn; try done; try lia. split; [exists 0; lia|].
    unfold ROUNDUP. exists ((max_count * ObjectSize + PAGE_SIZE - 1) / PAGE_SIZE). lia.
  - unfold slots. cbn. by induction k.
  - apply Forall_replicate. done.
  - unfold sum_counted. by induction k.
Qed.

(** C5. The lock-free allocator never hands out a slot twice. For any number of threads,
    any interleaving of their atomic steps and any answers of the page mapper, with
    holders storing anything they like into their slots (so that a stale reader of the
    free list sees garbage): every slot below the bump pointer is at every moment exactly
    one of free, held by a caller, or in the hands of one thread inside [Alloc] or
    [Free]; the free list is well formed; all slots lie in the committed range, which
    stays inside the arena; and the count is exact. The generation number makes this
    hold as long as it does not wrap around. *)
Theorem arena_slots_exclusive base max_count a k ops s :
  0 < base -> 0 <= max_count -> arena_Init ObjectSize base max_count = Some a ->
  zlen ops < 2 ^ 64 ->
  arena_run ObjectSize (mkASys a (replicate k AIdle) []) ops = Some s ->
  exists free n, let all := free ++ owned s ++ flat_map pc_nodes (pcs s) in
    chain (next_of (arena s)) (head (arena s)) free /\ NoDup all /\
    (forall p, p ∈ all <-> exists i, 0 <= i < n /\ p = start_ (arena s) + i * ObjectSize) /\
    top_ (arena s) = start_ (arena s) + n * ObjectSize /\
    top_ (arena s) <= committed_ (arena s) <= end_ (arena s) /\
    count_ (arena s) = zlen (owned s) + sum_counted (pcs s).
Proof.
  intros Hb Hm Hi Hlen Hr.
  destruct (arena_run_inv ops _ s _ _ _ (arena_Init_inv base max_count a k Hb Hm Hi) ltac:(lia) Hr) as (l & n & Hs).
  exists l, n. cbn zeta. destruct (ai_wf _ _ _ _ Hs). split_and!; try done; try apply Hs; try lia.
  - by eapply inv_nodup.
  - intros p. rewrite (ai_part _ _ _ _ Hs). unfold slots. rewrite list_elem_of_fmap. setoid_rewrite elem_of_seqZ.
    split; intros (i & ? & ?); exists i; split; lia.
Qed.

End ArenaSafety.

(** Two threads allocate; one of them is overtaken between reading the free list and its
    exchange. *)
Definition arena_example_ops : list ArenaOp :=
  [OpAlloc 0; OpRun 0 true; OpRun 0 true; OpRun 0 true; OpRun 0 true; OpRun 0 true;
   OpFree 0 8192; OpRun 0 true; OpRun 0 true; OpRun 0 true;
   OpAlloc 0; OpRun 0 true;
   OpAlloc 1; OpRun 1 true; OpRun 1 true; OpRun 1 true; OpStore 8192 12345;
   OpRun 0 true; OpRun 0 true].

Definition arena_example : ArenaSys :=
  mkASys (mkArena 8192 12288 8192 8192 0 0 0 ∅) [AIdle; AIdle] [].

Lemma arena_slots_exclusive_witness :
  exists s free n, arena_run 40 arena_example arena_example_ops = Some s /\
    chain (next_of (arena s)) (head (arena s)) free /\
    NoDup (free ++ owned s ++ flat_map pc_nodes (pcs s)) /\
    top_ (arena s) = start_ (arena s) + n * 40.
Proof.
  destruct (arena_run 40 arena_example arena_example_ops) as [s|] eqn:E; [|vm_compute in E; discriminate].
  destruct (arena_slots_exclusive 40 ltac:(unfold PAGE_SIZE; lia) 8192 100
    (mkArena 8192 12288 8192 8192 0 0 0 ∅) 2 arena_example_ops s) as (free & n & Hc & Hnd & _ & Ht & _).
  - lia.
  - lia.
  - reflexivity.
  - vm_compute. reflexivity.
  - exact E.
  - exists s, free, n. split; [done|]. split; [exact Hc|]. split; [exact Hnd|exact Ht].
Defined.

(** ** What the arena promises to the handle code *)

(** An allocator of slots at multiples of a size from a base. [sa_wf a live] says that the
    arena is well formed and that exactly the slots [live] are held. *)
Class SlotArena (A : Type) := {
  sa_alloc : bool -> A -> A * Z;
  sa_free : Z -> A -> A;
  sa_committed : A -> Z -> bool;
  sa_confine : A -> Z -> Z;
  sa_base : A -> Z;
  sa_size : Z;
  sa_capacity : A -> Z;
  sa_wf : A -> list Z -> Prop;
}.

Class SlotArenaLaws (A : Type) `{!SlotArena A} : Prop := {
  sa_size_pos : 0 < sa_size;
  sa_live_slot : forall a live p,
    sa_wf a live -> p ∈ live -> sa_committed a p = true /\ p <> 0 /\
    exists i, 0 <= i < sa_capacity a /\ p = sa_base a + i * sa_size;
  sa_nodup : forall a live, sa_wf a live -> NoDup live;
  sa_wf_perm : forall a live live', live ≡ₚ live' -> sa_wf a live -> sa_wf a live';
  sa_confine_committed : forall a live p,
    sa_wf a live -> sa_committed a p = true -> sa_confine a p = p;
  sa_alloc_spec : forall ok a live a' p,
    sa_wf a live -> sa_alloc ok a = (a', p) ->
    sa_base a' = sa_base a /\ sa_capacity a' = sa_capacity a /\
    (p = 0 -> sa_wf a' live) /\ (p <> 0 -> sa_wf a' (p :: live) /\ sa_committed a' p = true);
  sa_alloc_committed : forall ok a live a' p q,
    sa_wf a live -> sa_alloc ok a = (a', p) -> sa_committed a q = true -> sa_committed a' q = true;
  sa_free_spec : forall a live p,
    sa_wf a (p :: live) -> sa_wf (sa_free p a) live /\ sa_base (sa_free p a) = sa_base a /\ sa_capacity (sa_free p a) = sa_capacity a /\
      (forall q, sa_committed (sa_free p a) q = sa_committed a q);
}.

(** The arena of handles: [sizeof(Handle)] is 40. *)
Definition sizeof_Handle : Z := 40.

Definition seq_wf (a : GPArena) (live : list Z) : Prop :=
  exists l n, arena_wf sizeof_Handle a n /\ end_ a < 2 ^ 64 /\ chain (next_of a) (head a) l /\
    l ++ live ≡ₚ slots sizeof_Handle a n.

#[global] Instance gparena_slots : SlotArena GPArena := {|
  sa_alloc := arena_Alloc sizeof_Handle;
  sa_free := arena_Free;
  sa_committed := Committed;
  sa_confine := Confine;
  sa_base := start_;
  sa_size := sizeof_Handle;
  sa_capacity a := (end_ a - start_ a) / sizeof_Handle;
  sa_wf := seq_wf;
|}.

Lemma sizeof_Handle_ok : 0 < sizeof_Handle <= PAGE_SIZE.
Proof. unfold sizeof_Handle, PAGE_SIZE. lia. Qed.

Lemma seq_free a p live :
  seq_wf a (p :: live) -> seq_wf (arena_Free p a) live.
Proof.
  intros (l & n & Hwf & He & Hc & Hp). exists (p :: l), n.
  assert (NoDup (l ++ p :: live)) as Hnd by (rewrite Hp; apply slots_nodup, sizeof_Handle_ok).
  assert (p ∈ slots sizeof_Handle a n) as Hin by (rewrite <-Hp; set_solver).
  destruct (slots_elem _ sizeof_Handle_ok a n p (aw_start _ _ _ Hwf) Hin) as (i & _ & _ & Hp0).
  split_and!; [by destruct Hwf|done|split_and!; [done|lia|]|].
  - apply (chain_ext (fun q => if decide (q = p) then head a else next_of a q)).
    { intros x _. by rewrite <-next_of_store. }
    change (next_of (arena_Free p a) p) with (next_of (set_node_next p (head a) a) p). rewrite next_of_store, decide_True by done.
    apply chain_store; [|done]. apply NoDup_app in Hnd as (_ & Hl & _). intros Hi%Hl. set_solver.
  - change (slots sizeof_Handle (arena_Free p a) n) with (slots sizeof_Handle a n). rewrite <-Hp. solve_Permutation.
Qed.

Lemma seq_alloc ok a live a' p :
  seq_wf a live -> arena_Alloc sizeof_Handle ok a = (a', p) ->
  start_ a' = start_ a /\ end_ a' = end_ a /\ top_ a <= top_ a' /\
  (p = 0 -> seq_wf a' live) /\ (p <> 0 -> seq_wf a' (p :: live) /\ Committed a' p = true).
Proof.
  intros (l & n & Hwf & He & Hc & Hp). unfold arena_Alloc. destruct (Z.eqb_spec (head a) 0) as [Eh|Eh]; cbn [negb].
  - assert (l = []) as -> by (destruct l; [done|]; destruct Hc as (? & ? & _); congruence).
    assert (exists a1 ok1, (if committed_ a <? top_ a + sizeof_Handle then Grow ok (top_ a + sizeof_Handle) a else (a, true)) = (a1, ok1)
      /\ arena_wf sizeof_Handle a1 n /\ (ok1 = true -> top_ a + sizeof_Handle <= committed_ a1)
      /\ head a1 = head a /\ next a1 = next a /\ start_ a1 = start_ a /\ end_ a1 = end_ a /\ top_ a1 = top_ a)
      as (a1 & ok1 & -> & Hwf1 & Hroom & Eh1 & En1 & Es1 & Ee1 & Et1).
    { destruct (Z.ltb_spec (committed_ a) (top_ a + sizeof_Handle)); [|exists a, true; by split_and!].
      destruct (Grow ok (top_ a + sizeof_Handle) a) as [a1 ok1] eqn:HG. exists a1, ok1. split; [done|].
      destruct (Grow_spec _ sizeof_Handle_ok ok _ a n a1 ok1 Hwf (Z.le_refl _) HG) as (? & ? & ? & ? & ? & ? & ? & ? & ?).
      split_and!; try done. revert HG. unfold Grow. case_if; [|by intros [= <- _]]. case_if; [by intros [= <- _]|].
      destruct ok; by intros [= <- _]. }
    destruct Hwf1 as [Hs Hn Htop Hcm Hpg]. destruct ok1; intros [= <- <-]; cbn.
    + split; [done|]. split; [done|]. split; [unfold sizeof_Handle; lia|]. split; [intros; unfold sizeof_Handle in *; lia|]. intros _. split.
      * exists [], (n + 1). split_and!; [|cbn; lia|by cbn; congruence|].
        -- specialize (Hroom eq_refl). constructor; cbn; try done; lia.
        -- change (slots sizeof_Handle (set_count _ _) (n + 1)) with (slots sizeof_Handle a1 (n + 1)).
           rewrite slots_S by (apply sizeof_Handle_ok || done). unfold slots in *. rewrite Es1, <-Hp, <-Et1, Htop, Es1. solve_Permutation.
      * unfold Committed. cbn. unfold sizeof_Handle in *. nia.
    + split; [done|]. split; [done|]. split; [lia|]. split; [|done]. intros _. exists [], n.
      split_and!; [by constructor|lia|by cbn; congruence|]. unfold slots in *. by rewrite Es1.
  - intros [= <- <-]. destruct l as [|x l]; [done|]. destruct Hc as (-> & Hx & Hc). cbn.
    split; [done|]. split; [done|]. split; [lia|]. split; [done|]. intros _. split.
    + exists l, n. split_and!; [by destruct Hwf|done|done|].
      change (slots sizeof_Handle (set_count _ _) n) with (slots sizeof_Handle a n). rewrite <-Hp. solve_Permutation.
    + assert (x ∈ slots sizeof_Handle a n) as Hin by (rewrite <-Hp; set_solver).
      destruct (slots_elem _ sizeof_Handle_ok a n x (aw_start _ _ _ Hwf) Hin) as (i & Hi & -> & _).
      destruct Hwf. unfold Committed. cbn. unfold sizeof_Handle in *. nia.
Qed.

Lemma seq_committed a live p : seq_wf a live -> p ∈ live -> Committed a p = true /\ p <> 0 /\
  exists i, 0 <= i < (end_ a - start_ a) / sizeof_Handle /\ p = start_ a + i * sizeof_Handle.
Proof.
  intros (l & n & Hwf & He & Hc & Hp) Hin.
  assert (p ∈ slots sizeof_Handle a n) as Hs by (rewrite <-Hp; set_solver).
  destruct (slots_elem _ sizeof_Handle_ok a n p (aw_start _ _ _ Hwf) Hs) as (i & Hi & Ep & ?).
  destruct Hwf. split; [|split; [lia|exists i; split; [split; [lia|]|lia]]]; [unfold Committed, sizeof_Handle in *; nia|].
  apply Z.lt_le_trans with n; [lia|]. apply Z.div_le_lower_bound; [done|]. lia.
Qed.

#[global] Instance gparena_laws : SlotArenaLaws GPArena.
Proof.
  constructor; cbn.
  - done.
  - apply seq_committed.
  - intros a live (l & n & _ & _ & _ & Hp).
    assert (NoDup (l ++ live)) as Hnd by (rewrite Hp; apply slots_nodup, sizeof_Handle_ok).
    by apply NoDup_app in Hnd as (_ & _ & ?).
  - intros a live live' Hl (l & n & ? & ? & ? & Hp). exists l, n. by rewrite <-Hl.
  - intros a live p (l & n & Hwf & He & _) Hc. destruct Hwf as [Hs Hn Ht Hcm _].
    unfold Committed, Confine, confine_array_index in *. rewrite wrap_small by lia.
    destruct (Z.ltb_spec (p - start_ a) (top_ a - start_ a)); lia.
  - intros ok a live a' p Hwf Ha. by destruct (seq_alloc ok a live a' p Hwf Ha) as (-> & -> & _ & ? & ?).
  - intros ok a live a' p q Hwf Ha. destruct (seq_alloc ok a live a' p Hwf Ha) as (Es & _ & Ht & _).
    unfold Committed. rewrite Es. lia.
  - intros a live p Hwf. by split; [apply seq_free|].
Qed.

(** [Alloc] and [Free] in the transition system, run to completion by a single thread, are
    the functions above. *)
Fixpoint run_alone (size : Z) (map_ok : bool) (fuel : nat) (a : GPArena) (pc : APC) : option (GPArena * Z) :=
  match fuel with
  | O => None
  | S fuel =>
      match thread_step size map_ok a pc with
      | (a, AIdle, Some p) => Some (a, p)
      | (a, AIdle, None) => Some (a, 0)
      | (a, pc, _) => run_alone size map_ok fuel a pc
      end
  end.

Lemma Alloc_alone size map_ok a :
  run_alone size map_ok 5 a (ALoop (head a) (gen a)) = Some (arena_Alloc size map_ok a).
Proof.
  unfold arena_Alloc. cbn [run_alone thread_step]. destruct (Z.eqb_spec (head a) 0) as [E|E]; cbn [negb].
  - cbn [run_alone thread_step]. destruct (committed_ a <? top_ a + size).
    + cbn [run_alone thread_step]. destruct (Grow map_ok (top_ a + size) a) as [a1 ok] eqn:HG.
      assert (top_ a1 = top_ a) as Et.
      { revert HG. unfold Grow. case_if; [|by intros [= <- _]]. case_if; [by intros [= <- _]|]. destruct map_ok; by intros [= <- _]. }
      destruct ok; [|done]. cbn [run_alone thread_step]. rewrite Et, Z.eqb_refl. done.
    + cbn [run_alone thread_step]. by rewrite Z.eqb_refl.
  - cbn [run_alone thread_step]. by rewrite !Z.eqb_refl.
Qed.

Lemma Free_alone size map_ok a p :
  run_alone size map_ok 3 a (FLoop p (head a) (gen a)) = Some (arena_Free p a, 0).
Proof. cbn [run_alone thread_step]. cbn. by rewrite !Z.eqb_refl. Qed.
