(* ===== verification/Handle.v ===== *)
(** * Handles

    Models [zircon/kernel/object/handle.cc] with its header: the values that name handles,
    and making, duplicating and deleting handles in the arena. A handle value is built in
    two layers: the base value of the slot ([NewHandleValue]: index and generation) and
    the per-process mixing of [handle_table.cc] ([map_handle_to_value]).

    The arena is used through [SlotArena]. The memory of the slots persists when they are
    free ([hs_mem]); memory that was never used is zero. A dispatcher is its identifier;
    of its state the handle code touches the handle count. What it calls on dispatchers
    is logged in [hs_log]. *)

From S2P Require Import Prelude Types Arena.

(** ** Values *)

Definition kMaxHandleCount : Z := 256 * 1024.
Definition kHandleReservedBits : Z := 2.
Definition kHandleIndexMask : Z := kMaxHandleCount - 1.
Definition kHandleReservedBitsMask : Z :=
  Z.shiftl (Z.shiftl 1 kHandleReservedBits - 1) (32 - kHandleReservedBits).
Definition kHandleGenerationMask : Z :=
  Z.land (wrap32 (Z.lnot kHandleIndexMask)) (wrap32 (Z.lnot kHandleReservedBitsMask)).
Definition kHandleGenerationShift : Z := Z.log2 kMaxHandleCount.
Definition kHandleMustBeOneMask : Z := Z.shiftl 1 kHandleReservedBits - 1.

Definition NewHandleValue (index old_value : Z) : Z :=
  let old_gen := if old_value =? 0 then 0
                 else Z.shiftr (Z.land old_value kHandleGenerationMask) kHandleGenerationShift in
  let new_gen := Z.land (wrap32 (Z.shiftl (wrap32 (old_gen + 1)) kHandleGenerationShift)) kHandleGenerationMask in
  Z.lor index new_gen.

Definition HandleValueToIndex (value : Z) : Z := Z.land value kHandleIndexMask.

(** ** Handles and their memory *)

Record Handle := mkHandle {
  process_id_ : Z;
  dispatcher_ : option Z;
  rights_ : Z;
  base_value_ : Z;
}.

Definition HasRights (h : Handle) (desired : Z) : bool := Z.land (rights_ h) desired =? desired.

Definition zero_Handle : Handle := mkHandle 0 None 0 0.

Inductive HandleEvent :=
| EvSetOwner (obj pid : Z)         (* dispatcher_->set_owner(pid) *)
| EvCancel (obj handle : Z)        (* disp->Cancel(handle) *)
| EvZeroHandles (obj : Z)          (* disp->on_zero_handles() *)
| EvBadHandle (pid : Z).           (* process_->EnforceBasicPolicy(ZX_POL_BAD_HANDLE) *)

Section Handles.
Context {A : Type} `{!SlotArena A}.
(** Whether an object type can be waited on. *)
Context (is_waitable : Z -> bool).

(** [hs_counts] holds the handle counts of the existing dispatchers; [hs_live] the slots
    that hold a handle. *)
Record HandleSys := mkHSys {
  hs_arena : A;
  hs_mem : gmap Z Handle;
  hs_counts : gmap Z Z;
  hs_live : list Z;
  hs_log : list HandleEvent;
}.

Definition handle_at (s : HandleSys) (addr : Z) : Handle := default zero_Handle (hs_mem s !! addr).
Definition count_of (s : HandleSys) (obj : Z) : Z := default 0 (hs_counts s !! obj).

Definition set_handle (addr : Z) (h : Handle) (s : HandleSys) : HandleSys :=
  mkHSys (hs_arena s) (<[addr := h]> (hs_mem s)) (hs_counts s) (hs_live s) (hs_log s).
Definition set_arena (a : A) (live : list Z) (s : HandleSys) : HandleSys :=
  mkHSys a (hs_mem s) (hs_counts s) live (hs_log s).
Definition set_handle_count (obj n : Z) (s : HandleSys) : HandleSys :=
  mkHSys (hs_arena s) (hs_mem s) (<[obj := n]> (hs_counts s)) (hs_live s) (hs_log s).
Definition log_event (e : HandleEvent) (s : HandleSys) : HandleSys :=
  mkHSys (hs_arena s) (hs_mem s) (hs_counts s) (hs_live s) (hs_log s ++ [e]).

Definition set_process_id (addr pid : Z) (s : HandleSys) : HandleSys :=
  let h := handle_at s addr in
  let s := set_handle addr (mkHandle pid (dispatcher_ h) (rights_ h) (base_value_ h)) s in
  match dispatcher_ h with Some obj => log_event (EvSetOwner obj pid) s | None => s end.

Definition IndexToHandle (s : HandleSys) (index : Z) : Z := sa_base (hs_arena s) + index * sa_size.
Definition HandleToIndex (s : HandleSys) (addr : Z) : Z := wrap32 ((addr - sa_base (hs_arena s)) / sa_size).

Definition GetNewBaseValue (s : HandleSys) (addr : Z) : Z :=
  NewHandleValue (HandleToIndex s addr) (base_value_ (handle_at s addr)).

(** [HandleTableArena::Alloc]: the slot (0 when there is none) and the base value. *)
Definition handle_Alloc (map_ok : bool) (obj : Z) (s : HandleSys) : HandleSys * Z * Z :=
  let '(a, addr) := sa_alloc map_ok (hs_arena s) in
  if addr =? 0 then (set_arena a (hs_live s) s, 0, 0) else
  let s := set_arena a (addr :: hs_live s) s in
  let s := set_handle_count obj (wrap32 (count_of s obj + 1)) s in
  (s, addr, GetNewBaseValue s addr).

(** [Handle::Make]: the new handle, owned by the caller, or 0. *)
Definition handle_Make (map_ok : bool) (obj rights : Z) (s : HandleSys) : HandleSys * Z :=
  let '(s, addr, base_value) := handle_Alloc map_ok obj s in
  if addr =? 0 then (s, 0) else (set_handle addr (mkHandle ZX_KOID_INVALID (Some obj) rights base_value) s, addr).

Definition handle_Dup (map_ok : bool) (source rights : Z) (s : HandleSys) : HandleSys * Z :=
  match dispatcher_ (handle_at s source) with
  | None => (s, 0)
  | Some obj =>
      let '(s, addr, base_value) := handle_Alloc map_ok obj s in
      if addr =? 0 then (s, 0)
      else (set_handle addr (mkHandle ZX_KOID_INVALID (dispatcher_ (handle_at s source)) rights base_value) s, addr)
  end.

Definition TearDown (addr : Z) (s : HandleSys) : HandleSys :=
  let h := handle_at s addr in
  set_handle addr (mkHandle (process_id_ h) None (rights_ h) (base_value_ h)) s.

(** [HandleTableArena::Delete]. Its caller is the destructor of a [HandleOwner], which owns a live
    handle ([HandleTable.owner_held]); on a slot without one the source would follow a null pointer, here
    nothing happens. *)
Definition handle_Delete (addr : Z) (s : HandleSys) : HandleSys :=
  match dispatcher_ (handle_at s addr) with
  | None => s
  | Some obj =>
      let s := if is_waitable obj then log_event (EvCancel obj addr) s else s in
      let s := TearDown addr s in
      let n := wrap32 (count_of s obj - 1) in
      let s := set_handle_count obj n s in
      let s := set_arena (sa_free addr (hs_arena s)) (remove_one addr (hs_live s)) s in
      if n =? 0 then log_event (EvZeroHandles obj) s else s
  end.

(** [FromU32]: the slot named by a base value, or 0. *)
Definition FromU32 (s : HandleSys) (value : Z) : Z :=
  let index := HandleValueToIndex value in
  let handle_addr := IndexToHandle s index in
  if negb (sa_committed (hs_arena s) handle_addr) then 0 else
  let handle_addr := sa_confine (hs_arena s) handle_addr in
  if base_value_ (handle_at s handle_addr) =? value then handle_addr else 0.

(** ** The values user code sees *)

Definition map_handle_to_value (s : HandleSys) (addr mixer : Z) : Z :=
  let handle_id := Z.lor (wrap32 (Z.shiftl (base_value_ (handle_at s addr)) kHandleReservedBits)) kHandleMustBeOneMask in
  Z.lxor mixer handle_id.

Definition map_value_to_handle (s : HandleSys) (value mixer : Z) : Z :=
  if negb (Z.land value kHandleMustBeOneMask =? kHandleMustBeOneMask) then 0 else
  FromU32 s (Z.shiftr (Z.lxor value mixer) kHandleReservedBits).

End Handles.
Arguments HandleSys : clear implicits.

(** [Handle::Init], with the address the arena is mapped at. *)
Definition handle_Init (base : Z) : option GPArena := arena_Init sizeof_Handle base kMaxHandleCount.

Lemma handle_Init_ok base a :
  0 < base -> base + 2 ^ 24 < 2 ^ 64 -> handle_Init base = Some a -> sa_wf a [] /\ sa_capacity a = kMaxHandleCount.
Proof.
  intros Hb Ht Ha. pose proof (arena_Init_inv sizeof_Handle sizeof_Handle_ok base kMaxHandleCount a 0 Hb ltac:(done) Ha) as [Hwf Hch _ _ _].
  unfold handle_Init, arena_Init in Ha. change (kMaxHandleCount =? 0) with false in Ha. injection Ha as <-.
  change (ROUNDUP _ _) with (kMaxHandleCount * 40) in *. split; [|].
  - exists [], 0. split_and!; try done. cbn. unfold kMaxHandleCount. lia.
  - cbn. rewrite Z.add_simpl_l. apply Z.div_mul. done.
Qed.

(** ** Values, arithmetically *)

Definition kGenerations : Z := 4096.

(** The base values of slot [index]: an 18-bit index and a 12-bit generation. *)
Definition base_value_of (index g : Z) : Z := index + g * 2 ^ 18.

Lemma generation_mask : kHandleGenerationMask = Z.shiftl (2 ^ 12 - 1) 18.
Proof. by vm_compute. Qed.

Lemma NewHandleValue_next index g :
  0 <= index < 2 ^ 18 -> 0 <= g < kGenerations ->
  NewHandleValue index (base_value_of index g) = base_value_of index ((g + 1) mod kGenerations).
Proof.
  unfold kGenerations, base_value_of, NewHandleValue. intros Hi Hg. rewrite generation_mask.
  change kHandleGenerationShift with 18.
  assert ((if index + g * 2 ^ 18 =? 0 then 0
           else Z.shiftr (Z.land (index + g * 2 ^ 18) (Z.shiftl (2 ^ 12 - 1) 18)) 18) = g) as ->.
  { destruct (Z.eqb_spec (index + g * 2 ^ 18) 0); [lia|]. rewrite land_shifted_ones, Z.shiftr_div_pow2, Z.div_mul by lia.
    rewrite Z.div_add, (Z.div_small index) by lia. apply Z.mod_small. lia. }
  rewrite (wrap_small 32 (g + 1)), Z.shiftl_mul_pow2, wrap_small, land_shifted_ones, Z.div_mul by lia.
  by rewrite <-(Z.shiftl_mul_pow2 (_ mod _)), lor_shiftl by lia.
Qed.

(** A slot that was never used, whose memory is zero, starts at generation 1. *)
Lemma NewHandleValue_first index : 0 <= index < 2 ^ 18 -> NewHandleValue index 0 = base_value_of index 1.
Proof.
  intros Hi. unfold NewHandleValue, base_value_of. change (0 =? 0) with true. cbn [negb]. rewrite generation_mask.
  change (Z.land _ _) with (Z.shiftl 1 18). by rewrite lor_shiftl by lia.
Qed.

Lemma base_value_range index g : 0 <= index < 2 ^ 18 -> 0 <= g < kGenerations -> 0 <= base_value_of index g < 2 ^ 30.
Proof. unfold base_value_of, kGenerations. lia. Qed.

Lemma base_value_generation index g : 0 <= index < 2 ^ 18 -> base_value_of index g / 2 ^ 18 = g.
Proof. intros Hi. unfold base_value_of. rewrite Z.div_add, Z.div_small by lia. lia. Qed.

Lemma base_value_inj i g i' g' :
  0 <= i < 2 ^ 18 -> 0 <= i' < 2 ^ 18 -> base_value_of i g = base_value_of i' g' -> i = i' /\ g = g'.
Proof. unfold base_value_of. lia. Qed.

Lemma HandleValueToIndex_base index g :
  0 <= index < 2 ^ 18 -> 0 <= g -> HandleValueToIndex (base_value_of index g) = index.
Proof.
  intros Hi Hg. unfold HandleValueToIndex, base_value_of. change kHandleIndexMask with (2 ^ 18 - 1).
  rewrite land_ones_low, Z_mod_plus_full by lia. by apply Z.mod_small.
Qed.

(** The mixing and its inverse. *)
Lemma mixed_value_spec base mixer :
  0 <= base < 2 ^ 30 -> 0 <= mixer < 2 ^ 32 -> mixer mod 4 = 0 ->
  let v := Z.lxor mixer (Z.lor (wrap32 (Z.shiftl base kHandleReservedBits)) kHandleMustBeOneMask) in
  0 <= v < 2 ^ 32 /\ Z.land v kHandleMustBeOneMask = kHandleMustBeOneMask /\
  Z.shiftr (Z.lxor v mixer) kHandleReservedBits = base.
Proof.
  intros Hb Hm Hm4. change kHandleReservedBits with 2. change kHandleMustBeOneMask with (2 ^ 2 - 1).
  rewrite (Z.lor_comm _ (2 ^ 2 - 1)), wrap_small by (rewrite Z.shiftl_mul_pow2; lia).
  rewrite lor_shiftl by lia. set (x := 2 ^ 2 - 1 + base * 2 ^ 2). assert (0 <= x < 2 ^ 32) as Hx by (unfold x; lia).
  cbn zeta. split; [|split].
  - by apply lxor_bound.
  - rewrite land_ones_low, lxor_mod_pow2 by lia. change (2 ^ 2) with 4 in *. rewrite Hm4. unfold x.
    by rewrite Z_mod_plus_full.
  - rewrite Z.lxor_comm, <-Z.lxor_assoc, Z.lxor_nilpotent, Z.lxor_0_l. rewrite Z.shiftr_div_pow2 by lia.
    unfold x. rewrite Z.div_add by lia. done.
Qed.

(** Conversely a value that passes the check is the mixing of the base value it decodes to. *)
Lemma mixed_value_inv v mixer :
  0 <= v < 2 ^ 32 -> 0 <= mixer < 2 ^ 32 -> mixer mod 4 = 0 ->
  Z.land v kHandleMustBeOneMask = kHandleMustBeOneMask ->
  let base := Z.shiftr (Z.lxor v mixer) kHandleReservedBits in
  Z.lxor mixer (Z.lor (wrap32 (Z.shiftl base kHandleReservedBits)) kHandleMustBeOneMask) = v.
Proof.
  intros Hv Hm Hm4 Hone. change kHandleReservedBits with 2. change kHandleMustBeOneMask with (2 ^ 2 - 1) in *.
  cbn zeta. set (y := Z.lxor v mixer). assert (y mod 4 = 3) as Hy.
  { unfold y. change 4 with (2 ^ 2). rewrite lxor_mod_pow2, <-land_ones_low, Hone by lia.
    change (2 ^ 2) with 4. by rewrite Hm4. }
  assert (0 <= y < 2 ^ 32) as Hlt by (by apply lxor_bound).
  rewrite Z.shiftr_div_pow2 by lia. change (2 ^ 2) with 4.
  assert (Z.lor (wrap32 (Z.shiftl (y / 4) 2)) (4 - 1) = y) as ->.
  { clearbody y. pose proof (Z.div_mod y 4 ltac:(lia)). change (4 - 1) with 3. rewrite Z.lor_comm. rewrite wrap_small by (rewrite Z.shiftl_mul_pow2; lia).
    rewrite lor_shiftl by lia. change (2 ^ 2) with 4. lia. }
  unfold y. by rewrite (Z.lxor_comm v), <-Z.lxor_assoc, Z.lxor_nilpotent, Z.lxor_0_l.
Qed.

(** ** The handles of the system

    The invariant of the arena's memory: a slot that holds no handle has no dispatcher and
    no owning process; a slot that was ever used keeps a base value made of its index and
    a generation; the handle count of an object is the number of handles to it. *)

Section HandleInvariant.
Context {A : Type} `{!SlotArena A, !SlotArenaLaws A}.
Implicit Types s : HandleSys A.

Definition refs_to s (obj : Z) (l : list Z) : Z :=
  zlen (filter (fun a => dispatcher_ (handle_at s a) = Some obj) l).

Definition slot_value s (a v : Z) : Prop :=
  exists i g, 0 <= i < 2 ^ 18 /\ 0 <= g < kGenerations /\
    a = sa_base (hs_arena s) + i * sa_size /\ v = base_value_of i g.

Record hs_inv s : Prop := {
  hi_wf : sa_wf (hs_arena s) (hs_live s);
  hi_capacity : sa_capacity (hs_arena s) <= kMaxHandleCount;
  hi_live : forall a, a ∈ hs_live s -> is_Some (dispatcher_ (handle_at s a));
  hi_free : forall a, a ∉ hs_live s -> dispatcher_ (handle_at s a) = None /\ process_id_ (handle_at s a) = 0;
  hi_value : forall a h, hs_mem s !! a = Some h -> slot_value s a (base_value_ h);
  hi_counts : forall obj, count_of s obj = refs_to s obj (hs_live s);
}.

(** What the handle code keeps outside the slot it works on. *)
Definition generation_at s (a : Z) : Z := base_value_ (handle_at s a) / 2 ^ 18.

Lemma handle_at_set a h s b : handle_at (set_handle a h s) b = if decide (b = a) then h else handle_at s b.
Proof.
  unfold handle_at, set_handle. cbn. destruct (decide (b = a)) as [->|]; [by rewrite lookup_insert_eq|].
  by rewrite lookup_insert_ne.
Qed.

Lemma count_of_set o n s obj : count_of (set_handle_count o n s) obj = if decide (obj = o) then n else count_of s obj.
Proof.
  unfold count_of, set_handle_count. cbn. destruct (decide (obj = o)) as [->|]; [by rewrite lookup_insert_eq|].
  by rewrite lookup_insert_ne.
Qed.

Lemma refs_to_perm s obj l l' : l ≡ₚ l' -> refs_to s obj l = refs_to s obj l'.
Proof. intros H. unfold refs_to, zlen. by rewrite H. Qed.

Lemma refs_to_cons s obj a l :
  refs_to s obj (a :: l) = (if decide (dispatcher_ (handle_at s a) = Some obj) then 1 else 0) + refs_to s obj l.
Proof. unfold refs_to. rewrite filter_cons. case_decide; rewrite ?zlen_cons; lia. Qed.

Lemma refs_to_ext s s' obj l :
  (forall a, a ∈ l -> dispatcher_ (handle_at s a) = dispatcher_ (handle_at s' a)) -> refs_to s obj l = refs_to s' obj l.
Proof.
  induction l as [|a l IH]; intros H; [done|]. rewrite !refs_to_cons, (H a), IH by set_solver. done.
Qed.

(** At most [kMaxHandleCount] handles exist. *)
Lemma live_bound s : hs_inv s -> zlen (hs_live s) <= kMaxHandleCount.
Proof.
  intros Hi. set (slots := (fun i => sa_base (hs_arena s) + i * sa_size) <$> seqZ 0 kMaxHandleCount).
  assert (zlen slots = kMaxHandleCount) as <-.
  { unfold zlen, slots. rewrite length_fmap, length_seqZ. apply Z2Nat.id. unfold kMaxHandleCount. lia. }
  assert (hs_live s ⊆+ slots) as Hsub; [|apply submseteq_length in Hsub; unfold zlen; lia].
  apply NoDup_submseteq; [apply (sa_nodup _ _ (hi_wf s Hi))|]. intros a Ha.
  destruct (sa_live_slot _ _ _ (hi_wf s Hi) Ha) as (_ & _ & i & Hrange & ->).
  apply list_elem_of_fmap. exists i. split; [done|]. apply elem_of_seqZ. pose proof (hi_capacity s Hi). lia.
Qed.

Lemma refs_to_bound s obj l : 0 <= refs_to s obj l <= zlen l.
Proof.
  unfold refs_to, zlen. pose proof (length_filter (fun a => dispatcher_ (handle_at s a) = Some obj) l). lia.
Qed.

(** The index of a slot. *)
Lemma HandleToIndex_slot s i :
  0 <= i < 2 ^ 18 -> HandleToIndex s (sa_base (hs_arena s) + i * sa_size) = i.
Proof.
  intros Hi. pose proof (sa_size_pos (A := A)). unfold HandleToIndex.
  rewrite Z.add_simpl_l, Z.div_mul by lia. apply wrap_small. lia.
Qed.

(** The new base value of a slot has the next generation. *)
Lemma GetNewBaseValue_next s i :
  hs_inv s -> 0 <= i < 2 ^ 18 -> let a := sa_base (hs_arena s) + i * sa_size in
  0 <= generation_at s a < kGenerations /\
  GetNewBaseValue s a = base_value_of i ((generation_at s a + 1) mod kGenerations).
Proof.
  intros Hi Hr a. unfold GetNewBaseValue. unfold a at 3. rewrite HandleToIndex_slot by done.
  unfold generation_at, handle_at. destruct (hs_mem s !! a) as [h|] eqn:Ea; cbn.
  - destruct (hi_value s Hi a h Ea) as (i' & g & Hi' & Hg & E & ->). pose proof (sa_size_pos (A := A)).
    assert (i' = i) as -> by (unfold a in E; nia). rewrite !base_value_generation by done.
    split; [done|]. by apply NewHandleValue_next.
  - split; [done|]. by rewrite NewHandleValue_first.
Qed.

(** [Alloc] followed by the construction of the handle, as in [Make] and [Dup]. *)
Definition place_handle (addr obj rights base_value : Z) s : HandleSys A :=
  set_handle addr (mkHandle ZX_KOID_INVALID (Some obj) rights base_value) s.

Lemma handle_Alloc_none ok obj s s' v :
  hs_inv s -> handle_Alloc ok obj s = (s', 0, v) ->
  hs_inv s' /\ hs_mem s' = hs_mem s /\ hs_live s' = hs_live s /\ hs_log s' = hs_log s /\
  sa_base (hs_arena s') = sa_base (hs_arena s).
Proof.
  intros Hi. unfold handle_Alloc. destruct (sa_alloc ok (hs_arena s)) as [a addr] eqn:Ea.
  destruct (sa_alloc_spec _ _ _ _ _ (hi_wf s Hi) Ea) as (Eb & Ec & H0 & H1).
  destruct (Z.eqb_spec addr 0) as [->|]; [|by intros [= _ -> _]]. intros [= <- _].
  destruct Hi as [Hw Hcap Hl Hf Hv Hc]. split_and!; try done. constructor; cbn; auto; [lia|].
  unfold slot_value in *. cbn. by rewrite Eb.
Qed.

Lemma handle_Alloc_some ok obj rights s s' addr v :
  hs_inv s -> handle_Alloc ok obj s = (s', addr, v) -> addr <> 0 ->
  let s2 := place_handle addr obj rights v s' in
  hs_inv s2 /\ (addr ∉ hs_live s) /\ hs_live s2 = addr :: hs_live s /\ hs_log s2 = hs_log s /\
  sa_base (hs_arena s2) = sa_base (hs_arena s) /\
  (forall b, handle_at s2 b = if decide (b = addr) then mkHandle 0 (Some obj) rights v else handle_at s b) /\
  v / 2 ^ 18 = (generation_at s addr + 1) mod kGenerations.
Proof.
  intros Hi. unfold handle_Alloc. destruct (sa_alloc ok (hs_arena s)) as [a p] eqn:Ea.
  destruct (sa_alloc_spec _ _ _ _ _ (hi_wf s Hi) Ea) as (Eb & Ec & H0 & H1).
  destruct (Z.eqb_spec p 0) as [|Hp]; [by intros [= _ <- _]|]. intros [= Es1 Es2 Es3] _. subst s' addr v. set (s2 := place_handle _ _ _ _ _). destruct (H1 Hp) as [Hwf _].
  pose proof (sa_nodup _ _ Hwf) as [Hnin Hnd]%NoDup_cons.
  destruct (sa_live_slot a (p :: hs_live s) p Hwf ltac:(set_solver)) as (_ & _ & i & Hri & Ep).
  assert (0 <= i < 2 ^ 18) as Hir by (pose proof (hi_capacity s Hi); rewrite Ec in Hri; unfold kMaxHandleCount in *; lia).
  destruct (GetNewBaseValue_next s i Hi Hir) as [Hg Hv]. rewrite Eb in Ep. rewrite <-Ep in Hg, Hv.
  set (v := GetNewBaseValue _ p) in *.
  assert (v = base_value_of i ((generation_at s p + 1) mod kGenerations)) as Ev.
  { rewrite <-Hv. unfold v, GetNewBaseValue, HandleToIndex. cbn. by rewrite Eb. }
  assert (forall b, handle_at s2 b = if decide (b = p) then mkHandle 0 (Some obj) rights v else handle_at s b) as Hat
    by (intros; unfold s2, place_handle; by rewrite handle_at_set).
  pose proof (Z.mod_pos_bound (generation_at s p + 1) kGenerations ltac:(done)).
  split; [|split_and!; try done].
  - constructor; cbn; try done; try (rewrite Ec; apply Hi).
    + intros b Hb. rewrite Hat. case_decide; [done|]. apply (hi_live s Hi). set_solver.
    + intros b Hb. rewrite Hat. rewrite decide_False by set_solver. apply (hi_free s Hi). set_solver.
    + intros b h. unfold slot_value. cbn. rewrite Eb. destruct (decide (b = p)) as [->|].
      * rewrite lookup_insert_eq. intros [= <-]. exists i, ((generation_at s p + 1) mod kGenerations). done.
      * rewrite lookup_insert_ne by done. apply (hi_value s Hi).
    + intros o. assert (handle_at s2 p = mkHandle 0 (Some obj) rights v) as Hs2 by (by rewrite Hat, decide_True).
      rewrite refs_to_cons, Hs2. cbn [dispatcher_].
      rewrite (refs_to_ext s2 s) by (intros b Hb; rewrite Hat, decide_False by congruence; done).
      unfold s2, place_handle. change (count_of (set_handle _ _ ?x) o) with (count_of x o).
      rewrite count_of_set. pose proof (hi_counts s Hi o) as Ho. change (count_of (set_arena _ _ s)) with (count_of s).
      pose proof (live_bound s Hi). pose proof (refs_to_bound s o (hs_live s)). unfold kMaxHandleCount in *.
      destruct (decide (o = obj)) as [->|]; [|rewrite decide_False by congruence; lia].
      rewrite decide_True, wrap_small by (done || lia). lia.
  - by rewrite Ev, base_value_generation.
Qed.

Definition with_pid (pid : Z) (h : Handle) : Handle := mkHandle pid (dispatcher_ h) (rights_ h) (base_value_ h).

Lemma set_process_id_at a pid s b :
  handle_at (set_process_id a pid s) b = if decide (b = a) then with_pid pid (handle_at s a) else handle_at s b.
Proof. rewrite <-(handle_at_set a _ s b). unfold set_process_id, with_pid. by destruct (dispatcher_ (handle_at s a)). Qed.

Lemma set_process_id_frame a pid s :
  hs_arena (set_process_id a pid s) = hs_arena s /\ hs_live (set_process_id a pid s) = hs_live s /\
  hs_counts (set_process_id a pid s) = hs_counts s.
Proof. unfold set_process_id. by destruct (dispatcher_ (handle_at s a)). Qed.

Lemma set_process_id_inv a pid s : hs_inv s -> a ∈ hs_live s -> hs_inv (set_process_id a pid s).
Proof.
  intros Hi Ha. destruct (set_process_id_frame a pid s) as (Ea & El & Ec).
  assert (forall b, dispatcher_ (handle_at (set_process_id a pid s) b) = dispatcher_ (handle_at s b)) as Hd
    by (intros b; rewrite set_process_id_at; by case_decide; subst).
  constructor; rewrite ?Ea, ?El; try apply Hi.
  - intros b Hb. rewrite Hd. by apply (hi_live s Hi).
  - intros b Hb. rewrite Hd, set_process_id_at, decide_False by congruence. by apply (hi_free s Hi).
  - intros b h Hb. unfold slot_value. rewrite Ea.
    assert (hs_mem (set_process_id a pid s) = <[a := with_pid pid (handle_at s a)]> (hs_mem s)) as Em
      by (unfold set_process_id, with_pid; by destruct (dispatcher_ (handle_at s a))).
    rewrite Em in Hb. destruct (decide (b = a)) as [->|]; [|rewrite lookup_insert_ne in Hb by done; by apply (hi_value s Hi)].
    rewrite lookup_insert_eq in Hb. injection Hb as <-. destruct (hi_live s Hi a Ha) as [o Ho]. unfold handle_at in *.
    destruct (hs_mem s !! a) as [h|] eqn:E; [|done]. by apply (hi_value s Hi a h).
  - intros o. unfold count_of. rewrite Ec. etransitivity; [apply (hi_counts s Hi)|]. by apply refs_to_ext.
Qed.

(** ** Looking handles up *)

Lemma live_value a s : hs_inv s -> a ∈ hs_live s -> slot_value s a (base_value_ (handle_at s a)).
Proof.
  intros Hi Ha. destruct (hi_live s Hi a Ha) as [o Ho]. unfold handle_at in *.
  destruct (hs_mem s !! a) as [h|] eqn:E; [|done]. by apply (hi_value s Hi).
Qed.

Lemma FromU32_live a s : hs_inv s -> a ∈ hs_live s -> FromU32 s (base_value_ (handle_at s a)) = a.
Proof.
  intros Hi Ha. destruct (live_value a s Hi Ha) as (i & g & Hr & Hg & Ea & Ev). unfold FromU32, IndexToHandle.
  rewrite Ev, HandleValueToIndex_base, <-Ea by lia.
  destruct (sa_live_slot _ _ _ (hi_wf s Hi) Ha) as (Hc & _). rewrite Hc. cbn [negb].
  by rewrite (sa_confine_committed _ _ _ (hi_wf s Hi) Hc), Ev, Z.eqb_refl.
Qed.

Lemma FromU32_value v s : FromU32 s v <> 0 -> base_value_ (handle_at s (FromU32 s v)) = v.
Proof.
  unfold FromU32. destruct (sa_committed _ _); cbn [negb]; [|done].
  destruct (Z.eqb_spec (base_value_ (handle_at s (sa_confine (hs_arena s) (IndexToHandle s (HandleValueToIndex v))))) v); done.
Qed.

(** What a process may use to mix values. *)
Definition mixer_ok (mixer : Z) : Prop := 0 <= mixer < 2 ^ 32 /\ mixer mod 4 = 0.

Lemma value_roundtrip a mixer s :
  hs_inv s -> a ∈ hs_live s -> mixer_ok mixer ->
  let v := map_handle_to_value s a mixer in
  0 < v < 2 ^ 32 /\ Z.land v kHandleMustBeOneMask = kHandleMustBeOneMask /\ map_value_to_handle s v mixer = a.
Proof.
  intros Hi Ha [Hm Hm4] v. destruct (live_value a s Hi Ha) as (i & g & Hr & Hg & _ & Ev).
  pose proof (base_value_range i g Hr Hg) as Hb. rewrite <-Ev in Hb.
  destruct (mixed_value_spec _ _ Hb Hm Hm4) as (Hrange & Hone & Hback).
  unfold map_value_to_handle. fold (map_handle_to_value s a mixer) in Hrange, Hone, Hback. fold v in Hrange, Hone, Hback.
  rewrite Hone, Z.eqb_refl, Hback. cbn [negb]. split; [|split; [done|by apply FromU32_live]].
  destruct (Z.eq_dec v 0) as [E|]; [by rewrite E in Hone|lia].
Qed.

Lemma value_decoded v mixer s :
  mixer_ok mixer -> 0 <= v < 2 ^ 32 -> map_value_to_handle s v mixer <> 0 ->
  map_handle_to_value s (map_value_to_handle s v mixer) mixer = v.
Proof.
  intros [Hm Hm4] Hv. unfold map_value_to_handle.
  destruct (Z.eqb_spec (Z.land v kHandleMustBeOneMask) kHandleMustBeOneMask) as [Hone|]; cbn [negb]; [|done].
  intros Hne. unfold map_handle_to_value. rewrite FromU32_value by done. by apply mixed_value_inv.
Qed.

(** ** Deleting handles *)

Context (is_waitable : Z -> bool).

Definition torn_down (h : Handle) : Handle := mkHandle (process_id_ h) None (rights_ h) (base_value_ h).

Lemma handle_Delete_fields a obj s :
  dispatcher_ (handle_at s a) = Some obj ->
  let s' := handle_Delete is_waitable a s in let n := wrap32 (count_of s obj - 1) in
  hs_arena s' = sa_free a (hs_arena s) /\ hs_live s' = remove_one a (hs_live s) /\
  hs_mem s' = <[a := torn_down (handle_at s a)]> (hs_mem s) /\ hs_counts s' = <[obj := n]> (hs_counts s) /\
  hs_log s' = hs_log s ++ (if is_waitable obj then [EvCancel obj a] else []) ++ (if n =? 0 then [EvZeroHandles obj] else []).
Proof.
  intros Hobj. cbn zeta. unfold handle_Delete. rewrite Hobj. unfold count_of.
  destruct (is_waitable obj); cbn; destruct (_ =? 0); cbn; by rewrite <-?(assoc_L (++)), ?app_nil_r.
Qed.

(** Deleting a handle: its object loses one handle, and [on_zero_handles] is called when
    no handle to it is left. *)
Lemma handle_Delete_spec a obj s :
  hs_inv s -> a ∈ hs_live s -> process_id_ (handle_at s a) = 0 -> dispatcher_ (handle_at s a) = Some obj ->
  let s' := handle_Delete is_waitable a s in
  hs_inv s' /\ hs_live s ≡ₚ a :: hs_live s' /\ (a ∉ hs_live s') /\
  sa_base (hs_arena s') = sa_base (hs_arena s) /\
  (forall b, handle_at s' b = if decide (b = a) then torn_down (handle_at s a) else handle_at s b) /\
  hs_log s' = hs_log s ++ (if is_waitable obj then [EvCancel obj a] else []) ++
    (if decide (refs_to s' obj (hs_live s') = 0) then [EvZeroHandles obj] else []).
Proof.
  intros Hi Ha Hpid Hobj s'. pose proof (remove_one_perm a (hs_live s) Ha) as Hperm.
  destruct (handle_Delete_fields a obj s Hobj) as (Ear & Eli & Eme & Eco & Elo). fold s' in Ear, Eli, Eme, Eco, Elo.
  set (n := wrap32 (count_of s obj - 1)) in *.
  assert (sa_wf (hs_arena s) (a :: hs_live s')) as Hwf by (rewrite Eli; exact (sa_wf_perm _ _ _ Hperm (hi_wf s Hi))).
  pose proof (sa_nodup _ _ Hwf) as [Hnin _]%NoDup_cons.
  destruct (sa_free_spec _ _ _ Hwf) as (Hwf' & Hb' & Hc' & _). rewrite <-Ear in Hwf', Hb', Hc'.
  assert (forall b, handle_at s' b = if decide (b = a) then torn_down (handle_at s a) else handle_at s b) as Hat.
  { intros b. unfold handle_at at 1. rewrite Eme. exact (handle_at_set a _ s b). }
  assert (forall b, b ∈ hs_live s <-> b = a \/ b ∈ hs_live s') as Hmem.
  { intros b. rewrite Eli. rewrite Hperm at 1. set_solver. }
  assert (forall o, refs_to s' o (hs_live s') = refs_to s o (hs_live s) - (if decide (o = obj) then 1 else 0)) as Hrefs.
  { intros o. rewrite (refs_to_perm s o _ _ Hperm), refs_to_cons, Hobj, <-Eli.
    rewrite (refs_to_ext s' s) by (intros b Hb; rewrite Hat, decide_False by congruence; done).
    repeat case_decide; try congruence; lia. }
  assert (n = refs_to s' obj (hs_live s')) as En.
  { unfold n. rewrite (hi_counts s Hi), Hrefs, decide_True by done. pose proof (refs_to_bound s' obj (hs_live s')).
    rewrite Hrefs, decide_True in H by done. apply wrap_small. pose proof (live_bound s Hi).
    pose proof (refs_to_bound s obj (hs_live s)). unfold kMaxHandleCount in *. lia. }
  split; [|split_and!; try done].
  - constructor; try done; try (rewrite Hc'; apply Hi).
    + intros b Hb. rewrite Hat, decide_False by congruence. apply (hi_live s Hi), Hmem. by right.
    + intros b Hb. rewrite Hat. case_decide; [by subst|]. apply (hi_free s Hi). rewrite Hmem. tauto.
    + intros b h. unfold slot_value. rewrite Eme, Hb'. destruct (decide (b = a)) as [->|].
      * rewrite lookup_insert_eq. intros [= <-]. destruct (hi_live s Hi a Ha) as [o Ho]. unfold handle_at in *.
        destruct (hs_mem s !! a) as [h|] eqn:E; [|done]. by apply (hi_value s Hi a h).
      * rewrite lookup_insert_ne by done. apply (hi_value s Hi).
    + intros o. unfold count_of. rewrite Eco. destruct (decide (o = obj)) as [->|].
      * by rewrite lookup_insert_eq.
      * rewrite lookup_insert_ne by done. fold (count_of s o). rewrite (hi_counts s Hi), Hrefs, decide_False by done. lia.
  - by rewrite Eli.
  - rewrite Elo, En. destruct (Z.eqb_spec (refs_to s' obj (hs_live s')) 0); repeat case_decide; done.
Qed.

End HandleInvariant.
