(* ===== verification/HandleTable.v ===== *)
(** * Handle tables

    Models [zircon/kernel/object/handle_table.cc] with its header: the table of a process,
    looking handle values up, and iterating over a table while it changes.

    A table is changed together with the handles of the system ([HandleSys]), so the
    operations work on the pair. Every method that takes [lock_] is one atomic operation.
    The destructor of a [HandleOwner] is [handle_Delete]. An iterator of the list of handles
    is the handle it points to, or [None] at the end. *)

From S2P Require Import Prelude Types Arena Handle.

(** ** Tables *)

(** A cursor, with what [ForEachHandleBatched] has seen through it: the handles it has
    called the function on, and whether [Next] has returned null. *)
Record HandleCursor := mkCursor {
  iter_ : option Z;
  visited : list Z;
  finished : bool;
}.

Record HandleTable := mkTable {
  random_value_ : Z;
  table_count_ : Z;
  handles_ : list Z;
  cursors_ : gmap Z HandleCursor;
}.

Definition new_HandleTable (secret : Z) : HandleTable :=
  mkTable (wrap32 (Z.shiftl secret kHandleReservedBits)) 0 [] ∅.

(** [iter_++] in the list [l]. *)
Fixpoint next_in (l : list Z) (a : Z) : option Z :=
  match l with
  | [] => None
  | x :: l => if x =? a then hd_error l else next_in l a
  end.

Definition Invalidate (c : HandleCursor) : HandleCursor := mkCursor None (visited c) (finished c).

Definition cursor_Next (l : list Z) (c : HandleCursor) : HandleCursor * option Z :=
  match iter_ c with
  | None => (c, None)
  | Some a => (mkCursor (next_in l a) (visited c) (finished c), Some a)
  end.

Definition AdvanceIf (l : list Z) (h : Z) (c : HandleCursor) : HandleCursor :=
  match iter_ c with
  | None => c
  | Some a => if a =? h then mkCursor (next_in l a) (visited c) (finished c) else c
  end.

Definition kMaxBatchSize : nat := 64.

(** One critical section of [ForEachHandleBatched]. *)
Fixpoint gather (fuel : nat) (l : list Z) (c : HandleCursor) (batch : list Z) : HandleCursor * list Z * bool :=
  match fuel with
  | O => (c, batch, false)
  | S fuel =>
      match cursor_Next l c with
      | (c, None) => (c, batch, true)
      | (c, Some h) => gather fuel l c (batch ++ [h])
      end
  end.

Section Tables.
Context {A : Type} `{!SlotArena A}.
Context (is_waitable : Z -> bool).

Abbreviation TableState := (HandleSys A * HandleTable)%type.

Definition MapHandleToValue (st : TableState) (h : Z) : Z := map_handle_to_value st.1 h (random_value_ st.2).

Definition AddHandle (pid h : Z) (st : TableState) : TableState :=
  let '(s, t) := st in
  (set_process_id h pid s,
   mkTable (random_value_ t) (wrap32 (table_count_ t + 1)) (h :: handles_ t) (cursors_ t)).

Definition GetHandleLocked (pid handle_value : Z) (skip_policy : bool) (st : TableState) : TableState * Z :=
  let '(s, t) := st in
  let handle := map_value_to_handle s handle_value (random_value_ t) in
  if negb (handle =? 0) && (process_id_ (handle_at s handle) =? pid) then (st, handle)
  else if negb skip_policy then ((log_event (EvBadHandle pid) s, t), 0)
  else (st, 0).

(** [RemoveHandleLocked(Handle* )]. *)
Definition RemoveHandleLocked (h : Z) (st : TableState) : TableState :=
  let '(s, t) := st in
  let s := set_process_id h ZX_KOID_INVALID s in
  let cursors := AdvanceIf (handles_ t) h <$> cursors_ t in
  (s, mkTable (random_value_ t) (wrap32 (table_count_ t - 1)) (remove_one h (handles_ t)) cursors).

(** The handle taken out of the table, now owned by the caller, or 0. *)
Definition RemoveHandle (pid handle_value : Z) (st : TableState) : TableState * Z :=
  let '(st, handle) := GetHandleLocked pid handle_value false st in
  if handle =? 0 then (st, 0) else (RemoveHandleLocked handle st, handle).

Definition delete_owner (h : Z) (st : TableState) : TableState := (handle_Delete is_waitable h st.1, st.2).

Fixpoint remove_each (pid : Z) (handles : list Z) (status : zx_status_t) (st : TableState) : TableState * zx_status_t :=
  match handles with
  | [] => (st, status)
  | handle_value :: handles =>
      if handle_value =? ZX_HANDLE_INVALID then remove_each pid handles status st else
      let '(st, handle) := RemoveHandle pid handle_value st in
      if handle =? 0 then remove_each pid handles ZX_ERR_BAD_HANDLE st
      else remove_each pid handles status (delete_owner handle st)
  end.

Definition RemoveHandles (pid : Z) (handles : list Z) (st : TableState) : TableState * zx_status_t :=
  remove_each pid handles ZX_OK st.

(** The critical section of [Clean], and the handles it leaves to be deleted. *)
Definition Clean_locked (st : TableState) : TableState * list Z :=
  let '(s, t) := st in
  let cursors := Invalidate <$> cursors_ t in
  let s := foldl (fun s h => set_process_id h ZX_KOID_INVALID s) s (handles_ t) in
  ((s, mkTable (random_value_ t) 0 [] cursors), handles_ t).

Definition Clean (st : TableState) : TableState :=
  let '(st, to_clean) := Clean_locked st in
  foldl (fun st h => delete_owner h st) st to_clean.

Definition IsHandleValid (pid handle_value : Z) (st : TableState) : TableState * bool :=
  let '(st, handle) := GetHandleLocked pid handle_value false st in (st, negb (handle =? 0)).

(** An object is named by its koid. *)
Definition GetKoidForHandle (pid handle_value : Z) (st : TableState) : TableState * Z :=
  let '(st, handle) := GetHandleLocked pid handle_value false st in
  (st, if handle =? 0 then ZX_KOID_INVALID else default ZX_KOID_INVALID (dispatcher_ (handle_at st.1 handle))).

(** ** Dispatchers of handles

    [downcast] is [DownCastDispatcher<T>]: whether the object has the type asked for. *)

Definition GetDispatcherInternal (pid handle_value : Z) (st : TableState) : TableState * (zx_status_t + (option Z * Z)) :=
  let '(st, handle) := GetHandleLocked pid handle_value false st in
  if handle =? 0 then (st, inl ZX_ERR_BAD_HANDLE)
  else (st, inr (dispatcher_ (handle_at st.1 handle), rights_ (handle_at st.1 handle))).

Definition downcast_to (downcast : Z -> bool) (d : option Z) : option Z :=
  match d with Some o => if downcast o then Some o else None | None => None end.

Definition GetDispatcherAndRights (downcast : Z -> bool) (pid handle_value : Z) (st : TableState)
  : TableState * (zx_status_t + (Z * Z)) :=
  match GetDispatcherInternal pid handle_value st with
  | (st, inl status) => (st, inl status)
  | (st, inr (generic_dispatcher, rights)) =>
      match downcast_to downcast generic_dispatcher with
      | None => (st, inl ZX_ERR_WRONG_TYPE)
      | Some dispatcher => (st, inr (dispatcher, rights))
      end
  end.

Definition GetDispatcherWithRightsImpl (downcast : Z -> bool) (pid handle_value desired_rights : Z)
  (skip_policy : bool) (st : TableState) : TableState * (zx_status_t + (Z * Z)) :=
  let '(st, handle) := GetHandleLocked pid handle_value skip_policy st in
  if handle =? 0 then (st, inl ZX_ERR_BAD_HANDLE) else
  let h := handle_at st.1 handle in
  let has_desired_rights := HasRights h desired_rights in
  match downcast_to downcast (dispatcher_ h) with
  | None => (st, inl ZX_ERR_WRONG_TYPE)
  | Some dispatcher =>
      if negb has_desired_rights then (st, inl ZX_ERR_ACCESS_DENIED)
      else (st, inr (dispatcher, rights_ h))
  end.

(** ** Iterating *)

(** [ForEachHandleLocked], with the state of the function threaded through. *)
Fixpoint for_each_handle {S : Type} (func : Z -> Z -> option Z -> S -> S * zx_status_t) (st : TableState) (l : list Z) (x : S)
  : S * zx_status_t :=
  match l with
  | [] => (x, ZX_OK)
  | h :: l =>
      let '(x, s) := func (MapHandleToValue st h) (rights_ (handle_at st.1 h)) (dispatcher_ (handle_at st.1 h)) x in
      if negb (bool_decide (s = ZX_OK)) then (x, s) else for_each_handle func st l x
  end.

Definition ForEachHandleLocked {S : Type} (func : Z -> Z -> option Z -> S -> S * zx_status_t) (st : TableState) (x : S) : S * zx_status_t :=
  for_each_handle func st (handles_ st.2) x.

Definition new_HandleCursor (cid : Z) (t : HandleTable) : HandleTable :=
  mkTable (random_value_ t) (table_count_ t) (handles_ t)
    (<[cid := mkCursor (hd_error (handles_ t)) [] false]> (cursors_ t)).

Definition delete_HandleCursor (cid : Z) (t : HandleTable) : HandleTable :=
  mkTable (random_value_ t) (table_count_ t) (handles_ t) (delete cid (cursors_ t)).

(** One iteration of the loop of [ForEachHandleBatched] when the function accepts every
    handle: a batch is gathered and the function called on it. *)
Definition batch_step (cid : Z) (t : HandleTable) : HandleTable :=
  match cursors_ t !! cid with
  | None => t
  | Some c =>
      if finished c then t else
      let '(c, batch, done) := gather kMaxBatchSize (handles_ t) c [] in
      mkTable (random_value_ t) (table_count_ t) (handles_ t)
        (<[cid := mkCursor (iter_ c) (visited c ++ batch) done]> (cursors_ t))
  end.

(** ** Handle info

    The array has a fixed number of entries; storing past its end is [None]. Each round
    of the loop is given the table when the count was read, whether the array could be
    allocated, and the table when the lock was taken again. *)

Record zx_info_handle_extended_t := mkInfo {
  info_type : Z;
  info_handle_value : Z;
  info_rights : Z;
  info_reserved : Z;
  info_koid : Z;
  info_related_koid : Z;
  info_peer_owner_koid : Z;
}.

Definition store_entry (index : Z) (entry : zx_info_handle_extended_t) (arr : list (option zx_info_handle_extended_t))
  : option (list (option zx_info_handle_extended_t)) :=
  if (0 <=? index) && (index <? zlen arr) then Some (<[Z.to_nat index := Some entry]> arr) else None.

Context (get_type get_related_koid : Z -> Z).

Definition fill_entry (handle rights : Z) (disp : option Z) (x : option (list (option zx_info_handle_extended_t) * Z))
  : option (list (option zx_info_handle_extended_t) * Z) * zx_status_t :=
  (match x, disp with
   | Some (arr, index), Some disp =>
       match store_entry index (mkInfo (get_type disp) handle rights 0 disp (get_related_koid disp) 0) arr with
       | Some arr => Some (arr, index + 1)
       | None => None
       end
   | _, _ => None
   end, ZX_OK).

(** What a round gives: out of memory, the array, another round, or a bad store. *)
Inductive InfoResult :=
| InfoNoMemory
| InfoArray (arr : list (option zx_info_handle_extended_t))
| InfoFault.

Fixpoint GetHandleInfo (rounds : list (TableState * bool * TableState)) : option InfoResult :=
  match rounds with
  | [] => None
  | (st0, ac, st) :: rounds =>
      let count := table_count_ st0.2 in
      if negb ac then Some InfoNoMemory
      else if negb (count =? table_count_ st.2) then GetHandleInfo rounds
      else match (ForEachHandleLocked fill_entry st (Some (replicate (Z.to_nat count) None, 0))).1 with
           | Some (arr, _) => Some (InfoArray arr)
           | None => Some InfoFault
           end
  end.

End Tables.

(** ** The tables of all processes

    The steps the kernel takes on handles: the guards are what owning a handle means (a
    [HandleOwner] is the only reference to a handle that is in no table). *)

Section System.
Context {A : Type} `{!SlotArena A}.
Context (is_waitable : Z -> bool).

Record TableSys := mkTS {
  ts_sys : HandleSys A;
  ts_tables : gmap Z HandleTable;
}.

Inductive TableOp :=
| OpNewTable (pid secret : Z)
| OpMake (ok : bool) (obj rights : Z)
| OpDup (ok : bool) (source rights : Z)
| OpDelete (h : Z)
| OpAdd (pid h : Z)
| OpLookup (pid value : Z) (skip_policy : bool)
| OpRemove (pid value : Z)
| OpRemoveHandles (pid : Z) (values : list Z)
| OpClean (pid : Z)
| OpCursor (pid cid : Z)
| OpBatch (pid cid : Z)
| OpCursorDone (pid cid : Z).

Definition on_table (pid : Z) (f : HandleSys A * HandleTable -> HandleSys A * HandleTable) (ts : TableSys) : option TableSys :=
  match ts_tables ts !! pid with
  | None => None
  | Some t => let '(s, t) := f (ts_sys ts, t) in Some (mkTS s (<[pid := t]> (ts_tables ts)))
  end.

(** The caller holds the [HandleOwner] of [h]. *)
Definition owner_held (h : Z) (ts : TableSys) : bool :=
  bool_decide (h ∈ hs_live (ts_sys ts)) && (process_id_ (handle_at (ts_sys ts) h) =? ZX_KOID_INVALID).

Definition table_step (op : TableOp) (ts : TableSys) : option TableSys :=
  match op with
  | OpNewTable pid secret =>
      if (pid =? ZX_KOID_INVALID) || bool_decide (is_Some (ts_tables ts !! pid)) then None
      else Some (mkTS (ts_sys ts) (<[pid := new_HandleTable secret]> (ts_tables ts)))
  | OpMake ok obj rights => Some (mkTS (handle_Make ok obj rights (ts_sys ts)).1 (ts_tables ts))
  | OpDup ok source rights =>
      if bool_decide (source ∈ hs_live (ts_sys ts))
      then Some (mkTS (handle_Dup ok source rights (ts_sys ts)).1 (ts_tables ts)) else None
  | OpDelete h =>
      if owner_held h ts then Some (mkTS (handle_Delete is_waitable h (ts_sys ts)) (ts_tables ts)) else None
  | OpAdd pid h => if owner_held h ts then on_table pid (AddHandle pid h) ts else None
  | OpLookup pid value skip_policy => on_table pid (fun st => (GetHandleLocked pid value skip_policy st).1) ts
  | OpRemove pid value => on_table pid (fun st => (RemoveHandle pid value st).1) ts
  | OpRemoveHandles pid values => on_table pid (fun st => (RemoveHandles is_waitable pid values st).1) ts
  | OpClean pid => on_table pid (fun st => (Clean_locked st).1) ts
  | OpCursor pid cid => on_table pid (fun st => (st.1, new_HandleCursor cid st.2)) ts
  | OpBatch pid cid => on_table pid (fun st => (st.1, batch_step cid st.2)) ts
  | OpCursorDone pid cid => on_table pid (fun st => (st.1, delete_HandleCursor cid st.2)) ts
  end.

Fixpoint table_run (ops : list TableOp) (ts : TableSys) : option TableSys :=
  match ops with
  | [] => Some ts
  | op :: ops => match table_step op ts with Some ts => table_run ops ts | None => None end
  end.

(** No handle and no table yet. *)
Definition boot (a : A) : TableSys := mkTS (mkHSys a ∅ ∅ [] []) ∅.

End System.
Arguments TableSys : clear implicits.

#[global] Instance TableOp_eq_dec : EqDecision TableOp.
Proof. solve_decision. Defined.

(** ** Iterators over a list that changes *)

Fixpoint suffix_from (a : Z) (l : list Z) : list Z :=
  match l with
  | [] => []
  | x :: l' => if x =? a then l else suffix_from a l'
  end.

(** The handles an iterator has in front of it. *)
Definition remaining (l : list Z) (it : option Z) : list Z :=
  match it with Some a => suffix_from a l | None => [] end.

Lemma suffix_from_in a l : a ∈ l -> exists pre post, l = pre ++ a :: post /\ suffix_from a l = a :: post.
Proof.
  induction l as [|x l IH]; [by intros ?%elem_of_nil|]. intros Ha. cbn. destruct (Z.eqb_spec x a) as [->|].
  - by exists [], l.
  - destruct IH as (pre & post & -> & ->); [set_solver|]. by exists (x :: pre), post.
Qed.

Lemma remaining_suffix l it : (forall a, it = Some a -> a ∈ l) -> exists pre, l = pre ++ remaining l it.
Proof.
  destruct it as [a|]; intros H; [|exists l; by rewrite app_nil_r].
  destruct (suffix_from_in a l (H a eq_refl)) as (pre & post & E & Es). exists pre. cbn. by rewrite Es.
Qed.

Lemma suffix_from_split pre a post : a ∉ pre -> suffix_from a (pre ++ a :: post) = a :: post.
Proof.
  induction pre as [|x pre IH]; intros H; cbn; [by rewrite Z.eqb_refl|].
  destruct (Z.eqb_spec x a); [set_solver|]. apply IH. set_solver.
Qed.

Lemma next_in_split pre a post : a ∉ pre -> next_in (pre ++ a :: post) a = hd_error post.
Proof.
  induction pre as [|x pre IH]; intros H; cbn; [by rewrite Z.eqb_refl|].
  destruct (Z.eqb_spec x a); [set_solver|]. apply IH. set_solver.
Qed.

Lemma remaining_hd pre post : NoDup (pre ++ post) -> remaining (pre ++ post) (hd_error post) = post.
Proof.
  destruct post as [|b post]; [done|]. intros (_ & H & _)%NoDup_app. apply suffix_from_split.
  intros Hb. apply (H b Hb). set_solver.
Qed.

(** [iter_++] drops the first of the handles in front. *)
Lemma remaining_next l a :
  NoDup l -> a ∈ l -> suffix_from a l = a :: remaining l (next_in l a) /\ (forall b, next_in l a = Some b -> b ∈ l /\ b <> a).
Proof.
  intros Hnd Ha. destruct (suffix_from_in a l Ha) as (pre & post & -> & ->).
  pose proof Hnd as (_ & Hdis & [Hap _]%NoDup_cons)%NoDup_app.
  rewrite next_in_split by (intros Hi; apply (Hdis a Hi); set_solver). split.
  - f_equal. symmetry. replace (pre ++ a :: post) with ((pre ++ [a]) ++ post) in * by by rewrite <-(assoc_L (++)).
    by apply remaining_hd.
  - destruct post; intros b [= <-]. set_solver.
Qed.

Lemma remove_one_notin h l : h ∉ l -> remove_one h l = l.
Proof.
  induction l as [|x l IH]; intros H; [done|]. cbn. destruct (Z.eqb_spec x h); [set_solver|]. f_equal. apply IH. set_solver.
Qed.

Lemma remove_one_split pre h post : h ∉ pre -> remove_one h (pre ++ h :: post) = pre ++ post.
Proof.
  induction pre as [|x pre IH]; intros H; cbn; [by rewrite Z.eqb_refl|].
  destruct (Z.eqb_spec x h); [set_solver|]. f_equal. apply IH. set_solver.
Qed.

(** Taking [h] out of the list, with [AdvanceIf], takes [h] out of what is in front. *)
Lemma remaining_AdvanceIf l h c :
  NoDup l -> h ∈ l -> (forall a, iter_ c = Some a -> a ∈ l) ->
  remaining (remove_one h l) (iter_ (AdvanceIf l h c)) = remove_one h (remaining l (iter_ c)).
Proof.
  intros Hnd Hh Hit. unfold AdvanceIf. destruct (iter_ c) as [a|] eqn:Ei; [|by rewrite Ei].
  specialize (Hit a eq_refl). destruct (suffix_from_in h l Hh) as (pre & post & -> & _).
  pose proof Hnd as (_ & Hdis & [Hhp Hndp]%NoDup_cons)%NoDup_app.
  assert (h ∉ pre) as Hpre by (intros Hi; apply (Hdis h Hi); set_solver).
  rewrite remove_one_split by done. destruct (Z.eqb_spec a h) as [->|Hne]; cbn [iter_ remaining].
  - rewrite next_in_split, suffix_from_split by done. cbn. rewrite Z.eqb_refl. apply remaining_hd.
    rewrite <-Permutation_middle in Hnd. by apply NoDup_cons in Hnd as [_ ?].
  - rewrite Ei. cbn. apply elem_of_app in Hit as [Hit|Hit]; [|apply elem_of_cons in Hit as [?|Hit]; [done|]].
    + apply list_elem_of_split in Hit as (p1 & p2 & ->).
      assert (a ∉ p1) as Hp1 by (apply NoDup_app in Hnd as (Hn & _); apply NoDup_app in Hn as (_ & Hd & _); intros Hi; apply (Hd a Hi); set_solver).
      rewrite <-!(assoc_L (++)). cbn [app]. rewrite !suffix_from_split by done.
      symmetry. apply (remove_one_split (a :: p2)). set_solver.
    + apply list_elem_of_split in Hit as (p1 & p2 & ->).
      assert (a ∉ p1) as Hp1 by (apply NoDup_app in Hndp as (_ & Hd & _); intros Hi; apply (Hd a Hi); set_solver).
      assert (a ∉ pre) as Hp2 by (intros Hi; apply (Hdis a Hi); set_solver).
      replace (pre ++ h :: p1 ++ a :: p2) with ((pre ++ h :: p1) ++ a :: p2) by (by rewrite <-(assoc_L (++))).
      rewrite (assoc_L (++)), !suffix_from_split by set_solver. rewrite remove_one_notin by set_solver. done.
Qed.

(** ** The invariant *)

Section TableInvariant.
Context {A : Type} `{!SlotArena A, !SlotArenaLaws A}.
Implicit Types (s : HandleSys A) (t : HandleTable) (st : HandleSys A * HandleTable) (ts : TableSys A).

(** Slot [a] holds a handle of process [q], or one held by a [HandleOwner] when [q] is 0. *)
Definition owned s (q a : Z) : Prop := a ∈ hs_live s /\ process_id_ (handle_at s a) = q.

Record table_wf s (pid : Z) t : Prop := {
  tw_pid : pid <> 0;
  tw_mixer : mixer_ok (random_value_ t);
  tw_nodup : NoDup (handles_ t);
  tw_owned : forall a, a ∈ handles_ t <-> owned s pid a;
  tw_count : table_count_ t = zlen (handles_ t);
  tw_cursors : map_Forall (fun _ c => forall a, iter_ c = Some a -> a ∈ handles_ t) (cursors_ t);
}.

Definition st_inv (pid : Z) st : Prop := hs_inv st.1 /\ table_wf st.1 pid st.2.

Record ts_inv ts : Prop := {
  ti_sys : hs_inv (ts_sys ts);
  ti_tables : map_Forall (fun pid t => table_wf (ts_sys ts) pid t) (ts_tables ts);
  ti_owner : forall q a, owned (ts_sys ts) q a -> q = 0 \/ is_Some (ts_tables ts !! q);
}.

(** What an operation of process [pid] leaves alone. *)
Record frame (pid : Z) s s' : Prop := {
  fr_owned : forall q a, q <> 0 -> q <> pid -> owned s' q a <-> owned s q a;
  fr_live : forall a, a ∈ hs_live s' -> a ∈ hs_live s;
  fr_value : forall a, base_value_ (handle_at s' a) = base_value_ (handle_at s a);
  fr_base : sa_base (hs_arena s') = sa_base (hs_arena s);
}.

Lemma frame_refl pid s : frame pid s s.
Proof. done. Qed.

Lemma frame_trans pid s1 s2 s3 : frame pid s1 s2 -> frame pid s2 s3 -> frame pid s1 s3.
Proof.
  intros [H1 H2 H3 H3'] [H4 H5 H6 H6']. constructor; [|auto|congruence..]. intros q a ? ?. by rewrite H4, H1.
Qed.

(** A table only depends on who owns which handles. *)
Lemma table_wf_ext s s' pid t : (forall a, owned s' pid a <-> owned s pid a) -> table_wf s pid t -> table_wf s' pid t.
Proof. intros H []. constructor; try done. intros a. by rewrite H. Qed.

Lemma ts_inv_update ts pid t s' t' :
  ts_inv ts -> ts_tables ts !! pid = Some t -> st_inv pid (s', t') -> frame pid (ts_sys ts) s' ->
  ts_inv (mkTS s' (<[pid := t']> (ts_tables ts))).
Proof.
  intros [Hi Ht Ho] Hp [Hi' Ht'] Hf. cbn in *. constructor; cbn; [done| |].
  - intros q u. destruct (decide (q = pid)) as [->|]; [rewrite lookup_insert_eq; by intros [= <-]|].
    rewrite lookup_insert_ne by done. intros Hq. pose proof (Ht q u Hq) as Hu.
    apply (table_wf_ext (ts_sys ts)); [|done]. intros a. apply Hf; [apply Hu|done].
  - intros q a Hq. destruct (decide (q = 0)) as [|]; [by left|right]. destruct (decide (q = pid)) as [->|].
    + by rewrite lookup_insert_eq.
    + rewrite lookup_insert_ne by done. apply (fr_owned _ _ _ Hf) in Hq; [|done..]. by destruct (Ho q a Hq).
Qed.

(** Operations on handles that are in no table. *)
Lemma ts_inv_sys ts s' :
  ts_inv ts -> hs_inv s' -> (forall q a, q <> 0 -> owned s' q a <-> owned (ts_sys ts) q a) -> ts_inv (mkTS s' (ts_tables ts)).
Proof.
  intros [Hi Ht Ho] Hi' Hf. constructor; cbn; [done| |].
  - intros q u Hq. pose proof (Ht q u Hq) as Hu. apply (table_wf_ext (ts_sys ts)); [|done].
    intros a. apply Hf, Hu.
  - intros q a Hq. destruct (decide (q = 0)) as [|Hne]; [by left|right]. apply (Hf q a Hne) in Hq. by destruct (Ho q a Hq).
Qed.

Lemma log_event_inv e s : hs_inv s -> hs_inv (log_event e s).
Proof. intros []. by constructor. Qed.

Lemma owned_set_process_id h pid s q a :
  owned (set_process_id h pid s) q a <-> (if decide (a = h) then a ∈ hs_live s /\ q = pid else owned s q a).
Proof.
  unfold owned. destruct (set_process_id_frame h pid s) as (_ & -> & _). rewrite set_process_id_at.
  case_decide; cbn; intuition congruence.
Qed.

Lemma set_process_id_value h pid s a : base_value_ (handle_at (set_process_id h pid s) a) = base_value_ (handle_at s a).
Proof. rewrite set_process_id_at. by case_decide; subst. Qed.

(** The table of a process holds fewer handles than the counter can count. *)
Lemma table_length pid st : st_inv pid st -> zlen (handles_ st.2) <= kMaxHandleCount.
Proof.
  intros [Hi Ht]. pose proof (live_bound _ Hi).
  assert (handles_ st.2 ⊆+ hs_live st.1) as Hsub; [|apply submseteq_length in Hsub; unfold zlen in *; lia].
  apply NoDup_submseteq; [apply Ht|]. intros a Ha. by apply (tw_owned _ _ _ Ht).
Qed.

(** ** The operations *)

Lemma AddHandle_inv pid h st :
  st_inv pid st -> owned st.1 0 h -> st_inv pid (AddHandle pid h st) /\ frame pid st.1 (AddHandle pid h st).1.
Proof.
  destruct st as [s t]. intros [Hi Ht] [Hl Hp]. cbn in *. pose proof (tw_pid _ _ _ Ht) as Hpid.
  assert (h ∉ handles_ t) as Hnin by (intros [_ H]%(tw_owned _ _ _ Ht); congruence).
  pose proof (set_process_id_inv h pid s Hi Hl) as Hi'.
  assert (table_wf (set_process_id h pid s) pid
    (mkTable (random_value_ t) (zlen (h :: handles_ t)) (h :: handles_ t) (cursors_ t))) as Hw.
  { constructor; cbn; try apply Ht; try done.
    - constructor; [done|apply Ht].
    - intros a. rewrite owned_set_process_id, elem_of_cons, (tw_owned _ _ _ Ht). case_decide; [by intuition subst|naive_solver].
    - intros c cu Hc a Ha. apply elem_of_cons. right. by apply (tw_cursors _ _ _ Ht c cu). }
  split; [|constructor].
  - split; [done|]. cbn. rewrite (tw_count _ _ _ Ht).
    pose proof (table_length pid (_, _) (conj Hi' Hw)) as Hlen. cbn in Hlen. rewrite zlen_cons in *.
    rewrite wrap_small by (unfold kMaxHandleCount in *; pose proof (zlen_nonneg (handles_ t)); lia).
    by rewrite (Z.add_comm _ 1).
  - intros q a Hq0 Hq. cbn. rewrite owned_set_process_id. case_decide; [subst|done]. unfold owned. intuition congruence.
  - cbn. by destruct (set_process_id_frame h pid s) as (_ & -> & _).
  - intros a. apply set_process_id_value.
  - cbn. by destruct (set_process_id_frame h pid s) as (-> & _).
Qed.

(** A lookup that succeeds gives a handle of this table. *)
Lemma GetHandleLocked_inv pid v skip st :
  st_inv pid st -> let '(st', h) := GetHandleLocked pid v skip st in
  st_inv pid st' /\ frame pid st.1 st'.1 /\ st'.2 = st.2 /\
  (h <> 0 -> st' = st /\ h ∈ handles_ st.2 /\ map_value_to_handle st.1 v (random_value_ st.2) = h).
Proof.
  destruct st as [s t]. intros [Hi Ht]. cbn in *.
  destruct (Z.eqb_spec (map_value_to_handle s v (random_value_ t)) 0) as [E|E]; cbn [negb andb].
  2: destruct (Z.eqb_spec (process_id_ (handle_at s (map_value_to_handle s v (random_value_ t)))) pid) as [Ep|Ep].
  2:{ split; [done|]. split; [apply frame_refl|]. split; [done|]. intros _. split; [done|]. split; [|done].
      apply (tw_owned _ _ _ Ht). split; [|done]. destruct (decide (map_value_to_handle s v (random_value_ t) ∈ hs_live s)); [done|].
      exfalso. destruct (hi_free s Hi _ n) as [_ Hz]. pose proof (tw_pid _ _ _ Ht). congruence. }
  all: destruct skip; cbn [negb]; (split; [|split; [done|split; [done|done]]]); [done|].
  all: split; [by apply log_event_inv|]; cbn; by apply (table_wf_ext s).
Qed.

Lemma AdvanceIf_in l h c a :
  NoDup l -> (forall b, iter_ c = Some b -> b ∈ l) -> iter_ (AdvanceIf l h c) = Some a -> a ∈ l /\ a <> h.
Proof.
  intros Hnd Hc. unfold AdvanceIf. destruct (iter_ c) as [b|] eqn:E; [|congruence].
  destruct (Z.eqb_spec b h) as [->|]; cbn.
  - intros Hn. by apply (remaining_next l h Hnd (Hc h eq_refl)).
  - rewrite E. intros [= <-]. auto.
Qed.

Lemma remove_one_elem h l a : NoDup l -> h ∈ l -> a ∈ remove_one h l <-> a ∈ l /\ a <> h.
Proof.
  intros Hnd Hh. pose proof (remove_one_perm h l Hh) as Hp. rewrite Hp in Hnd. apply NoDup_cons in Hnd as [Hn _].
  rewrite Hp at 2. rewrite elem_of_cons. split; [|naive_solver]. intros Ha. split; [by right|congruence].
Qed.

Lemma RemoveHandleLocked_inv pid h st :
  st_inv pid st -> h ∈ handles_ st.2 ->
  let st' := RemoveHandleLocked h st in st_inv pid st' /\ frame pid st.1 st'.1 /\ owned st'.1 0 h.
Proof.
  destruct st as [s t]. intros [Hi Ht] Hh. cbn in *. pose proof Hh as [Hl Hp]%(tw_owned _ _ _ Ht).
  pose proof (remove_one_perm h _ Hh) as Hperm.
  assert (forall q a, owned (set_process_id h 0 s) q a <-> if decide (a = h) then a ∈ hs_live s /\ q = 0 else owned s q a) as Ho
    by (intros; apply owned_set_process_id).
  split; [split; [by apply set_process_id_inv|]|split; [constructor|]].
  - constructor; cbn; try apply Ht.
    + pose proof (tw_nodup _ _ _ Ht) as Hnd. rewrite Hperm in Hnd. by apply NoDup_cons in Hnd as [_ ?].
    + intros a. rewrite remove_one_elem by (done || apply Ht). rewrite Ho, (tw_owned _ _ _ Ht).
      pose proof (tw_pid _ _ _ Ht). case_decide; naive_solver.
    + rewrite (tw_count _ _ _ Ht). pose proof (table_length pid (s, t) (conj Hi Ht)) as Hlen. cbn in Hlen.
      assert (zlen (handles_ t) = 1 + zlen (remove_one h (handles_ t))) as E by (unfold zlen; rewrite Hperm at 1; cbn; lia).
      rewrite wrap_small; [lia|]. unfold kMaxHandleCount in *. pose proof (zlen_nonneg (remove_one h (handles_ t))). lia.
    + intros c cu (c0 & <- & Hc)%lookup_fmap_Some a Ha. rewrite remove_one_elem by (done || apply Ht).
      eapply AdvanceIf_in; [apply Ht|apply (tw_cursors _ _ _ Ht c c0 Hc)|done].
  - intros q a Hq Hqp. rewrite Ho. case_decide; [subst|done]. unfold owned. intuition congruence.
  - by destruct (set_process_id_frame h ZX_KOID_INVALID s) as (_ & -> & _).
  - intros a. apply set_process_id_value.
  - by destruct (set_process_id_frame h ZX_KOID_INVALID s) as (-> & _).
  - by rewrite Ho, decide_True.
Qed.

Lemma RemoveHandle_inv pid v st :
  st_inv pid st -> let '(st', h) := RemoveHandle pid v st in
  st_inv pid st' /\ frame pid st.1 st'.1 /\ (h <> 0 -> h ∈ handles_ st.2 /\ owned st'.1 0 h).
Proof.
  intros Hs. pose proof (GetHandleLocked_inv pid v false st Hs) as H. unfold RemoveHandle.
  destruct (GetHandleLocked pid v false st) as [st1 h]. destruct H as (Hs1 & Hf & _ & Hh).
  destruct (Z.eqb_spec h 0) as [->|Hne]; [done|]. destruct (Hh Hne) as (-> & Hin & _).
  by destruct (RemoveHandleLocked_inv pid h st Hs Hin) as (? & ? & ?).
Qed.

(** The destructor of a [HandleOwner]. *)
Lemma handle_Delete_frame (is_waitable : Z -> bool) h s :
  hs_inv s -> owned s 0 h -> let s' := handle_Delete is_waitable h s in
  hs_inv s' /\ (forall q a, owned s' q a <-> owned s q a /\ a <> h) /\
  (forall a, base_value_ (handle_at s' a) = base_value_ (handle_at s a)) /\
  sa_base (hs_arena s') = sa_base (hs_arena s).
Proof.
  intros Hi [Hl Hp]. destruct (hi_live s Hi h Hl) as [obj Hobj]. intros s'.
  destruct (handle_Delete_spec is_waitable h obj s Hi Hl Hp Hobj) as (Hi' & Hperm & Hn & Hb & Hat & _).
  fold s' in Hi', Hperm, Hn, Hat, Hb. split; [done|]. split; [|split; [|done]].
  - intros q a. assert (a ∈ hs_live s <-> a = h \/ a ∈ hs_live s') as Hm by (rewrite Hperm; apply elem_of_cons).
    unfold owned. rewrite Hat, Hm. case_decide; naive_solver.
  - intros a. rewrite Hat. by case_decide; subst.
Qed.

Lemma delete_owner_inv (is_waitable : Z -> bool) pid h st :
  st_inv pid st -> owned st.1 0 h ->
  let st' := delete_owner is_waitable h st in st_inv pid st' /\ frame pid st.1 st'.1.
Proof.
  destruct st as [s t]. intros [Hi Ht] Ho. destruct (handle_Delete_frame is_waitable h s Hi Ho) as (Hi' & Ho' & Hv & Hb).
  cbn in *. destruct Ho as [Hl Hp]. split; [split; [done|]|constructor; cbn; [| |done..]].
  - apply (table_wf_ext s); [|done]. intros a. rewrite Ho'. pose proof (tw_pid _ _ _ Ht). unfold owned. naive_solver.
  - intros q a Hq _. rewrite Ho'. unfold owned. naive_solver.
  - intros a Ha. destruct (Ho' (process_id_ (handle_at (handle_Delete is_waitable h s) a)) a) as [H _].
    by destruct (H (conj Ha eq_refl)) as [[? _] _].
Qed.

Lemma remove_each_inv (is_waitable : Z -> bool) pid vs status st :
  st_inv pid st -> let st' := (remove_each is_waitable pid vs status st).1 in st_inv pid st' /\ frame pid st.1 st'.1.
Proof.
  revert status st. induction vs as [|v vs IH]; intros status st Hs; cbn; [done|].
  destruct (v =? ZX_HANDLE_INVALID); [by apply IH|].
  pose proof (RemoveHandle_inv pid v st Hs) as H. destruct (RemoveHandle pid v st) as [st1 h].
  destruct H as (Hs1 & Hf1 & Hh). destruct (Z.eqb_spec h 0) as [|Hne].
  - destruct (IH ZX_ERR_BAD_HANDLE st1 Hs1) as [? Hf2]. split; [done|]. by eapply frame_trans.
  - destruct (Hh Hne) as [_ Ho]. destruct (delete_owner_inv is_waitable pid h st1 Hs1 Ho) as [Hs2 Hf2].
    destruct (IH status _ Hs2) as [? Hf3]. split; [done|]. eapply frame_trans; [done|]. by eapply frame_trans.
Qed.

Lemma release_all l s :
  hs_inv s -> (forall a, a ∈ l -> a ∈ hs_live s) ->
  let s' := foldl (fun s h => set_process_id h ZX_KOID_INVALID s) s l in
  hs_inv s' /\ hs_live s' = hs_live s /\ sa_base (hs_arena s') = sa_base (hs_arena s) /\
  (forall q a, owned s' q a <-> if decide (a ∈ l) then a ∈ hs_live s /\ q = 0 else owned s q a) /\
  (forall a, base_value_ (handle_at s' a) = base_value_ (handle_at s a)).
Proof.
  revert s. induction l as [|h l IH]; intros s Hi Hl; cbn.
  - by split_and!.
  - destruct (set_process_id_frame h ZX_KOID_INVALID s) as (Ea & El & _).
    destruct (IH (set_process_id h ZX_KOID_INVALID s)) as (Hi' & Hl' & Hb & Ho & Hv).
    { apply set_process_id_inv; [done|]. apply Hl. set_solver. }
    { intros a Ha. rewrite El. apply Hl. set_solver. }
    rewrite Hl', El. split_and!; [done|done|by rewrite Hb, Ea| |].
    + intros q a. rewrite Ho. pose proof (owned_set_process_id h ZX_KOID_INVALID s q a) as Hq. rewrite El.
      repeat case_decide; set_solver.
    + intros a. rewrite Hv. apply set_process_id_value.
Qed.

Lemma Clean_locked_inv pid st :
  st_inv pid st -> let st' := (Clean_locked st).1 in st_inv pid st' /\ frame pid st.1 st'.1 /\
    (forall a, a ∈ handles_ st.2 -> owned st'.1 0 a).
Proof.
  destruct st as [s t]. intros [Hi Ht]. cbn in *.
  destruct (release_all (handles_ t) s Hi) as (Hi' & El & Hb & Ho & Hv); [by intros a [? _]%(tw_owned _ _ _ Ht)|].
  split; [split; [done|]|split; [constructor|]]; cbn.
  - constructor; cbn; try apply Ht; try done.
    + constructor.
    + intros a. rewrite Ho. split; [by intros ?%elem_of_nil|]. pose proof (tw_pid _ _ _ Ht).
      case_decide as Ha; [naive_solver|]. intros Hp%(tw_owned _ _ _ Ht). done.
    + intros c cu (c0 & <- & Hc)%lookup_fmap_Some a. done.
  - intros q a Hq Hqp. rewrite Ho. case_decide as Ha; [|done]. apply (tw_owned _ _ _ Ht) in Ha. unfold owned in *. naive_solver.
  - intros a. by rewrite El.
  - done.
  - done.
  - intros a Ha. rewrite Ho, decide_True by done. by apply (tw_owned _ _ _ Ht) in Ha as [? _].
Qed.

(** ** Cursors *)

Lemma gather_spec fuel l c batch :
  NoDup l -> (forall a, iter_ c = Some a -> a ∈ l) ->
  let '(c', batch', done) := gather fuel l c batch in
  batch' = batch ++ take fuel (remaining l (iter_ c)) /\ remaining l (iter_ c') = drop fuel (remaining l (iter_ c)) /\
  (forall a, iter_ c' = Some a -> a ∈ l) /\ visited c' = visited c /\
  (done = true -> remaining l (iter_ c') = []) /\ (done = false -> fuel <= length (remaining l (iter_ c)))%nat.
Proof.
  intros Hnd. revert c batch. induction fuel as [|fuel IH]; intros c batch Hc; cbn [gather].
  - rewrite app_nil_r. split_and!; try done. intros _. lia.
  - unfold cursor_Next. destruct (iter_ c) as [a|] eqn:E.
    + destruct (remaining_next l a Hnd (Hc a eq_refl)) as [Hr Hin].
      specialize (IH (mkCursor (next_in l a) (visited c) (finished c)) (batch ++ [a])). cbn [iter_ visited] in IH.
      destruct (gather fuel l (mkCursor (next_in l a) (visited c) (finished c)) (batch ++ [a])) as [[c' b'] d].
      destruct IH as (-> & Hd & Hi & Hv & Hdone & Hfull); [intros b Hb; by apply Hin|]. cbn [remaining]. rewrite Hr. cbn.
      rewrite <-(assoc_L (++)). split_and!; try done. intros E'. specialize (Hfull E'). lia.
    + cbn. rewrite E. by rewrite app_nil_r.
Qed.

Definition set_cursors t cs : HandleTable := mkTable (random_value_ t) (table_count_ t) (handles_ t) cs.

Lemma cursors_wf s pid t cs :
  table_wf s pid t -> map_Forall (fun _ c => forall a, iter_ c = Some a -> a ∈ handles_ t) cs -> table_wf s pid (set_cursors t cs).
Proof. intros [] H. by constructor. Qed.

Lemma new_HandleCursor_wf s pid t cid : table_wf s pid t -> table_wf s pid (new_HandleCursor cid t).
Proof.
  intros Ht. apply (cursors_wf s pid t); [done|]. apply map_Forall_insert_2; [|apply Ht]. cbn. intros a Ha.
  destruct (handles_ t); [done|]. injection Ha as ->. set_solver.
Qed.

Lemma delete_HandleCursor_wf s pid t cid : table_wf s pid t -> table_wf s pid (delete_HandleCursor cid t).
Proof. intros Ht. apply (cursors_wf s pid t); [done|]. apply map_Forall_delete, Ht. Qed.

Lemma batch_step_wf s pid t cid : table_wf s pid t -> table_wf s pid (batch_step cid t).
Proof.
  intros Ht. unfold batch_step. destruct (cursors_ t !! cid) as [c|] eqn:Ec; [|done]. destruct (finished c); [done|].
  pose proof (gather_spec kMaxBatchSize (handles_ t) c [] (tw_nodup _ _ _ Ht) (tw_cursors _ _ _ Ht cid c Ec)) as H.
  destruct (gather kMaxBatchSize (handles_ t) c []) as [[c' b] d]. destruct H as (_ & _ & Hin & _).
  apply (cursors_wf s pid t); [done|]. apply map_Forall_insert_2; [done|apply Ht].
Qed.

(** ** The whole system *)

(** Slot [a] was allocated between two states. *)
Definition fresh_slot (a : Z) s s' : bool := bool_decide (a ∈ hs_live s') && negb (bool_decide (a ∈ hs_live s)).

Definition generation_step s s' : Prop :=
  sa_base (hs_arena s') = sa_base (hs_arena s) /\ forall a, generation_at s' a = (generation_at s a + if fresh_slot a s s' then 1 else 0) mod kGenerations.

Lemma generation_range a s : hs_inv s -> 0 <= generation_at s a < kGenerations.
Proof.
  intros Hi. unfold generation_at, handle_at. destruct (hs_mem s !! a) as [h|] eqn:E; [|done]. cbn.
  destruct (hi_value s Hi a h E) as (i & g & Hri & Hg & _ & ->). by rewrite base_value_generation.
Qed.

Lemma generation_same s s' :
  hs_inv s -> (forall a, a ∈ hs_live s' -> a ∈ hs_live s) ->
  (forall a, base_value_ (handle_at s' a) = base_value_ (handle_at s a)) ->
  sa_base (hs_arena s') = sa_base (hs_arena s) -> generation_step s s'.
Proof.
  intros Hi Hl Hv Hb. split; [done|]. intros a. unfold fresh_slot. pose proof (generation_range a s Hi).
  assert (bool_decide (a ∈ hs_live s') && negb (bool_decide (a ∈ hs_live s)) = false) as ->.
  { repeat case_bool_decide; try done. naive_solver. }
  unfold generation_at in *. by rewrite Hv, Z.add_0_r, Z.mod_small.
Qed.

Lemma new_handle_effect ok obj rights s :
  hs_inv s -> let '(s1, addr, v) := handle_Alloc ok obj s in
  let s' := if addr =? 0 then s1 else place_handle addr obj rights v s1 in
  hs_inv s' /\ (forall q a, q <> 0 -> owned s' q a <-> owned s q a) /\ generation_step s s'.
Proof.
  intros Hi. destruct (handle_Alloc ok obj s) as [[s1 addr] v] eqn:Ea. destruct (Z.eqb_spec addr 0) as [->|Hne].
  - destruct (handle_Alloc_none ok obj s s1 v Hi Ea) as (Hi1 & Hm & Hl & _ & Hb). split; [done|].
    unfold owned, handle_at. rewrite Hm, Hl. split; [done|].
    apply generation_same; [done|by rewrite Hl|by unfold handle_at; rewrite Hm|done].
  - destruct (handle_Alloc_some ok obj rights s s1 addr v Hi Ea Hne) as (Hi2 & Hn & Hl & _ & Hb & Hat & Hg).
    set (s2 := place_handle addr obj rights v s1) in *. split; [done|]. split.
    + intros q a Hq. unfold owned. rewrite Hat, Hl, elem_of_cons. case_decide; [subst; cbn; intuition congruence|naive_solver].
    + split; [done|]. intros a. unfold fresh_slot. rewrite Hl. pose proof (generation_range a s Hi). unfold generation_at at 1. rewrite Hat.
      destruct (decide (a = addr)) as [->|Hna].
      * rewrite (bool_decide_true (addr ∈ addr :: _)), (bool_decide_false (addr ∈ hs_live s)) by set_solver. exact Hg.
      * assert (bool_decide (a ∈ addr :: hs_live s) && negb (bool_decide (a ∈ hs_live s)) = false) as ->
          by (repeat case_bool_decide; try done; set_solver).
        by rewrite Z.add_0_r, Z.mod_small.
Qed.

Context (is_waitable : Z -> bool).

Lemma on_table_inv pid f ts ts' :
  ts_inv ts -> on_table pid f ts = Some ts' ->
  (forall t, ts_tables ts !! pid = Some t -> st_inv pid (ts_sys ts, t) ->
    st_inv pid (f (ts_sys ts, t)) /\ frame pid (ts_sys ts) (f (ts_sys ts, t)).1) ->
  ts_inv ts' /\ generation_step (ts_sys ts) (ts_sys ts').
Proof.
  intros Hi Hon Hf. unfold on_table in Hon. destruct (ts_tables ts !! pid) as [t|] eqn:Et; [|done].
  destruct (Hf t eq_refl) as [Hs Hfr]; [split; [apply Hi|by apply (ti_tables _ Hi)]|].
  destruct (f (ts_sys ts, t)) as [s' t']. injection Hon as <-. split; [by eapply ts_inv_update|].
  apply generation_same; [apply Hi|apply Hfr..].
Qed.

Lemma owner_held_owned h ts : owner_held h ts = true -> owned (ts_sys ts) 0 h.
Proof. unfold owner_held. case_bool_decide; [|done]. intros E%Z.eqb_eq. done. Qed.

Lemma new_HandleTable_inv pid secret ts :
  ts_inv ts -> pid <> 0 -> ts_tables ts !! pid = None ->
  ts_inv (mkTS (ts_sys ts) (<[pid := new_HandleTable secret]> (ts_tables ts))).
Proof.
  intros Hi Hpid Hnew. constructor; cbn; [apply Hi| |].
  - apply map_Forall_insert_2; [|apply Hi]. constructor; cbn; try done.
    + split; [by apply wrap_range|]. change 4 with (2 ^ 2). rewrite wrap_mod_pow2 by lia.
      change kHandleReservedBits with 2. rewrite Z.shiftl_mul_pow2 by lia. by apply Z.mod_mul.
    + constructor.
    + intros a. split; [by intros ?%elem_of_nil|]. intros Ho. destruct (ti_owner ts Hi pid a Ho) as [|[? H]]; [done|]. congruence.
  - intros q a Ho. destruct (ti_owner ts Hi q a Ho) as [|Hq]; [by left|right].
    destruct (decide (q = pid)) as [->|]; [by rewrite lookup_insert_eq|by rewrite lookup_insert_ne].
Qed.

Lemma new_handle_inv ok obj rights ts s' :
  ts_inv ts ->
  s' = (let '(s1, addr, v) := handle_Alloc ok obj (ts_sys ts) in
        if addr =? 0 then s1 else place_handle addr obj rights v s1) ->
  ts_inv (mkTS s' (ts_tables ts)) /\ generation_step (ts_sys ts) s'.
Proof.
  intros Hi Es. pose proof (new_handle_effect ok obj rights (ts_sys ts) (ti_sys ts Hi)) as H.
  destruct (handle_Alloc ok obj (ts_sys ts)) as [[s1 addr] v]. cbn zeta in H. rewrite <-Es in H.
  destruct H as (Hi' & Ho & Hg). split; [by apply ts_inv_sys|done].
Qed.

Lemma handle_Make_eq ok obj rights s :
  (handle_Make ok obj rights s).1 =
  (let '(s1, addr, v) := handle_Alloc ok obj s in if addr =? 0 then s1 else place_handle addr obj rights v s1).
Proof. unfold handle_Make. destruct (handle_Alloc ok obj s) as [[s1 addr] v]. by destruct (addr =? 0). Qed.

Lemma handle_Dup_eq ok source obj rights s :
  dispatcher_ (handle_at s source) = Some obj ->
  (handle_Dup ok source rights s).1 =
  (let '(s1, addr, v) := handle_Alloc ok obj s in if addr =? 0 then s1 else place_handle addr obj rights v s1).
Proof.
  intros Hobj. unfold handle_Dup. rewrite Hobj. destruct (handle_Alloc ok obj s) as [[s1 addr] v] eqn:Ea.
  assert (handle_at s1 source = handle_at s source) as ->.
  { revert Ea. unfold handle_Alloc. destruct (sa_alloc ok (hs_arena s)) as [a p]. by destruct (p =? 0); intros [= <- _ _]. }
  rewrite Hobj. by destruct (addr =? 0).
Qed.

Lemma delete_inv h ts :
  ts_inv ts -> owned (ts_sys ts) 0 h ->
  let s' := handle_Delete is_waitable h (ts_sys ts) in ts_inv (mkTS s' (ts_tables ts)) /\ generation_step (ts_sys ts) s'.
Proof.
  intros Hi Hh. destruct (handle_Delete_frame is_waitable h _ (ti_sys ts Hi) Hh) as (Hi' & Ho & Hv & Hb). split.
  - apply ts_inv_sys; [done..|]. intros q a Hq. rewrite Ho. unfold owned in *. naive_solver.
  - apply generation_same; [apply Hi| |done..]. intros a Ha. by destruct (proj1 (Ho _ a) (conj Ha eq_refl)) as [[? _] _].
Qed.

Lemma table_step_inv op ts ts' :
  ts_inv ts -> table_step is_waitable op ts = Some ts' -> ts_inv ts' /\ generation_step (ts_sys ts) (ts_sys ts').
Proof.
  intros Hi. destruct op as [pid secret|ok obj rights|ok src rights|h|pid h|pid v skip|pid v|pid vs|pid|pid cid|pid cid|pid cid]; cbn [table_step].
  - destruct (Z.eqb_spec pid ZX_KOID_INVALID) as [|Hpid]; [done|]. case_bool_decide as Hnew; [done|]. cbn [orb]. intros [= <-].
    split; [apply new_HandleTable_inv; [done..|by apply eq_None_not_Some]|by apply generation_same; [apply Hi|..]].
  - intros [= <-]. apply (new_handle_inv ok obj rights ts _ Hi), handle_Make_eq.
  - case_bool_decide as Hl; [|done]. intros [= <-]. destruct (hi_live _ (ti_sys ts Hi) _ Hl) as [obj Hobj].
    by apply (new_handle_inv ok obj rights ts _ Hi), handle_Dup_eq.
  - destruct (owner_held h ts) eqn:Eh; [|done]. intros [= <-]. by apply delete_inv, owner_held_owned.
  - destruct (owner_held h ts) eqn:Eh; [|done]. intros Hon. apply (on_table_inv pid _ ts ts' Hi Hon). intros t _ Hs.
    apply (AddHandle_inv pid h (ts_sys ts, t) Hs). by apply owner_held_owned.
  - intros Hon. apply (on_table_inv pid _ ts ts' Hi Hon). intros t _ Hs.
    pose proof (GetHandleLocked_inv pid v skip _ Hs) as H. by destruct (GetHandleLocked _ _ _ _), H as (? & ? & _).
  - intros Hon. apply (on_table_inv pid _ ts ts' Hi Hon). intros t _ Hs.
    pose proof (RemoveHandle_inv pid v _ Hs) as H. by destruct (RemoveHandle _ _ _), H as (? & ? & _).
  - intros Hon. apply (on_table_inv pid _ ts ts' Hi Hon). intros t _ Hs. by apply remove_each_inv.
  - intros Hon. apply (on_table_inv pid _ ts ts' Hi Hon). intros t _ Hs. by destruct (Clean_locked_inv pid _ Hs) as (? & ? & _).
  - intros Hon. apply (on_table_inv pid _ ts ts' Hi Hon). intros t _ [Hs Ht]. split; [split; [done|by apply new_HandleCursor_wf]|done].
  - intros Hon. apply (on_table_inv pid _ ts ts' Hi Hon). intros t _ [Hs Ht]. split; [split; [done|by apply batch_step_wf]|done].
  - intros Hon. apply (on_table_inv pid _ ts ts' Hi Hon). intros t _ [Hs Ht]. split; [split; [done|by apply delete_HandleCursor_wf]|done].
Qed.

Lemma boot_inv (a : A) : sa_wf a [] -> sa_capacity a <= kMaxHandleCount -> ts_inv (boot a).
Proof.
  intros Hw Hc. constructor; cbn; [|done|].
  - constructor; cbn; try done. intros b. set_solver.
  - intros q b [Hb _]. by apply elem_of_nil in Hb.
Qed.

Lemma table_run_inv ops ts ts' : ts_inv ts -> table_run is_waitable ops ts = Some ts' -> ts_inv ts'.
Proof.
  revert ts. induction ops as [|op ops IH]; cbn; intros ts Hi; [by intros [= <-]|].
  destruct (table_step is_waitable op ts) as [ts1|] eqn:E; [|done]. apply IH. by apply (table_step_inv op ts ts1).
Qed.

End TableInvariant.

(** ** Values over time *)

Section Values.
Context {A : Type} `{!SlotArena A, !SlotArenaLaws A} (is_waitable : Z -> bool).
Implicit Types (ts : TableSys A) (st : HandleSys A * HandleTable).

(** How often slot [a] is allocated in a run. *)
Fixpoint allocations (a : Z) (ops : list TableOp) ts : Z :=
  match ops with
  | [] => 0
  | op :: ops =>
      match table_step is_waitable op ts with
      | Some ts' => (if fresh_slot a (ts_sys ts) (ts_sys ts') then 1 else 0) + allocations a ops ts'
      | None => 0
      end
  end.

Lemma allocations_nonneg a ops ts : 0 <= allocations a ops ts.
Proof.
  revert ts. induction ops as [|op ops IH]; intros ts; cbn; [done|]. destruct (table_step is_waitable op ts) as [ts'|]; [|done].
  specialize (IH ts'). destruct (fresh_slot a (ts_sys ts) (ts_sys ts')); lia.
Qed.

(** The generation of a slot counts its allocations, modulo the generations there are. *)
Lemma run_generation ops ts ts' :
  ts_inv ts -> table_run is_waitable ops ts = Some ts' ->
  sa_base (hs_arena (ts_sys ts')) = sa_base (hs_arena (ts_sys ts)) /\
  forall a, generation_at (ts_sys ts') a = (generation_at (ts_sys ts) a + allocations a ops ts) mod kGenerations.
Proof.
  revert ts. induction ops as [|op ops IH]; intros ts Hi; cbn.
  - intros [= <-]. split; [done|]. intros a. rewrite Z.add_0_r, Z.mod_small; [done|]. apply generation_range, Hi.
  - destruct (table_step is_waitable op ts) as [ts1|] eqn:E; [|done]. intros Hr.
    destruct (table_step_inv is_waitable op ts ts1 Hi E) as [Hi1 [Hb1 Hg1]]. destruct (IH ts1 Hi1 Hr) as [Hb Hg].
    split; [congruence|]. intros a. rewrite Hg, Hg1, Zplus_mod_idemp_l. f_equal. lia.
Qed.

Lemma RemoveHandle_mixer pid v st : random_value_ (RemoveHandle pid v st).1.2 = random_value_ st.2.
Proof. destruct st as [s t]. unfold RemoveHandle, GetHandleLocked. repeat (case_if; cbn); done. Qed.

Lemma remove_each_mixer pid vs status st :
  random_value_ (remove_each is_waitable pid vs status st).1.2 = random_value_ st.2.
Proof.
  revert status st. induction vs as [|v vs IH]; intros status st; cbn [remove_each]; [done|].
  case_if; [apply IH|]. pose proof (RemoveHandle_mixer pid v st) as Hm. destruct (RemoveHandle pid v st) as [st1 h].
  by case_if; rewrite IH.
Qed.

(** A table keeps its mixing value. *)
Lemma step_mixer op ts ts' pid t :
  table_step is_waitable op ts = Some ts' -> ts_tables ts !! pid = Some t ->
  exists t', ts_tables ts' !! pid = Some t' /\ random_value_ t' = random_value_ t.
Proof.
  assert (forall q f, (forall st, random_value_ (f st).2 = random_value_ st.2) -> on_table q f ts = Some ts' ->
    ts_tables ts !! pid = Some t -> exists t', ts_tables ts' !! pid = Some t' /\ random_value_ t' = random_value_ t) as Hon.
  { intros q f Hf. unfold on_table. destruct (ts_tables ts !! q) as [u|] eqn:Eu; [|done].
    specialize (Hf (ts_sys ts, u)). destruct (f (ts_sys ts, u)) as [s' u']. intros [= <-] Et. cbn in *.
    destruct (decide (pid = q)) as [->|]; [rewrite lookup_insert_eq; exists u'; split; congruence|].
    rewrite lookup_insert_ne by done. by exists t. }
  destruct op; cbn [table_step]; repeat case_if; try done; try (by intros [= <-]; exists t); try apply Hon; try (by intros [? ?]).
  - intros [= <-] Et. cbn. rewrite lookup_insert_ne; [by exists t|]. intros ->. apply orb_false_iff in E as [_ E].
    case_bool_decide as Hs; [done|]. by apply Hs.
  - intros [s u]. unfold GetHandleLocked. repeat case_if; done.
  - intros st. apply RemoveHandle_mixer.
  - intros st. apply remove_each_mixer.
  - intros [s u]. cbn. unfold batch_step. destruct (cursors_ u !! _) as [c|]; [|done]. destruct (finished c); [done|].
    by destruct (gather _ _ _ _) as [[? ?] ?].
Qed.

Lemma run_mixer ops ts ts' pid t :
  table_run is_waitable ops ts = Some ts' -> ts_tables ts !! pid = Some t ->
  exists t', ts_tables ts' !! pid = Some t' /\ random_value_ t' = random_value_ t.
Proof.
  revert ts t. induction ops as [|op ops IH]; intros ts t; cbn; [intros [= <-]; by exists t|].
  destruct (table_step is_waitable op ts) as [ts1|] eqn:E; [|done]. intros Hr Et.
  destruct (step_mixer op ts ts1 pid t E Et) as (t1 & Et1 & E1). destruct (IH ts1 t1 Hr Et1) as (t' & Et' & E').
  exists t'. split; [done|congruence].
Qed.

(** A value determines the base value it was mixed from. *)
Lemma mixed_base s s' h h' mixer :
  hs_inv s -> hs_inv s' -> mixer_ok mixer -> h ∈ hs_live s -> h' ∈ hs_live s' ->
  map_handle_to_value s h mixer = map_handle_to_value s' h' mixer ->
  base_value_ (handle_at s h) = base_value_ (handle_at s' h').
Proof.
  intros Hi Hi' [Hm Hm4] Hh Hh' E. unfold map_handle_to_value in E.
  destruct (live_value h s Hi Hh) as (i & g & Hr & Hg & _ & Ev). destruct (live_value h' s' Hi' Hh') as (i' & g' & Hr' & Hg' & _ & Ev').
  pose proof (base_value_range i g Hr Hg) as Hb. pose proof (base_value_range i' g' Hr' Hg') as Hb'. rewrite <-Ev in Hb. rewrite <-Ev' in Hb'.
  destruct (mixed_value_spec _ _ Hb Hm Hm4) as (_ & _ & H1). destruct (mixed_value_spec _ _ Hb' Hm Hm4) as (_ & _ & H2).
  rewrite <-H1, <-H2. by rewrite E.
Qed.

End Values.

Lemma refs_to_zero {A} `{!SlotArena A} (s : HandleSys A) obj l :
  refs_to s obj l = 0 <-> forall b, b ∈ l -> dispatcher_ (handle_at s b) <> Some obj.
Proof.
  induction l as [|x l IH]; [by split; [intros _ b ?%elem_of_nil|]|].
  rewrite refs_to_cons. pose proof (refs_to_bound s obj l). case_decide as E; [split; [lia|set_solver]|].
  rewrite Z.add_0_l, IH. set_solver.
Qed.

(** ** A cursor while the table changes

    The effect of the operations on the list of a table and one of its cursors. *)

Inductive cursor_remove : list Z * HandleCursor -> list Z * HandleCursor -> Prop :=
| cr_one h l c : h ∈ l -> cursor_remove (l, c) (remove_one h l, AdvanceIf l h c).

Inductive cursor_step : list Z * HandleCursor -> list Z * HandleCursor -> Prop :=
| cs_removes x y : rtc cursor_remove x y -> cursor_step x y
| cs_add h l c : h ∉ l -> cursor_step (l, c) (h :: l, c)
| cs_clean l c : cursor_step (l, c) ([], Invalidate c)
| cs_batch l c c' batch done :
    finished c = false -> gather kMaxBatchSize l c [] = (c', batch, done) ->
    cursor_step (l, c) (l, mkCursor (iter_ c') (visited c' ++ batch) done).

Record cursor_ok (x : list Z * HandleCursor) : Prop := {
  co_nodup : NoDup x.1;
  co_iter : forall a, iter_ x.2 = Some a -> a ∈ x.1;
  co_once : NoDup (visited x.2 ++ remaining x.1 (iter_ x.2));
  co_finished : finished x.2 = true -> remaining x.1 (iter_ x.2) = [];
}.

(** What is in front, and what a step does to a handle that stays in the table. *)
Definition front (x : list Z * HandleCursor) : list Z := remaining x.1 (iter_ x.2).

Record cursor_kept (x y : list Z * HandleCursor) : Prop := {
  ck_stays : forall a, a ∈ y.1 -> a ∈ x.1 -> a ∈ visited x.2 ++ front x -> a ∈ visited y.2 ++ front y;
  ck_visited : forall a, a ∈ visited y.2 -> a ∈ visited x.2 \/ a ∈ x.1;
  ck_front : (length (front y) <= length (front x))%nat;
  ck_finished : finished x.2 = true -> finished y.2 = true;
}.

Lemma AdvanceIf_fields l h c : visited (AdvanceIf l h c) = visited c /\ finished (AdvanceIf l h c) = finished c.
Proof. unfold AdvanceIf. destruct (iter_ c) as [a|]; [|done]. by destruct (a =? h). Qed.

Lemma remove_one_sublist h l : sublist (remove_one h l) l.
Proof.
  induction l as [|x l IH]; cbn; [constructor|]. destruct (x =? h); [by apply sublist_cons|by apply sublist_skip].
Qed.

Lemma remaining_in l it a : (forall b, it = Some b -> b ∈ l) -> a ∈ remaining l it -> a ∈ l.
Proof. intros H Ha. destruct (remaining_suffix l it H) as [pre ->]. set_solver. Qed.

Lemma cursor_remove_ok x y :
  cursor_ok x -> cursor_remove x y -> cursor_ok y /\ cursor_kept x y /\ (forall a, a ∈ y.1 -> a ∈ x.1).
Proof.
  intros [Hnd Hit Honce Hfin] Hr. destruct Hr as [h l c Hh]. cbn in *.
  pose proof (remaining_AdvanceIf l h c Hnd Hh Hit) as Hrem. destruct (AdvanceIf_fields l h c) as [Hv Hf].
  split; [|split].
  - constructor; cbn; rewrite ?Hv, ?Hf, ?Hrem.
    + eapply sublist_NoDup; [exact Hnd|apply remove_one_sublist].
    + intros a Ha. apply remove_one_elem; [done..|]. by eapply AdvanceIf_in.
    + eapply sublist_NoDup; [exact Honce|]. apply sublist_app; [done|apply remove_one_sublist].
    + intros Hfi. by rewrite (Hfin Hfi).
  - constructor; cbn; unfold front; cbn; rewrite ?Hv, ?Hf, ?Hrem; auto.
    + intros a Ha _. apply remove_one_elem in Ha as [_ Hne]; [|done..]. rewrite !elem_of_app. intros [?|Hi]; [by left|right].
      destruct (decide (h ∈ remaining l (iter_ c))); [|by rewrite remove_one_notin].
      apply remove_one_elem; [|done..]. by apply NoDup_app in Honce as (_ & _ & ?).
    + apply sublist_length, remove_one_sublist.
  - intros a Ha. by apply remove_one_elem in Ha as [? _].
Qed.

Lemma cursor_removes_ok x y :
  rtc cursor_remove x y -> cursor_ok x -> cursor_ok y /\ cursor_kept x y /\ (forall a, a ∈ y.1 -> a ∈ x.1).
Proof.
  induction 1 as [x|x y z Hxy _ IH]; intros Hx; [by split_and!; [|constructor; auto|]|].
  destruct (cursor_remove_ok x y Hx Hxy) as (Hy & [K1 K2 K3 K4] & Hsub). destruct (IH Hy) as (Hz & [L1 L2 L3 L4] & Hsub').
  split; [done|]. split; [|auto]. constructor; [|naive_solver|lia|auto].
  intros a Ha Hax Hin. apply L1; auto.
Qed.

Lemma cursor_batch_ok l c c' batch done :
  cursor_ok (l, c) -> finished c = false -> gather kMaxBatchSize l c [] = (c', batch, done) ->
  let y := (l, mkCursor (iter_ c') (visited c' ++ batch) done) in
  cursor_ok y /\ cursor_kept (l, c) y /\ (done = true \/ (length (front y) + kMaxBatchSize <= length (front (l, c)))%nat).
Proof.
  generalize kMaxBatchSize as n. intros n [Hnd Hit Honce Hfin] Hf Hg. cbn in *. pose proof (gather_spec n l c [] Hnd Hit) as H. rewrite Hg in H.
  destruct H as (-> & Hr & Hi & -> & Hd & Hfull). cbn [app] in *. set (rem := remaining l (iter_ c)) in *.
  assert (visited c ++ rem = (visited c ++ take n rem) ++ remaining l (iter_ c')) as Erem
    by (rewrite Hr, <-(assoc_L (++)); by rewrite take_drop).
  split; [|split].
  - constructor; cbn; try done. by rewrite <-Erem.
  - constructor; unfold front; cbn; fold rem.
    + intros a _ _ Ha. by rewrite <-Erem.
    + intros a. rewrite elem_of_app. intros [?|Ha]; [by left|right].
      apply (remaining_in l (iter_ c)); [done|]. fold rem. rewrite <-(take_drop n rem). set_solver.
    + rewrite Hr, length_drop. lia.
    + congruence.
  - unfold front. cbn. fold rem. destruct done; [by left|right]. rewrite Hr, length_drop.
    specialize (Hfull eq_refl). lia.
Qed.

Lemma cursor_step_ok x y : cursor_ok x -> cursor_step x y -> cursor_ok y /\ cursor_kept x y.
Proof.
  intros Hx Hs. destruct Hs as [x y Hr|h l c Hn|l c|l c c' b d Hf Hg].
  - by destruct (cursor_removes_ok x y Hr Hx) as (? & ? & _).
  - assert (remaining (h :: l) (iter_ c) = remaining l (iter_ c)) as E.
    { destruct (iter_ c) as [a|] eqn:Ei; [|done]. cbn. destruct (Z.eqb_spec h a) as [->|]; [|done].
      exfalso. apply Hn. by apply (co_iter _ Hx). }
    destruct Hx as [Hnd Hit Honce Hfin]. cbn in *.
    split; constructor; unfold front; cbn; rewrite ?E; auto; [by constructor|]. intros a Ha. apply elem_of_cons. auto.
  - destruct Hx as [Hnd Hit Honce Hfin]. cbn in *. split; constructor; unfold front; cbn; auto; try done.
    + constructor.
    + rewrite app_nil_r. by apply NoDup_app in Honce as (? & _).
    + by intros a ?%elem_of_nil.
    + lia.
  - by destruct (cursor_batch_ok l c c' b d Hx Hf Hg) as (? & ? & _).
Qed.

Section Iteration.
Context {A : Type} `{!SlotArena A, !SlotArenaLaws A} (is_waitable : Z -> bool).
Implicit Types (ts : TableSys A) (st : HandleSys A * HandleTable).

(** The list of a table and one of its cursors. *)
Definition view (cid : Z) (t : HandleTable) : option (list Z * HandleCursor) :=
  match cursors_ t !! cid with Some c => Some (handles_ t, c) | None => None end.

Lemma RemoveHandle_view pid v cid st x :
  st_inv pid st -> view cid st.2 = Some x ->
  exists y, view cid (RemoveHandle pid v st).1.2 = Some y /\ rtc cursor_remove x y.
Proof.
  intros Hs Hx. pose proof (GetHandleLocked_inv pid v false st Hs) as H. unfold RemoveHandle.
  destruct (GetHandleLocked pid v false st) as [st1 h]. destruct H as (_ & _ & E2 & Hh).
  destruct (Z.eqb_spec h 0) as [->|Hne]; [exists x; cbn; rewrite E2; by split|]. destruct (Hh Hne) as (-> & Hin & _).
  destruct st as [s t]. unfold view in *. cbn in *. destruct (cursors_ t !! cid) as [c|] eqn:Ec; [|done]. injection Hx as <-.
  rewrite lookup_fmap, Ec. cbn. eexists. split; [done|]. by apply rtc_once, cr_one.
Qed.

Lemma remove_each_view pid vs status cid st x :
  st_inv pid st -> view cid st.2 = Some x ->
  exists y, view cid (remove_each is_waitable pid vs status st).1.2 = Some y /\ rtc cursor_remove x y.
Proof.
  revert status st x. induction vs as [|v vs IH]; intros status st x Hs Hx; cbn [remove_each]; [by exists x|].
  case_if; [by apply IH|]. pose proof (RemoveHandle_inv pid v st Hs) as H.
  destruct (RemoveHandle_view pid v cid st x Hs Hx) as (y & Hy & Hxy). destruct (RemoveHandle pid v st) as [st1 h].
  destruct H as (Hs1 & _ & Hh). destruct (Z.eqb_spec h 0) as [|Hne].
  - destruct (IH ZX_ERR_BAD_HANDLE st1 y Hs1 Hy) as (z & Hz & Hyz). exists z. split; [done|by etrans].
  - destruct (Hh Hne) as [_ Ho]. destruct (delete_owner_inv is_waitable pid h st1 Hs1 Ho) as [Hs2 _].
    destruct (IH status _ y Hs2 Hy) as (z & Hz & Hyz). exists z. split; [done|by etrans].
Qed.

(** Neither the end of the cursor's life nor a new one of the same name. *)
Definition other_than_cursor (pid cid : Z) (op : TableOp) : Prop :=
  op <> OpCursor pid cid /\ op <> OpCursorDone pid cid.

Lemma batch_step_view cid cid' t x :
  view cid t = Some x -> exists y, view cid (batch_step cid' t) = Some y /\ cursor_step x y.
Proof.
  intros Hx. unfold batch_step. destruct (cursors_ t !! cid') as [c'|] eqn:Ec'; [|exists x; by split; [|apply cs_removes]].
  destruct (finished c') eqn:Ef; [exists x; by split; [|apply cs_removes]|].
  destruct (gather kMaxBatchSize (handles_ t) c' []) as [[c2 b] d] eqn:Eg.
  unfold view in *. cbn [cursors_ handles_]. destruct (decide (cid' = cid)) as [->|Hne].
  - rewrite lookup_insert_eq. rewrite Ec' in Hx. injection Hx as <-. eexists. split; [done|]. by apply cs_batch.
  - rewrite lookup_insert_ne by done. exists x. by split; [|apply cs_removes].
Qed.

Lemma AddHandle_view pid h cid st x :
  st_inv pid st -> owned st.1 0 h -> view cid st.2 = Some x ->
  exists y, view cid (AddHandle pid h st).2 = Some y /\ cursor_step x y.
Proof.
  destruct st as [s t]. intros [_ Ht] [_ Hp] Hx. unfold view in *. cbn in *. destruct (cursors_ t !! cid) as [c|]; [|done].
  injection Hx as <-. eexists. split; [done|]. apply cs_add. intros [_ Hq]%(tw_owned _ _ _ Ht). pose proof (tw_pid _ _ _ Ht). congruence.
Qed.

Lemma Clean_view cid st x :
  view cid st.2 = Some x -> exists y, view cid (Clean_locked st).1.2 = Some y /\ cursor_step x y.
Proof.
  destruct st as [s t]. intros Hx. unfold view in *. cbn in *. rewrite lookup_fmap. destruct (cursors_ t !! cid) as [c|]; [|done].
  injection Hx as <-. eexists. split; [done|]. apply cs_clean.
Qed.

Lemma other_cursor_view cid t cs x :
  view cid t = Some x -> cs !! cid = cursors_ t !! cid -> exists y, view cid (set_cursors t cs) = Some y /\ cursor_step x y.
Proof. intros Hx E. exists x. unfold view in *. cbn. rewrite E. split; [done|by apply cs_removes]. Qed.

Lemma on_table_view q f ts ts' pid cid t x :
  ts_tables ts !! pid = Some t -> view cid t = Some x -> on_table q f ts = Some ts' ->
  (q = pid -> exists y, view cid (f (ts_sys ts, t)).2 = Some y /\ cursor_step x y) ->
  exists t' y, ts_tables ts' !! pid = Some t' /\ view cid t' = Some y /\ cursor_step x y.
Proof.
  intros Et Hx Ho Hf. unfold on_table in Ho. destruct (ts_tables ts !! q) as [u|] eqn:Eu; [|done].
  destruct (decide (q = pid)) as [->|Hne].
  - rewrite Et in Eu. injection Eu as <-. destruct (Hf eq_refl) as (y & Hy & Hxy).
    destruct (f (ts_sys ts, t)) as [s' t']. injection Ho as <-. exists t', y. cbn. by rewrite lookup_insert_eq.
  - destruct (f (ts_sys ts, u)) as [s' u']. injection Ho as <-. exists t, x. cbn. rewrite lookup_insert_ne by done.
    split_and!; try done. by apply cs_removes.
Qed.

Lemma step_view op ts ts' pid cid t x :
  ts_inv ts -> table_step is_waitable op ts = Some ts' -> other_than_cursor pid cid op ->
  ts_tables ts !! pid = Some t -> view cid t = Some x ->
  exists t' y, ts_tables ts' !! pid = Some t' /\ view cid t' = Some y /\ cursor_step x y.
Proof.
  intros Hi Hstep [Hop1 Hop2] Et Hx.
  pose proof (fun q f => on_table_view q f ts ts' pid cid t x Et Hx) as Hon.
  assert (st_inv pid (ts_sys ts, t)) as Hs by (split; [apply Hi|by apply (ti_tables _ Hi)]).
  assert (forall s', ts' = mkTS s' (ts_tables ts) -> exists t' y, ts_tables ts' !! pid = Some t' /\ view cid t' = Some y /\ cursor_step x y)
    as Hsame by (intros s' ->; exists t, x; split_and!; try done; by apply cs_removes).
  destruct op as [q secret|ok obj rights|ok src rights|h|q h|q v skip|q v|q vs|q|q c'|q c'|q c']; cbn [table_step] in Hstep.
  - destruct (q =? ZX_KOID_INVALID); [done|]. case_bool_decide as Hq; [done|]. injection Hstep as <-. exists t, x. cbn.
    rewrite lookup_insert_ne by (intros ->; by apply Hq). split_and!; try done. by apply cs_removes.
  - injection Hstep as <-. by eapply Hsame.
  - case_bool_decide; [|done]. injection Hstep as <-. by eapply Hsame.
  - destruct (owner_held h ts); [|done]. injection Hstep as <-. by eapply Hsame.
  - destruct (owner_held h ts) eqn:Eh; [|done]. apply (Hon _ _ Hstep). intros ->. apply (AddHandle_view pid h cid (ts_sys ts, t) x); [done| |done].
    by apply owner_held_owned.
  - apply (Hon _ _ Hstep). intros ->. exists x. pose proof (GetHandleLocked_inv pid v skip _ Hs) as H.
    destruct (GetHandleLocked _ _ _ _), H as (_ & _ & E & _). cbn in *. rewrite E. split; [done|by apply cs_removes].
  - apply (Hon _ _ Hstep). intros ->. destruct (RemoveHandle_view pid v cid _ x Hs Hx) as (y & ? & ?). exists y.
    split; [done|by apply cs_removes].
  - apply (Hon _ _ Hstep). intros ->. destruct (remove_each_view pid vs ZX_OK cid _ x Hs Hx) as (y & ? & ?). exists y.
    split; [done|by apply cs_removes].
  - apply (Hon _ _ Hstep). intros ->. by apply Clean_view.
  - apply (Hon _ _ Hstep). intros ->. by apply other_cursor_view; [|apply lookup_insert_ne; congruence].
  - apply (Hon _ _ Hstep). intros ->. by apply batch_step_view.
  - apply (Hon _ _ Hstep). intros ->. by apply other_cursor_view; [|apply lookup_delete_ne; congruence].
Qed.

(** A batch either ends the iteration or moves [kMaxBatchSize] handles on. *)
Lemma batch_progress op ts ts' pid cid t t' x y :
  table_step is_waitable op ts = Some ts' -> op = OpBatch pid cid ->
  ts_tables ts !! pid = Some t -> view cid t = Some x -> cursor_ok x ->
  ts_tables ts' !! pid = Some t' -> view cid t' = Some y ->
  finished y.2 = true \/ (length (front y) + kMaxBatchSize <= length (front x))%nat.
Proof.
  intros Hstep -> Et Hx Hok Et' Hy. cbn [table_step] in Hstep. unfold on_table in Hstep. rewrite Et in Hstep. injection Hstep as <-.
  cbn [ts_tables] in Et'. rewrite lookup_insert_eq in Et'. injection Et' as <-. unfold batch_step, view in *.
  destruct (cursors_ t !! cid) as [c|] eqn:Ec; [|done]. injection Hx as <-. destruct (finished c) eqn:Ef.
  { rewrite Ec in Hy. injection Hy as <-. by left. }
  destruct (gather kMaxBatchSize (handles_ t) c []) as [[c' b] d] eqn:Eg. cbn [cursors_ snd] in Hy. rewrite lookup_insert_eq in Hy.
  injection Hy as <-. by destruct (cursor_batch_ok _ _ _ _ _ Hok Ef Eg) as (_ & _ & [->|H]); [left|right].
Qed.

Definition in_table (pid a : Z) ts : bool :=
  match ts_tables ts !! pid with Some t => bool_decide (a ∈ handles_ t) | None => false end.

(** Handle [a] is in the table throughout a run; at some moment of a run. *)
Fixpoint stays (pid a : Z) (ops : list TableOp) ts : bool :=
  in_table pid a ts &&
  match ops with
  | [] => true
  | op :: ops => match table_step is_waitable op ts with Some ts => stays pid a ops ts | None => true end
  end.

Fixpoint ever (pid a : Z) (ops : list TableOp) ts : bool :=
  in_table pid a ts ||
  match ops with
  | [] => false
  | op :: ops => match table_step is_waitable op ts with Some ts => ever pid a ops ts | None => false end
  end.

Definition batches (pid cid : Z) (ops : list TableOp) : nat :=
  length (filter (fun op => op = OpBatch pid cid) ops).

Lemma in_table_view pid a ts t cid x :
  ts_tables ts !! pid = Some t -> view cid t = Some x -> in_table pid a ts = true <-> a ∈ x.1.
Proof.
  intros Et Hx. unfold in_table. rewrite Et, bool_decide_eq_true. unfold view in Hx.
  destruct (cursors_ t !! cid); [|done]. by injection Hx as <-.
Qed.

Lemma stays_head pid a ops ts : stays pid a ops ts = true -> in_table pid a ts = true.
Proof. destruct ops; cbn; by intros [? _]%andb_prop. Qed.

Lemma ever_head pid a ops ts : in_table pid a ts = true -> ever pid a ops ts = true.
Proof. intros H. destruct ops; cbn; by rewrite H. Qed.

(** The handles a cursor has yet to see never grow in number, whatever else happens. *)
Lemma run_view ops ts ts' pid cid t x :
  ts_inv ts -> table_run is_waitable ops ts = Some ts' -> Forall (other_than_cursor pid cid) ops ->
  ts_tables ts !! pid = Some t -> view cid t = Some x -> cursor_ok x ->
  exists t' y, ts_tables ts' !! pid = Some t' /\ view cid t' = Some y /\ cursor_ok y /\
    (forall a, stays pid a ops ts = true -> a ∈ visited x.2 ++ front x -> a ∈ visited y.2 ++ front y) /\
    (forall a, a ∈ visited y.2 -> a ∈ visited x.2 \/ ever pid a ops ts = true) /\
    (finished x.2 = true -> finished y.2 = true) /\
    (finished y.2 = true \/ (length (front y) + batches pid cid ops * kMaxBatchSize <= length (front x))%nat).
Proof.
  revert ts t x. induction ops as [|op ops IH]; intros ts t x Hi Hr Hall Et Hx Hok; cbn in Hr.
  { injection Hr as <-. exists t, x. split_and!; auto. right. unfold batches. cbn. lia. }
  destruct (table_step is_waitable op ts) as [ts1|] eqn:Est; [|done]. apply Forall_cons in Hall as [Hop Hall].
  destruct (step_view op ts ts1 pid cid t x Hi Est Hop Et Hx) as (t1 & y1 & Et1 & Hy1 & Hstep).
  destruct (cursor_step_ok x y1 Hok Hstep) as [Hok1 [K1 K2 K3 K4]].
  destruct (table_step_inv is_waitable op ts ts1 Hi Est) as [Hi1 _].
  destruct (IH ts1 t1 y1 Hi1 Hr Hall Et1 Hy1 Hok1) as (t' & y & Et' & Hy & Hoky & S1 & S2 & S3 & S4).
  exists t', y. split_and!; try done; [| |auto|].
  - intros a [Ha1 Ha2]%andb_prop Hin. rewrite Est in Ha2. apply S1; [done|]. apply K1; [| |done].
    + apply (in_table_view pid a ts1 t1 cid y1 Et1 Hy1). by eapply stays_head.
    + by apply (in_table_view pid a ts t cid x Et Hx).
  - intros a Ha. cbn [ever]. rewrite Est. destruct (S2 a Ha) as [Hv|He]; [|right; rewrite He; apply orb_true_r].
    destruct (K2 a Hv) as [|Hax]; [by left|right]. by rewrite (proj2 (in_table_view pid a ts t cid x Et Hx) Hax).
  - destruct S4 as [|S4]; [by left|]. unfold batches in *. rewrite filter_cons. destruct (decide (op = OpBatch pid cid)) as [E|]; [|right; lia].
    destruct (batch_progress op ts ts1 pid cid t t1 x y1 Est E Et Hx Hok Et1 Hy1) as [Hf|Hp]; [left; auto|right].
    rewrite length_cons. lia.
Qed.

End Iteration.

(** What a lookup does, in a state of the invariant. *)
Lemma lookup_cases {A} `{!SlotArena A, !SlotArenaLaws A} pid v skip (ts : TableSys A) t :
  ts_inv ts -> ts_tables ts !! pid = Some t -> 0 <= v < 2 ^ 32 ->
  let st := (ts_sys ts, t) in let '(st', h) := GetHandleLocked pid v skip st in
  (h = 0 /\ st' = ((if skip then ts_sys ts else log_event (EvBadHandle pid) (ts_sys ts)), t) /\
    (forall h, h ∈ handles_ t -> MapHandleToValue st h <> v)) \/
  (h <> 0 /\ st' = st /\ h ∈ handles_ t /\ MapHandleToValue st h = v).
Proof.
  intros [Hi Hts _] Et Hv. pose proof (Hts pid t Et) as Ht. cbn zeta.
  pose proof (GetHandleLocked_inv pid v skip _ (conj Hi Ht : st_inv pid (ts_sys ts, t))) as H.
  destruct (GetHandleLocked pid v skip (ts_sys ts, t)) as [st' h] eqn:Eg. destruct H as (_ & _ & _ & H).
  destruct (Z.eq_dec h 0) as [->|Hne].
  - left. split; [done|]. revert Eg. unfold GetHandleLocked. set (m := map_value_to_handle (ts_sys ts) v (random_value_ t)) in *.
    destruct (negb (m =? 0) && (process_id_ (handle_at (ts_sys ts) m) =? pid)) eqn:E.
    { intros [= _ E0]. by rewrite E0 in E. }
    intros Eg. split; [by destruct skip; injection Eg as <-|]. intros h Hh Hval. pose proof Hh as [Hl Hp]%(tw_owned _ _ _ Ht).
    destruct (value_roundtrip h (random_value_ t) (ts_sys ts) Hi Hl (tw_mixer _ _ _ Ht)) as (_ & _ & Hback).
    change (map_handle_to_value (ts_sys ts) h (random_value_ t)) with (MapHandleToValue (ts_sys ts, t) h) in Hback. rewrite Hval in Hback.
    unfold m in E. rewrite Hback, Hp, Z.eqb_refl, andb_true_r in E. destruct (sa_live_slot _ _ _ (hi_wf _ Hi) Hl) as (_ & Hne & _). lia.
  - right. destruct (H Hne) as (-> & Hin & Em). split_and!; try done. unfold MapHandleToValue. cbn [fst snd] in *. rewrite <-Em.
    apply value_decoded; [apply Ht|done|congruence].
Qed.

(** A new cursor has the whole table in front. *)
Lemma iteration_start {A} `{!SlotArena A, !SlotArenaLaws A} is_waitable (ts : TableSys A) pid cid ts1 :
  ts_inv ts -> table_step is_waitable (OpCursor pid cid) ts = Some ts1 ->
  ts_inv ts1 /\ exists t x, ts_tables ts1 !! pid = Some t /\ view cid t = Some x /\ cursor_ok x /\
    visited x.2 = [] /\ finished x.2 = false /\ front x = x.1.
Proof.
  intros Hi Hs. split; [by apply (table_step_inv is_waitable (OpCursor pid cid) ts)|]. cbn [table_step] in Hs. unfold on_table in Hs.
  destruct (ts_tables ts !! pid) as [t|] eqn:Et; [|done]. injection Hs as <-. pose proof (tw_nodup _ _ _ (ti_tables ts Hi pid t Et)) as Hnd.
  exists (new_HandleCursor cid t), (handles_ t, mkCursor (hd_error (handles_ t)) [] false). cbn [ts_tables snd].
  rewrite lookup_insert_eq. assert (remaining (handles_ t) (hd_error (handles_ t)) = handles_ t) as E by (by apply (remaining_hd [])).
  unfold view, new_HandleCursor. cbn. rewrite lookup_insert_eq. split_and!; try done. constructor; cbn; [done| |by rewrite E|done].
  intros b Hb. destruct (handles_ t); [done|]. injection Hb as ->. set_solver.
Qed.

(** The two halves of [Clean]. *)
Lemma release_all_frame {A} `{!SlotArena A} l (s : HandleSys A) h :
  h ∉ l -> handle_at (foldl (fun s h => set_process_id h ZX_KOID_INVALID s) s l) h = handle_at s h.
Proof.
  revert s. induction l as [|x l IH]; intros s Hn; cbn; [done|]. rewrite IH by set_solver.
  rewrite set_process_id_at, decide_False by set_solver. done.
Qed.

Lemma delete_all {A} `{!SlotArena A, !SlotArenaLaws A} (is_waitable : Z -> bool) l (s : HandleSys A) t :
  hs_inv s -> NoDup l -> (forall h, h ∈ l -> owned s 0 h) ->
  exists s', foldl (fun st h => delete_owner is_waitable h st) (s, t) l = (s', t) /\ hs_inv s' /\
    (forall h, h ∈ hs_live s' <-> h ∈ hs_live s /\ h ∉ l) /\ (forall h, h ∉ l -> handle_at s' h = handle_at s h).
Proof.
  revert s. induction l as [|x l IH]; intros s Hi Hnd Hl; cbn.
  { exists s. split_and!; try done. set_solver. }
  apply NoDup_cons in Hnd as [Hx Hnd]. destruct (Hl x ltac:(set_solver)) as [Hlx Hpx].
  destruct (hi_live s Hi x Hlx) as [obj Hobj].
  destruct (handle_Delete_spec is_waitable x obj s Hi Hlx Hpx Hobj) as (Hi1 & Hperm & Hnx & _ & Hat & _).
  destruct (handle_Delete_frame is_waitable x s Hi (conj Hlx Hpx)) as (_ & Ho & _).
  destruct (IH (handle_Delete is_waitable x s) Hi1 Hnd) as (s' & Ef & Hi' & Hl' & Hat').
  { intros h Hh. apply Ho. split; [apply Hl; set_solver|set_solver]. }
  exists s'. split; [done|]. split; [done|]. split.
  - intros h. rewrite Hl'. assert (h ∈ hs_live s <-> h = x \/ h ∈ hs_live (handle_Delete is_waitable x s)) as -> by (rewrite Hperm; apply elem_of_cons).
    rewrite not_elem_of_cons. naive_solver.
  - intros h Hh. rewrite Hat' by set_solver. rewrite Hat, decide_False by set_solver. done.
Qed.

(** The entry [GetHandleInfo] makes for a handle. *)
Definition info_of {A} (get_type get_related_koid : Z -> Z) (st : HandleSys A * HandleTable) (h : Z) : zx_info_handle_extended_t :=
  let obj := default 0 (dispatcher_ (handle_at st.1 h)) in
  mkInfo (get_type obj) (MapHandleToValue st h) (rights_ (handle_at st.1 h)) 0 obj (get_related_koid obj) 0.

Lemma fill_entries {A} (get_type get_related_koid : Z -> Z) (st : HandleSys A * HandleTable) l stored :
  (forall h, h ∈ l -> is_Some (dispatcher_ (handle_at st.1 h))) ->
  for_each_handle (fill_entry get_type get_related_koid) st l (Some (stored ++ replicate (length l) None, zlen stored)) =
  (Some (stored ++ ((fun h => Some (info_of get_type get_related_koid st h)) <$> l), zlen stored + zlen l), ZX_OK).
Proof.
  revert stored. induction l as [|h l IH]; intros stored Hd; cbn [for_each_handle].
  { by rewrite zlen_nil, Z.add_0_r. }
  destruct (Hd h ltac:(set_solver)) as [obj Hobj]. unfold fill_entry at 1. rewrite Hobj. unfold store_entry.
  rewrite zlen_app, (proj2 (Z.leb_le _ _)) by apply zlen_nonneg.
  rewrite (proj2 (Z.ltb_lt _ _)) by (unfold zlen; rewrite length_replicate, length_cons; lia).
  cbn [andb negb]. rewrite bool_decide_true by done. cbn [negb].
  unfold zlen at 1. rewrite Nat2Z.id. cbn [length replicate]. rewrite insert_app_r_alt, Nat.sub_diag by lia. cbn.
  specialize (IH (stored ++ [Some (info_of get_type get_related_koid st h)])).
  rewrite zlen_app, <-!(assoc_L (++)) in IH. change (zlen [_]) with 1 in IH. cbn [app] in IH. unfold info_of at 1 in IH. rewrite Hobj in IH.
  cbn [default] in IH. unfold id in IH. rewrite IH by set_solver. rewrite zlen_cons. by rewrite Z.add_assoc.
Qed.

(** ** What the handle tables guarantee

    Stated for every arena that keeps the promises of [SlotArenaLaws], and every sequence
    of steps from boot. *)

Section TableTheorems.
Context {A : Type} `{!SlotArena A, !SlotArenaLaws A} (is_waitable : Z -> bool).

Lemma reachable_inv (a : A) ops ts :
  sa_wf a [] -> sa_capacity a <= kMaxHandleCount -> table_run is_waitable ops (boot a) = Some ts -> ts_inv ts.
Proof. intros Hw Hc. apply table_run_inv. by apply boot_inv. Qed.

(** C15. Every handle is in one place. In every reachable state the handles of the arena
    are exactly those in the tables and those held by a [HandleOwner]: a handle is in the
    table of a process, once, exactly if it is marked with that process, and no handle is
    in two tables; a slot that holds no handle has no object and no owner. The count of a
    table is the length of its list, and no cursor points outside its table. *)
Theorem handles_in_one_place (a : A) ops ts :
  sa_wf a [] -> sa_capacity a <= kMaxHandleCount -> table_run is_waitable ops (boot a) = Some ts ->
  NoDup (hs_live (ts_sys ts)) /\
  (forall h, h ∈ hs_live (ts_sys ts) ->
    is_Some (dispatcher_ (handle_at (ts_sys ts) h)) /\
    (owner_held h ts = true \/ exists t, ts_tables ts !! process_id_ (handle_at (ts_sys ts) h) = Some t /\ h ∈ handles_ t)) /\
  (forall h, h ∉ hs_live (ts_sys ts) ->
    dispatcher_ (handle_at (ts_sys ts) h) = None /\ process_id_ (handle_at (ts_sys ts) h) = ZX_KOID_INVALID) /\
  (forall pid t, ts_tables ts !! pid = Some t ->
    NoDup (handles_ t) /\ table_count_ t = zlen (handles_ t) /\
    (forall h, h ∈ handles_ t -> h ∈ hs_live (ts_sys ts) /\ owner_held h ts = false) /\
    (forall cid c h, cursors_ t !! cid = Some c -> iter_ c = Some h -> h ∈ handles_ t)) /\
  (forall p q t u h, ts_tables ts !! p = Some t -> ts_tables ts !! q = Some u ->
    h ∈ handles_ t -> h ∈ handles_ u -> p = q).
Proof.
  intros Hw Hc Hr. pose proof (reachable_inv a ops ts Hw Hc Hr) as [Hi Ht Ho]. split_and!.
  - apply (sa_nodup _ _ (hi_wf _ Hi)).
  - intros h Hh. split; [by apply (hi_live _ Hi)|].
    destruct (Ho _ h (conj Hh eq_refl)) as [E|[t Et]].
    + left. unfold owner_held. by rewrite bool_decide_true, E by done.
    + right. exists t. split; [done|]. by apply (tw_owned _ _ _ (Ht _ t Et)).
  - apply (hi_free _ Hi).
  - intros pid t Et. pose proof (Ht pid t Et) as []. split_and!; try done.
    + intros h [Hl Hp]%tw_owned0. split; [done|]. unfold owner_held. rewrite bool_decide_true, Hp by done.
      by apply Z.eqb_neq.
    + intros cid c h Ec. by apply (tw_cursors0 cid c Ec).
  - intros p q t u h Et Eu [_ Hp]%(tw_owned _ _ _ (Ht p t Et)) [_ Hq]%(tw_owned _ _ _ (Ht q u Eu)). congruence.
Qed.

(** C2. A handle value names exactly one handle of the process that uses it. In every
    reachable state: the value a process is given for a handle in its table is not zero,
    has its two fixed bits set, and looks that handle up; a value looks a handle up only
    if it is the value of that handle in that process's table, so that no process can
    name a handle it does not hold; a failed lookup changes nothing, and reports a bad
    handle to the job policy unless told not to. *)
Theorem handle_lookup_exact (a : A) ops ts pid t v skip :
  sa_wf a [] -> sa_capacity a <= kMaxHandleCount -> table_run is_waitable ops (boot a) = Some ts ->
  ts_tables ts !! pid = Some t -> 0 <= v < 2 ^ 32 ->
  let st := (ts_sys ts, t) in
  (forall h, h ∈ handles_ t ->
    0 < MapHandleToValue st h < 2 ^ 32 /\ Z.land (MapHandleToValue st h) kHandleMustBeOneMask = kHandleMustBeOneMask /\
    GetHandleLocked pid (MapHandleToValue st h) skip st = (st, h)) /\
  (forall h, h <> 0 -> GetHandleLocked pid v skip st = (st, h) -> h ∈ handles_ t /\ MapHandleToValue st h = v) /\
  ((forall h, h ∈ handles_ t -> MapHandleToValue st h <> v) ->
    GetHandleLocked pid v skip st = ((if skip then ts_sys ts else log_event (EvBadHandle pid) (ts_sys ts)), t, 0)).
Proof.
  intros Hw Hc Hr Et Hv. pose proof (reachable_inv a ops ts Hw Hc Hr) as Hinv.
  pose proof (ti_sys ts Hinv) as Hi. pose proof (ti_tables ts Hinv pid t Et) as Ht.
  cbn zeta. split; [|split].
  - intros h Hh. pose proof Hh as [Hl Hp]%(tw_owned _ _ _ Ht).
    destruct (value_roundtrip h (random_value_ t) (ts_sys ts) Hi Hl (tw_mixer _ _ _ Ht)) as (Hpos & Hone & Hback).
    split; [done|]. split; [done|]. unfold GetHandleLocked, MapHandleToValue. cbn [fst snd]. rewrite Hback, Hp, Z.eqb_refl.
    destruct (sa_live_slot _ _ _ (hi_wf _ Hi) Hl) as (_ & Hne & _). by rewrite (proj2 (Z.eqb_neq h 0) Hne).
  - intros h Hne Hg. pose proof (lookup_cases pid v skip ts t Hinv Et Hv) as H. cbn zeta in H. rewrite Hg in H.
    by destruct H as [(? & _)|(_ & _ & ? & ?)].
  - intros Hno. pose proof (lookup_cases pid v skip ts t Hinv Et Hv) as H. cbn zeta in H.
    destruct (GetHandleLocked pid v skip (ts_sys ts, t)) as [st' h].
    destruct H as [(-> & -> & _)|(_ & _ & Hin & Hval)]; [done|]. by destruct (Hno h Hin).
Qed.

(** C11. A handle value is not reused soon. Take a handle [h] that is in the table of a
    process, and its value. As long as the slot of [h] is allocated again fewer than 4096
    times (and at least once), by any sequence of steps of any processes, the old value
    looks nothing up: a process that kept a value of a closed handle does not reach the
    handles that take its place. *)
Theorem stale_value_rejected (a : A) ops ts ops' ts' pid t t' h skip :
  sa_wf a [] -> sa_capacity a <= kMaxHandleCount -> table_run is_waitable ops (boot a) = Some ts ->
  ts_tables ts !! pid = Some t -> h ∈ handles_ t -> table_run is_waitable ops' ts = Some ts' ->
  ts_tables ts' !! pid = Some t' -> 0 < allocations is_waitable h ops' ts < kGenerations ->
  (GetHandleLocked pid (MapHandleToValue (ts_sys ts, t) h) skip (ts_sys ts', t')).2 = 0.
Proof.
  intros Hw Hc Hr Et Hh Hr' Et' Hk. pose proof (reachable_inv a ops ts Hw Hc Hr) as Hi.
  pose proof (table_run_inv is_waitable ops' ts ts' Hi Hr') as Hi'.
  destruct (run_mixer is_waitable ops' ts ts' pid t Hr' Et) as (t2 & Et2 & Em). rewrite Et' in Et2. injection Et2 as <-.
  destruct (run_generation is_waitable ops' ts ts' Hi Hr') as [Hb Hg]. specialize (Hg h).
  pose proof (ti_tables ts Hi pid t Et) as Ht. pose proof (ti_tables ts' Hi' pid t' Et') as Ht'.
  apply (tw_owned _ _ _ Ht) in Hh as [Hl _]. set (v := MapHandleToValue (ts_sys ts, t) h).
  destruct (value_roundtrip h (random_value_ t) (ts_sys ts) (ti_sys ts Hi) Hl (tw_mixer _ _ _ Ht)) as (Hv & _).
  change (0 < v < 2 ^ 32) in Hv.
  pose proof (GetHandleLocked_inv pid v skip (ts_sys ts', t') (conj (ti_sys ts' Hi') Ht')) as H.
  destruct (GetHandleLocked pid v skip (ts_sys ts', t')) as [st' h'] eqn:Eg. cbn [snd].
  destruct (Z.eq_dec h' 0) as [|Hne]; [done|exfalso]. destruct H as (_ & _ & _ & H). destruct (H Hne) as (_ & Hin & Eh').
  cbn [fst snd] in *. apply (tw_owned _ _ _ Ht') in Hin as [Hl' _].
  assert (map_handle_to_value (ts_sys ts') h' (random_value_ t) = v) as Ev
    by (rewrite <-Eh', <-Em; apply value_decoded; [apply Ht'|lia|congruence]).
  pose proof (mixed_base _ _ h h' _ (ti_sys ts Hi) (ti_sys ts' Hi') (tw_mixer _ _ _ Ht) Hl Hl' (eq_sym Ev)) as Ebase.
  destruct (live_value h _ (ti_sys ts Hi) Hl) as (i & g & Hri & Hrg & Ea & E1).
  destruct (live_value h' _ (ti_sys ts' Hi') Hl') as (i' & g' & Hri' & Hrg' & Ea' & E2).
  assert (i = i' /\ g = g') as [<- <-] by (apply base_value_inj; [done..|congruence]).
  assert (h' = h) as -> by (rewrite Ea, Ea', Hb; done). unfold generation_at in Hg. rewrite <-Ebase, E1, base_value_generation in Hg by done.
  unfold kGenerations in *. pose proof (Z.div_mod (g + allocations is_waitable h ops' ts) 4096 ltac:(lia)).
  rewrite <-Hg in H0. nia.
Qed.

(** C16. Handle counts are exact and never wrap. In every reachable state the handle count
    of an object is the number of handles to it, at most 262144; deleting a handle lowers
    the count of its object by one and calls [on_zero_handles] exactly when no handle to
    the object is left. *)
Theorem handle_counts_exact (a : A) ops ts h obj :
  sa_wf a [] -> sa_capacity a <= kMaxHandleCount -> table_run is_waitable ops (boot a) = Some ts ->
  owner_held h ts = true -> dispatcher_ (handle_at (ts_sys ts) h) = Some obj ->
  let s := ts_sys ts in let s' := handle_Delete is_waitable h s in
  (forall o, count_of s o = refs_to s o (hs_live s) /\ 0 <= count_of s o <= kMaxHandleCount) /\
  count_of s' obj = count_of s obj - 1 /\ (forall o, o <> obj -> count_of s' o = count_of s o) /\
  (forall o, EvZeroHandles o ∈ drop (length (hs_log s)) (hs_log s') <->
    o = obj /\ (forall b, b ∈ hs_live s' -> dispatcher_ (handle_at s' b) <> Some obj)).
Proof.
  intros Hw Hc Hr Hh Hobj. pose proof (ti_sys ts (reachable_inv a ops ts Hw Hc Hr)) as Hi.
  destruct (owner_held_owned h ts Hh) as [Hl Hp]. cbn zeta.
  destruct (handle_Delete_spec is_waitable h obj (ts_sys ts) Hi Hl Hp Hobj) as (Hi' & Hperm & Hn & _ & Hat & Hlog).
  set (s := ts_sys ts) in *. set (s' := handle_Delete is_waitable h s) in *.
  assert (forall o, count_of s' o = count_of s o - if decide (Some obj = Some o) then 1 else 0) as Hcount.
  { intros o. rewrite (hi_counts s' Hi'), (hi_counts s Hi), (refs_to_perm s o _ _ Hperm), refs_to_cons, Hobj.
    rewrite (refs_to_ext s' s) by (intros b Hb; rewrite Hat, decide_False by congruence; done). lia. }
  split; [|split; [|split]].
  - intros o. rewrite (hi_counts s Hi). pose proof (refs_to_bound s o (hs_live s)). pose proof (live_bound s Hi). lia.
  - by rewrite Hcount, decide_True.
  - intros o Ho. rewrite Hcount, decide_False by congruence. lia.
  - intros o. rewrite Hlog, drop_app_length, elem_of_app. rewrite <-refs_to_zero.
    destruct (is_waitable obj), (decide (refs_to s' obj (hs_live s') = 0)); set_solver.
Qed.

(** C27. Rights are checked. Whatever the value, asking for the object of a handle gives an
    object only if the process's own table has a handle with that value, to an object of
    the type asked for, with every right asked for; otherwise the error says which of
    these failed, the type before the rights, and nothing changes but the report of a bad
    handle. *)
Theorem dispatcher_rights_checked (a : A) ops ts pid t v desired skip downcast :
  sa_wf a [] -> sa_capacity a <= kMaxHandleCount -> table_run is_waitable ops (boot a) = Some ts ->
  ts_tables ts !! pid = Some t -> 0 <= v < 2 ^ 32 ->
  let st := (ts_sys ts, t) in
  let '(st', r) := GetDispatcherWithRightsImpl downcast pid v desired skip st in
  (r = inl ZX_ERR_BAD_HANDLE /\ (forall h, h ∈ handles_ t -> MapHandleToValue st h <> v) /\
    st' = ((if skip then ts_sys ts else log_event (EvBadHandle pid) (ts_sys ts)), t)) \/
  (exists h obj, h ∈ handles_ t /\ MapHandleToValue st h = v /\ dispatcher_ (handle_at (ts_sys ts) h) = Some obj /\ st' = st /\
    let rights := rights_ (handle_at (ts_sys ts) h) in
    ((r = inl ZX_ERR_WRONG_TYPE /\ downcast obj = false) \/
     (r = inl ZX_ERR_ACCESS_DENIED /\ downcast obj = true /\ Z.land rights desired <> desired) \/
     (r = inr (obj, rights) /\ downcast obj = true /\ Z.land rights desired = desired))).
Proof.
  intros Hw Hc Hr Et Hv. pose proof (reachable_inv a ops ts Hw Hc Hr) as Hi. cbn zeta. unfold GetDispatcherWithRightsImpl.
  pose proof (lookup_cases pid v skip ts t Hi Et Hv) as H. cbn zeta in H. destruct (GetHandleLocked pid v skip (ts_sys ts, t)) as [st' h].
  destruct H as [(-> & -> & Hno)|(Hne & -> & Hin & Hval)]; [cbn; by left|].
  rewrite (proj2 (Z.eqb_neq h 0) Hne). cbn [fst].
  pose proof (ti_tables ts Hi pid t Et) as Ht. pose proof Hin as [Hl _]%(tw_owned _ _ _ Ht).
  destruct (hi_live _ (ti_sys ts Hi) h Hl) as [obj Hobj]. rewrite Hobj. cbn [downcast_to].
  assert (HasRights (handle_at (ts_sys ts) h) desired = true <-> Z.land (rights_ (handle_at (ts_sys ts) h)) desired = desired) as Hrt
    by apply Z.eqb_eq.
  destruct (downcast obj) eqn:Ed; [destruct (HasRights _ _)|]; cbn [negb]; right; exists h, obj; split_and!; auto; right.
  - right. split_and!; try done. by apply Hrt.
  - left. split_and!; try done. intros E%Hrt. done.
Qed.

(** The iteration ends. Whatever happens between the batches, an iteration over a
    table of [n] handles is over after more than [n / 64] batches. *)
Lemma batched_iteration_ends (a : A) ops ts pid cid ts1 t1 ops' ts' :
  sa_wf a [] -> sa_capacity a <= kMaxHandleCount -> table_run is_waitable ops (boot a) = Some ts ->
  table_step is_waitable (OpCursor pid cid) ts = Some ts1 -> ts_tables ts1 !! pid = Some t1 ->
  Forall (other_than_cursor pid cid) ops' -> table_run is_waitable ops' ts1 = Some ts' ->
  (length (handles_ t1) < batches pid cid ops' * kMaxBatchSize)%nat ->
  exists t' c', ts_tables ts' !! pid = Some t' /\ cursors_ t' !! cid = Some c' /\ finished c' = true.
Proof.
  intros Hw Hc Hr Hs Et1 Hall Hr' Hlen. pose proof (reachable_inv a ops ts Hw Hc Hr) as Hi.
  destruct (iteration_start is_waitable ts pid cid ts1 Hi Hs) as (Hi1 & t & x & Et & Hx & Hok & Hv & Hf & Hfront).
  destruct (run_view is_waitable ops' ts1 ts' pid cid t x Hi1 Hr' Hall Et Hx Hok) as (t' & y & Et' & Hy & _ & _ & _ & _ & Hend).
  unfold view in Hy. destruct (cursors_ t' !! cid) as [c'|] eqn:Ec'; [|done]. injection Hy as <-. cbn [snd] in *.
  exists t', c'. split_and!; [done|done|]. destruct Hend as [|Hend]; [done|exfalso].
  rewrite Et in Et1. injection Et1 as ->. rewrite Hfront in Hend. unfold view in Hx.
  destruct (cursors_ t1 !! cid); [|done]. injection Hx as <-. cbn [fst] in Hend. lia.
Qed.

(** C25. Iterating in batches. Start an iteration over a table ([ForEachHandleBatched]),
    and let any steps happen between its batches: handles added, removed, moved, the
    table cleaned, other iterations. No handle is passed to the function twice; each one
    passed was in the table at some moment of the iteration; when it ends, every
    handle that was in the table all along has been passed; and it ends, after more
    batches than the [n / kMaxBatchSize] that the [n] handles of its start would fill. *)
Theorem batched_iteration_visits (a : A) ops ts pid cid ts1 ops' ts' :
  sa_wf a [] -> sa_capacity a <= kMaxHandleCount -> table_run is_waitable ops (boot a) = Some ts ->
  table_step is_waitable (OpCursor pid cid) ts = Some ts1 ->
  Forall (other_than_cursor pid cid) ops' -> table_run is_waitable ops' ts1 = Some ts' ->
  exists t' c', ts_tables ts' !! pid = Some t' /\ cursors_ t' !! cid = Some c' /\
    NoDup (visited c') /\
    (forall h, h ∈ visited c' -> ever is_waitable pid h ops' ts1 = true) /\
    (finished c' = true -> forall h, stays is_waitable pid h ops' ts1 = true -> h ∈ visited c') /\
    (forall t1, ts_tables ts1 !! pid = Some t1 -> (length (handles_ t1) < batches pid cid ops' * kMaxBatchSize)%nat -> finished c' = true).
Proof.
  intros Hw Hc Hr Hs Hall Hr'. pose proof (reachable_inv a ops ts Hw Hc Hr) as Hi.
  destruct (iteration_start is_waitable ts pid cid ts1 Hi Hs) as (Hi1 & t & x & Et & Hx & Hok & Hv & Hf & Hfront).
  destruct (run_view is_waitable ops' ts1 ts' pid cid t x Hi1 Hr' Hall Et Hx Hok) as (t' & y & Et' & Hy & Hoky & S1 & S2 & _).
  unfold view in Hy. destruct (cursors_ t' !! cid) as [c'|] eqn:Ec'; [|done]. injection Hy as <-. cbn [snd] in *.
  exists t', c'. split_and!; [done|done| | | |].
  - by apply (NoDup_app (visited c')) with (k := front (handles_ t', c')), (co_once _ Hoky).
  - intros h Hh. destruct (S2 h Hh) as [H|]; [|done]. rewrite Hv in H. by apply elem_of_nil in H.
  - intros Hfin h Hst. pose proof (S1 h Hst) as H. rewrite Hv, Hfront in H. unfold front in H. rewrite (co_finished _ Hoky Hfin), app_nil_r in H.
    apply H. apply (in_table_view pid h ts1 t cid x Et Hx). by eapply stays_head.
  - intros t1 Et1 Hlen. destruct (batched_iteration_ends a ops ts pid cid ts1 t1 ops' ts') as (u & d & Eu & Ed & Hd); try done. congruence.
Qed.

(** A dying process gives up everything. After [Clean], the table is empty; every handle
    it had is gone from the system, in whatever order they were in the list; every other
    handle, whether in another process's table or held by an owner, is as it was; and the
    handle counts are exact again. *)
Lemma clean_closes_table (a : A) ops ts pid t :
  sa_wf a [] -> sa_capacity a <= kMaxHandleCount -> table_run is_waitable ops (boot a) = Some ts ->
  ts_tables ts !! pid = Some t ->
  let '(s', t') := Clean is_waitable (ts_sys ts, t) in
  handles_ t' = [] /\ table_count_ t' = 0 /\ (forall cid c, cursors_ t' !! cid = Some c -> iter_ c = None) /\
  (forall h, h ∈ hs_live s' <-> h ∈ hs_live (ts_sys ts) /\ h ∉ handles_ t) /\
  (forall h, h ∉ handles_ t -> handle_at s' h = handle_at (ts_sys ts) h) /\
  (forall obj, count_of s' obj = refs_to (ts_sys ts) obj (filter (fun h => h ∉ handles_ t) (hs_live (ts_sys ts)))).
Proof.
  intros Hw Hc Hr Et. pose proof (reachable_inv a ops ts Hw Hc Hr) as Hi. pose proof (ti_tables ts Hi pid t Et) as Ht.
  unfold Clean, Clean_locked. destruct (release_all (handles_ t) (ts_sys ts) (ti_sys ts Hi)) as (Hi1 & El & _ & Ho & _).
  { by intros h [? _]%(tw_owned _ _ _ Ht). }
  pose proof (release_all_frame (handles_ t) (ts_sys ts)) as Hat.
  set (s1 := foldl (fun s h => set_process_id h ZX_KOID_INVALID s) (ts_sys ts) (handles_ t)) in *.
  destruct (delete_all is_waitable (handles_ t) s1 (mkTable (random_value_ t) 0 [] (Invalidate <$> cursors_ t)))
    as (s2 & -> & Hi2 & Hl2 & Hat2); [done|apply Ht| |].
  { intros h Hh. rewrite Ho, decide_True by done. by apply (tw_owned _ _ _ Ht) in Hh as [? _]. }
  cbn. split_and!; try done.
  - intros cid c (c0 & <- & _)%lookup_fmap_Some. done.
  - intros h. by rewrite Hl2, El.
  - intros h Hh. by rewrite Hat2, Hat.
  - intros obj. rewrite (hi_counts s2 Hi2).
    rewrite (refs_to_perm s2 obj _ (filter (fun h => h ∉ handles_ t) (hs_live (ts_sys ts)))).
    + apply refs_to_ext. intros b [Hb _]%list_elem_of_filter. by rewrite Hat2, Hat.
    + apply NoDup_Permutation; [apply (sa_nodup _ _ (hi_wf _ Hi2))|apply NoDup_filter, (sa_nodup _ _ (hi_wf _ (ti_sys ts Hi)))|].
      intros b. rewrite Hl2, El, list_elem_of_filter. tauto.
Qed.

(** The handle info array is filled exactly. Whatever the table does between the rounds
    of [GetHandleInfo] (each round given two reachable states of it), no entry is stored
    past the end of the array; and the array returned has one entry for each handle that
    was in the table when the lock was last taken, with the value, rights and object of
    that handle, none left unset. *)
Lemma handle_info_fits (a : A) get_type get_related_koid pid rounds :
  sa_wf a [] -> sa_capacity a <= kMaxHandleCount ->
  Forall (fun '(st0, ac, st) => exists ops ts, table_run is_waitable ops (boot a) = Some ts /\
    st.1 = ts_sys ts /\ ts_tables ts !! pid = Some st.2) rounds ->
  match GetHandleInfo get_type get_related_koid rounds with
  | Some InfoFault => False
  | Some (InfoArray arr) =>
      exists st0 st, (st0, true, st) ∈ rounds /\ table_count_ st0.2 = table_count_ st.2 /\
      arr = (fun h => Some (info_of get_type get_related_koid st h)) <$> handles_ st.2
  | Some InfoNoMemory => exists st0 st, (st0, false, st) ∈ rounds
  | None => forall st0 ac st, (st0, ac, st) ∈ rounds -> ac = true /\ table_count_ st0.2 <> table_count_ st.2
  end.
Proof.
  intros Hw Hc. induction rounds as [|[[st0 ac] st] rounds IH]; intros Hall; [by intros ? ? ? ?%elem_of_nil|].
  apply Forall_cons in Hall as [(ops & ts & Hr & Es & Et) Hall]. specialize (IH Hall). cbn [GetHandleInfo].
  destruct ac; cbn [negb]; [|exists st0, st; set_solver].
  destruct (Z.eqb_spec (table_count_ st0.2) (table_count_ st.2)) as [E|E]; cbn [negb].
  - pose proof (reachable_inv a ops ts Hw Hc Hr) as Hi. pose proof (ti_tables ts Hi pid _ Et) as Ht.
    rewrite E, (tw_count _ _ _ Ht). unfold zlen, ForEachHandleLocked. rewrite Nat2Z.id.
    pose proof (fill_entries get_type get_related_koid st (handles_ st.2) []) as Hf. cbn [app] in Hf. rewrite zlen_nil in Hf.
    rewrite Hf; [|intros h [Hl _]%(tw_owned _ _ _ Ht); rewrite Es; by apply (hi_live _ (ti_sys ts Hi))].
    exists st0, st. split; [set_solver|]. done.
  - destruct (GetHandleInfo get_type get_related_koid rounds) as [[|arr|]|]; try done.
    + destruct IH as (? & ? & ?). eexists _, _. apply elem_of_cons. by right.
    + destruct IH as (s0 & s1 & ? & ?). exists s0, s1. split; [apply elem_of_cons; by right|done].
    + intros s0 ac s1 [[= -> -> ->]|H]%elem_of_cons; [done|by apply (IH s0)].
Qed.

End TableTheorems.

(** ** An example run

    Two processes, three handles to two objects, in the arena of the kernel. *)

Definition ex_arena : GPArena := default (mkArena 0 0 0 0 0 0 0 ∅) (handle_Init 65536).
Definition ex_waitable (_ : Z) : bool := true.

Definition ex_ops : list TableOp :=
  [OpNewTable 7 5; OpNewTable 9 6; OpMake true 100 3; OpMake true 200 1; OpDup true 65536 1;
   OpAdd 7 65536; OpAdd 7 65576; OpAdd 9 65616; OpMake true 300 1].

Definition ex_ts : TableSys GPArena := default (boot ex_arena) (table_run ex_waitable ex_ops (boot ex_arena)).
Definition table_of (pid : Z) (ts : TableSys GPArena) : HandleTable := default (new_HandleTable 0) (ts_tables ts !! pid).

(** The first handle of process 7 is closed and its slot used again. *)
Definition ex_reuse : list TableOp :=
  [OpRemove 7 (MapHandleToValue (ts_sys ex_ts, table_of 7 ex_ts) 65536); OpDelete 65536; OpMake true 400 3; OpAdd 7 65536].
Definition ex_reused : TableSys GPArena := default (boot ex_arena) (table_run ex_waitable ex_reuse ex_ts).

(** An iteration over process 7's table, during which one handle is closed and one added. *)
Definition ex_cursor : TableSys GPArena := default (boot ex_arena) (table_step ex_waitable (OpCursor 7 1) ex_ts).
Definition ex_iterate : list TableOp :=
  [OpRemove 7 (MapHandleToValue (ts_sys ex_ts, table_of 7 ex_ts) 65576); OpAdd 7 65656; OpBatch 7 1].
Definition ex_iterated : TableSys GPArena := default (boot ex_arena) (table_run ex_waitable ex_iterate ex_cursor).

Lemma ex_arena_ok : sa_wf ex_arena [] /\ sa_capacity ex_arena <= kMaxHandleCount.
Proof.
  destruct (handle_Init_ok 65536 ex_arena) as [? ->]; [lia|lia|reflexivity|]. done.
Qed.

Lemma handles_in_one_place_witness :
  NoDup (hs_live (ts_sys ex_ts)) /\ owner_held 65656 ex_ts = true /\ 65576 ∈ handles_ (table_of 7 ex_ts).
Proof.
  destruct (handles_in_one_place ex_waitable ex_arena ex_ops ex_ts) as (Hnd & _).
  - apply ex_arena_ok.
  - apply ex_arena_ok.
  - vm_compute. reflexivity.
  - split; [exact Hnd|]. split; [vm_compute; reflexivity|]. vm_compute. left.
Defined.

Lemma handle_lookup_exact_witness :
  GetHandleLocked 7 (MapHandleToValue (ts_sys ex_ts, table_of 7 ex_ts) 65576) true (ts_sys ex_ts, table_of 7 ex_ts)
  = ((ts_sys ex_ts, table_of 7 ex_ts), 65576).
Proof.
  destruct (handle_lookup_exact ex_waitable ex_arena ex_ops ex_ts 7 (table_of 7 ex_ts) 0 true) as [H _].
  - apply ex_arena_ok.
  - apply ex_arena_ok.
  - vm_compute. reflexivity.
  - vm_compute. reflexivity.
  - lia.
  - apply (H 65576). vm_compute. left.
Defined.

Lemma stale_value_rejected_witness :
  (GetHandleLocked 7 (MapHandleToValue (ts_sys ex_ts, table_of 7 ex_ts) 65536) false (ts_sys ex_reused, table_of 7 ex_reused)).2 = 0
  /\ 65536 ∈ handles_ (table_of 7 ex_reused).
Proof.
  split.
  - apply (stale_value_rejected ex_waitable ex_arena ex_ops ex_ts ex_reuse ex_reused 7 (table_of 7 ex_ts) (table_of 7 ex_reused)).
    + apply ex_arena_ok.
    + apply ex_arena_ok.
    + vm_compute. reflexivity.
    + vm_compute. reflexivity.
    + vm_compute. right. left.
    + vm_compute. reflexivity.
    + vm_compute. reflexivity.
    + vm_compute. split; reflexivity.
  - vm_compute. left.
Defined.

Lemma handle_counts_exact_witness :
  count_of (handle_Delete ex_waitable 65656 (ts_sys ex_ts)) 300 = count_of (ts_sys ex_ts) 300 - 1 /\
  count_of (ts_sys ex_ts) 100 = 2.
Proof.
  split; [|vm_compute; reflexivity].
  destruct (handle_counts_exact ex_waitable ex_arena ex_ops ex_ts 65656 300) as (_ & H & _).
  - apply ex_arena_ok.
  - apply ex_arena_ok.
  - vm_compute. reflexivity.
  - vm_compute. reflexivity.
  - vm_compute. reflexivity.
  - exact H.
Defined.

Lemma dispatcher_rights_checked_witness :
  let v := MapHandleToValue (ts_sys ex_ts, table_of 9 ex_ts) 65616 in
  (GetDispatcherWithRightsImpl (fun _ => true) 9 v 2 true (ts_sys ex_ts, table_of 9 ex_ts)).2 = inl ZX_ERR_ACCESS_DENIED /\
  exists h, h ∈ handles_ (table_of 9 ex_ts) /\ Z.land (rights_ (handle_at (ts_sys ex_ts) h)) 2 <> 2.
Proof.
  intros v. pose proof (dispatcher_rights_checked ex_waitable ex_arena ex_ops ex_ts 9 (table_of 9 ex_ts) v 2 true (fun _ => true)
    (proj1 ex_arena_ok) (proj2 ex_arena_ok) ltac:(vm_compute; reflexivity) ltac:(vm_compute; reflexivity)
    ltac:(vm_compute; split; [discriminate|reflexivity])) as H.
  assert ((GetDispatcherWithRightsImpl (fun _ => true) 9 v 2 true (ts_sys ex_ts, table_of 9 ex_ts)).2 = inl ZX_ERR_ACCESS_DENIED) as Er
    by (vm_compute; reflexivity).
  split; [exact Er|]. cbn zeta in H.
  destruct (GetDispatcherWithRightsImpl (fun _ => true) 9 v 2 true (ts_sys ex_ts, table_of 9 ex_ts)) as [st' r]. cbn in Er. subst r.
  destruct H as [(H & _)|(h & obj & Hin & _ & _ & _ & [(H & _)|[(_ & _ & H)|(H & _)]])]; [discriminate H|discriminate H| |discriminate H].
  exists h. split; [exact Hin|exact H].
Defined.

Lemma batched_iteration_visits_witness :
  (exists t' c', ts_tables ex_iterated !! 7 = Some t' /\ cursors_ t' !! 1 = Some c' /\ NoDup (visited c')) /\
  option_map visited (cursors_ (table_of 7 ex_iterated) !! 1) = Some [65536].
Proof.
  split; [|vm_compute; reflexivity].
  destruct (batched_iteration_visits ex_waitable ex_arena ex_ops ex_ts 7 1 ex_cursor ex_iterate ex_iterated) as (t' & c' & Et & Ec & Hnd & _).
  - apply ex_arena_ok.
  - apply ex_arena_ok.
  - vm_compute. reflexivity.
  - vm_compute. reflexivity.
  - repeat constructor; discriminate.
  - vm_compute. reflexivity.
  - exists t', c'. split; [exact Et|]. split; [exact Ec|exact Hnd].
Defined.

Lemma batched_iteration_ends_witness :
  exists t' c', ts_tables ex_iterated !! 7 = Some t' /\ cursors_ t' !! 1 = Some c' /\ finished c' = true.
Proof.
  apply (batched_iteration_ends ex_waitable ex_arena ex_ops ex_ts 7 1 ex_cursor (table_of 7 ex_cursor) ex_iterate).
  - apply ex_arena_ok.
  - apply ex_arena_ok.
  - vm_compute. reflexivity.
  - vm_compute. reflexivity.
  - vm_compute. reflexivity.
  - repeat constructor; discriminate.
  - vm_compute. reflexivity.
  - vm_compute. lia.
Defined.

Lemma clean_closes_table_witness :
  handles_ (Clean ex_waitable (ts_sys ex_ts, table_of 7 ex_ts)).2 = [] /\
  hs_live (Clean ex_waitable (ts_sys ex_ts, table_of 7 ex_ts)).1 = [65656; 65616].
Proof.
  split; [|vm_compute; reflexivity].
  pose proof (clean_closes_table ex_waitable ex_arena ex_ops ex_ts 7 (table_of 7 ex_ts)
    (proj1 ex_arena_ok) (proj2 ex_arena_ok) ltac:(vm_compute; reflexivity) ltac:(vm_compute; reflexivity)) as H.
  destruct (Clean ex_waitable (ts_sys ex_ts, table_of 7 ex_ts)) as [s' t']. exact (proj1 H).
Defined.

Definition ex_rounds : list (HandleSys GPArena * HandleTable * bool * (HandleSys GPArena * HandleTable)) :=
  [((ts_sys ex_ts, table_of 9 ex_ts), true, (ts_sys ex_ts, table_of 7 ex_ts));
   ((ts_sys ex_ts, table_of 7 ex_ts), true, (ts_sys ex_ts, table_of 7 ex_ts))].

Lemma handle_info_fits_witness :
  exists arr st0 st, GetHandleInfo (fun o => o) (fun _ => 0) ex_rounds = Some (InfoArray arr) /\ (st0, true, st) ∈ ex_rounds /\
    arr = (fun h => Some (info_of (fun o => o) (fun _ => 0) st h)) <$> handles_ st.2.
Proof.
  assert (Forall (fun '(st0, ac, st) => exists ops ts, table_run ex_waitable ops (boot ex_arena) = Some ts /\
    st.1 = ts_sys ts /\ ts_tables ts !! 7 = Some st.2) ex_rounds) as Hall.
  { repeat constructor; exists ex_ops, ex_ts; (split; [vm_compute; reflexivity|]); (split; [reflexivity|vm_compute; reflexivity]). }
  pose proof (handle_info_fits ex_waitable ex_arena (fun o => o) (fun _ => 0) 7 ex_rounds
    (proj1 ex_arena_ok) (proj2 ex_arena_ok) Hall) as H.
  assert (match GetHandleInfo (fun o => o) (fun _ => 0) ex_rounds with Some (InfoArray _) => true | _ => false end = true) as E
    by (vm_compute; reflexivity).
  destruct (GetHandleInfo (fun o => o) (fun _ => 0) ex_rounds) as [[|arr|]|]; try discriminate E.
  destruct H as (st0 & st & Hin & _ & Harr). exists arr, st0, st. split; [reflexivity|]. split; [exact Hin|exact Harr].
Defined.
