(* ===== verification/Port.v ===== *)
(** * Ports

    Models [zircon/kernel/object/port_dispatcher.cc] with its header, and the counting
    semaphore of [zircon/kernel/kernel/semaphore.cc] that port waiters block on.

    A port is used by many threads at once: the threads that queue and dequeue packets, the
    objects whose signals its observers watch, and the thread that closes the last handle.
    Each critical section of the source is one function here, and the threads are program
    counters between critical sections, so that runs are interleavings of critical
    sections. The packet of an observer is part of the observer; the model gives both the
    same address. Memory is explicit: destroying an observer or freeing a packet removes it
    from the heap, and a function that uses an address that is not in the heap, frees it
    twice, or destroys a node that is still in a list, gives [None]. *)

From S2P Require Import Prelude Types.

(** ** Packets and observers *)

Definition kMaxAllocatedPacketCountPerPort : Z := 4096.
Definition ZX_PORT_BIND_TO_INTERRUPT : Z := 1.
Definition ZX_WAIT_ASYNC_TIMESTAMP : Z := 1.
Definition ZX_PKT_TYPE_USER : Z := 0.
Definition ZX_PKT_TYPE_SIGNAL_ONE : Z := 1.
Definition ZX_PKT_TYPE_INTERRUPT : Z := 7.

(** The 32 bytes of a packet: those of a user packet, or the fields of the others. *)
Inductive PacketBody :=
| BodyUser (bytes : list byte)
| BodySignal (trigger observed count timestamp : Z)
| BodyInterrupt (timestamp : Z).

Record zx_port_packet_t := mkPacket {
  pk_key : Z;
  pk_type : Z;
  pk_status : zx_status_t;
  pk_body : PacketBody;
}.

Inductive PortAllocator := ArenaPortAllocator | OtherPortAllocator.

Record PortPacket := mkPortPacket {
  packet : zx_port_packet_t;
  handle : Z;
  observer : option Z;
  allocator : option PortAllocator;
}.

Definition key (p : PortPacket) : Z := pk_key (packet p).
Definition is_ephemeral (p : PortPacket) : bool := match allocator p with Some _ => true | None => false end.
Definition IsDefaultAllocatedEphemeral (p : PortPacket) : bool :=
  match allocator p with Some ArenaPortAllocator => is_ephemeral p | _ => false end.

Record PortInterruptPacket := mkInterrupt {
  ip_timestamp : Z;
  ip_key : Z;
}.

Record PortObserver := mkPortObserver {
  ob_options : Z;
  ob_dispatcher : option Z;
}.

(** ** The state *)

(** Where the object an observer watches is with it: registered in the object, or inside
    one of the callbacks. *)
Inductive ObsPhase :=
| PhNew                       (* constructed, not yet passed to AddObserver *)
| PhLinked                    (* in the list of the object *)
| PhMatch (signals : Z)       (* OnMatch, before Queue *)
| PhPost                      (* OnMatch, before sema_.Post() *)
| PhReap                      (* OnMatch or OnCancel, before MaybeReap *)
| PhDestroy                   (* the end of MaybeReap, destroyer set *)
| PhDone.

(** A thread that uses the port. *)
Inductive PPC :=
| PIdle
| PQueue (p : Z)              (* QueueUser, before Queue *)
| PQueueOther (p : Z)         (* another source of packets, before Queue *)
| PPost                       (* before sema_.Post() *)
| PFree (p : Z)               (* before port_packet->Free() *)
| PBlocked                    (* Dequeue, in sema_.Wait *)
| PGot                        (* Dequeue, after sema_.Wait *)
| PRegular.                   (* Dequeue, no interrupt packet found *)

(** The thread that closes the last handle. *)
Inductive ZPC :=
| ZIdle
| ZDrain
| ZFree (p : Z)
| ZObservers
| ZRemove (o : Z)
| ZDone.

Record PortDispatcher := mkPort {
  options_ : Z;
  sema_count_ : Z;
  sema_waiters_ : list nat;
  zero_handles_ : bool;
  num_ephemeral_packets_ : Z;
  packets_ : list Z;
  interrupt_packets_ : list Z;
  observers_ : list Z;
}.

Record PortSys := mkPS {
  port : PortDispatcher;
  heap_pk : gmap Z PortPacket;
  heap_ob : gmap Z PortObserver;
  heap_ip : gmap Z PortInterruptPacket;
  phases : gmap Z ObsPhase;
  pcs : list PPC;
  zpc : ZPC;
  delivered : list zx_port_packet_t;
}.

Definition set_port (q : PortDispatcher) (s : PortSys) : PortSys :=
  mkPS q (heap_pk s) (heap_ob s) (heap_ip s) (phases s) (pcs s) (zpc s) (delivered s).
Definition set_heap_pk (h : gmap Z PortPacket) (s : PortSys) : PortSys :=
  mkPS (port s) h (heap_ob s) (heap_ip s) (phases s) (pcs s) (zpc s) (delivered s).
Definition set_heap_ob (h : gmap Z PortObserver) (s : PortSys) : PortSys :=
  mkPS (port s) (heap_pk s) h (heap_ip s) (phases s) (pcs s) (zpc s) (delivered s).
Definition set_heap_ip (h : gmap Z PortInterruptPacket) (s : PortSys) : PortSys :=
  mkPS (port s) (heap_pk s) (heap_ob s) h (phases s) (pcs s) (zpc s) (delivered s).
Definition set_phase (o : Z) (ph : ObsPhase) (s : PortSys) : PortSys :=
  mkPS (port s) (heap_pk s) (heap_ob s) (heap_ip s) (<[o := ph]> (phases s)) (pcs s) (zpc s) (delivered s).
Definition set_pc (t : nat) (pc : PPC) (s : PortSys) : PortSys :=
  mkPS (port s) (heap_pk s) (heap_ob s) (heap_ip s) (phases s) (<[t := pc]> (pcs s)) (zpc s) (delivered s).
Definition set_zpc (z : ZPC) (s : PortSys) : PortSys :=
  mkPS (port s) (heap_pk s) (heap_ob s) (heap_ip s) (phases s) (pcs s) z (delivered s).
Definition deliver (p : zx_port_packet_t) (s : PortSys) : PortSys :=
  mkPS (port s) (heap_pk s) (heap_ob s) (heap_ip s) (phases s) (pcs s) (zpc s) (delivered s ++ [p]).

Definition set_sema (n : Z) (w : list nat) (q : PortDispatcher) : PortDispatcher :=
  mkPort (options_ q) n w (zero_handles_ q) (num_ephemeral_packets_ q) (packets_ q) (interrupt_packets_ q) (observers_ q).
Definition set_zero_handles (q : PortDispatcher) : PortDispatcher :=
  mkPort (options_ q) (sema_count_ q) (sema_waiters_ q) true (num_ephemeral_packets_ q) (packets_ q) (interrupt_packets_ q) (observers_ q).
Definition set_packets (n : Z) (l : list Z) (q : PortDispatcher) : PortDispatcher :=
  mkPort (options_ q) (sema_count_ q) (sema_waiters_ q) (zero_handles_ q) n l (interrupt_packets_ q) (observers_ q).
Definition set_interrupts (l : list Z) (q : PortDispatcher) : PortDispatcher :=
  mkPort (options_ q) (sema_count_ q) (sema_waiters_ q) (zero_handles_ q) (num_ephemeral_packets_ q) (packets_ q) l (observers_ q).
Definition set_observers (l : list Z) (q : PortDispatcher) : PortDispatcher :=
  mkPort (options_ q) (sema_count_ q) (sema_waiters_ q) (zero_handles_ q) (num_ephemeral_packets_ q) (packets_ q) (interrupt_packets_ q) l.

(** [Create]: the options, and whether the allocation succeeds. *)
Definition port_Create (options : Z) (ac : bool) : zx_status_t + PortDispatcher :=
  if negb (options =? 0) && negb (options =? ZX_PORT_BIND_TO_INTERRUPT) then inl ZX_ERR_INVALID_ARGS
  else if negb ac then inl ZX_ERR_NO_MEMORY
  else inr (mkPort options 0 [] false 0 [] [] []).

(** ** Memory *)

Definition in_container (p : Z) (l : list Z) : bool := bool_decide (p ∈ l).

(** [delete observer]: it is in neither list. *)
Definition destroy_observer (o : Z) (s : PortSys) : option PortSys :=
  match heap_ob s !! o, heap_pk s !! o with
  | Some _, Some _ =>
      if in_container o (packets_ (port s)) || in_container o (observers_ (port s)) then None
      else Some (set_heap_ob (delete o (heap_ob s)) (set_heap_pk (delete o (heap_pk s)) s))
  | _, _ => None
  end.

(** [port_packet->observer.reset()]. *)
Definition reset_observer (p : Z) (s : PortSys) : option PortSys :=
  match heap_pk s !! p with
  | None => None
  | Some pk =>
      match observer pk with
      | None => Some s
      | Some o => destroy_observer o (set_heap_pk (<[p := mkPortPacket (packet pk) (handle pk) None (allocator pk)]> (heap_pk s)) s)
      end
  end.

(** [port_packet->Free()]: the port's allocator frees the packet, another one takes its
    packet back. *)
Definition free_packet (p : Z) (s : PortSys) : option PortSys :=
  match heap_pk s !! p with
  | None => None
  | Some pk =>
      if in_container p (packets_ (port s)) then None else
      match allocator pk with
      | None => None
      | Some ArenaPortAllocator => Some (set_heap_pk (delete p (heap_pk s)) s)
      | Some OtherPortAllocator => Some s
      end
  end.

(** ** The semaphore *)

(** [Semaphore::Post]; [w] is the waiter [WakeOne] picks. *)
Definition Post (w : nat) (s : PortSys) : PortSys :=
  let q := port s in
  match sema_waiters_ q with
  | [] => set_port (set_sema (wrap64 (sema_count_ q + 1)) [] q) s
  | t0 :: _ =>
      let t := default t0 (sema_waiters_ q !! w) in
      set_pc t PGot (set_port (set_sema (sema_count_ q) (filter (fun u => u <> t) (sema_waiters_ q)) q) s)
  end.

(** [Semaphore::Wait] called by thread [t]. *)
Definition Wait (t : nat) (s : PortSys) : PortSys :=
  let q := port s in
  if 0 <? sema_count_ q then set_pc t PGot (set_port (set_sema (sema_count_ q - 1) (sema_waiters_ q) q) s)
  else set_pc t PBlocked (set_port (set_sema (sema_count_ q) (sema_waiters_ q ++ [t]) q) s).

(** The wait of [t] ends without a wake-up: its deadline passed, or it got a signal. *)
Definition Unblock (t : nat) (s : PortSys) : PortSys :=
  let q := port s in
  set_pc t PIdle (set_port (set_sema (sema_count_ q) (filter (fun u => u <> t) (sema_waiters_ q)) q) s).

(** ** The critical sections *)

(** The signal part of a packet after a match. *)
Definition observe (accumulate : bool) (observed : Z) (pk : PortPacket) : PortPacket :=
  let pp := packet pk in
  let body := match pk_body pp with
              | BodySignal trigger old count timestamp =>
                  if accumulate then BodySignal trigger (Z.lor old observed) count timestamp
                  else BodySignal trigger observed 1 timestamp
              | b => b
              end in
  mkPortPacket (mkPacket (pk_key pp) (pk_type pp) (pk_status pp) body) (handle pk) (observer pk) (allocator pk).

(** [packets_.push_back(port_packet)], and the count of ephemeral packets. *)
Definition push_packet (p : Z) (pk : PortPacket) (s : PortSys) : option PortSys :=
  let q := port s in
  if in_container p (packets_ q) then None else
  let n := if IsDefaultAllocatedEphemeral pk then wrap64 (num_ephemeral_packets_ q + 1) else num_ephemeral_packets_ q in
  Some (set_port (set_packets n (packets_ q ++ [p]) q) s).

(** [Queue] under the lock: its early return, or [None] when it goes on to [Post]. *)
Definition Queue_locked (p observed : Z) (s : PortSys) : option (PortSys * option zx_status_t) :=
  if zero_handles_ (port s) then Some (s, Some ZX_ERR_BAD_HANDLE) else
  match heap_pk s !! p with
  | None => None
  | Some pk =>
      if IsDefaultAllocatedEphemeral pk && (kMaxAllocatedPacketCountPerPort <? num_ephemeral_packets_ (port s))
      then Some (s, Some ZX_ERR_SHOULD_WAIT)
      else if negb (observed =? 0) then
        if in_container p (packets_ (port s))
        then Some (set_heap_pk (<[p := observe true observed pk]> (heap_pk s)) s, Some ZX_OK)
        else match push_packet p pk (set_heap_pk (<[p := observe false observed pk]> (heap_pk s)) s) with
             | Some s => Some (s, None)
             | None => None
             end
      else match push_packet p pk s with Some s => Some (s, None) | None => None end
  end.

(** [MaybeReap] under the lock, and whether [destroyer] was set. *)
Definition MaybeReap_locked (o : Z) (s : PortSys) : option (PortSys * bool) :=
  match heap_ob s !! o with
  | None => None
  | Some ob =>
      match ob_dispatcher ob with
      | None => Some (s, false)
      | Some _ =>
          if negb (in_container o (observers_ (port s))) then None else
          let s := set_heap_ob (<[o := mkPortObserver (ob_options ob) None]> (heap_ob s)) s in
          let s := set_port (set_observers (filter (fun x => x <> o) (observers_ (port s))) (port s)) s in
          if in_container o (packets_ (port s)) then
            match reset_observer o s with
            | None => None
            | Some s =>
                match heap_pk s !! o with
                | None => None
                | Some pk => Some (set_heap_pk (<[o := mkPortPacket (packet pk) (handle pk) (Some o) (allocator pk)]> (heap_pk s)) s, false)
                end
            end
          else Some (s, true)
      end
  end.

(** Taking a packet off the queue: its copy, whether it is ephemeral, and the rest. *)
Definition pop_packet (p : Z) (rest : list Z) (s : PortSys) : option (PortSys * PortPacket) :=
  match heap_pk s !! p with
  | None => None
  | Some pk =>
      let n := if IsDefaultAllocatedEphemeral pk then wrap64 (num_ephemeral_packets_ (port s) - 1) else num_ephemeral_packets_ (port s) in
      Some (set_port (set_packets n rest (port s)) s, pk)
  end.

(** [Dequeue], the interrupt queue. *)
Definition take_interrupt (t : nat) (s : PortSys) : option PortSys :=
  let q := port s in
  if options_ q =? ZX_PORT_BIND_TO_INTERRUPT then
    match interrupt_packets_ q with
    | [] => Some (set_pc t PRegular s)
    | ip :: rest =>
        match heap_ip s !! ip with
        | None => None
        | Some i =>
            Some (set_pc t PIdle (deliver (mkPacket (ip_key i) ZX_PKT_TYPE_INTERRUPT ZX_OK (BodyInterrupt (ip_timestamp i)))
                   (set_port (set_interrupts rest q) s)))
        end
    end
  else Some (set_pc t PRegular s).

(** [Dequeue], the packets; an empty queue sends the thread back to [Wait]. *)
Definition take_packet (t : nat) (s : PortSys) : option PortSys :=
  match packets_ (port s) with
  | [] => Some (set_pc t PIdle s)
  | p :: rest =>
      match pop_packet p rest s with
      | None => None
      | Some (s, pk) =>
          match reset_observer p (deliver (packet pk) s) with
          | None => None
          | Some s => Some (set_pc t (if is_ephemeral pk then PFree p else PIdle) s)
          end
      end
  end.

(** [CancelQueued(handle, key)]. *)
Fixpoint cancel_loop (h k : Z) (l kept : list Z) (s : PortSys) (removed : bool) : option (PortSys * bool) :=
  match l with
  | [] => Some (s, removed)
  | p :: l =>
      match heap_pk s !! p with
      | None => None
      | Some pk =>
          if (handle pk =? h) && (key pk =? k) then
            match pop_packet p (kept ++ l) s with
            | None => None
            | Some (s, _) =>
                match reset_observer p s with
                | None => None
                | Some s => cancel_loop h k l kept s true
                end
            end
          else cancel_loop h k l (kept ++ [p]) s removed
      end
  end.

Definition CancelQueued (h k : Z) (s : PortSys) : option (PortSys * bool) :=
  cancel_loop h k (packets_ (port s)) [] s false.

(** [CancelQueued(port_packet)]. *)
Definition CancelQueued_packet (p : Z) (s : PortSys) : option (PortSys * bool) :=
  if in_container p (packets_ (port s)) then
    match pop_packet p (filter (fun x => x <> p) (packets_ (port s))) s with
    | None => None
    | Some (s, _) => match reset_observer p s with None => None | Some s => Some (s, true) end
    end
  else Some (s, false).

(** [QueueInterruptPacket] under the spinlock: whether it goes on to [Post]. *)
Definition QueueInterrupt_locked (ip timestamp : Z) (s : PortSys) : option (PortSys * bool) :=
  let q := port s in
  if in_container ip (interrupt_packets_ q) then Some (s, false) else
  match heap_ip s !! ip with
  | None => None
  | Some i => Some (set_port (set_interrupts (interrupt_packets_ q ++ [ip]) q)
                     (set_heap_ip (<[ip := mkInterrupt timestamp (ip_key i)]> (heap_ip s)) s), true)
  end.

Definition RemoveInterruptPacket (ip : Z) (s : PortSys) : PortSys * bool :=
  let q := port s in
  if in_container ip (interrupt_packets_ q)
  then (set_port (set_interrupts (filter (fun x => x <> ip) (interrupt_packets_ q)) q) s, true)
  else (s, false).

(** [MakeObserver] up to [AddObserver]: the construction and the critical section. *)
Definition MakeObserver (waitable : bool) (o options h obj k signals : Z) (s : PortSys) : zx_status_t + PortSys :=
  if negb waitable then inl ZX_ERR_NOT_SUPPORTED else
  let pk := mkPortPacket (mkPacket k ZX_PKT_TYPE_SIGNAL_ONE ZX_OK (BodySignal signals 0 0 0)) h None None in
  let s := set_heap_ob (<[o := mkPortObserver options (Some obj)]> (heap_ob s)) (set_heap_pk (<[o := pk]> (heap_pk s)) s) in
  inr (set_phase o PhNew (set_port (set_observers (o :: observers_ (port s)) (port s)) s)).

(** [OnMatch] up to [Queue]. *)
Definition stamp (o now : Z) (s : PortSys) : option PortSys :=
  match heap_ob s !! o, heap_pk s !! o with
  | Some ob, Some pk =>
      if negb (Z.land (ob_options ob) ZX_WAIT_ASYNC_TIMESTAMP =? 0) then
        let pp := packet pk in
        let body := match pk_body pp with BodySignal trigger observed count _ => BodySignal trigger observed count now | b => b end in
        Some (set_heap_pk (<[o := mkPortPacket (mkPacket (pk_key pp) (pk_type pp) (pk_status pp) body) (handle pk) (observer pk) (allocator pk)]> (heap_pk s)) s)
      else Some s
  | _, _ => None
  end.

(** One step of the callback that observer [o] is in. *)
Definition callback_step (o now : Z) (w : nat) (s : PortSys) : option (option PortSys) :=
  match phases s !! o with
  | Some (PhMatch signals) =>
      Some (match stamp o now s with
            | None => None
            | Some s =>
                match Queue_locked o signals s with
                | None => None
                | Some (s, None) => Some (set_phase o PhPost s)
                | Some (s, Some _) => Some (set_phase o PhReap s)
                end
            end)
  | Some PhPost => Some (Some (set_phase o PhReap (Post w s)))
  | Some PhReap =>
      Some (match MaybeReap_locked o s with
            | None => None
            | Some (s, true) => Some (set_phase o PhDestroy s)
            | Some (s, false) => Some (set_phase o PhDone s)
            end)
  | Some PhDestroy => Some (match destroy_observer o s with None => None | Some s => Some (set_phase o PhDone s) end)
  | _ => None
  end.

(** [QueueUser] up to [Queue]; [alloc] is what the allocator returns. *)
Definition QueueUser_alloc (t : nat) (alloc : option Z) (pkt : zx_port_packet_t) (s : PortSys) : zx_status_t + PortSys :=
  match alloc with
  | None => inl ZX_ERR_NO_MEMORY
  | Some p =>
      let pkt := mkPacket (pk_key pkt) ZX_PKT_TYPE_USER (pk_status pkt) (pk_body pkt) in
      inr (set_pc t (PQueue p) (set_heap_pk (<[p := mkPortPacket pkt 0 None (Some ArenaPortAllocator)]> (heap_pk s)) s))
  end.

(** One step of thread [t]. *)
Definition thread_step (t w : nat) (s : PortSys) : option (option PortSys) :=
  match pcs s !! t with
  | Some (PQueue p) =>
      Some (match Queue_locked p 0 s with
            | None => None
            | Some (s, None) => Some (set_pc t PPost s)
            | Some (s, Some _) => Some (set_pc t (PFree p) s)
            end)
  | Some (PQueueOther p) =>
      Some (match Queue_locked p 0 s with
            | None => None
            | Some (s, None) => Some (set_pc t PPost s)
            | Some (s, Some _) => Some (set_pc t PIdle s)
            end)
  | Some PPost => Some (Some (Post w (set_pc t PIdle s)))
  | Some (PFree p) => Some (match free_packet p s with None => None | Some s => Some (set_pc t PIdle s) end)
  | Some PGot => Some (take_interrupt t s)
  | Some PRegular => Some (take_packet t s)
  | _ => None
  end.

(** One step of [on_zero_handles]. [RemoveObserver] takes the lock of the object, so it
    waits for a callback that is running. *)
Definition close_step (s : PortSys) : option (option PortSys) :=
  match zpc s with
  | ZIdle => Some (Some (set_zpc ZDrain (set_port (set_zero_handles (port s)) s)))
  | ZDrain =>
      Some (match packets_ (port s) with
            | [] => Some (set_zpc ZObservers s)
            | p :: rest =>
                match heap_pk s !! p with
                | None => None
                | Some pk =>
                    if IsDefaultAllocatedEphemeral pk
                    then Some (set_zpc (ZFree p) (set_port (set_packets (wrap64 (num_ephemeral_packets_ (port s) - 1)) rest (port s)) s))
                    else reset_observer p (set_port (set_packets (num_ephemeral_packets_ (port s)) rest (port s)) s)
                end
            end)
  | ZFree p => Some (match free_packet p s with None => None | Some s => Some (set_zpc ZDrain s) end)
  | ZObservers =>
      Some (match observers_ (port s) with
            | [] => Some (set_zpc ZDone s)
            | o :: rest =>
                match heap_ob s !! o with
                | None => None
                | Some ob =>
                    Some (set_zpc (ZRemove o) (set_port (set_observers rest (port s))
                      (set_heap_ob (<[o := mkPortObserver (ob_options ob) None]> (heap_ob s)) s)))
                end
            end)
  | ZRemove o =>
      match phases s !! o with
      | Some PhLinked | Some PhDone =>
          Some (match destroy_observer o (set_phase o PhDone s) with None => None | Some s => Some (set_zpc ZObservers s) end)
      | _ => None
      end
  | ZDone => None
  end.

(** ** Runs *)

Inductive PortOp :=
| OpMakeObserver (waitable : bool) (o options h obj k signals : Z)
| OpAddObserver (o : Z) (matched : option Z)
| OpSignal (o signals : Z)
| OpCancel (o : Z)
| OpCallback (o now : Z) (w : nat)
| OpQueueUser (t : nat) (alloc : option Z) (pkt : zx_port_packet_t)
| OpQueueOther (t : nat) (p : Z) (pkt : zx_port_packet_t)
| OpThread (t w : nat)
| OpWait (t : nat)
| OpUnblock (t : nat)
| OpBindInterrupt (ip k : Z)
| OpInterrupt (t : nat) (ip timestamp : Z)
| OpRemoveInterrupt (ip : Z)
| OpCancelQueued (h k : Z)
| OpCancelPacket (p : Z)
| OpClose.

(** The packets in the hands of threads. *)
Definition pc_held (pc : PPC) : list Z :=
  match pc with PQueue p | PQueueOther p | PFree p => [p] | _ => [] end.
Definition zpc_held (z : ZPC) : list Z := match z with ZFree p => [p] | _ => [] end.
Definition held (s : PortSys) : list Z := flat_map pc_held (pcs s) ++ zpc_held (zpc s).

Inductive Outcome := Next (s : PortSys) | Disabled | Fault.

Definition outcome (r : option PortSys) : Outcome := match r with Some s => Next s | None => Fault end.
Definition outcome2 (r : option (option PortSys)) : Outcome := match r with Some r => outcome r | None => Disabled end.
(** An operation that fails at once leaves the state as it was. *)
Definition attempt (r : zx_status_t + PortSys) (s : PortSys) : Outcome := match r with inl _ => Next s | inr s => Next s end.
Definition guarded (b : bool) (r : Outcome) : Outcome := if b then r else Disabled.

Definition is_idle (t : nat) (s : PortSys) : bool := match pcs s !! t with Some PIdle => true | _ => false end.
Definition is_phase_linked (o : Z) (s : PortSys) : bool := match phases s !! o with Some PhLinked => true | _ => false end.

(** An address nothing in the heap has. *)
Definition fresh (a : Z) (s : PortSys) : bool :=
  match heap_pk s !! a, heap_ob s !! a, phases s !! a with None, None, None => negb (a =? 0) | _, _, _ => false end.

(** A packet of another source, which is not in use. *)
Definition other_ready (p : Z) (s : PortSys) : bool :=
  match heap_pk s !! p with
  | Some pk => match allocator pk with Some OtherPortAllocator => negb (in_container p (packets_ (port s) ++ held s)) | _ => false end
  | None => fresh p s
  end.

(** The guards: an observer is made with a handle to the port held (so before the last one
    is closed); a callback happens to a registered observer, for signals that are not
    empty; an interrupt uses a port made for it; cancelling is for a handle, or for a
    packet of another source. *)
Definition port_step (op : PortOp) (s : PortSys) : Outcome :=
  match op with
  | OpMakeObserver waitable o options h obj k signals =>
      guarded (fresh o s && negb (zero_handles_ (port s))) (attempt (MakeObserver waitable o options h obj k signals s) s)
  | OpAddObserver o matched =>
      match phases s !! o, matched with
      | Some PhNew, None => Next (set_phase o PhLinked s)
      | Some PhNew, Some signals => guarded (negb (signals =? 0)) (Next (set_phase o (PhMatch signals) s))
      | _, _ => Disabled
      end
  | OpSignal o signals =>
      guarded (is_phase_linked o s && negb (signals =? 0)) (Next (set_phase o (PhMatch signals) s))
  | OpCancel o => guarded (is_phase_linked o s) (Next (set_phase o PhReap s))
  | OpCallback o now w => outcome2 (callback_step o now w s)
  | OpQueueUser t alloc pkt =>
      guarded (is_idle t s && match alloc with Some p => fresh p s | None => true end) (attempt (QueueUser_alloc t alloc pkt s) s)
  | OpQueueOther t p pkt =>
      guarded (is_idle t s && other_ready p s)
        (Next (set_pc t (PQueueOther p) (set_heap_pk (<[p := mkPortPacket pkt 0 None (Some OtherPortAllocator)]> (heap_pk s)) s)))
  | OpThread t w => outcome2 (thread_step t w s)
  | OpWait t => guarded (is_idle t s) (Next (Wait t s))
  | OpUnblock t => guarded (match pcs s !! t with Some PBlocked => true | _ => false end) (Next (Unblock t s))
  | OpBindInterrupt ip k =>
      guarded (match heap_ip s !! ip with None => true | _ => false end)
        (Next (set_heap_ip (<[ip := mkInterrupt 0 k]> (heap_ip s)) s))
  | OpInterrupt t ip timestamp =>
      guarded (is_idle t s && (options_ (port s) =? ZX_PORT_BIND_TO_INTERRUPT) && match heap_ip s !! ip with Some _ => true | None => false end)
        (match QueueInterrupt_locked ip timestamp s with
         | None => Fault
         | Some (s, true) => Next (set_pc t PPost s)
         | Some (s, false) => Next s
         end)
  | OpRemoveInterrupt ip => Next (RemoveInterruptPacket ip s).1
  | OpCancelQueued h k =>
      guarded (negb (h =? 0)) (match CancelQueued h k s with None => Fault | Some (s, _) => Next s end)
  | OpCancelPacket p =>
      guarded (match heap_pk s !! p with
               | Some pk => match allocator pk with Some OtherPortAllocator => true | _ => false end
               | None => false end)
        (match CancelQueued_packet p s with None => Fault | Some (s, _) => Next s end)
  | OpClose => outcome2 (close_step s)
  end.

(** A run; [None] when it faults. Steps that are not enabled are skipped. *)
Fixpoint port_run (ops : list PortOp) (s : PortSys) : option PortSys :=
  match ops with
  | [] => Some s
  | op :: ops =>
      match port_step op s with
      | Next s => port_run ops s
      | Disabled => port_run ops s
      | Fault => None
      end
  end.

(** A new port, with [n] threads around. *)
Definition port_boot (q : PortDispatcher) (n : nat) : PortSys := mkPS q ∅ ∅ ∅ ∅ (replicate n PIdle) ZIdle [].
