(* ===== verification/PortSafety.v ===== *)
(** * Ports: memory safety and wake-ups

    The invariant of the interleavings of [Port], and what it gives: no use of freed
    memory, no leak, no lost wake-up, and the bound on queued packets. *)

From S2P Require Import Prelude Types Port.

(** ** The invariant of the heap

    It is stated on the parts of the state it depends on: the lists of the port, the heap,
    the callbacks, the packets held by threads, and the closing thread. *)

Definition active (ph : ObsPhase) : bool := match ph with PhDestroy | PhDone => false | _ => true end.
Definition closing (z : ZPC) : bool := match z with ZIdle => false | _ => true end.
Definition drained (z : ZPC) : bool := match z with ZObservers | ZRemove _ | ZDone => true | _ => false end.

(** Who destroys an observer: its callback, while it is linked to the port; the closing
    thread, once that has taken it; the end of its callback; or whoever takes its packet
    off the queue. *)
Inductive fate (disp : option Z) (ph : option ObsPhase) (attached : bool) (removing queued : bool) : Prop :=
| fate_callback d ph0 : disp = Some d -> ph = Some ph0 -> active ph0 = true -> attached = false -> removing = false -> fate disp ph attached removing queued
| fate_closer ph0 : disp = None -> ph = Some ph0 -> ph0 <> PhDestroy -> attached = false -> removing = true -> fate disp ph attached removing queued
| fate_destroy : disp = None -> ph = Some PhDestroy -> attached = false -> removing = false -> queued = false -> fate disp ph attached removing queued
| fate_packet : disp = None -> ph = Some PhDone -> attached = true -> removing = false -> fate disp ph attached removing queued.

Definition is_attached (hpk : gmap Z PortPacket) (o : Z) : bool :=
  match hpk !! o with Some pk => match observer pk with Some _ => true | None => false end | None => false end.
Definition is_default (hpk : gmap Z PortPacket) (p : Z) : bool :=
  match hpk !! p with Some pk => IsDefaultAllocatedEphemeral pk | None => false end.
Definition count_default (hpk : gmap Z PortPacket) (l : list Z) : Z := zlen (filter (fun p => is_default hpk p = true) l).

#[global] Instance ZPC_eq_dec : EqDecision ZPC.
Proof. solve_decision. Defined.

Record pinv (pks obs : list Z) (zero : bool) (num : Z) (hpk : gmap Z PortPacket) (hob : gmap Z PortObserver)
  (phs : gmap Z ObsPhase) (hl : list Z) (z : ZPC) : Prop := {
  pi_nodup : NoDup (pks ++ hl);
  pi_live : forall p, p ∈ pks ++ hl -> is_Some (hpk !! p);
  pi_held : forall p pk, p ∈ hl -> hpk !! p = Some pk -> allocator pk <> None;
  pi_owned : forall p pk, hpk !! p = Some pk -> allocator pk = Some ArenaPortAllocator -> p ∈ pks ++ hl;
  pi_embedded : forall o, (exists pk, hpk !! o = Some pk /\ allocator pk = None) <-> is_Some (hob !! o);
  pi_plain : forall p pk, hpk !! p = Some pk -> allocator pk <> None -> handle pk = 0 /\ observer pk = None;
  pi_obs_nodup : NoDup obs;
  pi_obs : forall o, o ∈ obs <-> exists ob d, hob !! o = Some ob /\ ob_dispatcher ob = Some d;
  pi_fate : forall o ob, hob !! o = Some ob ->
    fate (ob_dispatcher ob) (phs !! o) (is_attached hpk o) (bool_decide (z = ZRemove o)) (bool_decide (o ∈ pks));
  pi_gone : forall o ph, hob !! o = None -> phs !! o = Some ph -> ph = PhDone;
  pi_attached : forall p pk o, hpk !! p = Some pk -> observer pk = Some o -> o = p /\ p ∈ pks;
  pi_zremove : forall o, z = ZRemove o -> is_Some (hob !! o);
  pi_zero : zero = closing z;
  pi_drained : drained z = true -> pks = [];
  pi_num : num = count_default hpk pks;
  pi_limit : num <= kMaxAllocatedPacketCountPerPort + 1;
}.

Section Lemmas.
Implicit Types (pks obs hl : list Z) (hpk : gmap Z PortPacket) (hob : gmap Z PortObserver) (phs : gmap Z ObsPhase).

Lemma count_default_app hpk l k : count_default hpk (l ++ k) = count_default hpk l + count_default hpk k.
Proof. unfold count_default. by rewrite filter_app, zlen_app. Qed.

Lemma count_default_one hpk p : count_default hpk [p] = if is_default hpk p then 1 else 0.
Proof. unfold count_default. rewrite filter_cons. by destruct (is_default hpk p). Qed.

Lemma count_default_perm hpk l k : l ≡ₚ k -> count_default hpk l = count_default hpk k.
Proof. intros H. unfold count_default, zlen. by rewrite H. Qed.

Lemma count_default_ext hpk hpk' l :
  (forall p, p ∈ l -> is_default hpk p = is_default hpk' p) -> count_default hpk l = count_default hpk' l.
Proof.
  induction l as [|p l IH]; intros H; [done|]. change (p :: l) with ([p] ++ l).
  rewrite !count_default_app, !count_default_one, (H p), IH by set_solver. done.
Qed.

Lemma count_default_nonneg hpk l : 0 <= count_default hpk l.
Proof. unfold count_default. apply zlen_nonneg. Qed.

Lemma pinv_held pks obs zero num hpk hob phs hl hl' z :
  hl ≡ₚ hl' -> pinv pks obs zero num hpk hob phs hl z -> pinv pks obs zero num hpk hob phs hl' z.
Proof. intros H []. constructor; try done; intros *; rewrite <-H; eauto. Qed.

(** Only the kind of a packet, its handle and its observer matter. *)
Definition same_kind (pk pk' : PortPacket) : Prop :=
  handle pk = handle pk' /\ observer pk = observer pk' /\ allocator pk = allocator pk'.

Lemma same_kind_lookup hpk p pk pk' q r :
  hpk !! p = Some pk -> same_kind pk pk' -> <[p := pk']> hpk !! q = Some r ->
  exists r0, hpk !! q = Some r0 /\ same_kind r0 r.
Proof.
  intros Hp Hk Hq. destruct (decide (q = p)) as [->|].
  - rewrite lookup_insert_eq in Hq. injection Hq as <-. by exists pk.
  - rewrite lookup_insert_ne in Hq by done. by exists r.
Qed.

Lemma same_kind_default hpk p pk pk' q :
  hpk !! p = Some pk -> same_kind pk pk' -> is_default (<[p := pk']> hpk) q = is_default hpk q.
Proof.
  intros Hp (_ & _ & Ha). unfold is_default. destruct (decide (q = p)) as [->|]; [|by rewrite lookup_insert_ne].
  rewrite lookup_insert_eq, Hp. unfold IsDefaultAllocatedEphemeral, is_ephemeral. by rewrite Ha.
Qed.

Lemma same_kind_attached hpk p pk pk' q :
  hpk !! p = Some pk -> same_kind pk pk' -> is_attached (<[p := pk']> hpk) q = is_attached hpk q.
Proof.
  intros Hp (_ & Ho & _). unfold is_attached. destruct (decide (q = p)) as [->|]; [|by rewrite lookup_insert_ne].
  by rewrite lookup_insert_eq, Hp, Ho.
Qed.

Lemma pinv_content pks obs zero num hpk hob phs hl z p pk pk' :
  pinv pks obs zero num hpk hob phs hl z -> hpk !! p = Some pk -> same_kind pk pk' ->
  pinv pks obs zero num (<[p := pk']> hpk) hob phs hl z.
Proof.
  intros [Hnd Hlive Hheld Hown Hemb Hplain Hond Hobs Hfate Hgone Hatt Hzr Hz Hdr Hnum Hlim] Hp Hk.
  pose proof (fun q r => same_kind_lookup hpk p pk pk' q r Hp Hk) as Hl. constructor; try done.
  - intros q Hq. destruct (decide (q = p)) as [->|]; [by rewrite lookup_insert_eq|rewrite lookup_insert_ne by done; auto].
  - intros q r Hq (r0 & H0 & _ & _ & <-)%Hl. eauto.
  - intros q r (r0 & H0 & _ & _ & E)%Hl. rewrite <-E. eauto.
  - intros o. rewrite <-Hemb. split.
    + intros (r & (r0 & H0 & _ & _ & E)%Hl & Ha). exists r0. by rewrite E.
    + intros (r & Hr & Ha). destruct (decide (o = p)) as [->|].
      * exists pk'. rewrite lookup_insert_eq. destruct Hk as (_ & _ & <-). split; [done|congruence].
      * exists r. by rewrite lookup_insert_ne.
  - intros q r (r0 & H0 & <- & <- & <-)%Hl. eauto.
  - intros o ob Ho. rewrite (same_kind_attached hpk p pk pk') by done. auto.
  - intros q r o (r0 & H0 & _ & <- & _)%Hl. eauto.
  - rewrite Hnum. apply count_default_ext. intros. by rewrite (same_kind_default hpk p pk pk').
Qed.

(** A callback moves on while its observer is linked or taken by the closing thread. *)
Lemma pinv_phase pks obs zero num hpk hob phs hl z o ph ph' :
  pinv pks obs zero num hpk hob phs hl z -> phs !! o = Some ph -> active ph = true -> active ph' = true ->
  pinv pks obs zero num hpk hob (<[o := ph']> phs) hl z.
Proof.
  intros Hi Ho Ha Ha'. destruct Hi as [Hnd Hlive Hheld Hown Hemb Hplain Hond Hobs Hfate Hgone Hatt Hzr Hz Hdr Hnum Hlim].
  constructor; try done.
  - intros x ob Hx. destruct (decide (x = o)) as [->|]; [|rewrite lookup_insert_ne by done; auto].
    rewrite lookup_insert_eq. specialize (Hfate o ob Hx). rewrite Ho in Hfate.
    inversion Hfate as [d ph0 Hd [= <-] _ Hat Hr|ph0 Hd [= <-] _ Hat Hr|Hd [= ->]|Hd [= ->]]; try done.
    + by eapply fate_callback.
    + eapply fate_closer; [done..| |done|done]. by intros ->.
  - intros x px Hx. destruct (decide (x = o)) as [->|]; [|rewrite lookup_insert_ne by done; eauto].
    specialize (Hgone o ph Hx Ho). by subst.
Qed.

(** A thread gets hold of a packet that nobody uses. *)
Lemma pinv_hold pks obs zero num hpk hob phs hl z p pk :
  pinv pks obs zero num hpk hob phs hl z -> p ∉ pks ++ hl -> hob !! p = None ->
  allocator pk <> None -> handle pk = 0 -> observer pk = None ->
  pinv pks obs zero num (<[p := pk]> hpk) hob phs (p :: hl) z.
Proof.
  intros [Hnd Hlive Hheld Hown Hemb Hplain Hond Hobs Hfate Hgone Hatt Hzr Hz Hdr Hnum Hlim] Hp Hob Ha Hh Ho.
  constructor; try done.
  - rewrite <-Permutation_middle. by constructor.
  - intros q Hq. destruct (decide (q = p)) as [->|]; [by rewrite lookup_insert_eq|]. rewrite lookup_insert_ne by done. apply Hlive. set_solver.
  - intros q r Hq. destruct (decide (q = p)) as [->|]; [rewrite lookup_insert_eq; by intros [= <-]|].
    rewrite lookup_insert_ne by done. apply Hheld. set_solver.
  - intros q r. destruct (decide (q = p)) as [->|]; [set_solver|]. rewrite lookup_insert_ne by done. intros H1 H2. specialize (Hown q r H1 H2). set_solver.
  - intros o. rewrite <-Hemb. destruct (decide (o = p)) as [->|]; [|by rewrite lookup_insert_ne].
    rewrite lookup_insert_eq, Hemb, Hob. split; [intros (r & [= <-] & ?); done|by intros []].
  - intros q r. destruct (decide (q = p)) as [->|]; [rewrite lookup_insert_eq; by intros [= <-]|]. rewrite lookup_insert_ne by done. apply Hplain.
  - intros o ob Hx. assert (is_attached (<[p := pk]> hpk) o = is_attached hpk o) as ->; [|auto].
    unfold is_attached. rewrite lookup_insert_ne; [done|]. intros ->. congruence.
  - intros q r o. destruct (decide (q = p)) as [->|]; [rewrite lookup_insert_eq; intros [= <-]; congruence|].
    rewrite lookup_insert_ne by done. apply Hatt.
  - rewrite Hnum. apply count_default_ext. intros q Hq. unfold is_default. rewrite lookup_insert_ne; [done|]. set_solver.
Qed.

(** A packet that a thread holds, or the packet of an observer, joins the queue. *)
Lemma pinv_push pks obs num hpk hob phs hl hl' z p pk :
  pinv pks obs false num hpk hob phs hl z -> hpk !! p = Some pk -> p ∉ pks ->
  (hl ≡ₚ p :: hl' \/ (hl ≡ₚ hl' /\ allocator pk = None /\ exists ph, phs !! p = Some ph /\ active ph = true)) ->
  (IsDefaultAllocatedEphemeral pk = true -> num <= kMaxAllocatedPacketCountPerPort) ->
  pinv (pks ++ [p]) obs false (num + if IsDefaultAllocatedEphemeral pk then 1 else 0) hpk hob phs hl' z.
Proof.
  intros [Hnd Hlive Hheld Hown Hemb Hplain Hond Hobs Hfate Hgone Hatt Hzr Hz Hdr Hnum Hlim] Hp Hn Hhl Hmax.
  assert (forall q, q ∈ (pks ++ [p]) ++ hl' <-> q = p \/ q ∈ pks ++ hl) as Hin.
  { intros q. destruct Hhl as [->|(-> & _)]; set_solver. }
  assert (p ∈ hl -> p ∉ hl') as Hhn.
  { intros H. destruct Hhl as [Hh|(_ & Ha & _)].
    - rewrite Hh in Hnd. apply NoDup_app in Hnd as (_ & _ & [? _]%NoDup_cons). done.
    - by destruct (Hheld p pk H Hp). }
  constructor; try done.
  - rewrite <-(assoc_L (++)). cbn. destruct Hhl as [Hh|(Hh & Ha & _)]; [by rewrite Hh in Hnd|].
    rewrite <-Permutation_middle. constructor; [|by rewrite Hh in Hnd]. rewrite elem_of_app. intros [?|H]; [done|].
    rewrite <-Hh in H. by destruct (Hheld p pk H Hp).
  - intros q [->|Hq]%Hin; [done|auto].
  - intros q r Hq. apply Hheld. destruct Hhl as [->|(-> & _)]; set_solver.
  - intros q r H1 H2. apply Hin. right. eauto.
  - intros o ob Ho. specialize (Hfate o ob Ho). destruct (decide (o = p)) as [->|].
    + inversion Hfate as [d ph0 ? E ? ? ?|ph0 ? E ? ? ?|? E ? ? ?|? E ? ?].
      * by eapply fate_callback.
      * by eapply fate_closer.
      * destruct Hhl as [Hh|(_ & _ & ph & Eph & Hact)]; [|rewrite E in Eph; by injection Eph as <-].
        exfalso. apply (Hheld p pk); [rewrite Hh; set_solver|done|]. destruct (proj2 (Hemb p)) as (r & Hr & Har); [by rewrite Ho|]. congruence.
      * by apply fate_packet.
    + assert (bool_decide (o ∈ pks ++ [p]) = bool_decide (o ∈ pks)) as -> by (apply bool_decide_ext; set_solver). done.
  - intros q r o H1 H2. destruct (Hatt q r o H1 H2). set_solver.
  - intros Hd. destruct z; done.
  - rewrite count_default_app, count_default_one, Hnum. unfold is_default. by rewrite Hp.
  - destruct (IsDefaultAllocatedEphemeral pk); [specialize (Hmax eq_refl)|]; lia.
Qed.

(** Being taken off the queue never hurts an observer that is not waiting for it. *)
Lemma fate_unqueue disp ph att rm q : fate disp ph att rm q -> fate disp ph att rm false.
Proof. intros []; [by eapply fate_callback|by eapply fate_closer|by apply fate_destroy|by apply fate_packet]. Qed.

Lemma pinv_pop_held pks rest obs zero num hpk hob phs hl z p pk :
  pinv pks obs zero num hpk hob phs hl z -> pks ≡ₚ p :: rest -> hpk !! p = Some pk -> allocator pk <> None ->
  pinv rest obs zero (num - if IsDefaultAllocatedEphemeral pk then 1 else 0) hpk hob phs (p :: hl) z.
Proof.
  intros [Hnd Hlive Hheld Hown Hemb Hplain Hond Hobs Hfate Hgone Hatt Hzr Hz Hdr Hnum Hlim] Hpks Hp Ha.
  assert (pks ++ hl ≡ₚ rest ++ p :: hl) as Hperm by (rewrite Hpks; cbn; apply Permutation_middle).
  constructor; try done.
  - by rewrite <-Hperm.
  - intros q. rewrite <-Hperm. auto.
  - intros q r [->|Hq]%elem_of_cons; [congruence|eauto].
  - intros q r. rewrite <-Hperm. eauto.
  - intros o ob Ho. assert (o <> p) as Hne.
    { intros ->. destruct (proj2 (Hemb p)) as (r & Hr & Har); [by rewrite Ho|]. congruence. }
    assert (bool_decide (o ∈ rest) = bool_decide (o ∈ pks)) as -> by (apply bool_decide_ext; rewrite Hpks; set_solver). auto.
  - intros q r o H1 H2. destruct (Hatt q r o H1 H2) as [-> Hq]. split; [done|]. rewrite Hpks in Hq.
    apply elem_of_cons in Hq as [->|]; [|done]. destruct (Hplain p pk Hp Ha). congruence.
  - intros Hd. rewrite (Hdr Hd) in Hpks. by apply Permutation_nil_cons in Hpks.
  - rewrite Hnum, (count_default_perm hpk _ _ Hpks). change (p :: rest) with ([p] ++ rest).
    rewrite count_default_app, count_default_one. unfold is_default. rewrite Hp. lia.
  - destruct (IsDefaultAllocatedEphemeral pk); lia.
Qed.

Lemma pinv_drop_other pks obs zero num hpk hob phs hl hl' z p pk :
  pinv pks obs zero num hpk hob phs hl z -> hl ≡ₚ p :: hl' -> hpk !! p = Some pk -> allocator pk = Some OtherPortAllocator ->
  pinv pks obs zero num hpk hob phs hl' z.
Proof.
  intros [Hnd Hlive Hheld Hown Hemb Hplain Hond Hobs Hfate Hgone Hatt Hzr Hz Hdr Hnum Hlim] Hh Hp Ha. constructor; try done.
  - rewrite Hh, <-Permutation_middle in Hnd. by apply NoDup_cons in Hnd as [_ ?].
  - intros q Hq. apply Hlive. rewrite Hh. set_solver.
  - intros q r Hq. apply Hheld. rewrite Hh. set_solver.
  - intros q r H1 H2. specialize (Hown q r H1 H2). rewrite Hh in Hown. assert (q <> p) by congruence. set_solver.
Qed.

Lemma pinv_pop_observer pks rest obs zero num hpk hob phs hl z p pk :
  pinv pks obs zero num hpk hob phs hl z -> pks ≡ₚ p :: rest -> hpk !! p = Some pk -> allocator pk = None -> observer pk = None ->
  pinv rest obs zero num hpk hob phs hl z.
Proof.
  intros [Hnd Hlive Hheld Hown Hemb Hplain Hond Hobs Hfate Hgone Hatt Hzr Hz Hdr Hnum Hlim] Hpks Hp Ha Ho. constructor; try done.
  - rewrite Hpks in Hnd. by apply NoDup_cons in Hnd as [_ ?].
  - intros q Hq. apply Hlive. rewrite Hpks. set_solver.
  - intros q r H1 H2. specialize (Hown q r H1 H2). rewrite Hpks in Hown. assert (q <> p) by congruence. set_solver.
  - intros o ob Hx. specialize (Hfate o ob Hx). destruct (decide (o = p)) as [->|].
    + rewrite (bool_decide_false (p ∈ rest)); [by eapply fate_unqueue|]. rewrite Hpks in Hnd. apply NoDup_cons in Hnd as [Hn _]. set_solver.
    + assert (bool_decide (o ∈ rest) = bool_decide (o ∈ pks)) as -> by (apply bool_decide_ext; rewrite Hpks; set_solver). done.
  - intros q r o H1 H2. destruct (Hatt q r o H1 H2) as [-> Hq]. split; [done|]. rewrite Hpks in Hq. assert (q <> p) by congruence. set_solver.
  - intros Hd. rewrite (Hdr Hd) in Hpks. by apply Permutation_nil_cons in Hpks.
  - rewrite Hnum, (count_default_perm hpk _ _ Hpks). change (p :: rest) with ([p] ++ rest).
    rewrite count_default_app, count_default_one. unfold is_default, IsDefaultAllocatedEphemeral. rewrite Hp, Ha. lia.
Qed.

(** Destroying an observer, with the packet inside it. *)
Lemma pinv_destroy pks rest obs zero num hpk hob phs hl z z' o :
  pinv pks obs zero num hpk hob phs hl z -> is_Some (hob !! o) -> o ∉ obs -> (pks ≡ₚ o :: rest \/ pks = rest /\ o ∉ pks) ->
  (z' = z /\ z <> ZRemove o \/ z = ZRemove o /\ z' = ZObservers) ->
  pinv rest obs zero num (delete o hpk) (delete o hob) (<[o := PhDone]> phs) hl z'.
Proof.
  intros [Hnd Hlive Hheld Hown Hemb Hplain Hond Hobs Hfate Hgone Hatt Hzr Hz Hdr Hnum Hlim] Ho Hno Hpks Hz'.
  destruct (proj2 (Hemb o) Ho) as (pk & Hpk & Hal).
  assert (o ∉ hl) as Hnh by (intros H; by destruct (Hheld o pk H Hpk)).
  assert ((o ∉ rest) /\ NoDup (rest ++ hl) /\ (forall x, x ∈ pks <-> x ∈ rest \/ (x = o /\ o ∈ pks)) /\ count_default hpk pks = count_default hpk rest)
    as (Hn & Hnd' & Hin & Hcount).
  { destruct Hpks as [Hp|[-> Hn]]; [|split_and!; try done; set_solver]. rewrite Hp in Hnd. cbn in Hnd. apply NoDup_cons in Hnd as [Hn Hnd].
    split_and!; [set_solver|done|intros x; rewrite Hp; set_solver|]. rewrite (count_default_perm hpk _ _ Hp). change (o :: rest) with ([o] ++ rest).
    rewrite count_default_app, count_default_one. unfold is_default, IsDefaultAllocatedEphemeral. by rewrite Hpk, Hal. }
  assert (closing z' = closing z /\ drained z' = drained z) as [Hc Hdd] by (destruct Hz' as [[-> _]|[-> ->]]; done).
  assert (forall x, x <> o -> bool_decide (z' = ZRemove x) = bool_decide (z = ZRemove x)) as Hrm.
  { intros x Hx. apply bool_decide_ext. destruct Hz' as [[-> _]|[-> ->]]; [done|]. split; [done|congruence]. }
  constructor; try done.
  - intros q Hq. rewrite lookup_delete_ne by set_solver. apply Hlive. set_solver.
  - intros q r Hq. rewrite lookup_delete_ne by set_solver. eauto.
  - intros q r [Hne H1]%lookup_delete_Some H2. specialize (Hown q r H1 H2). set_solver.
  - intros x. destruct (decide (x = o)) as [->|].
    + rewrite !lookup_delete_eq. split; [by intros (? & ? & _)|by intros []].
    + rewrite !lookup_delete_ne by done. apply Hemb.
  - intros q r [_ H1]%lookup_delete_Some. eauto.
  - intros x. rewrite Hobs. split.
    + intros (ob & d & H1 & H2). exists ob, d. split; [|done]. rewrite lookup_delete_ne; [done|]. intros <-. apply Hno, Hobs. eauto.
    + intros (ob & d & [_ H1]%lookup_delete_Some & H2). eauto.
  - intros x ob [Hx H1]%lookup_delete_Some. specialize (Hfate x ob H1). rewrite lookup_insert_ne, Hrm by done.
    unfold is_attached. rewrite lookup_delete_ne by done.
    assert (bool_decide (x ∈ rest) = bool_decide (x ∈ pks)) as -> by (apply bool_decide_ext; rewrite Hin; naive_solver). exact Hfate.
  - intros x ph. destruct (decide (x = o)) as [->|]; [rewrite lookup_insert_eq; by intros _ [= <-]|].
    rewrite lookup_delete_ne, lookup_insert_ne by done. apply Hgone.
  - intros q r x [Hne H1]%lookup_delete_Some H2. destruct (Hatt q r x H1 H2) as [-> Hq]. split; [done|]. apply Hin in Hq as [|[? _]]; [done|congruence].
  - intros x Hx. destruct (decide (x = o)) as [->|]; [destruct Hz' as [[-> ?]|[_ ->]]; done|].
    rewrite lookup_delete_ne by done. destruct Hz' as [[-> _]|[_ ->]]; [auto|done].
  - congruence.
  - rewrite Hdd. intros Hd. specialize (Hdr Hd). destruct rest as [|x rest]; [done|]. assert (x ∈ pks) as H by (apply Hin; set_solver). rewrite Hdr in H. by apply elem_of_nil in H.
  - rewrite Hnum, Hcount. apply count_default_ext. intros q Hq. unfold is_default. rewrite lookup_delete_ne by set_solver. done.
Qed.

(** A held packet of the port's allocator is freed. *)
Lemma pinv_free pks obs zero num hpk hob phs hl hl' z p pk :
  pinv pks obs zero num hpk hob phs hl z -> hl ≡ₚ p :: hl' -> hpk !! p = Some pk -> allocator pk = Some ArenaPortAllocator ->
  pinv pks obs zero num (delete p hpk) hob phs hl' z.
Proof.
  intros [Hnd Hlive Hheld Hown Hemb Hplain Hond Hobs Hfate Hgone Hatt Hzr Hz Hdr Hnum Hlim] Hh Hp Ha.
  rewrite Hh, <-Permutation_middle in Hnd. apply NoDup_cons in Hnd as [Hn Hnd]. constructor; try done.
  - intros q Hq. rewrite lookup_delete_ne by set_solver. apply Hlive. rewrite Hh. set_solver.
  - intros q r Hq. rewrite lookup_delete_ne by set_solver. apply Hheld. rewrite Hh. set_solver.
  - intros q r [Hne H1]%lookup_delete_Some H2. specialize (Hown q r H1 H2). rewrite Hh in Hown. set_solver.
  - intros o. rewrite <-Hemb. destruct (decide (o = p)) as [->|]; [|by rewrite lookup_delete_ne].
    rewrite lookup_delete_eq, Hp. split; [by intros (? & ? & _)|intros (r & [= <-] & ?); congruence].
  - intros q r [_ H1]%lookup_delete_Some. eauto.
  - intros o ob Ho. assert (o <> p) as Hne.
    { intros ->. destruct (proj2 (Hemb p)) as (r & Hr & Har); [by rewrite Ho|]. congruence. }
    unfold is_attached. rewrite lookup_delete_ne by done. by apply Hfate.
  - intros q r o [_ H1]%lookup_delete_Some. eauto.
  - rewrite Hnum. apply count_default_ext. intros q Hq. unfold is_default. rewrite lookup_delete_ne by set_solver. done.
Qed.

Lemma pinv_make pks obs num hpk hob phs hl z o ob d pk :
  pinv pks obs false num hpk hob phs hl z -> hpk !! o = None -> hob !! o = None ->
  ob_dispatcher ob = Some d -> allocator pk = None -> observer pk = None ->
  pinv pks (o :: obs) false num (<[o := pk]> hpk) (<[o := ob]> hob) (<[o := PhNew]> phs) hl z.
Proof.
  intros [Hnd Hlive Hheld Hown Hemb Hplain Hond Hobs Hfate Hgone Hatt Hzr Hz Hdr Hnum Hlim] Hp Ho Hd Ha Hob.
  assert (o ∉ pks ++ hl) as Hn by (intros H; destruct (Hlive o H); congruence).
  assert (z = ZIdle) as -> by (by destruct z).
  constructor; try done.
  - intros q Hq. rewrite lookup_insert_ne by set_solver. auto.
  - intros q r Hq. rewrite lookup_insert_ne by set_solver. eauto.
  - intros q r. destruct (decide (q = o)) as [->|]; [rewrite lookup_insert_eq; intros [= <-]; congruence|].
    rewrite lookup_insert_ne by done. eauto.
  - intros x. destruct (decide (x = o)) as [->|]; [|by rewrite !lookup_insert_ne].
    rewrite !lookup_insert_eq. split; [done|]. intros _. by exists pk.
  - intros q r. destruct (decide (q = o)) as [->|]; [rewrite lookup_insert_eq; by intros [= <-]|].
    rewrite lookup_insert_ne by done. eauto.
  - constructor; [|done]. rewrite Hobs. intros (? & ? & ? & _). congruence.
  - intros x. rewrite elem_of_cons, Hobs. destruct (decide (x = o)) as [->|].
    + rewrite lookup_insert_eq. split; [|by left]. intros _. by exists ob, d.
    + rewrite lookup_insert_ne by done. naive_solver.
  - intros x y. destruct (decide (x = o)) as [->|].
    + rewrite !lookup_insert_eq. intros [= <-]. eapply fate_callback; [done..| |]; [|done].
      unfold is_attached. by rewrite lookup_insert_eq, Hob.
    + rewrite !lookup_insert_ne by done. intros Hx. unfold is_attached. rewrite lookup_insert_ne by done. by apply Hfate.
  - intros x ph. destruct (decide (x = o)) as [->|]; [by rewrite lookup_insert_eq|]. rewrite !lookup_insert_ne by done. apply Hgone.
  - intros q r x. destruct (decide (q = o)) as [->|]; [rewrite lookup_insert_eq; intros [= <-]; congruence|].
    rewrite lookup_insert_ne by done. eauto.
  - rewrite Hnum. apply count_default_ext. intros q Hq. unfold is_default. rewrite lookup_insert_ne by set_solver. done.
Qed.

(** [MaybeReap] when the observer is still linked: it is unlinked, and its packet or the end
    of the callback takes it over. *)
Lemma pinv_reap pks obs zero num hpk hob phs hl z o ob d pk :
  pinv pks obs zero num hpk hob phs hl z -> hob !! o = Some ob -> ob_dispatcher ob = Some d -> hpk !! o = Some pk ->
  let queued := bool_decide (o ∈ pks) in
  let pk' := mkPortPacket (packet pk) (handle pk) (if queued then Some o else observer pk) (allocator pk) in
  pinv pks (filter (fun x => x <> o) obs) zero num (<[o := pk']> hpk) (<[o := mkPortObserver (ob_options ob) None]> hob)
    (<[o := if queued then PhDone else PhDestroy]> phs) hl z.
Proof.
  intros [Hnd Hlive Hheld Hown Hemb Hplain Hond Hobs Hfate Hgone Hatt Hzr Hz Hdr Hnum Hlim] Ho Hd Hp queued pk'.
  assert (allocator pk = None) as Hal.
  { destruct (proj2 (Hemb o)) as (r & Hr & Har); [by rewrite Ho|]. congruence. }
  pose proof (Hfate o ob Ho) as Hf. rewrite Hd in Hf. inversion Hf as [d0 ph0 [= <-] Hph Hact Hat Hrm|ph0 E|E|E]; try done.
  assert (observer pk = None) as Hno by (unfold is_attached in Hat; rewrite Hp in Hat; by destruct (observer pk)).
  assert (forall q r, <[o := pk']> hpk !! q = Some r -> exists r0, hpk !! q = Some r0 /\ handle r0 = handle r /\ allocator r0 = allocator r
    /\ (q <> o -> r0 = r)) as Hl.
  { intros q r. destruct (decide (q = o)) as [->|]; [rewrite lookup_insert_eq; intros [= <-]; by exists pk|].
    rewrite lookup_insert_ne by done. intros. by exists r. }
  constructor; try done.
  - intros q Hq. destruct (decide (q = o)) as [->|]; [by rewrite lookup_insert_eq|rewrite lookup_insert_ne by done; auto].
  - intros q r Hq (r0 & H0 & _ & <- & _)%Hl. eauto.
  - intros q r (r0 & H0 & _ & E & _)%Hl. rewrite <-E. eauto.
  - intros x. destruct (decide (x = o)) as [->|]; [|by rewrite !lookup_insert_ne]. rewrite !lookup_insert_eq. split; [done|].
    intros _. by exists pk'.
  - intros q r Hq Ha. destruct (decide (q = o)) as [->|]; [rewrite lookup_insert_eq in Hq; injection Hq as <-; done|].
    rewrite lookup_insert_ne in Hq by done. eauto.
  - by apply NoDup_filter.
  - intros x. rewrite list_elem_of_filter, Hobs. destruct (decide (x = o)) as [->|].
    + rewrite lookup_insert_eq. split; [by intros [? _]|]. by intros (? & ? & [= <-] & ?).
    + rewrite lookup_insert_ne by done. naive_solver.
  - intros x y. destruct (decide (x = o)) as [->|].
    + rewrite !lookup_insert_eq. intros [= <-]. unfold is_attached. rewrite lookup_insert_eq. subst pk'. unfold queued. cbn [observer].
      destruct (bool_decide (o ∈ pks)); [by apply fate_packet|apply fate_destroy; try done]. by rewrite Hno.
    + rewrite !lookup_insert_ne by done. intros Hx. unfold is_attached. rewrite lookup_insert_ne by done. by apply Hfate.
  - intros x ph. destruct (decide (x = o)) as [->|]; [by rewrite lookup_insert_eq|]. rewrite !lookup_insert_ne by done. apply Hgone.
  - intros q r x Hq Hx. destruct (decide (q = o)) as [->|].
    + rewrite lookup_insert_eq in Hq. injection Hq as <-. subst pk'. cbn in Hx. unfold queued in Hx. case_bool_decide; [|congruence]. by injection Hx as <-.
    + rewrite lookup_insert_ne in Hq by done. eauto.
  - intros x Hx. destruct (decide (x = o)) as [->|]; [by rewrite lookup_insert_eq|rewrite lookup_insert_ne by done; auto].
  - rewrite Hnum. apply count_default_ext. intros q Hq. unfold is_default. destruct (decide (q = o)) as [->|]; [|by rewrite lookup_insert_ne].
    rewrite lookup_insert_eq, Hp. unfold IsDefaultAllocatedEphemeral, pk'. cbn. by rewrite Hal.
Qed.

(** [MaybeReap] when the closing thread was first. *)
Lemma pinv_reap_late pks obs zero num hpk hob phs hl z o ob ph :
  pinv pks obs zero num hpk hob phs hl z -> hob !! o = Some ob -> ob_dispatcher ob = None ->
  phs !! o = Some ph -> active ph = true ->
  pinv pks obs zero num hpk hob (<[o := PhDone]> phs) hl z.
Proof.
  intros [Hnd Hlive Hheld Hown Hemb Hplain Hond Hobs Hfate Hgone Hatt Hzr Hz Hdr Hnum Hlim] Ho Hd Hph Hact. constructor; try done.
  - intros x y Hx. destruct (decide (x = o)) as [->|]; [|rewrite lookup_insert_ne by done; auto]. rewrite lookup_insert_eq.
    specialize (Hfate o y Hx). rewrite Ho in Hx. injection Hx as <-. rewrite Hd, Hph in *.
    inversion Hfate as [|ph0 _ [= <-] _ Hat Hr|_ [= ->]|_ [= ->]]; try done. by eapply fate_closer.
  - intros x y Hx. destruct (decide (x = o)) as [->|]; [congruence|]. rewrite lookup_insert_ne by done. eauto.
Qed.

(** The closing thread. *)
Lemma pinv_zpc pks obs zero num hpk hob phs hl z z' :
  pinv pks obs zero num hpk hob phs hl z -> closing z' = closing z -> (drained z' = true -> pks = []) ->
  (forall o, z <> ZRemove o) -> (forall o, z' <> ZRemove o) -> pinv pks obs zero num hpk hob phs hl z'.
Proof.
  intros [Hnd Hlive Hheld Hown Hemb Hplain Hond Hobs Hfate Hgone Hatt Hzr Hz Hdr Hnum Hlim] Hc Hd Hr Hr'. constructor; try done.
  - intros o ob Ho. specialize (Hfate o ob Ho). rewrite bool_decide_false in Hfate by done. by rewrite bool_decide_false.
  - intros o Ho. by destruct (Hr' o).
  - congruence.
Qed.

Lemma pinv_close_start pks obs zero num hpk hob phs hl :
  pinv pks obs zero num hpk hob phs hl ZIdle -> pinv pks obs true num hpk hob phs hl ZDrain.
Proof.
  intros [Hnd Hlive Hheld Hown Hemb Hplain Hond Hobs Hfate Hgone Hatt Hzr Hz Hdr Hnum Hlim]. by constructor.
Qed.

Lemma pinv_take_observer pks rest zero num hpk hob phs hl o ob :
  pinv pks (o :: rest) zero num hpk hob phs hl ZObservers -> hob !! o = Some ob ->
  pinv pks rest zero num hpk (<[o := mkPortObserver (ob_options ob) None]> hob) phs hl (ZRemove o).
Proof.
  intros [Hnd Hlive Hheld Hown Hemb Hplain Hond Hobs Hfate Hgone Hatt Hzr Hz Hdr Hnum Hlim] Ho.
  apply NoDup_cons in Hond as [Hn Hond].
  destruct (proj1 (Hobs o) ltac:(set_solver)) as (ob' & d & Ho' & Hd). rewrite Ho in Ho'. injection Ho' as <-.
  constructor; try done.
  - intros x. rewrite Hemb. destruct (decide (x = o)) as [->|]; [by rewrite Ho, lookup_insert_eq|by rewrite lookup_insert_ne].
  - intros x. destruct (decide (x = o)) as [->|].
    + rewrite lookup_insert_eq. split; [done|]. by intros (? & ? & [= <-] & ?).
    + rewrite lookup_insert_ne by done. rewrite <-Hobs. set_solver.
  - intros x y. destruct (decide (x = o)) as [->|].
    + rewrite lookup_insert_eq. intros [= <-]. cbn. rewrite bool_decide_true by done. specialize (Hfate o ob Ho). rewrite Hd in Hfate.
      inversion Hfate as [d0 ph0 _ Hph Hact Hat _|? E|E|E]; try done. eapply fate_closer; [done..| |done|done]. by intros ->.
    + rewrite lookup_insert_ne by done. intros Hx. specialize (Hfate x y Hx). rewrite bool_decide_false in Hfate by done.
      rewrite bool_decide_false by congruence. done.
  - intros x ph. destruct (decide (x = o)) as [->|]; [by rewrite lookup_insert_eq|]. rewrite lookup_insert_ne by done. apply Hgone.
  - intros x [= <-]. by rewrite lookup_insert_eq.
Qed.

End Lemmas.

(** ** The invariant of the system *)

Definition port_inv_with (extra : list Z) (s : PortSys) : Prop :=
  pinv (packets_ (port s)) (observers_ (port s)) (zero_handles_ (port s)) (num_ephemeral_packets_ (port s))
    (heap_pk s) (heap_ob s) (phases s) (held s ++ extra) (zpc s).

Abbreviation port_inv := (port_inv_with []).

Lemma port_boot_inv q n options : port_Create options true = inr q -> port_inv (port_boot q n).
Proof.
  unfold port_Create. case_if; [done|]. intros [= <-]. unfold port_inv_with, held. cbn.
  assert (flat_map pc_held (replicate n PIdle) = []) as -> by (by induction n).
  constructor; cbn; try done; try set_solver; try (intros; by rewrite ?lookup_empty in * ); try constructor; try lia.
  - by intros (? & ? & _).
  - by intros [].
Qed.

(** *** Threads and the packets they hold *)

Lemma held_set_pc t pc0 s :
  pcs s !! t = Some pc0 -> exists R, held s ≡ₚ pc_held pc0 ++ R /\ forall pc, held (set_pc t pc s) ≡ₚ pc_held pc ++ R.
Proof.
  intros Ht. destruct (flat_map_insert pc_held (pcs s) t pc0 Ht) as (R & H1 & H2). exists (R ++ zpc_held (zpc s)). unfold held. cbn.
  split; [rewrite H1|intros pc; rewrite H2]; solve_Permutation.
Qed.

Lemma set_pc_inv t pc0 pc extra extra' s :
  port_inv_with extra s -> pcs s !! t = Some pc0 -> pc_held pc ++ extra' ≡ₚ pc_held pc0 ++ extra ->
  port_inv_with extra' (set_pc t pc s).
Proof.
  intros Hi Ht Hp. destruct (held_set_pc t pc0 s Ht) as (R & H1 & H2). unfold port_inv_with in *. cbn.
  eapply pinv_held; [|exact Hi]. rewrite (H2 pc), H1.
  transitivity (R ++ (pc_held pc0 ++ extra)); [solve_Permutation|]. rewrite <-Hp. solve_Permutation.
Qed.

(** *** The critical sections do not fault, and keep the invariant *)

Lemma same_kind_observe b observed pk : same_kind pk (observe b observed pk).
Proof. done. Qed.

(** [Queue], for a packet a thread holds or for the packet of an observer in its callback. *)
Lemma Queue_locked_spec p pk observed s extra hl' :
  port_inv_with extra s -> heap_pk s !! p = Some pk ->
  (held s ++ extra ≡ₚ p :: hl' \/
   (held s ++ extra ≡ₚ hl' /\ observed <> 0 /\ allocator pk = None /\ exists ph, phases s !! p = Some ph /\ active ph = true)) ->
  exists s' r, Queue_locked p observed s = Some (s', r) /\
    pcs s' = pcs s /\ zpc s' = zpc s /\ phases s' = phases s /\ heap_ob s' = heap_ob s /\ observers_ (port s') = observers_ (port s) /\
    match r with
    | Some _ => port_inv_with extra s'
    | None => pinv (packets_ (port s')) (observers_ (port s')) (zero_handles_ (port s')) (num_ephemeral_packets_ (port s'))
                (heap_pk s') (heap_ob s') (phases s') hl' (zpc s')
    end.
Proof.
  intros Hi Hp Hh. unfold Queue_locked. destruct (zero_handles_ (port s)) eqn:Ez; [by eexists _, _|]. rewrite Hp.
  destruct (IsDefaultAllocatedEphemeral pk && (kMaxAllocatedPacketCountPerPort <? num_ephemeral_packets_ (port s))) eqn:El; [by eexists _, _|].
  unfold port_inv_with in Hi. pose proof Hi as [Hnd _ _ _ _ _ _ _ _ _ _ _ _ _ Hnum Hlim].
  set (pk' := if negb (observed =? 0) then observe false observed pk else pk).
  assert (pinv (packets_ (port s)) (observers_ (port s)) false (num_ephemeral_packets_ (port s)) (<[p := pk']> (heap_pk s))
    (heap_ob s) (phases s) (held s ++ extra) (zpc s)) as Hi'.
  { rewrite Ez in Hi. eapply pinv_content; [done|done|]. unfold pk'. by destruct (observed =? 0). }
  assert (p ∉ packets_ (port s) -> exists s', push_packet p pk (set_heap_pk (<[p := pk']> (heap_pk s)) s) = Some s' /\
    pcs s' = pcs s /\ zpc s' = zpc s /\ phases s' = phases s /\ heap_ob s' = heap_ob s /\ observers_ (port s') = observers_ (port s) /\
    pinv (packets_ (port s')) (observers_ (port s')) (zero_handles_ (port s')) (num_ephemeral_packets_ (port s'))
                (heap_pk s') (heap_ob s') (phases s') hl' (zpc s')) as Hpush.
  { intros Hn. unfold push_packet, in_container. cbn. rewrite bool_decide_false by done. eexists. split; [done|]. cbn. split_and!; try done.
    assert ((if IsDefaultAllocatedEphemeral pk then wrap64 (num_ephemeral_packets_ (port s) + 1) else num_ephemeral_packets_ (port s)) =
      num_ephemeral_packets_ (port s) + if IsDefaultAllocatedEphemeral pk' then 1 else 0) as ->.
    { assert (IsDefaultAllocatedEphemeral pk' = IsDefaultAllocatedEphemeral pk) as -> by (unfold pk'; by destruct (observed =? 0)).
      destruct (IsDefaultAllocatedEphemeral pk); [|lia]. rewrite wrap_small; [done|].
      pose proof (count_default_nonneg (heap_pk s) (packets_ (port s))). unfold kMaxAllocatedPacketCountPerPort in *. lia. }
    rewrite Ez. eapply pinv_push; [done|by rewrite lookup_insert_eq|done| |].
    - destruct Hh as [Hh|(Hh & _ & Ha & Hph)]; [by left|right]. split_and!; try done. unfold pk'. by destruct (observed =? 0).
    - intros Hd. assert (IsDefaultAllocatedEphemeral pk = true) as Hd' by (revert Hd; unfold pk'; by destruct (observed =? 0)).
      rewrite Hd' in El. cbn in El. lia. }
  assert (p ∈ packets_ (port s) -> observed <> 0) as Hobs.
  { intros Hin. destruct Hh as [Hh|(_ & ? & _)]; [|done]. rewrite Hh, <-Permutation_middle in Hnd. apply NoDup_cons in Hnd as [Hn _]. set_solver. }
  unfold in_container. destruct (Z.eqb_spec observed 0) as [E0|E0]; cbn [negb] in *.
  - destruct Hpush as (s' & Es' & Hs'); [intros Hin; by apply Hobs in Hin|]. unfold pk' in Es'.
    rewrite insert_id in Es' by done. assert (set_heap_pk (heap_pk s) s = s) as E by (by destruct s). rewrite E in Es'. rewrite Es'. by exists s', None.
  - destruct (decide (p ∈ packets_ (port s))) as [Hin|Hn].
    + rewrite bool_decide_true by done. eexists _, _. split; [done|]. split_and!; try done. unfold port_inv_with. cbn.
      eapply pinv_content; [exact Hi|done|apply same_kind_observe].
    + rewrite bool_decide_false by done. destruct Hpush as (s' & Es' & Hs'); [done|]. unfold pk' in Es'. rewrite Es'. by exists s', None.
Qed.

(** [s1] is [s] with packet [p] taken off the queue. *)
Record popped (p : Z) (rest : list Z) (pk : PortPacket) (s s1 : PortSys) : Prop := {
  po_packets : packets_ (port s1) = rest;
  po_num : num_ephemeral_packets_ (port s1) = num_ephemeral_packets_ (port s) - if IsDefaultAllocatedEphemeral pk then 1 else 0;
  po_observers : observers_ (port s1) = observers_ (port s);
  po_zero : zero_handles_ (port s1) = zero_handles_ (port s);
  po_pk : heap_pk s1 = heap_pk s;
  po_ob : heap_ob s1 = heap_ob s;
  po_phases : phases s1 = phases s;
  po_pcs : pcs s1 = pcs s;
  po_zpc : zpc s1 = zpc s;
}.

Lemma pop_packet_spec p rest s extra :
  port_inv_with extra s -> packets_ (port s) ≡ₚ p :: rest ->
  exists pk s1, heap_pk s !! p = Some pk /\ pop_packet p rest s = Some (s1, pk) /\ popped p rest pk s s1 /\ delivered s1 = delivered s.
Proof.
  intros [_ Hlive _ _ _ _ _ _ _ _ _ _ _ _ Hnum Hlim] Hp. destruct (Hlive p) as [pk Hpk]; [rewrite Hp; set_solver|]. unfold pop_packet. rewrite Hpk.
  eexists _, _. split; [done|]. split; [done|]. split; [|done]. constructor; cbn; try done. destruct (IsDefaultAllocatedEphemeral pk) eqn:E; [|lia].
  apply wrap_small. rewrite (count_default_perm _ _ _ Hp) in Hnum. change (p :: rest) with ([p] ++ rest) in Hnum.
  rewrite count_default_app, count_default_one in Hnum. unfold is_default at 1 in Hnum. rewrite Hpk, E in Hnum.
  pose proof (count_default_nonneg (heap_pk s) rest). unfold kMaxAllocatedPacketCountPerPort in *. lia.
Qed.

(** After a packet left the queue its observer is reset: an ephemeral packet is now in the
    hands of the caller, and an observer that was waiting for its packet is destroyed. *)
Lemma reset_popped p rest pk s s1 extra :
  port_inv_with extra s -> packets_ (port s) ≡ₚ p :: rest -> heap_pk s !! p = Some pk -> popped p rest pk s s1 ->
  exists s2, reset_observer p s1 = Some s2 /\ pcs s2 = pcs s1 /\ zpc s2 = zpc s1 /\ delivered s2 = delivered s1 /\ port s2 = port s1 /\
    heap_ip s2 = heap_ip s1 /\ phases s2 = phases s1 /\ port_inv_with (if is_ephemeral pk then p :: extra else extra) s2 /\
    (is_ephemeral pk = true -> heap_pk s2 = heap_pk s).
Proof.
  intros Hi Hp Hpk [Epk En Eob Ez Ehp Eho Eph Epc Ezp]. unfold reset_observer. rewrite Ehp, Hpk.
  assert (forall s2, pcs s2 = pcs s1 -> zpc s2 = zpc s1 -> held s2 = held s) as Hheld by (intros s2 E1 E2; unfold held; congruence).
  unfold is_ephemeral. destruct (allocator pk) as [al|] eqn:Eal.
  - destruct (pi_plain _ _ _ _ _ _ _ _ _ Hi p pk Hpk) as [_ ->]; [congruence|]. exists s1. split_and!; try done.
    unfold port_inv_with. rewrite (Hheld s1), Epk, En, Eob, Ez, Ehp, Eho, Eph, Ezp by done.
    eapply pinv_held; [|eapply pinv_pop_held; [exact Hi|done|done|congruence]]. solve_Permutation.
  - destruct (observer pk) as [o|] eqn:Eo.
    + destruct (pi_attached _ _ _ _ _ _ _ _ _ Hi p pk o Hpk Eo) as [-> _].
      assert (is_Some (heap_ob s !! p)) as Hob by (apply (pi_embedded _ _ _ _ _ _ _ _ _ Hi); by exists pk).
      destruct Hob as [ob Hob]. pose proof (pi_fate _ _ _ _ _ _ _ _ _ Hi p ob Hob) as Hf.
      assert (is_attached (heap_pk s) p = true) as Hat by (unfold is_attached; by rewrite Hpk, Eo). rewrite Hat in Hf.
      inversion Hf as [? ? ? ? ? [=]|? ? ? ? [=]|? ? [=]|Hd Hph _ Hz].
      assert (p ∉ observers_ (port s)) as Hno by (intros (ob' & d & H1 & H2)%(pi_obs _ _ _ _ _ _ _ _ _ Hi); congruence).
      assert (p ∉ rest) as Hnr.
      { pose proof (pi_nodup _ _ _ _ _ _ _ _ _ Hi) as H. rewrite Hp in H. apply NoDup_cons in H as [H _]. set_solver. }
      unfold destroy_observer, in_container. cbn. rewrite Eho, Hob, lookup_insert_eq, Epk, Eob, !bool_decide_false by done. cbn [orb].
      eexists. split; [done|]. split_and!; try done.
      * cbn [heap_pk set_heap_ob set_heap_pk]. unfold port_inv_with. change (held _) with (held s1). cbn. rewrite delete_insert_eq, (Hheld s1), Epk, En, Eob, Ez, Eph, Ezp by done.
        assert (IsDefaultAllocatedEphemeral pk = false) as -> by (unfold IsDefaultAllocatedEphemeral; by rewrite Eal). rewrite Z.sub_0_r.
        apply bool_decide_eq_false in Hz. rewrite <-(insert_id (phases s) p PhDone) by done.
        eapply pinv_destroy; [exact Hi|done|done|by left|by left].
    + exists s1. split_and!; try done. unfold port_inv_with. rewrite (Hheld s1), Epk, En, Eob, Ez, Ehp, Eho, Eph, Ezp by done.
      assert (IsDefaultAllocatedEphemeral pk = false) as -> by (unfold IsDefaultAllocatedEphemeral; by rewrite Eal). rewrite Z.sub_0_r.
      by eapply pinv_pop_observer.
Qed.

Lemma popped_deliver p rest pk s s1 x : popped p rest pk s s1 -> popped p rest pk s (deliver x s1).
Proof. intros []. by constructor. Qed.

Lemma take_packet_spec t s :
  port_inv s -> pcs s !! t = Some PRegular -> exists s', take_packet t s = Some s' /\ port_inv s'.
Proof.
  intros Hi Ht. unfold take_packet. destruct (packets_ (port s)) as [|p rest] eqn:Ep.
  { eexists. split; [done|]. by eapply (set_pc_inv t PRegular PIdle [] [] s). }
  destruct (pop_packet_spec p rest s [] Hi) as (pk & s1 & Hpk & -> & Hpop & _); [by rewrite Ep|].
  destruct (reset_popped p rest pk s (deliver (packet pk) s1) [] Hi) as (s2 & -> & Epc & Ez & _ & _ & _ & _ & Hi2 & _);
    [by rewrite Ep|done|by apply popped_deliver|].
  eexists. split; [done|]. eapply set_pc_inv; [exact Hi2| |].
  - rewrite Epc. cbn. by rewrite (po_pcs _ _ _ _ _ Hpop).
  - destruct (is_ephemeral pk); done.
Qed.

Lemma free_packet_spec p hl' s extra :
  port_inv_with extra s -> held s ++ extra ≡ₚ p :: hl' ->
  exists s', free_packet p s = Some s' /\ port s' = port s /\ pcs s' = pcs s /\ zpc s' = zpc s /\ phases s' = phases s /\ heap_ob s' = heap_ob s /\
    pinv (packets_ (port s)) (observers_ (port s)) (zero_handles_ (port s)) (num_ephemeral_packets_ (port s))
      (heap_pk s') (heap_ob s) (phases s) hl' (zpc s).
Proof.
  intros Hi Hh. destruct (pi_live _ _ _ _ _ _ _ _ _ Hi p) as [pk Hpk]; [rewrite Hh; set_solver|].
  assert (p ∉ packets_ (port s)) as Hn.
  { pose proof (pi_nodup _ _ _ _ _ _ _ _ _ Hi) as H. rewrite Hh, <-Permutation_middle in H. apply NoDup_cons in H as [H _]. set_solver. }
  unfold free_packet, in_container. rewrite Hpk, bool_decide_false by done.
  destruct (allocator pk) as [[|]|] eqn:Ea.
  - eexists. split; [done|]. split_and!; try done. by eapply pinv_free.
  - eexists. split; [done|]. split_and!; try done. by eapply pinv_drop_other.
  - destruct (pi_held _ _ _ _ _ _ _ _ _ Hi p pk); [rewrite Hh; set_solver|done|done].
Qed.

Lemma cancel_loop_spec h k l kept s removed :
  port_inv s -> h <> 0 -> packets_ (port s) = kept ++ l ->
  exists s' b, cancel_loop h k l kept s removed = Some (s', b) /\ port_inv s' /\ pcs s' = pcs s /\ zpc s' = zpc s /\ phases s' = phases s.
Proof.
  intros Hi Hh. revert kept s removed Hi. induction l as [|p l IH]; intros kept s removed Hi Hp; cbn [cancel_loop]; [by eexists _, _|].
  assert (packets_ (port s) ≡ₚ p :: kept ++ l) as Hperm by (rewrite Hp; symmetry; apply Permutation_middle).
  destruct (pop_packet_spec p (kept ++ l) s [] Hi Hperm) as (pk & s1 & Hpk & E & Hpop & _). rewrite Hpk.
  destruct ((handle pk =? h) && (key pk =? k)) eqn:Em; [|by apply IH; [|rewrite Hp, <-(assoc_L (++))]].
  rewrite E. destruct (reset_popped p (kept ++ l) pk s s1 [] Hi Hperm Hpk Hpop) as (s2 & -> & Epc & Ez & _ & Epo & _ & Eph & Hi2 & _).
  assert (is_ephemeral pk = false) as Hne.
  { unfold is_ephemeral. destruct (allocator pk) eqn:Ea; [|done]. destruct (pi_plain _ _ _ _ _ _ _ _ _ Hi p pk Hpk); [congruence|]. lia. }
  rewrite Hne in Hi2. destruct (IH kept s2 true Hi2) as (s' & b & -> & Hi' & E1 & E2 & E3); [by rewrite Epo, (po_packets _ _ _ _ _ Hpop)|].
  exists s', b. rewrite E1, E2, E3, Epc, Ez, Eph. by destruct Hpop.
Qed.

Lemma CancelQueued_packet_spec p pk s :
  port_inv s -> heap_pk s !! p = Some pk -> allocator pk = Some OtherPortAllocator ->
  exists s' b, CancelQueued_packet p s = Some (s', b) /\ port_inv s' /\ pcs s' = pcs s /\ zpc s' = zpc s /\ phases s' = phases s.
Proof.
  intros Hi Hpk Ha. unfold CancelQueued_packet, in_container. destruct (decide (p ∈ packets_ (port s))) as [Hin|Hn].
  2: { rewrite bool_decide_false by done. by eexists _, _. }
  rewrite bool_decide_true by done. pose proof (pi_nodup _ _ _ _ _ _ _ _ _ Hi) as Hnd. apply NoDup_app in Hnd as (Hnd & _).
  assert (packets_ (port s) ≡ₚ p :: filter (fun x => x <> p) (packets_ (port s))) as Hperm.
  { apply NoDup_Permutation; [done| |].
    - constructor; [intros [? _]%list_elem_of_filter; done|by apply NoDup_filter].
    - intros x. rewrite elem_of_cons, list_elem_of_filter. destruct (decide (x = p)); naive_solver. }
  destruct (pop_packet_spec p _ s [] Hi Hperm) as (pk' & s1 & Hpk' & -> & Hpop & _). rewrite Hpk in Hpk'. injection Hpk' as <-.
  destruct (reset_popped p _ pk s s1 [] Hi Hperm Hpk Hpop) as (s2 & -> & Epc & Ez & _ & _ & _ & Eph & Hi2 & Hpk2).
  exists s2, true. rewrite Epc, Ez, Eph. split; [done|]. split; [|by destruct Hpop].
  unfold is_ephemeral in Hi2. rewrite Ha in Hi2. unfold port_inv_with in *.
  eapply (pinv_drop_other _ _ _ _ _ _ _ (held s2 ++ [p]) _ _ p pk); [exact Hi2|solve_Permutation| |done].
  rewrite (Hpk2 ltac:(unfold is_ephemeral; by rewrite Ha)). done.
Qed.

(** ** Wake-ups

    A token is a wake-up that is on its way to a packet: in the semaphore, about to be
    posted, or in the hands of a thread inside [Dequeue]. *)

Definition pc_token (pc : PPC) : Z := match pc with PPost | PGot | PRegular => 1 | _ => 0 end.
Definition pc_regular (pc : PPC) : Z := match pc with PRegular => 1 | _ => 0 end.
Definition sum_pcs (f : PPC -> Z) (l : list PPC) : Z := foldr (fun pc n => f pc + n) 0 l.
Definition phase_token (ph : ObsPhase) : Z := match ph with PhPost => 1 | _ => 0 end.
Definition phase_tokens (phs : gmap Z ObsPhase) : Z := map_fold (fun _ ph n => phase_token ph + n) 0 phs.

Definition tokens (s : PortSys) : Z := sema_count_ (port s) + sum_pcs pc_token (pcs s) + phase_tokens (phases s).

(** [k1] and [k2] are how far the two balances of tokens are off; [m] bounds the count. *)
Record wake (k1 k2 m : Z) (s : PortSys) : Prop := {
  wi_waiters : forall t, t ∈ sema_waiters_ (port s) <-> pcs s !! t = Some PBlocked;
  wi_excl : 0 < sema_count_ (port s) -> sema_waiters_ (port s) = [];
  wi_count : 0 <= sema_count_ (port s) <= m;
  wi_all : zlen (packets_ (port s)) + zlen (interrupt_packets_ (port s)) <= tokens s + k1;
  wi_int : zlen (interrupt_packets_ (port s)) + sum_pcs pc_regular (pcs s) <= tokens s + k2;
  wi_bound : forall ip, ip ∈ interrupt_packets_ (port s) -> is_Some (heap_ip s !! ip);
  wi_match : forall o signals, phases s !! o = Some (PhMatch signals) -> signals <> 0;
  wi_other : forall t p pk, pcs s !! t = Some (PQueueOther p) -> heap_pk s !! p = Some pk -> allocator pk = Some OtherPortAllocator;
  wi_bind : interrupt_packets_ (port s) = [] \/ options_ (port s) = ZX_PORT_BIND_TO_INTERRUPT;
  wi_closed : zpc s = ZDone -> observers_ (port s) = [];
}.

Abbreviation wake_inv := (wake 0 0).

Lemma sum_pcs_insert f l t pc0 pc : l !! t = Some pc0 -> sum_pcs f (<[t := pc]> l) = sum_pcs f l - f pc0 + f pc.
Proof.
  unfold sum_pcs. revert t. induction l as [|x l IH]; intros [|t]; try done.
  - intros [= ->]. cbn. lia.
  - intros Ht. change (<[S t := pc]> (x :: l)) with (x :: <[t := pc]> l). cbn [foldr]. rewrite (IH t Ht). lia.
Qed.

Lemma phase_tokens_insert phs o ph0 ph :
  phs !! o = Some ph0 -> phase_tokens (<[o := ph]> phs) = phase_tokens phs - phase_token ph0 + phase_token ph.
Proof.
  intros Ho. unfold phase_tokens. rewrite <-(insert_delete_eq phs o ph). rewrite <-(insert_id phs o ph0) at 2 by done.
  rewrite <-(insert_delete_eq phs o ph0). rewrite !map_fold_insert_L by (try (intros; lia); apply lookup_delete_eq). lia.
Qed.

Lemma phase_tokens_new phs o ph :
  phs !! o = None -> phase_tokens (<[o := ph]> phs) = phase_tokens phs + phase_token ph.
Proof. intros Ho. unfold phase_tokens. rewrite map_fold_insert_L by (try (intros; lia); done). lia. Qed.

Lemma phase_tokens_nonneg phs : 0 <= phase_tokens phs.
Proof.
  unfold phase_tokens. apply (map_fold_weak_ind (fun n _ => 0 <= n)); [done|]. intros i x m r _ Hr.
  destruct x; cbn; lia.
Qed.

Lemma sum_pcs_nonneg f l : (forall pc, 0 <= f pc) -> 0 <= sum_pcs f l.
Proof. intros Hf. unfold sum_pcs. induction l as [|x l IH]; cbn; [done|]. specialize (Hf x). lia. Qed.

(** *** No critical section faults *)

Lemma Post_inv w extra s :
  port_inv_with extra s -> (forall t, t ∈ sema_waiters_ (port s) -> pcs s !! t = Some PBlocked) -> port_inv_with extra (Post w s).
Proof.
  intros Hi Hw. unfold Post. destruct (sema_waiters_ (port s)) as [|t0 ts] eqn:Et; [done|].
  set (t := default t0 ((t0 :: ts) !! w)).
  assert (t ∈ t0 :: ts) as Hin.
  { unfold t. destruct ((t0 :: ts) !! w) eqn:E; cbn; [by eapply list_elem_of_lookup_2|set_solver]. }
  apply Hw in Hin. by eapply (set_pc_inv t PBlocked PGot).
Qed.

Lemma set_phase_inv o ph0 ph extra s :
  port_inv_with extra s -> phases s !! o = Some ph0 -> active ph0 = true -> active ph = true -> port_inv_with extra (set_phase o ph s).
Proof. intros Hi Ho Ha Ha'. by eapply pinv_phase. Qed.

Lemma active_live o ph s extra : port_inv_with extra s -> phases s !! o = Some ph -> ph <> PhDone -> is_Some (heap_ob s !! o) /\ exists pk, heap_pk s !! o = Some pk /\ allocator pk = None.
Proof.
  intros Hi Ho Hn. assert (is_Some (heap_ob s !! o)) as H.
  { destruct (heap_ob s !! o) eqn:E; [done|]. by destruct Hn, (pi_gone _ _ _ _ _ _ _ _ _ Hi o ph). }
  split; [done|]. by apply (pi_embedded _ _ _ _ _ _ _ _ _ Hi).
Qed.

(** The next step of a callback. *)
Lemma stamp_spec o now ob pk s :
  port_inv s -> heap_ob s !! o = Some ob -> heap_pk s !! o = Some pk ->
  exists s' pk', stamp o now s = Some s' /\ port_inv s' /\ heap_pk s' !! o = Some pk' /\ allocator pk' = allocator pk /\
    port s' = port s /\ phases s' = phases s /\ pcs s' = pcs s /\ zpc s' = zpc s /\ heap_ip s' = heap_ip s.
Proof.
  intros Hi Hob Hpk. unfold stamp. rewrite Hob, Hpk. destruct (Z.land (ob_options ob) ZX_WAIT_ASYNC_TIMESTAMP =? 0); cbn [negb].
  - by exists s, pk.
  - eexists _, _. split; [done|]. split; [|cbn; by rewrite lookup_insert_eq]. unfold port_inv_with. cbn.
    eapply pinv_content; [exact Hi|done|done].
Qed.

Lemma callback_match_spec o now w signals s :
  port_inv s -> phases s !! o = Some (PhMatch signals) -> signals <> 0 ->
  exists s', callback_step o now w s = Some (Some s') /\ port_inv s'.
Proof.
  intros Hi Ho Hs. unfold callback_step. rewrite Ho.
  destruct (active_live o _ s [] Hi Ho ltac:(done)) as [[ob Hob] (pk & Hpk & Ha)].
  destruct (stamp_spec o now ob pk s Hi Hob Hpk) as (s1 & pk1 & -> & Hi1 & Hpk1 & Ha1 & _ & Eph & _).
  destruct (Queue_locked_spec o pk1 signals s1 [] (held s1 ++ []) Hi1 Hpk1) as (s2 & r & -> & Epc & Ez & Eph2 & _ & _ & Hi2).
  { right. rewrite Ha1, Eph. split_and!; try done. by exists (PhMatch signals). }
  assert (phases s2 !! o = Some (PhMatch signals)) as Ho2 by congruence.
  assert (port_inv s2) as Hp2.
  { destruct r; [done|]. unfold port_inv_with, held. rewrite Epc, Ez. by rewrite Ez in Hi2. }
  destruct r; eexists; (split; [done|]); by eapply set_phase_inv.
Qed.

Lemma callback_reap_spec o now w s :
  port_inv s -> phases s !! o = Some PhReap -> exists s', callback_step o now w s = Some (Some s') /\ port_inv s'.
Proof.
  intros Hi Ho. unfold callback_step, MaybeReap_locked. rewrite Ho.
  destruct (active_live o _ s [] Hi Ho ltac:(done)) as [[ob Hob] (pk & Hpk & Ha)]. rewrite Hob.
  destruct (ob_dispatcher ob) as [d|] eqn:Ed.
  2: { eexists. split; [done|]. by eapply pinv_reap_late. }
  assert (o ∈ observers_ (port s)) as Hin by (apply (pi_obs _ _ _ _ _ _ _ _ _ Hi); eauto).
  unfold in_container. rewrite (bool_decide_true (o ∈ observers_ _)) by done. cbn [negb].
  pose proof (pinv_reap _ _ _ _ _ _ _ _ _ o ob d pk Hi Hob Ed Hpk) as Hr. cbn zeta in Hr.
  assert (observer pk = None) as Hno.
  { pose proof (pi_fate _ _ _ _ _ _ _ _ _ Hi o ob Hob) as Hf. rewrite Ed in Hf. inversion Hf as [? ? ? ? ? Hat|? E|E|E]; try done.
    unfold is_attached in Hat. rewrite Hpk in Hat. by destruct (observer pk). }
  cbn [port set_port packets_ set_observers]. change (packets_ (port (set_heap_ob _ s))) with (packets_ (port s)).
  destruct (bool_decide (o ∈ packets_ (port s))).
  - unfold reset_observer. cbn [heap_pk set_port set_heap_ob]. rewrite Hpk, Hno. cbn [heap_pk set_port set_heap_ob]. rewrite Hpk.
    eexists. split; [done|]. exact Hr.
  - eexists. split; [done|]. unfold port_inv_with. cbn. rewrite Hno in Hr.
    assert (mkPortPacket (packet pk) (handle pk) None (allocator pk) = pk) as E by (destruct pk; cbn in *; congruence).
    rewrite E, insert_id in Hr by done. exact Hr.
Qed.

Lemma callback_destroy_spec o now w s :
  port_inv s -> phases s !! o = Some PhDestroy -> exists s', callback_step o now w s = Some (Some s') /\ port_inv s'.
Proof.
  intros Hi Ho. unfold callback_step, destroy_observer. rewrite Ho.
  destruct (active_live o _ s [] Hi Ho ltac:(done)) as [[ob Hob] (pk & Hpk & Ha)]. rewrite Hob, Hpk.
  pose proof (pi_fate _ _ _ _ _ _ _ _ _ Hi o ob Hob) as Hf. rewrite Ho in Hf.
  inversion Hf as [? ? ? [= <-]|? ? [= <-]|Hd _ Hat Hrm Hq|? [=]]; try done.
  apply bool_decide_eq_false in Hrm, Hq.
  assert (o ∉ observers_ (port s)) as Hno by (intros (ob' & d & H1 & H2)%(pi_obs _ _ _ _ _ _ _ _ _ Hi); congruence).
  unfold in_container. rewrite !bool_decide_false by done. cbn [orb]. eexists. split; [done|].
  unfold port_inv_with. cbn. eapply pinv_destroy; [exact Hi|by rewrite Hob|done|by right|by left].
Qed.

Lemma take_interrupt_spec m t s :
  port_inv s -> wake_inv m s -> pcs s !! t = Some PGot -> exists s', take_interrupt t s = Some s' /\ port_inv s'.
Proof.
  intros Hi Hw Ht. unfold take_interrupt. case_if.
  - destruct (interrupt_packets_ (port s)) as [|ip rest] eqn:Ei.
    + eexists. split; [done|]. by eapply (set_pc_inv t PGot PRegular [] [] s).
    + destruct (wi_bound _ _ _ _ Hw ip) as [i ->]; [rewrite Ei; set_solver|]. eexists. split; [done|]. by eapply (set_pc_inv t PGot PIdle).
  - eexists. split; [done|]. by eapply (set_pc_inv t PGot PRegular [] [] s).
Qed.

(** A thread that holds [p] queues it. *)
Lemma queue_held_spec t pc0 p s :
  port_inv s -> pcs s !! t = Some pc0 -> pc_held pc0 = [p] ->
  exists s' r, Queue_locked p 0 s = Some (s', r) /\
    match r with
    | None => port_inv (set_pc t PPost s')
    | Some _ => port_inv (set_pc t (PFree p) s') /\
        (forall pk, heap_pk s !! p = Some pk -> allocator pk = Some OtherPortAllocator -> port_inv (set_pc t PIdle s'))
    end.
Proof.
  intros Hi Ht Hp. destruct (held_set_pc t pc0 s Ht) as (R & H1 & H2). rewrite Hp in H1.
  destruct (pi_live _ _ _ _ _ _ _ _ _ Hi p) as [pk Hpk]; [rewrite H1; set_solver|].
  destruct (Queue_locked_spec p pk 0 s [] (R ++ []) Hi Hpk) as (s' & r & E & Epc & Ez & Eph & Eob & Eobs & Hi').
  { left. by rewrite H1. }
  exists s', r. split; [done|].
  assert (forall pc, held (set_pc t pc s') ≡ₚ pc_held pc ++ R) as Hheld.
  { intros pc. rewrite <-(H2 pc). unfold held. cbn. by rewrite Epc, Ez. }
  destruct r as [st|].
  - split.
    + eapply set_pc_inv; [exact Hi'|by rewrite Epc|]. by rewrite Hp.
    + intros pk' Hpk' Ha. unfold port_inv_with in *. cbn.
      assert (heap_pk s' !! p = Some pk') as Hpk2.
      { revert E. unfold Queue_locked. case_if; [by intros [= <- _]|]. rewrite Hpk'. case_if; [by intros [= <- _]|].
        change (negb (0 =? 0)) with false. unfold push_packet. case_if; [done|]. intros [= <- <-]. }
      eapply pinv_drop_other; [exact Hi'| |exact Hpk2|exact Ha]. rewrite (Hheld PIdle). unfold held. rewrite Epc, Ez. fold (held s). rewrite H1. done.
  - unfold port_inv_with. eapply pinv_held; [|exact Hi']. rewrite (Hheld PPost). done.
Qed.

Lemma thread_step_safe m t w s :
  port_inv s -> wake_inv m s ->
  match thread_step t w s with Some r => exists s', r = Some s' /\ port_inv s' | None => True end.
Proof.
  intros Hi Hw. unfold thread_step. destruct (pcs s !! t) as [[|p|p| |p| | |]|] eqn:Et; try done.
  - destruct (queue_held_spec t _ p s Hi Et eq_refl) as (s' & r & -> & H). destruct r; [destruct H as [H _]|]; eauto.
  - destruct (queue_held_spec t _ p s Hi Et eq_refl) as (s' & r & -> & H). destruct r; [|eauto]. destruct H as [_ H].
    destruct (held_set_pc t _ s Et) as (R & H1 & _). destruct (pi_live _ _ _ _ _ _ _ _ _ Hi p) as [pk Hpk]; [rewrite H1; set_solver|].
    eexists. split; [done|]. apply (H pk Hpk). by eapply (wi_other _ _ _ _ Hw).
  - eexists. split; [done|]. apply (Post_inv w [] (set_pc t PIdle s)); [by eapply (set_pc_inv t PPost PIdle [] [] s)|].
    intros u Hu%(wi_waiters _ _ _ _ Hw). cbn. rewrite list_lookup_insert_ne; [done|]. congruence.
  - destruct (held_set_pc t _ s Et) as (R & H1 & H2).
    destruct (free_packet_spec p (R ++ []) s [] Hi) as (s' & -> & Epo & Epc & Ez & Eph & Eob & Hi'); [by rewrite H1|].
    eexists. split; [done|]. unfold port_inv_with. cbn. rewrite Epo, Eph, Eob, Ez. eapply pinv_held; [|exact Hi'].
    rewrite <-(H2 PIdle). unfold held. cbn. by rewrite Epc, ?Ez.
  - by eapply take_interrupt_spec.
  - by eapply take_packet_spec.
Qed.

Lemma callback_step_safe m o now w s :
  port_inv s -> wake_inv m s -> match callback_step o now w s with Some r => exists s', r = Some s' /\ port_inv s' | None => True end.
Proof.
  intros Hi Hw. destruct (phases s !! o) as [ph|] eqn:Eo; [|unfold callback_step; by rewrite Eo].
  destruct ph as [| |signals| | | |]; try (unfold callback_step; by rewrite Eo).
  - destruct (callback_match_spec o now w signals s Hi Eo (wi_match _ _ _ _ Hw _ _ Eo)) as (s' & -> & ?). eauto.
  - unfold callback_step. rewrite Eo. eexists. split; [done|].
    eapply (set_phase_inv o PhPost); [apply Post_inv; [done|apply Hw]| |done|done].
    unfold Post. by destruct (sema_waiters_ (port s)).
  - destruct (callback_reap_spec o now w s Hi Eo) as (s' & -> & ?). eauto.
  - destruct (callback_destroy_spec o now w s Hi Eo) as (s' & -> & ?). eauto.
Qed.

(** The steps of the closing thread. *)
Lemma close_free p pk rest n s :
  port_inv s -> packets_ (port s) ≡ₚ p :: rest -> heap_pk s !! p = Some pk ->
  n = num_ephemeral_packets_ (port s) - (if IsDefaultAllocatedEphemeral pk then 1 else 0) ->
  IsDefaultAllocatedEphemeral pk = true -> zpc s = ZDrain ->
  port_inv (set_zpc (ZFree p) (set_port (set_packets n rest (port s)) s)).
Proof.
  intros Hi Hp Hpk -> Hd Ez. assert (allocator pk <> None) as Ha by (unfold IsDefaultAllocatedEphemeral in Hd; by destruct (allocator pk)).
  pose proof (pinv_pop_held _ rest _ _ _ _ _ _ _ _ p pk Hi Hp Hpk Ha) as H. unfold port_inv_with, held in *. cbn. rewrite Ez in H.
  eapply pinv_held; [|eapply pinv_zpc; [exact H|..]; done]. cbn. solve_Permutation.
Qed.

Lemma drop_not_default p pk s :
  port_inv_with (if is_ephemeral pk then [p] else []) s -> IsDefaultAllocatedEphemeral pk = false ->
  (is_ephemeral pk = true -> heap_pk s !! p = Some pk) -> port_inv s.
Proof.
  intros Hi Hd Hp. destruct (is_ephemeral pk) eqn:He; [|done]. unfold port_inv_with in *.
  eapply (pinv_drop_other _ _ _ _ _ _ _ (held s ++ [p]) _ _ p pk); [exact Hi|solve_Permutation|auto|].
  unfold IsDefaultAllocatedEphemeral in Hd. rewrite He in Hd. unfold is_ephemeral in He. by destruct (allocator pk) as [[|]|].
Qed.

Lemma close_destroy o s :
  port_inv s -> zpc s = ZRemove o ->
  exists s', destroy_observer o (set_phase o PhDone s) = Some s' /\ port_inv (set_zpc ZObservers s').
Proof.
  intros Hi Ez. destruct (pi_zremove _ _ _ _ _ _ _ _ _ Hi o Ez) as [ob Hob].
  destruct (proj2 (pi_embedded _ _ _ _ _ _ _ _ _ Hi o)) as (pk & Hpk & _); [by rewrite Hob|].
  pose proof (pi_drained _ _ _ _ _ _ _ _ _ Hi) as Hdr. rewrite Ez in Hdr. specialize (Hdr eq_refl).
  pose proof (pi_fate _ _ _ _ _ _ _ _ _ Hi o ob Hob) as Hf. rewrite (bool_decide_true (zpc s = _)) in Hf by done.
  assert (ob_dispatcher ob = None) as Hd by (inversion Hf; try done; congruence).
  assert (o ∉ observers_ (port s)) as Hno by (intros (ob' & d & H1 & H2)%(pi_obs _ _ _ _ _ _ _ _ _ Hi); congruence).
  assert (o ∉ packets_ (port s)) as Hnp by (rewrite Hdr; apply not_elem_of_nil).
  unfold destroy_observer, in_container. cbn. rewrite Hob, Hpk, !bool_decide_false by done. cbn [orb]. eexists. split; [done|].
  unfold port_inv_with, held in *. cbn. rewrite Ez in Hi. eapply pinv_destroy; [exact Hi|by rewrite Hob|done|by right|by right].
Qed.

Lemma close_step_safe s :
  port_inv s -> match close_step s with Some r => exists s', r = Some s' /\ port_inv s' | None => True end.
Proof.
  intros Hi. unfold close_step. destruct (zpc s) as [| |p| |o|] eqn:Ez; try done.
  - eexists. split; [done|]. unfold port_inv_with, held in *. cbn. rewrite Ez in Hi. by apply pinv_close_start in Hi.
  - destruct (packets_ (port s)) as [|p rest] eqn:Ep.
    + eexists. split; [done|]. unfold port_inv_with, held in *. cbn. rewrite Ez in Hi. by eapply pinv_zpc.
    + destruct (pop_packet_spec p rest s [] Hi) as (pk & s1 & Hpk & Epop & Hpop & _); [by rewrite Ep|]. rewrite Hpk.
      unfold pop_packet in Epop. rewrite Hpk in Epop. destruct (IsDefaultAllocatedEphemeral pk) eqn:Ed; injection Epop as Es1.
      * eexists. split; [done|]. eapply close_free; [done|by rewrite Ep|done| |done..].
        by rewrite <-(po_num _ _ _ _ _ Hpop), <-Es1.
      * rewrite Es1. destruct (reset_popped p rest pk s s1 [] Hi) as (s2 & Er & Epc & Ez2 & _ & Epo & _ & Eph & Hi2 & Hh2); [by rewrite Ep|done|done|].
        exists s2. split; [done|]. eapply drop_not_default; [exact Hi2|done|]. intros He. by rewrite Hh2.
  - destruct (free_packet_spec p (flat_map pc_held (pcs s) ++ []) s [] Hi) as (s' & -> & Epo & Epc & _ & Eph & Eob & Hi').
    { unfold held. rewrite Ez. cbn. solve_Permutation. }
    eexists. split; [done|]. unfold port_inv_with, held. cbn. rewrite Epo, Eph, Eob, Epc. rewrite Ez in Hi'.
    rewrite app_nil_r. by eapply pinv_zpc.
  - destruct (observers_ (port s)) as [|o rest] eqn:Eo.
    + eexists. split; [done|]. unfold port_inv_with, held in *. cbn. rewrite Ez in Hi. eapply pinv_zpc; [exact Hi|done| |done|done].
      intros _. by apply (pi_drained _ _ _ _ _ _ _ _ _ Hi).
    + destruct (proj1 (pi_obs _ _ _ _ _ _ _ _ _ Hi o)) as (ob & d & Hob & _); [rewrite Eo; set_solver|]. rewrite Hob.
      eexists. split; [done|]. unfold port_inv_with, held in *. cbn. rewrite Ez, Eo in Hi. by apply pinv_take_observer.
  - destruct (phases s !! o) as [ph|] eqn:Eph; [|done].
    assert (exists s', destroy_observer o (set_phase o PhDone s) = Some s' /\ port_inv (set_zpc ZObservers s')) as (s' & E & Hi').
    { by apply close_destroy. }
    destruct ph; try done; rewrite E; eauto.
Qed.

Lemma hold_spec t pc p pk s :
  port_inv s -> is_idle t s = true -> p ∉ packets_ (port s) ++ held s -> heap_ob s !! p = None ->
  allocator pk <> None -> handle pk = 0 -> observer pk = None -> pc_held pc = [p] ->
  port_inv (set_pc t pc (set_heap_pk (<[p := pk]> (heap_pk s)) s)).
Proof.
  intros Hi Ht Hn Hob Ha Hh Ho Hpc. unfold is_idle in Ht. destruct (pcs s !! t) as [[]|] eqn:Et; try done.
  eapply (set_pc_inv t PIdle pc [p] []); [|done|by rewrite Hpc]. unfold port_inv_with in *. cbn. change (held (set_heap_pk _ s)) with (held s).
  eapply pinv_held; [|eapply pinv_hold; [exact Hi|..]]; try done; [solve_Permutation|by rewrite app_nil_r].
Qed.

Lemma fresh_spec p s : port_inv s -> fresh p s = true -> (p ∉ packets_ (port s) ++ held s) /\ heap_ob s !! p = None /\ heap_pk s !! p = None /\ phases s !! p = None.
Proof.
  intros Hi Hf. unfold fresh in Hf. destruct (heap_pk s !! p) eqn:E1, (heap_ob s !! p) eqn:E2, (phases s !! p) eqn:E3; try done.
  split_and!; try done. intros Hp. destruct (pi_live _ _ _ _ _ _ _ _ _ Hi p) as [? ?]; [by rewrite app_nil_r|congruence].
Qed.

Lemma other_ready_spec p s : port_inv s -> other_ready p s = true -> (p ∉ packets_ (port s) ++ held s) /\ heap_ob s !! p = None.
Proof.
  intros Hi Hf. unfold other_ready in Hf. destruct (heap_pk s !! p) as [pk|] eqn:E1; [|by destruct (fresh_spec p s Hi Hf) as (? & ? & _)].
  destruct (allocator pk) as [[|]|] eqn:Ea; try done. apply negb_true_iff, bool_decide_eq_false in Hf. split; [done|].
  destruct (heap_ob s !! p) eqn:E2; [|done]. destruct (proj2 (pi_embedded _ _ _ _ _ _ _ _ _ Hi p)) as (pk' & ? & ?); [by rewrite E2|]. congruence.
Qed.

Lemma port_step_safe m op s :
  port_inv s -> wake_inv m s -> match port_step op s with Next s' => port_inv s' | Disabled => True | Fault => False end.
Proof.
  intros Hi Hw. destruct op as [wt o options h obj k signals|o matched|o signals|o|o now w|t p pkt|t p pkt|t w|t|t|ip k|t ip ts|ip|h k|p|]; cbn [port_step].
  - unfold guarded. case_if; [|done]. apply andb_prop in E as [Hf Hz]. unfold fresh in Hf.
    destruct (heap_pk s !! o) eqn:E1, (heap_ob s !! o) eqn:E2, (phases s !! o) eqn:E3; try done.
    destruct wt; [|done]. unfold port_inv_with in *. cbn. apply negb_true_iff in Hz. rewrite Hz in *. by eapply pinv_make.
  - destruct (phases s !! o) as [[]|] eqn:Eo; try done. destruct matched as [signals|]; [unfold guarded; case_if; [|done]|]; by eapply set_phase_inv.
  - unfold guarded. case_if; [|done]. apply andb_prop in E as [E _]. unfold is_phase_linked in E.
    destruct (phases s !! o) as [[]|] eqn:Eo; try done. by eapply set_phase_inv.
  - unfold guarded. case_if; [|done]. unfold is_phase_linked in E.
    destruct (phases s !! o) as [[]|] eqn:Eo; try done. by eapply set_phase_inv.
  - pose proof (callback_step_safe m o now w s Hi Hw) as H. destruct (callback_step o now w s) as [r|]; [|done]. by destruct H as (s' & -> & ?).
  - unfold guarded. case_if; [|done]. apply andb_prop in E as [Ht Hf]. destruct p as [p|]; [|done].
    destruct (fresh_spec p s Hi Hf) as (? & ? & _). by apply hold_spec.
  - unfold guarded. case_if; [|done]. apply andb_prop in E as [Ht Hf]. destruct (other_ready_spec p s Hi Hf) as (? & ?). by apply hold_spec.
  - pose proof (thread_step_safe m t w s Hi Hw) as H. destruct (thread_step t w s) as [r|]; [|done]. by destruct H as (s' & -> & ?).
  - unfold guarded. case_if; [|done]. unfold is_idle in E. destruct (pcs s !! t) as [[]|] eqn:Et; try done.
    unfold Wait. case_if; by eapply (set_pc_inv t PIdle).
  - unfold guarded. case_if; [|done]. destruct (pcs s !! t) as [[]|] eqn:Et; try done. by eapply (set_pc_inv t PBlocked).
  - unfold guarded. by case_if.
  - unfold guarded. case_if; [|done]. apply andb_prop in E as [E Hip]. apply andb_prop in E as [Ht _]. unfold is_idle in Ht.
    destruct (pcs s !! t) as [[]|] eqn:Et; try done. unfold QueueInterrupt_locked. case_if; [done|].
    destruct (heap_ip s !! ip); [|done]. by eapply (set_pc_inv t PIdle).
  - unfold RemoveInterruptPacket. by case_if.
  - unfold guarded. case_if; [|done]. unfold CancelQueued.
    destruct (cancel_loop_spec h k (packets_ (port s)) [] s false Hi) as (s' & b & -> & ? & _); [lia|done|done].
  - unfold guarded. case_if; [|done]. destruct (heap_pk s !! p) as [pk|] eqn:Ep; [|done]. destruct (allocator pk) as [[|]|] eqn:Ea; try done.
    by destruct (CancelQueued_packet_spec p pk s Hi Ep Ea) as (s' & b & -> & ? & _).
  - pose proof (close_step_safe s Hi) as H. destruct (close_step s) as [r|]; [|done]. by destruct H as (s' & -> & ?).
Qed.

(** *** The balance of tokens

    [quiet n s s']: nothing but packets, observers and memory changes, [n] more packets are
    queued at most, and no packet changes its allocator. *)

Record quiet (n : Z) (s s' : PortSys) : Prop := {
  qu_count : sema_count_ (port s') = sema_count_ (port s);
  qu_waiters : sema_waiters_ (port s') = sema_waiters_ (port s);
  qu_options : options_ (port s') = options_ (port s);
  qu_iq : interrupt_packets_ (port s') = interrupt_packets_ (port s);
  qu_pcs : pcs s' = pcs s;
  qu_phases : phases s' = phases s;
  qu_ip : heap_ip s' = heap_ip s;
  qu_zpc : zpc s' = zpc s;
  qu_obs : observers_ (port s) = [] -> observers_ (port s') = [];
  qu_packets : zlen (packets_ (port s')) <= zlen (packets_ (port s)) + n;
  qu_pk : forall q pk', heap_pk s' !! q = Some pk' -> exists pk, heap_pk s !! q = Some pk /\ allocator pk = allocator pk';
}.

Lemma quiet_refl s : quiet 0 s s.
Proof. constructor; try done; [lia|eauto]. Qed.

Lemma quiet_trans n1 n2 n s1 s2 s3 : quiet n1 s1 s2 -> quiet n2 s2 s3 -> n1 + n2 <= n -> quiet n s1 s3.
Proof.
  intros [] [] Hn. constructor; try congruence; [eauto|lia|]. intros q pk (pk2 & H2 & <-)%qu_pk1. by destruct (qu_pk0 q pk2 H2) as (pk1 & ? & <-); eauto.
Qed.

Lemma wake_quiet k1 k2 m n s s' : wake k1 k2 m s -> quiet n s s' -> wake (k1 + n) k2 m s'.
Proof.
  intros [] []. assert (tokens s' = tokens s) as Et by (unfold tokens; congruence).
  constructor; rewrite ?Et, ?qu_waiters0, ?qu_pcs0, ?qu_count0, ?qu_iq0, ?qu_ip0, ?qu_phases0, ?qu_options0; try done; try lia.
  - intros t p pk Ht (pk0 & H0 & <-)%qu_pk0. eauto.
  - rewrite qu_zpc0. eauto.
Qed.

Lemma wake_weaken k1 k2 m k1' k2' m' s : wake k1 k2 m s -> k1 <= k1' -> k2 <= k2' -> m <= m' -> wake k1' k2' m' s.
Proof. intros [] ? ? ?. constructor; try done; lia. Qed.

Ltac port_cbn :=
  cbn [deliver port set_phase set_pc set_port set_zpc set_heap_pk set_heap_ob set_heap_ip pcs phases zpc heap_pk heap_ob heap_ip sema_count_
       sema_waiters_ packets_ interrupt_packets_ observers_ options_ set_sema set_packets set_interrupts set_observers].

Lemma wake_phase k1 k2 m o ph0 ph s :
  wake k1 k2 m s -> phases s !! o = Some ph0 -> (forall signals, ph = PhMatch signals -> signals <> 0) ->
  wake (k1 + phase_token ph0 - phase_token ph) (k2 + phase_token ph0 - phase_token ph) m (set_phase o ph s).
Proof.
  intros [] Ho Hm. assert (tokens (set_phase o ph s) = tokens s - phase_token ph0 + phase_token ph) as Et.
  { unfold tokens. port_cbn. rewrite (phase_tokens_insert _ _ ph0) by done. lia. }
  constructor; rewrite ?Et; port_cbn; try done; try lia.
  intros x signals. destruct (decide (x = o)) as [->|]; [rewrite lookup_insert_eq; intros [= ->]; eauto|rewrite lookup_insert_ne by done; eauto].
Qed.

Lemma wake_pc k1 k2 m t pc0 pc s :
  wake k1 k2 m s -> pcs s !! t = Some pc0 -> pc0 <> PBlocked -> pc <> PBlocked ->
  (forall p pk, pc = PQueueOther p -> heap_pk s !! p = Some pk -> allocator pk = Some OtherPortAllocator) ->
  wake (k1 + pc_token pc0 - pc_token pc) (k2 + (pc_token pc0 - pc_regular pc0) - (pc_token pc - pc_regular pc)) m (set_pc t pc s).
Proof.
  intros [] Ht H0 H1 Hp. assert (tokens (set_pc t pc s) = tokens s - pc_token pc0 + pc_token pc) as Et.
  { unfold tokens. port_cbn. rewrite (sum_pcs_insert _ _ _ pc0) by done. lia. }
  assert (t < length (pcs s))%nat as Hlen by (by eapply lookup_lt_Some).
  constructor; rewrite ?Et; port_cbn; try done; try lia.
  - intros u. rewrite wi_waiters0. destruct (decide (u = t)) as [->|]; [|by rewrite list_lookup_insert_ne].
    rewrite list_lookup_insert_eq by done. split; congruence.
  - rewrite (sum_pcs_insert _ _ _ pc0) by done. lia.
  - intros u p pk. destruct (decide (u = t)) as [->|]; [rewrite list_lookup_insert_eq by done; intros [= ->]; eauto|].
    rewrite list_lookup_insert_ne by done. eauto.
Qed.

Lemma wake_Post k1 k2 m w s : wake k1 k2 m s -> m + 1 < 2 ^ 64 -> wake (k1 - 1) (k2 - 1) (m + 1) (Post w s).
Proof.
  intros Hw Hm. pose proof Hw as []. unfold Post. destruct (sema_waiters_ (port s)) as [|t0 ts] eqn:Et.
  - rewrite wrap_small by lia. assert (tokens (set_port (set_sema (sema_count_ (port s) + 1) [] (port s)) s) = tokens s + 1) as E
      by (unfold tokens; port_cbn; lia).
    constructor; rewrite ?E; port_cbn; try done; try lia.
  - set (t := default t0 ((t0 :: ts) !! w)).
    assert (t ∈ t0 :: ts) as Hin by (unfold t; destruct ((t0 :: ts) !! w) eqn:E; cbn; [by eapply list_elem_of_lookup_2|set_solver]).
    pose proof (proj1 (wi_waiters0 t) Hin) as Hb. assert (t < length (pcs s))%nat as Hlen by (by eapply lookup_lt_Some).
    assert (sema_count_ (port s) = 0) as Hz by (destruct (Z.eq_dec (sema_count_ (port s)) 0); [done|specialize (wi_excl0 ltac:(lia)); done]).
    set (s' := set_pc t PGot _). assert (tokens s' = tokens s + 1) as E.
    { unfold tokens, s'. port_cbn. rewrite (sum_pcs_insert _ _ _ PBlocked) by done. cbn [pc_token]. lia. }
    constructor; rewrite ?E; unfold s'; port_cbn; try done; try lia.
    + intros u. rewrite list_elem_of_filter, wi_waiters0. destruct (decide (u = t)) as [->|].
      * rewrite list_lookup_insert_eq by done. split; [by intros [? _]|done].
      * rewrite list_lookup_insert_ne by done. naive_solver.
    + rewrite (sum_pcs_insert _ _ _ PBlocked) by done. cbn [pc_regular]. lia.
    + intros u p pk. destruct (decide (u = t)) as [->|]; [by rewrite list_lookup_insert_eq|]. rewrite list_lookup_insert_ne by done. eauto.
Qed.

(** Storing a packet of the same allocator, or deleting one. *)
Lemma quiet_store p pk pk' n s s1 :
  quiet n s s1 -> heap_pk s1 !! p = Some pk -> allocator pk' = allocator pk ->
  quiet n s (set_heap_pk (<[p := pk']> (heap_pk s1)) s1).
Proof.
  intros [] Hp Ha. constructor; port_cbn; try done. intros q r. destruct (decide (q = p)) as [->|]; [|rewrite lookup_insert_ne by done; eauto].
  rewrite lookup_insert_eq. intros [= <-]. rewrite Ha. eauto.
Qed.

Lemma quiet_delete p n s s1 : quiet n s s1 -> quiet n s (set_heap_pk (delete p (heap_pk s1)) s1).
Proof. intros []. constructor; port_cbn; try done. intros q r [_ H]%lookup_delete_Some. eauto. Qed.

Lemma destroy_observer_quiet o s s' : destroy_observer o s = Some s' -> quiet 0 s s'.
Proof.
  unfold destroy_observer. destruct (heap_ob s !! o); [|done]. destruct (heap_pk s !! o); [|done]. case_if; [done|]. intros [= <-].
  destruct (quiet_delete o 0 s s (quiet_refl s)). by constructor.
Qed.

Lemma reset_observer_port p s s' : reset_observer p s = Some s' -> port s' = port s.
Proof.
  unfold reset_observer. destruct (heap_pk s !! p) as [pk|]; [|done]. destruct (observer pk) as [o|]; [|by intros [= <-]].
  unfold destroy_observer. port_cbn. destruct (heap_ob s !! o); [|done]. destruct (<[p := _]> (heap_pk s) !! o); [|done].
  destruct (_ || _); [done|]. by intros [= <-].
Qed.

Lemma reset_observer_quiet p s s' : reset_observer p s = Some s' -> quiet 0 s s'.
Proof.
  unfold reset_observer. destruct (heap_pk s !! p) as [pk|] eqn:Ep; [|done]. destruct (observer pk); [|intros [= <-]; apply quiet_refl].
  intros Hd%destroy_observer_quiet. eapply (quiet_trans 0 0 0); [|exact Hd|done]. by eapply quiet_store; [apply quiet_refl|..].
Qed.

Lemma free_packet_quiet p s s' : free_packet p s = Some s' -> quiet 0 s s'.
Proof.
  unfold free_packet. destruct (heap_pk s !! p) as [pk|] eqn:Ep; [|done]. case_if; [done|].
  destruct (allocator pk) as [[|]|]; intros [= <-]; [apply quiet_delete|]; apply quiet_refl.
Qed.

Lemma push_packet_quiet p pk s s' : push_packet p pk s = Some s' -> quiet 1 s s'.
Proof.
  unfold push_packet. case_if; [done|]. intros [= <-]. constructor; port_cbn; try done; [rewrite zlen_app; done|eauto].
Qed.

Lemma Queue_locked_quiet p observed s s' r :
  Queue_locked p observed s = Some (s', r) -> quiet (match r with None => 1 | Some _ => 0 end) s s'.
Proof.
  unfold Queue_locked. case_if; [intros [= <- <-]; apply quiet_refl|]. destruct (heap_pk s !! p) as [pk|] eqn:Ep; [|done].
  case_if; [intros [= <- <-]; apply quiet_refl|]. case_if; [case_if|].
  - intros [= <- <-]. by eapply quiet_store; [apply quiet_refl|..].
  - destruct (push_packet _ _ _) as [s1|] eqn:E'; [|done]. intros [= <- <-]. apply push_packet_quiet in E'.
    eapply (quiet_trans 0 1 1); [|exact E'|done]. by eapply quiet_store; [apply quiet_refl|..].
  - destruct (push_packet _ _ _) as [s1|] eqn:E'; [|done]. intros [= <- <-]. by apply push_packet_quiet in E'.
Qed.

Lemma stamp_quiet o now s s' : stamp o now s = Some s' -> quiet 0 s s'.
Proof.
  unfold stamp. destruct (heap_ob s !! o); [|done]. destruct (heap_pk s !! o) as [pk|] eqn:Ep; [|done].
  case_if; intros [= <-]; [by eapply quiet_store; [apply quiet_refl|..]|apply quiet_refl].
Qed.

Lemma MaybeReap_locked_quiet o s s' b : MaybeReap_locked o s = Some (s', b) -> quiet 0 s s'.
Proof.
  unfold MaybeReap_locked. destruct (heap_ob s !! o) as [ob|]; [|done]. destruct (ob_dispatcher ob); [|intros [= <- _]; apply quiet_refl].
  case_if; [done|]. set (s1 := set_port _ _). assert (quiet 0 s s1) as H1 by (constructor; try done; unfold s1; port_cbn; [by intros ->|lia|eauto]).
  case_if; [|by intros [= <- _]]. destruct (reset_observer o s1) as [s2|] eqn:E2; [|done]. apply reset_observer_quiet in E2.
  destruct (heap_pk s2 !! o) as [pk|] eqn:Ep; [|done]. intros [= <- _]. eapply quiet_store; [|done|done].
  by eapply (quiet_trans 0 0 0).
Qed.

Lemma pop_packet_quiet p rest n s s1 pk :
  pop_packet p rest s = Some (s1, pk) -> zlen rest <= zlen (packets_ (port s)) + n -> quiet n s s1.
Proof.
  unfold pop_packet. destruct (heap_pk s !! p); [|done]. intros [= <- _] Hn. constructor; port_cbn; try done. eauto.
Qed.

Lemma cancel_loop_quiet h k l kept s removed s' b :
  cancel_loop h k l kept s removed = Some (s', b) -> packets_ (port s) = kept ++ l -> quiet 0 s s'.
Proof.
  revert kept s removed. induction l as [|p l IH]; intros kept s removed; cbn [cancel_loop]; [intros [= <- _] _; apply quiet_refl|].
  intros Hc Hp. destruct (heap_pk s !! p) as [pk|] eqn:Epk; [|done]. destruct ((handle pk =? h) && (key pk =? k)).
  - destruct (pop_packet p (kept ++ l) s) as [[s1 pk1]|] eqn:Epop; [|done]. destruct (reset_observer p s1) as [s2|] eqn:Er; [|done].
    assert (packets_ (port s2) = kept ++ l) as Hp2.
    { rewrite (reset_observer_port _ _ _ Er). unfold pop_packet in Epop. rewrite Epk in Epop. by injection Epop as <- _. }
    apply reset_observer_quiet in Er. eapply (pop_packet_quiet p (kept ++ l) 0) in Epop; [|rewrite Hp, !zlen_app, zlen_cons; lia].
    eapply (quiet_trans 0 0 0); [|exact (IH _ _ _ Hc Hp2)|done]. by eapply (quiet_trans 0 0 0).
  - apply (IH _ _ _ Hc). by rewrite Hp, <-(assoc_L (++)).
Qed.

Lemma sum_pcs_le f g l : (forall pc, f pc <= g pc) -> sum_pcs f l <= sum_pcs g l.
Proof. intros H. unfold sum_pcs. induction l as [|x l IH]; cbn; [lia|]. specialize (H x). lia. Qed.

Lemma sum_pcs_one f l t pc : (forall pc, 0 <= f pc) -> l !! t = Some pc -> f pc <= sum_pcs f l.
Proof.
  intros H. unfold sum_pcs. revert t. induction l as [|x l IH]; intros [|t] Ht; try done; cbn.
  - injection Ht as ->. pose proof (sum_pcs_nonneg f l H). unfold sum_pcs in *. lia.
  - specialize (IH t Ht). specialize (H x). lia.
Qed.

Lemma pc_held_held t pc p s : pcs s !! t = Some pc -> p ∈ pc_held pc -> p ∈ held s.
Proof. intros Ht Hp. destruct (held_set_pc t pc s Ht) as (R & -> & _). set_solver. Qed.

(** A packet stored at an address no thread holds. *)
Lemma wake_hold k1 k2 m p pk s :
  wake k1 k2 m s -> p ∉ held s -> wake k1 k2 m (set_heap_pk (<[p := pk]> (heap_pk s)) s).
Proof.
  intros [] Hp. constructor; port_cbn; try done. intros t q r Ht. destruct (decide (q = p)) as [->|]; [|rewrite lookup_insert_ne by done; eauto].
  exfalso. apply Hp. eapply pc_held_held; [exact Ht|]. set_solver.
Qed.

Lemma wake_Wait m t s : wake_inv m s -> is_idle t s = true -> wake_inv m (Wait t s).
Proof.
  intros Hw Hi. pose proof Hw as []. unfold is_idle in Hi. destruct (pcs s !! t) as [[]|] eqn:Et; try done.
  assert (t < length (pcs s))%nat as Hlen by (by eapply lookup_lt_Some). unfold Wait. case_if.
  - set (s1 := set_port _ s). assert (wake 1 1 m s1) as Hw1.
    { unfold s1. constructor; port_cbn; try done; try (unfold tokens in *; port_cbn; lia). intros _. apply wi_excl0. lia. }
    by apply (wake_pc 1 1 m t PIdle PGot) in Hw1.
  - set (s1 := set_pc t _ _). assert (tokens s1 = tokens s) as E1.
    { unfold tokens, s1. port_cbn. rewrite (sum_pcs_insert _ _ _ PIdle) by done. cbn [pc_token]. lia. }
    constructor; rewrite ?E1; unfold s1; port_cbn; try done; try lia.
    + intros u. rewrite elem_of_app, list_elem_of_singleton, wi_waiters0. destruct (decide (u = t)) as [->|].
      * rewrite list_lookup_insert_eq by done. naive_solver.
      * rewrite list_lookup_insert_ne by done. naive_solver.
    + rewrite (sum_pcs_insert _ _ _ PIdle) by done. cbn [pc_regular]. lia.
    + intros u p pk. destruct (decide (u = t)) as [->|]; [by rewrite list_lookup_insert_eq|]. rewrite list_lookup_insert_ne by done. eauto.
Qed.

Lemma wake_Unblock m t s : wake_inv m s -> pcs s !! t = Some PBlocked -> wake_inv m (Unblock t s).
Proof.
  intros [] Et. assert (t < length (pcs s))%nat as Hlen by (by eapply lookup_lt_Some). unfold Unblock.
  set (s1 := set_pc t _ _). assert (tokens s1 = tokens s) as E1.
  { unfold tokens, s1. port_cbn. rewrite (sum_pcs_insert _ _ _ PBlocked) by done. cbn [pc_token]. lia. }
  constructor; rewrite ?E1; unfold s1; port_cbn; try done; try lia.
  - intros u. rewrite list_elem_of_filter, wi_waiters0. destruct (decide (u = t)) as [->|].
    + rewrite list_lookup_insert_eq by done. naive_solver.
    + rewrite list_lookup_insert_ne by done. naive_solver.
  - intros Hc. by rewrite (wi_excl0 Hc).
  - rewrite (sum_pcs_insert _ _ _ PBlocked) by done. cbn [pc_regular]. lia.
  - intros u p pk. destruct (decide (u = t)) as [->|]; [by rewrite list_lookup_insert_eq|]. rewrite list_lookup_insert_ne by done. eauto.
Qed.

(** The callbacks and the threads keep the balance; each step posts once at most. *)
Lemma callback_step_wake m o now w s s' :
  wake_inv m s -> m + 1 < 2 ^ 64 -> callback_step o now w s = Some (Some s') -> wake_inv (m + 1) s'.
Proof.
  intros Hw Hm. unfold callback_step. destruct (phases s !! o) as [ph|] eqn:Eo; [|done]. destruct ph as [| |signals| | | |]; try done.
  - destruct (stamp o now s) as [s1|] eqn:E1; [|done]. apply stamp_quiet in E1.
    destruct (Queue_locked o signals s1) as [[s2 r]|] eqn:E2; [|done]. apply Queue_locked_quiet in E2.
    assert (phases s2 !! o = Some (PhMatch signals)) as Eo2 by (rewrite (qu_phases _ _ _ E2), (qu_phases _ _ _ E1); done).
    pose proof (wake_quiet _ _ _ _ _ _ (wake_quiet _ _ _ _ _ _ Hw E1) E2) as Hw2.
    destruct r as [st|]; intros [= <-].
    + eapply wake_weaken; [by apply (wake_phase _ _ _ o (PhMatch signals) PhReap _ Hw2)|cbn [phase_token]; lia..].
    + eapply wake_weaken; [by apply (wake_phase _ _ _ o (PhMatch signals) PhPost _ Hw2)|cbn [phase_token]; lia..].
  - intros [= <-]. assert (phases (Post w s) !! o = Some PhPost) as Eo2 by (unfold Post; by destruct (sema_waiters_ (port s))).
    eapply wake_weaken; [apply (wake_phase _ _ _ o PhPost PhReap _ (wake_Post _ _ _ w _ Hw Hm)); done|cbn [phase_token]; lia..].
  - destruct (MaybeReap_locked o s) as [[s1 b]|] eqn:E1; [|done]. apply MaybeReap_locked_quiet in E1.
    assert (phases s1 !! o = Some PhReap) as Eo2 by (by rewrite (qu_phases _ _ _ E1)).
    pose proof (wake_quiet _ _ _ _ _ _ Hw E1) as Hw1.
    destruct b; intros [= <-]; (eapply wake_weaken; [by eapply (wake_phase _ _ _ o PhReap _ _ Hw1)|cbn [phase_token]; lia..]).
  - destruct (destroy_observer o s) as [s1|] eqn:E1; [|done]. apply destroy_observer_quiet in E1. intros [= <-].
    assert (phases s1 !! o = Some PhDestroy) as Eo2 by (by rewrite (qu_phases _ _ _ E1)).
    eapply wake_weaken; [by eapply (wake_phase _ _ _ o PhDestroy _ _ (wake_quiet _ _ _ _ _ _ Hw E1))|cbn [phase_token]; lia..].
Qed.

(** A thread that leaves the balance as it is. *)
Lemma wake_pc_to k1 k2 m t pc0 pc s s1 :
  wake k1 k2 m s1 -> pcs s1 = pcs s -> pcs s !! t = Some pc0 -> pc0 <> PBlocked -> pc <> PBlocked -> (forall p, pc <> PQueueOther p) ->
  k1 + pc_token pc0 <= pc_token pc -> k2 + (pc_token pc0 - pc_regular pc0) <= pc_token pc - pc_regular pc -> wake_inv m (set_pc t pc s1).
Proof.
  intros Hw E Ht H0 H1 Hq Hk1 Hk2. rewrite <-E in Ht. eapply wake_weaken; [eapply (wake_pc k1 k2 m t pc0 pc s1 Hw Ht H0 H1)|..]; [|lia..].
  intros p pk ->. by destruct (Hq p).
Qed.

Lemma wake_regular m t s :
  wake_inv m s -> pcs s !! t = Some PGot -> interrupt_packets_ (port s) = [] -> wake_inv m (set_pc t PRegular s).
Proof.
  intros Hw Ht Hn. pose proof (wake_pc _ _ _ t PGot PRegular s Hw Ht ltac:(done) ltac:(done) ltac:(done)) as H. cbn [pc_token pc_regular] in H.
  destruct H. constructor; try done; try lia. unfold tokens in *. port_cbn. rewrite Hn.
  pose proof (sum_pcs_le pc_regular pc_token (<[t:=PRegular]> (pcs s)) ltac:(by intros [])). pose proof (phase_tokens_nonneg (phases s)).
  destruct Hw. change (zlen []) with 0. lia.
Qed.

Lemma take_interrupt_wake m t s s' :
  wake_inv m s -> pcs s !! t = Some PGot -> take_interrupt t s = Some s' -> wake_inv m s'.
Proof.
  intros Hw Ht. unfold take_interrupt. case_if.
  - destruct (interrupt_packets_ (port s)) as [|ip rest] eqn:Ei; [intros [= <-]; by apply wake_regular|].
    destruct (heap_ip s !! ip) as [i|] eqn:Eip; [|done]. intros [= <-].
    eapply (wake_pc_to (-1) (-1) m t PGot PIdle s); try done. destruct Hw.
    rewrite Ei, zlen_cons in *. constructor; try done; try (change (tokens (deliver _ _)) with (tokens s); port_cbn; lia).
    intros ip' Hip'. apply wi_bound0. by apply list_elem_of_further.
  - intros [= <-]. apply wake_regular; [done..|]. apply Z.eqb_neq in E. by destruct (wi_bind _ _ _ _ Hw).
Qed.

Lemma take_packet_wake m t s s' :
  wake_inv m s -> pcs s !! t = Some PRegular -> take_packet t s = Some s' -> wake_inv m s'.
Proof.
  intros Hw Ht. unfold take_packet. destruct (packets_ (port s)) as [|p rest] eqn:Ep.
  - intros [= <-]. pose proof (wake_pc _ _ _ t PRegular PIdle s Hw Ht ltac:(done) ltac:(done) ltac:(done)) as H. cbn [pc_token pc_regular] in H.
    pose proof (wi_int _ _ _ _ Hw) as Hint. pose proof (sum_pcs_one pc_regular _ t _ ltac:(by intros []) Ht) as H1. cbn [pc_regular] in H1.
    assert (tokens (set_pc t PIdle s) = tokens s - 1) as Et.
    { unfold tokens. port_cbn. rewrite (sum_pcs_insert _ _ _ PRegular) by done. cbn [pc_token]. lia. }
    destruct H. constructor; try done; try lia. rewrite Et. port_cbn. rewrite Ep. change (zlen []) with 0. lia.
  - destruct (pop_packet p rest s) as [[s1 pk]|] eqn:Epop; [|done]. apply (pop_packet_quiet _ _ (-1)) in Epop; [|rewrite Ep, zlen_cons; lia].
    destruct (reset_observer p (deliver (packet pk) s1)) as [s2|] eqn:Er; [|done]. apply reset_observer_quiet in Er. intros [= <-].
    assert (quiet (-1) s (deliver (packet pk) s1)) as Hd by (by destruct Epop).
    pose proof (quiet_trans _ _ (-1) _ _ _ Hd Er ltac:(lia)) as Hq. pose proof (wake_quiet _ _ _ _ _ _ Hw Hq) as Hw2.
    destruct (is_ephemeral pk); eapply (wake_pc_to _ _ m t PRegular _ s); try exact Hw2; try done; apply Hq.
Qed.

Lemma thread_step_wake m t w s s' :
  wake_inv m s -> m + 1 < 2 ^ 64 -> thread_step t w s = Some (Some s') -> wake_inv (m + 1) s'.
Proof.
  intros Hw Hm. unfold thread_step. assert (forall s', wake_inv m s' -> wake_inv (m + 1) s') as Hup by (intros ? H; eapply wake_weaken; [exact H|lia..]).
  destruct (pcs s !! t) as [[|p|p| |p| | |]|] eqn:Et; try done.
  - destruct (Queue_locked p 0 s) as [[s1 r]|] eqn:E; [|done]. apply Queue_locked_quiet in E.
    pose proof (wake_quiet _ _ _ _ _ _ Hw E) as Hw1. destruct r; intros [= <-]; apply Hup; eapply (wake_pc_to _ _ m t _ _ s); try exact Hw1; try done; apply E.
  - destruct (Queue_locked p 0 s) as [[s1 r]|] eqn:E; [|done]. apply Queue_locked_quiet in E.
    pose proof (wake_quiet _ _ _ _ _ _ Hw E) as Hw1. destruct r; intros [= <-]; apply Hup; eapply (wake_pc_to _ _ m t _ _ s); try exact Hw1; try done; apply E.
  - intros [= <-]. pose proof (wake_pc _ _ _ t PPost PIdle s Hw Et ltac:(done) ltac:(done) ltac:(done)) as H.
    eapply wake_weaken; [apply (wake_Post _ _ _ w _ H Hm)|cbn [pc_token pc_regular]; lia..].
  - destruct (free_packet p s) as [s1|] eqn:E; [|done]. apply free_packet_quiet in E. intros [= <-].
    pose proof (wake_quiet _ _ _ _ _ _ Hw E) as Hw1. apply Hup. eapply (wake_pc_to _ _ m t _ _ s); try exact Hw1; try done; apply E.
  - intros [= H]. apply Hup. by eapply take_interrupt_wake.
  - intros [= H]. apply Hup. by eapply take_packet_wake.
Qed.

Lemma close_step_wake m s s' : wake_inv m s -> close_step s = Some (Some s') -> wake_inv m s'.
Proof.
  intros Hw. assert (forall s1 s2, quiet 0 s s1 -> s2 = s1 -> wake_inv m s2) as Hq by (intros s1 s2 H ->; by apply (wake_quiet _ _ _ _ _ _ Hw H)).
  unfold close_step. destruct (zpc s) as [| |p| |o|] eqn:Ez; try done.
  - intros [= <-]. by destruct Hw.
  - destruct (packets_ (port s)) as [|p rest] eqn:Ep; [intros [= <-]; by destruct Hw|]. destruct (heap_pk s !! p) as [pk|] eqn:Epk; [|done].
    assert (forall n, quiet 0 s (set_port (set_packets n rest (port s)) s)) as Hpop
      by (intros n; constructor; port_cbn; try done; [rewrite Ep, zlen_cons; lia|eauto]).
    case_if; [intros [= <-]|intros [= Hr]].
    + pose proof (wake_quiet _ _ _ _ _ _ Hw (Hpop (wrap64 (num_ephemeral_packets_ (port s) - 1)))) as []. by constructor.
    + eapply Hq; [|done]. eapply (quiet_trans 0 0 0); [apply Hpop|by eapply reset_observer_quiet|done].
  - destruct (free_packet p s) as [s1|] eqn:E; [|done]. apply free_packet_quiet in E. intros [= <-].
    by destruct (wake_quiet _ _ _ _ _ _ Hw E).
  - destruct (observers_ (port s)) as [|o rest] eqn:Eo; [intros [= <-]; by destruct Hw|]. destruct (heap_ob s !! o); [|done].
    intros [= <-]. by destruct Hw.
  - assert (forall ph s1, phases s !! o = Some ph -> phase_token ph = 0 -> destroy_observer o (set_phase o PhDone s) = Some s1 -> wake_inv m (set_zpc ZObservers s1)) as Hd.
    { intros ph s1 Hph Ht E%destroy_observer_quiet. pose proof (wake_phase _ _ _ o ph PhDone s Hw Hph ltac:(done)) as Hw1. rewrite Ht in Hw1.
      by destruct (wake_quiet _ _ _ _ _ _ Hw1 E). }
    destruct (phases s !! o) as [ph|] eqn:Eph; [|done].
    destruct ph; try done; destruct (destroy_observer o _) as [s1|] eqn:E; try done; intros [= <-]; by eapply Hd.
Qed.

Lemma wake_new_phase m o s : wake_inv m s -> phases s !! o = None -> wake_inv m (set_phase o PhNew s).
Proof.
  intros [] Ho. assert (tokens (set_phase o PhNew s) = tokens s) as Et.
  { unfold tokens. port_cbn. rewrite phase_tokens_new by done. cbn [phase_token]. lia. }
  constructor; rewrite ?Et; port_cbn; try done.
  intros x signals. destruct (decide (x = o)) as [->|]; [by rewrite lookup_insert_eq|rewrite lookup_insert_ne by done; eauto].
Qed.

Lemma QueueInterrupt_wake m t ip ts s s' :
  wake_inv m s -> pcs s !! t = Some PIdle -> options_ (port s) = ZX_PORT_BIND_TO_INTERRUPT ->
  QueueInterrupt_locked ip ts s = Some (s', true) -> wake_inv m (set_pc t PPost s').
Proof.
  intros Hw Ht Ho. unfold QueueInterrupt_locked. case_if; [done|]. destruct (heap_ip s !! ip) as [i|] eqn:Ei; [|done]. intros [= <-].
  eapply (wake_pc_to 1 1 m t PIdle PPost s); try done. destruct Hw. constructor; try done;
    try (change (tokens (set_port _ _)) with (tokens s); port_cbn; rewrite zlen_app; change (zlen [ip]) with 1; lia).
  - port_cbn. intros x [Hx| ->%list_elem_of_singleton]%elem_of_app; [|by rewrite lookup_insert_eq].
    destruct (decide (x = ip)) as [->|]; [by rewrite lookup_insert_eq|rewrite lookup_insert_ne by done; eauto].
  - by right.
Qed.

Lemma RemoveInterrupt_wake m ip s : wake_inv m s -> wake_inv m (RemoveInterruptPacket ip s).1.
Proof.
  intros Hw. unfold RemoveInterruptPacket. case_if; [|done]. cbn [fst]. destruct Hw.
  assert (zlen (filter (fun x => x <> ip) (interrupt_packets_ (port s))) <= zlen (interrupt_packets_ (port s))).
  { unfold zlen. pose proof (length_filter (fun x => x <> ip) (interrupt_packets_ (port s))). lia. }
  constructor; try done; try (change (tokens (set_port _ _)) with (tokens s); port_cbn; lia).
  - port_cbn. intros x [_ Hx]%list_elem_of_filter. eauto.
  - port_cbn. destruct wi_bind0 as [->|]; [by left|by right].
Qed.

Lemma wake_phase_to m o ph0 ph s :
  wake_inv m s -> phases s !! o = Some ph0 -> phase_token ph0 = 0 -> phase_token ph = 0 ->
  (forall signals, ph = PhMatch signals -> signals <> 0) -> wake_inv m (set_phase o ph s).
Proof. intros Hw Ho H0 H1 Hm. pose proof (wake_phase _ _ _ o ph0 ph s Hw Ho Hm) as H. by rewrite H0, H1 in H. Qed.

Lemma port_step_wake m op s s' :
  port_inv s -> wake_inv m s -> m + 1 < 2 ^ 64 -> port_step op s = Next s' -> wake_inv (m + 1) s'.
Proof.
  intros Hi Hw Hm. assert (forall s', wake_inv m s' -> wake_inv (m + 1) s') as Hup by (intros ? H; eapply wake_weaken; [exact H|lia..]).
  destruct op as [wt o options h obj k signals|o matched|o signals|o|o now w|t p pkt|t p pkt|t w|t|t|ip k|t ip ts|ip|h k|p|]; cbn [port_step]; unfold guarded.
  - case_if; [|done]. destruct wt; intros [= <-]; [|by apply Hup]. apply andb_prop in E as [Hf Hz%negb_true_iff]. destruct (fresh_spec o s Hi Hf) as (Hn & _ & _ & Hph).
    apply Hup. apply wake_new_phase; [|done].
    assert (o ∉ held s) as Hh by set_solver.
    destruct (wake_hold _ _ _ o (mkPortPacket (mkPacket k ZX_PKT_TYPE_SIGNAL_ONE ZX_OK (BodySignal signals 0 0 0)) h None None) s Hw Hh).
    constructor; try done. port_cbn. intros Ez. pose proof (pi_zero _ _ _ _ _ _ _ _ _ Hi) as H. rewrite Hz, Ez in H. done.
  - destruct (phases s !! o) as [[]|] eqn:Eo; try done. destruct matched as [signals|]; [case_if; [|done]|]; intros [= <-]; apply Hup.
    + apply (wake_phase_to _ _ PhNew); [done..|]. intros ? [= <-]. apply negb_true_iff, Z.eqb_neq in E. done.
    + by apply (wake_phase_to _ _ PhNew).
  - case_if; [|done]. intros [= <-]. apply andb_prop in E as [E Hs]. unfold is_phase_linked in E. destruct (phases s !! o) as [[]|] eqn:Eo; try done.
    apply Hup, (wake_phase_to _ _ PhLinked); [done..|]. intros ? [= <-]. by apply negb_true_iff, Z.eqb_neq in Hs.
  - case_if; [|done]. intros [= <-]. unfold is_phase_linked in E. destruct (phases s !! o) as [[]|] eqn:Eo; try done.
    by apply Hup, (wake_phase_to _ _ PhLinked).
  - unfold outcome2, outcome. destruct (callback_step o now w s) as [[s1|]|] eqn:E; try done. intros [= <-]. by eapply callback_step_wake.
  - case_if; [|done]. destruct p as [p|]; intros [= <-]; [|by apply Hup]. apply andb_prop in E as [Ht Hf]. unfold is_idle in Ht.
    destruct (pcs s !! t) as [[]|] eqn:Et; try done. destruct (fresh_spec p s Hi Hf) as (Hn & _). apply Hup. eapply (wake_pc_to 0 0 m t PIdle _ s); try done. apply wake_hold; [done|set_solver].
  - case_if; [|done]. intros [= <-]. apply andb_prop in E as [Ht Hf]. unfold is_idle in Ht. destruct (pcs s !! t) as [[]|] eqn:Et; try done.
    destruct (other_ready_spec p s Hi Hf) as (Hn & _). apply Hup. eapply (wake_pc 0 0 m t PIdle (PQueueOther p)); try done; [apply wake_hold; [done|set_solver]|].
    intros q pk [= <-]. port_cbn. rewrite lookup_insert_eq. by intros [= <-].
  - unfold outcome2, outcome. destruct (thread_step t w s) as [[s1|]|] eqn:E; try done. intros [= <-]. by eapply thread_step_wake.
  - case_if; [|done]. intros [= <-]. by apply Hup, wake_Wait.
  - destruct (pcs s !! t) as [[]|] eqn:Et; try done. intros [= <-]. by apply Hup, wake_Unblock.
  - case_if; [|done]. intros [= <-]. apply Hup. destruct Hw. constructor; try done. port_cbn. intros x Hx%wi_bound0.
    destruct (decide (x = ip)) as [->|]; [by rewrite lookup_insert_eq|by rewrite lookup_insert_ne].
  - case_if; [|done]. apply andb_prop in E as [E Hip]. apply andb_prop in E as [Ht Ho%Z.eqb_eq]. unfold is_idle in Ht.
    destruct (pcs s !! t) as [[]|] eqn:Et; try done. destruct (QueueInterrupt_locked ip ts s) as [[s1 [|]]|] eqn:E; try done; intros [= <-]; apply Hup.
    + by eapply QueueInterrupt_wake.
    + unfold QueueInterrupt_locked in E. destruct (in_container _ _); [by injection E as <-|]. destruct (heap_ip s !! ip); done.
  - intros [= <-]. by apply Hup, RemoveInterrupt_wake.
  - case_if; [|done]. destruct (CancelQueued h k s) as [[s1 b]|] eqn:E'; [|done]. intros [= <-]. apply Hup.
    by apply (wake_quiet _ _ _ _ _ _ Hw (cancel_loop_quiet _ _ _ _ _ _ _ _ E' eq_refl)).
  - case_if; [|done]. unfold CancelQueued_packet. case_if; [|intros [= <-]; by apply Hup].
    destruct (pop_packet p _ s) as [[s1 pk]|] eqn:Epop; [|done]. destruct (reset_observer p s1) as [s2|] eqn:Er; [|done]. intros [= <-].
    apply reset_observer_quiet in Er. apply (pop_packet_quiet _ _ 0) in Epop.
    + apply Hup, (wake_quiet _ _ _ _ _ _ Hw (quiet_trans _ _ 0 _ _ _ Epop Er ltac:(lia))).
    + pose proof (length_filter (fun x => x <> p) (packets_ (port s))). unfold zlen. lia.
  - unfold outcome2, outcome. destruct (close_step s) as [[s1|]|] eqn:E; try done. intros [= <-]. by eapply Hup, close_step_wake.
Qed.

Lemma port_run_inv m ops s :
  port_inv s -> wake_inv m s -> m + zlen ops < 2 ^ 64 ->
  exists s', port_run ops s = Some s' /\ port_inv s' /\ wake_inv (m + zlen ops) s'.
Proof.
  revert m s. induction ops as [|op ops IH]; intros m s Hi Hw Hm; cbn [port_run].
  - exists s. split_and!; try done. eapply wake_weaken; [exact Hw|change (zlen []) with 0; lia..].
  - rewrite zlen_cons in *. pose proof (zlen_nonneg ops). pose proof (port_step_safe m op s Hi Hw) as Hs.
    destruct (port_step op s) as [s1| |] eqn:E; [| |done].
    + destruct (IH (m + 1) s1) as (s' & H1 & H2 & H3); [done|by eapply port_step_wake; [..|lia|done]|lia|].
      exists s'. split_and!; try done. eapply wake_weaken; [exact H3|lia..].
    + destruct (IH m s) as (s' & H1 & H2 & H3); [done..|lia|]. exists s'. split_and!; try done. eapply wake_weaken; [exact H3|lia..].
Qed.

Lemma port_boot_wake q n options : port_Create options true = inr q -> wake_inv 0 (port_boot q n).
Proof.
  unfold port_Create. case_if; [done|]. intros [= <-]. unfold port_boot.
  assert (forall f, f PIdle = 0 -> sum_pcs f (replicate n PIdle) = 0) as Hs by (intros f Hf; unfold sum_pcs; induction n as [|n IH]; cbn; lia).
  assert (tokens (port_boot (mkPort options 0 [] false 0 [] [] []) n) = 0) as Ht.
  { unfold tokens, phase_tokens, port_boot. port_cbn. rewrite Hs by done. rewrite map_fold_empty. lia. }
  unfold port_boot in Ht. constructor; rewrite ?Ht; port_cbn; rewrite ?Hs by done; try done; try lia.
  - intros t. split; [set_solver|]. intros [? ?]%lookup_replicate. done.
  - set_solver.
  - by left.
Qed.

(** The states a new port reaches. *)
Lemma port_reach options q n ops :
  port_Create options true = inr q -> zlen ops < 2 ^ 64 ->
  exists s, port_run ops (port_boot q n) = Some s /\ port_inv s /\ wake_inv (zlen ops) s.
Proof. intros Hc Hn. apply (port_run_inv 0); [by eapply port_boot_inv|by eapply port_boot_wake|lia]. Qed.

(** No thread is between two critical sections of the port, and no callback is running. *)
Definition settled (s : PortSys) : Prop :=
  (forall t pc, pcs s !! t = Some pc -> pc = PIdle \/ pc = PBlocked) /\
  (forall o ph, phases s !! o = Some ph -> ph = PhNew \/ ph = PhLinked \/ ph = PhDone).

Lemma settled_tokens s : settled s -> tokens s = sema_count_ (port s).
Proof.
  intros [H1 H2]. unfold tokens. assert (sum_pcs pc_token (pcs s) = 0) as ->.
  { unfold sum_pcs. revert H1. induction (pcs s) as [|x l IH]; intros H1; cbn; [done|]. rewrite IH by (intros t; apply (H1 (S t))).
    by destruct (H1 0%nat x eq_refl) as [-> | ->]. }
  assert (phase_tokens (phases s) = 0) as ->; [|lia].
  unfold phase_tokens. revert H2. induction (phases s) as [|o ph m Hm Hfirst IH] using map_first_key_ind; intros H2; [done|].
  rewrite map_fold_insert_first_key by done. rewrite IH.
  - by destruct (H2 o ph) as [-> |[-> | ->]]; [apply lookup_insert_eq|..].
  - intros o' ph' Ho'. apply (H2 o'). rewrite lookup_insert_ne; [done|]. congruence.
Qed.

Lemma settled_held s : settled s -> zpc_held (zpc s) = [] -> held s = [].
Proof.
  intros [H1 _] Hz. unfold held. rewrite Hz, app_nil_r. induction (pcs s) as [|x l IH]; [done|]. cbn. rewrite IH by (intros t; apply (H1 (S t))).
  by destruct (H1 0%nat x eq_refl) as [-> | ->].
Qed.

(** What is left once the port is closed. *)
Lemma closed_empty m s :
  port_inv s -> wake_inv m s -> settled s -> zpc s = ZDone ->
  packets_ (port s) = [] /\ observers_ (port s) = [] /\ num_ephemeral_packets_ (port s) = 0 /\ heap_ob s = ∅ /\
  (forall p pk, heap_pk s !! p = Some pk -> allocator pk = Some OtherPortAllocator).
Proof.
  intros Hi Hw Hs Hz. assert (packets_ (port s) = []) as Hp by (apply (pi_drained _ _ _ _ _ _ _ _ _ Hi); by rewrite Hz).
  pose proof (wi_closed _ _ _ _ Hw Hz) as Ho. pose proof (settled_held s Hs ltac:(by rewrite Hz)) as Hh.
  assert (heap_ob s = ∅) as Hob.
  { apply map_eq. intros o. rewrite lookup_empty. destruct (heap_ob s !! o) as [ob|] eqn:E; [exfalso|done].
    pose proof (pi_fate _ _ _ _ _ _ _ _ _ Hi o ob E) as Hf. rewrite Hz, bool_decide_false in Hf by done.
    inversion Hf as [d ph0 H1 ? ? ? ?|? ? ? ? ? ?|H1 H2 ? ? ?|H1 H2 H3 ?]; [|done| |].
    - assert (o ∈ observers_ (port s)) as Hin by (apply (pi_obs _ _ _ _ _ _ _ _ _ Hi); eauto). rewrite Ho in Hin. set_solver.
    - destruct Hs as [_ Hs]. naive_solver.
    - unfold is_attached in H3. destruct (heap_pk s !! o) as [pk|] eqn:Ep; [|done]. destruct (observer pk) as [x|] eqn:Ex; [|done].
      destruct (pi_attached _ _ _ _ _ _ _ _ _ Hi o pk x Ep Ex) as [_ Hin]. rewrite Hp in Hin. set_solver. }
  split_and!; try done.
  - rewrite (pi_num _ _ _ _ _ _ _ _ _ Hi), Hp. done.
  - intros p pk Hpk. destruct (allocator pk) as [[|]|] eqn:Ea; [|done|].
    + pose proof (pi_owned _ _ _ _ _ _ _ _ _ Hi p pk Hpk Ea) as Hin. rewrite Hp, Hh in Hin. set_solver.
    + destruct (proj1 (pi_embedded _ _ _ _ _ _ _ _ _ Hi p)) as [? H]; [eauto|]. by rewrite Hob in H.
Qed.

(** C1. No interleaving of the threads, observers, signals and interrupts that use a port, and of
    the thread that closes its last handle, uses a packet or an observer that was freed, frees
    one twice, or destroys one that is still in a list. Once the closing is done and no thread is
    inside the port, nothing is left: no packet, no observer, no ephemeral packet in the count,
    and no memory but the packets that other allocators own. *)
Theorem port_memory_safe options q n ops :
  port_Create options true = inr q -> zlen ops < 2 ^ 64 ->
  exists s, port_run ops (port_boot q n) = Some s /\
    (settled s -> zpc s = ZDone ->
     packets_ (port s) = [] /\ observers_ (port s) = [] /\ num_ephemeral_packets_ (port s) = 0 /\ heap_ob s = ∅ /\
     (forall p pk, heap_pk s !! p = Some pk -> allocator pk = Some OtherPortAllocator)).
Proof.
  intros Hc Hn. destruct (port_reach options q n ops Hc Hn) as (s & Hr & Hi & Hw). exists s. split; [done|]. by apply (closed_empty (zlen ops)).
Qed.

(** The packet [Dequeue] gives next: interrupts first, then the packets in order. *)
Definition next_packet (s : PortSys) : option zx_port_packet_t :=
  match interrupt_packets_ (port s) with
  | ip :: _ =>
      match heap_ip s !! ip with
      | Some i => Some (mkPacket (ip_key i) ZX_PKT_TYPE_INTERRUPT ZX_OK (BodyInterrupt (ip_timestamp i)))
      | None => None
      end
  | [] => match packets_ (port s) with p :: _ => match heap_pk s !! p with Some pk => Some (packet pk) | None => None end | [] => None end
  end.

Lemma reset_observer_delivered p s s' : reset_observer p s = Some s' -> delivered s' = delivered s.
Proof.
  unfold reset_observer. destruct (heap_pk s !! p) as [pk|]; [|done]. destruct (observer pk) as [o|]; [|by intros [= <-]].
  unfold destroy_observer. port_cbn. destruct (heap_ob s !! o); [|done]. destruct (<[p := _]> (heap_pk s) !! o); [|done].
  destruct (_ || _); [done|]. by intros [= <-].
Qed.

Lemma take_packet_delivers t p rest s s' :
  packets_ (port s) = p :: rest -> take_packet t s = Some s' ->
  exists pk, heap_pk s !! p = Some pk /\ delivered s' = delivered s ++ [packet pk].
Proof.
  intros Hp. unfold take_packet. rewrite Hp. unfold pop_packet. destruct (heap_pk s !! p) as [pk|]; [|done].
  destruct (reset_observer _ _) as [s1|] eqn:Er; [|done]. intros [= <-]. exists pk. split; [done|]. by apply reset_observer_delivered in Er.
Qed.

(** A thread that gets a wake-up takes the next packet. *)
Lemma got_delivers m t w s :
  port_inv s -> wake_inv m s -> m + 1 < 2 ^ 64 -> pcs s !! t = Some PGot -> packets_ (port s) ++ interrupt_packets_ (port s) <> [] ->
  exists s' pkt, next_packet s = Some pkt /\ port_run [OpThread t w; OpThread t w] s = Some s' /\ delivered s' = delivered s ++ [pkt].
Proof.
  intros Hi Hw Hm Ht Hne. assert (t < length (pcs s))%nat as Hlen by (by eapply lookup_lt_Some). unfold next_packet.
  destruct (interrupt_packets_ (port s)) as [|ip rest] eqn:Ei.
  - destruct (packets_ (port s)) as [|p rest] eqn:Ep; [done|]. set (s1 := set_pc t PRegular s).
    assert (port_step (OpThread t w) s = Next s1) as E1.
    { cbn [port_step]. unfold thread_step. rewrite Ht. unfold take_interrupt. rewrite Ei. by destruct (options_ (port s) =? _). }
    pose proof (port_step_safe m (OpThread t w) s Hi Hw) as Hi1. rewrite E1 in Hi1. pose proof (port_step_wake m (OpThread t w) s s1 Hi Hw Hm E1) as Hw1.
    pose proof (port_step_safe _ (OpThread t w) s1 Hi1 Hw1) as Hs2. assert (pcs s1 !! t = Some PRegular) as Ht1 by (by apply list_lookup_insert_eq).
    cbn [port_run]. rewrite E1. cbn [port_step] in *. unfold thread_step in *. rewrite Ht1 in *. cbn [outcome2] in *.
    destruct (take_packet t s1) as [s2|] eqn:E2; [|done]. destruct (take_packet_delivers t p rest s1 s2 Ep E2) as (pk & Hpk & Hd).
    exists s2, (packet pk). change (heap_pk s1) with (heap_pk s) in Hpk. by rewrite Hpk.
  - assert (options_ (port s) = ZX_PORT_BIND_TO_INTERRUPT) as Ho by (by destruct (wi_bind _ _ _ _ Hw); [congruence|]).
    destruct (wi_bound _ _ _ _ Hw ip) as [i Hip]; [rewrite Ei; set_solver|]. rewrite Hip. eexists _, _. split; [done|].
    cbn [port_run port_step]. unfold thread_step at 1. rewrite Ht. unfold take_interrupt. rewrite Ho, Ei, Hip. cbn [outcome2 outcome].
    rewrite Z.eqb_refl. cbn [outcome]. unfold thread_step. port_cbn. rewrite list_lookup_insert_eq by done. cbn [outcome2 port_run]. split; done.
Qed.

(** C12. A wake-up is never lost. In every state the interleavings reach in which no thread is
    between two critical sections and no callback is running: while packets or interrupts are
    queued no thread is blocked in [Dequeue], and any thread that calls it returns without
    blocking, with the first interrupt packet if there is one and the first packet otherwise. *)
Theorem port_no_lost_wakeup options q n ops s :
  port_Create options true = inr q -> zlen ops < 2 ^ 64 - 1 -> port_run ops (port_boot q n) = Some s -> settled s ->
  packets_ (port s) ++ interrupt_packets_ (port s) <> [] ->
  (forall t, pcs s !! t <> Some PBlocked) /\
  (forall t w, pcs s !! t = Some PIdle ->
   exists s' pkt, next_packet s = Some pkt /\ port_run [OpWait t; OpThread t w; OpThread t w] s = Some s' /\ delivered s' = delivered s ++ [pkt]).
Proof.
  intros Hc Hn Hr Hs Hne. destruct (port_reach options q n ops Hc) as (s0 & Hr0 & Hi & Hw); [lia|]. assert (s0 = s) as -> by congruence.
  assert (0 < sema_count_ (port s)) as Hcount.
  { rewrite <-settled_tokens by done. pose proof (wi_all _ _ _ _ Hw) as Ha. rewrite <-zlen_app in Ha.
    destruct (packets_ (port s) ++ interrupt_packets_ (port s)); [done|]. rewrite zlen_cons in Ha. pose proof (zlen_nonneg l). lia. }
  split.
  - intros t Ht%(wi_waiters _ _ _ _ Hw). rewrite (wi_excl _ _ _ _ Hw Hcount) in Ht. set_solver.
  - intros t w Ht. assert (t < length (pcs s))%nat as Hlen by (by eapply lookup_lt_Some).
    assert (is_idle t s = true) as Hidle by (unfold is_idle; by rewrite Ht).
    pose proof (port_step_safe _ (OpWait t) s Hi Hw) as Hi1. pose proof (wake_Wait _ t s Hw Hidle) as Hw1.
    cbn [port_run]. cbn [port_step] in *. rewrite Hidle in *. cbn [guarded] in *. unfold Wait in *. rewrite (proj2 (Z.ltb_lt _ _) Hcount) in *.
    set (s1 := set_pc t PGot _) in *. destruct (got_delivers (zlen ops) t w s1) as (s' & pkt & H1 & H2 & H3); try done; [lia| |eauto].
    by apply list_lookup_insert_eq.
Qed.

(** C32. The packets that users queue are bounded: in every reachable state the count is the number
    of queued packets of the port's own allocator, it is at most one more than the documented
    maximum, and [Queue] of another such packet on an open port is refused exactly when the
    count has reached that bound. *)
Theorem port_packet_limit options q n ops s :
  port_Create options true = inr q -> zlen ops < 2 ^ 64 -> port_run ops (port_boot q n) = Some s ->
  num_ephemeral_packets_ (port s) = zlen (filter (fun p => is_default (heap_pk s) p = true) (packets_ (port s))) /\
  num_ephemeral_packets_ (port s) <= kMaxAllocatedPacketCountPerPort + 1 /\
  (forall t p, pcs s !! t = Some (PQueue p) -> is_default (heap_pk s) p = true -> zero_handles_ (port s) = false ->
     exists s' r, Queue_locked p 0 s = Some (s', r) /\
       (r = Some ZX_ERR_SHOULD_WAIT <-> num_ephemeral_packets_ (port s) = kMaxAllocatedPacketCountPerPort + 1)).
Proof.
  intros Hc Hn Hr. destruct (port_reach options q n ops Hc Hn) as (s0 & Hr0 & Hi & Hw). assert (s0 = s) as -> by congruence.
  pose proof (pi_limit _ _ _ _ _ _ _ _ _ Hi) as Hl. split_and!; [apply Hi|done|]. intros t p Ht Hd Hz.
  destruct (queue_held_spec t _ p s Hi Ht eq_refl) as (s' & r & E & _). exists s', r. split; [done|]. revert E. unfold Queue_locked. rewrite Hz.
  unfold is_default in Hd. destruct (heap_pk s !! p) as [pk|]; [|done]. rewrite Hd. cbn [andb].
  destruct (Z.ltb_spec kMaxAllocatedPacketCountPerPort (num_ephemeral_packets_ (port s))).
  - intros [= <- <-]. split; [lia|done].
  - change (negb (0 =? 0)) with false. destruct (push_packet p pk s); [|done]. intros [= <- <-]. split; [done|lia].
Qed.

(** ** Examples *)

Definition quiet_pc (pc : PPC) : bool := match pc with PIdle | PBlocked => true | _ => false end.
Definition quiet_phase (ph : ObsPhase) : bool := match ph with PhNew | PhLinked | PhDone => true | _ => false end.
Definition settled_b (s : PortSys) : bool :=
  forallb quiet_pc (pcs s) && bool_decide (map_Forall (fun _ ph => quiet_phase ph = true) (phases s)).

Lemma settled_b_spec s : settled_b s = true -> settled s.
Proof.
  intros [H1 H2%bool_decide_eq_true]%andb_prop. split.
  - intros t pc Ht. rewrite forallb_forall in H1. specialize (H1 pc). rewrite <-list_elem_of_In in H1.
    specialize (H1 (list_elem_of_lookup_2 _ _ _ Ht)). destruct pc; naive_solver.
  - intros o ph Ho. specialize (H2 o ph Ho). destruct ph; naive_solver.
Qed.

Definition example_port : PortDispatcher := mkPort ZX_PORT_BIND_TO_INTERRUPT 0 [] false 0 [] [] [].
Definition example_packet : zx_port_packet_t := mkPacket 7 0 ZX_OK (BodyUser []).

(** A thread blocks; an observer fires, an interrupt comes and a packet is queued; the thread is
    woken up and takes the interrupt. *)
Definition example_use : list PortOp :=
  [OpWait 0; OpMakeObserver true 10 1 20 30 5 4; OpAddObserver 10 None; OpMakeObserver true 11 0 21 30 6 8; OpAddObserver 11 None;
   OpBindInterrupt 40 9; OpSignal 10 4; OpCallback 10 99 0; OpInterrupt 1 40 100; OpCallback 10 99 0; OpThread 1 0; OpCallback 10 99 0;
   OpQueueUser 1 (Some 12) example_packet; OpThread 1 0; OpThread 1 0; OpThread 0 0].

(** The port is closed while a signal arrives for the second observer. *)
Definition example_close : list PortOp :=
  [OpClose; OpClose; OpClose; OpSignal 11 8; OpClose; OpClose; OpClose; OpClose; OpCallback 11 1 0; OpCallback 11 1 0; OpCallback 11 1 0; OpClose; OpClose; OpClose].

Lemma port_memory_safe_witness :
  match port_run (example_use ++ example_close) (port_boot example_port 2) with
  | Some s => zpc s = ZDone /\ heap_ob s = ∅ /\ packets_ (port s) = []
  | None => False
  end.
Proof.
  destruct (port_memory_safe 1 example_port 2 (example_use ++ example_close) eq_refl eq_refl) as (s & Hr & H).
  assert (match port_run (example_use ++ example_close) (port_boot example_port 2) with
          | Some s => settled_b s = true /\ zpc s = ZDone | None => False end) as Hc by (vm_compute; split; reflexivity).
  rewrite Hr in Hc. rewrite Hr. destruct Hc as [Hs Hz]. destruct (H (settled_b_spec s Hs) Hz) as (? & _ & _ & ? & _). split_and!; assumption.
Defined.

Lemma port_no_lost_wakeup_witness :
  match port_run example_use (port_boot example_port 2) with
  | Some s => exists s' pkt, next_packet s = Some pkt /\ port_run [OpWait 0; OpThread 0 0; OpThread 0 0] s = Some s' /\ delivered s' = delivered s ++ [pkt]
  | None => False
  end.
Proof.
  assert (match port_run example_use (port_boot example_port 2) with
          | Some s => settled_b s = true /\ bool_decide (packets_ (port s) ++ interrupt_packets_ (port s) <> []) = true /\ pcs s !! 0%nat = Some PIdle
          | None => False end) as Hc by (vm_compute; split_and!; reflexivity).
  destruct (port_run example_use (port_boot example_port 2)) as [s|] eqn:Hr; [|done]. destruct Hc as (Hs & Hne%bool_decide_eq_true & Ht).
  destruct (port_no_lost_wakeup 1 example_port 2 example_use s eq_refl eq_refl Hr (settled_b_spec s Hs) Hne) as [_ H]. exact (H 0%nat 0%nat Ht).
Defined.

Lemma port_packet_limit_witness :
  match port_run (take 13 example_use) (port_boot example_port 2) with
  | Some s => exists s' r, Queue_locked 12 0 s = Some (s', r) /\
       (r = Some ZX_ERR_SHOULD_WAIT <-> num_ephemeral_packets_ (port s) = kMaxAllocatedPacketCountPerPort + 1)
  | None => False
  end.
Proof.
  assert (match port_run (take 13 example_use) (port_boot example_port 2) with
          | Some s => pcs s !! 1%nat = Some (PQueue 12) /\ is_default (heap_pk s) 12 = true /\ zero_handles_ (port s) = false
          | None => False end) as Hc by (vm_compute; split_and!; reflexivity).
  destruct (port_run (take 13 example_use) (port_boot example_port 2)) as [s|] eqn:Hr; [|done]. destruct Hc as (Ht & Hd & Hz).
  destruct (port_packet_limit 1 example_port 2 (take 13 example_use) s eq_refl eq_refl Hr) as (_ & _ & H). exact (H 1%nat 12 Ht Hd Hz).
Defined.
