(* ===== verification/Utf.v ===== *)
(** * UTF-16 to UTF-8

    Models [zircon/system/ulib/utf_conversion/utf_conversion.cc], which the file system and
    device code uses for names. The source is a list of 16-bit code units, the destination
    a list of bytes; the host is little-endian, as every target of the system is. The
    reference is the Unicode standard: an encoder for both forms, a strict decoder for
    UTF-8, and a relation that reads code points off any sequence of code units. *)

From S2P Require Import Prelude Types.

(** ** The conversion *)

Definition UTF_CONVERT_FLAG_PRESERVE_UNPAIRED_SURROGATES : Z := 1.
Definition UTF_CONVERT_FLAG_FORCE_LITTLE_ENDIAN : Z := 2.
Definition UTF_CONVERT_FLAG_FORCE_BIG_ENDIAN : Z := 4.
Definition UTF_CONVERT_FLAG_DISCARD_BOM : Z := 8.

Inductive Endianness := HOST | INVERT.
Definition kBigEndian : Endianness := INVERT.
Definition kLittleEndian : Endianness := HOST.

Definition bswap16 (val : Z) : Z := Z.lor (Z.shiftr val 8) (Z.land (Z.shiftl val 8) 0xFF00).
Definition CodeUnit_Read (E : Endianness) (val : Z) : Z := match E with HOST => val | INVERT => bswap16 val end.

Definition IsHighSurrogate (val : Z) : bool := (0xD800 <=? val) && (val <=? 0xDBFF).
Definition IsLowSurrogate (val : Z) : bool := (0xDC00 <=? val) && (val <=? 0xDFFF).
Definition kMaxUnicodeCodePoint : Z := 0x10FFFF.
Definition kSupplementaryPlaneStart : Z := 0x10000.
Definition kUnicodeReplacementChar : Z := 0xFFFD.

(** The write of [new] at [offset], if there is room for it. *)
Definition store (new : list byte) (tgt : list byte) (tgt_len offset : Z) : list byte :=
  if (offset <? tgt_len) && (zlen new <=? tgt_len - offset) then zsplice offset new tgt else tgt.

Definition EncodeUtf8CodePoint (code_point : Z) (tgt : list byte) (tgt_len offset : Z) : list byte * Z :=
  let code_point := if kMaxUnicodeCodePoint <? code_point then kUnicodeReplacementChar else code_point in
  if code_point <? 0x80 then (store [wrap 8 code_point] tgt tgt_len offset, 1)
  else if code_point <? 0x800 then
    (store [wrap 8 (Z.lor 0xC0 (Z.shiftr code_point 6)); wrap 8 (Z.lor 0x80 (Z.land code_point 0x3F))] tgt tgt_len offset, 2)
  else if code_point <? 0x10000 then
    (store [wrap 8 (Z.lor 0xE0 (Z.shiftr code_point 12)); wrap 8 (Z.lor 0x80 (Z.land (Z.shiftr code_point 6) 0x3F));
            wrap 8 (Z.lor 0x80 (Z.land code_point 0x3F))] tgt tgt_len offset, 3)
  else
    (store [wrap 8 (Z.lor 0xF0 (Z.shiftr code_point 18)); wrap 8 (Z.lor 0x80 (Z.land (Z.shiftr code_point 12) 0x3F));
            wrap 8 (Z.lor 0x80 (Z.land (Z.shiftr code_point 6) 0x3F)); wrap 8 (Z.lor 0x80 (Z.land code_point 0x3F))] tgt tgt_len offset, 4).

(** The code point of a surrogate pair. *)
Definition combine_surrogates (high low : Z) : Z :=
  let MASK := Z.shiftl 1 10 - 1 in
  Z.lor (Z.land low MASK) (Z.shiftl (Z.land high MASK) 10) + kSupplementaryPlaneStart.

(** The loop of [Utf16ToUtf8]; [src] is what is left from [src[rd]] on. *)
Fixpoint utf16_loop (E : Endianness) (preserve_unpaired : bool) (src : list Z) (dst : list byte) (dst_len wr : Z) : list byte * Z :=
  match src with
  | [] => (dst, wr)
  | unit :: src =>
      let code_unit := CodeUnit_Read E unit in
      let encode code_point src :=
        let '(dst, n) := EncodeUtf8CodePoint code_point dst dst_len wr in
        utf16_loop E preserve_unpaired src dst dst_len (wrap64 (wr + n)) in
      if IsHighSurrogate code_unit then
        match src with
        | next :: rest =>
            if IsLowSurrogate (CodeUnit_Read E next)
            then let '(dst, n) := EncodeUtf8CodePoint (combine_surrogates code_unit (CodeUnit_Read E next)) dst dst_len wr in
                 utf16_loop E preserve_unpaired rest dst dst_len (wrap64 (wr + n))
            else encode (if preserve_unpaired then code_unit else kUnicodeReplacementChar) src
        | [] => encode (if preserve_unpaired then code_unit else kUnicodeReplacementChar) src
        end
      else if IsLowSurrogate code_unit && negb preserve_unpaired then encode kUnicodeReplacementChar src
      else encode code_unit src
  end.

Definition Utf16ToUtf8 (E : Endianness) (src : list Z) (dst : list byte) (dst_len flags : Z) : zx_status_t * list byte * Z :=
  let preserve_unpaired := negb (Z.land flags UTF_CONVERT_FLAG_PRESERVE_UNPAIRED_SURROGATES =? 0) in
  let '(dst, wr) := utf16_loop E preserve_unpaired src dst dst_len 0 in
  (ZX_OK, dst, wr).

Definition HOST_BOM : Z := 0xFEFF.
Definition INVERT_BOM : Z := 0xFFFE.
Definition ENDIAN_FLAGS : Z := Z.lor UTF_CONVERT_FLAG_FORCE_LITTLE_ENDIAN UTF_CONVERT_FLAG_FORCE_BIG_ENDIAN.
Definition ALL_FLAGS : Z :=
  Z.lor (Z.lor UTF_CONVERT_FLAG_DISCARD_BOM UTF_CONVERT_FLAG_PRESERVE_UNPAIRED_SURROGATES) ENDIAN_FLAGS.

Definition detect_endianness (flags bom : Z) : Endianness :=
  let bom_detected := (bom =? HOST_BOM) || (bom =? INVERT_BOM) in
  if Z.land flags ENDIAN_FLAGS =? UTF_CONVERT_FLAG_FORCE_LITTLE_ENDIAN then kLittleEndian
  else if Z.land flags ENDIAN_FLAGS =? UTF_CONVERT_FLAG_FORCE_BIG_ENDIAN then kBigEndian
  else if bom_detected && (bom =? INVERT_BOM) then INVERT else HOST.

(** [utf16_to_utf8]; [None] is a null pointer. It gives the status, the destination buffer and
    the length stored in [dst_len]. *)
Definition utf16_to_utf8 (src : option (list Z)) (dst : option (list byte)) (dst_len : option Z) (flags : Z)
    : zx_status_t * option (list byte) * option Z :=
  match dst_len with
  | None => (ZX_ERR_INVALID_ARGS, dst, dst_len)
  | Some len =>
      if negb (Z.land flags (Z.lxor ALL_FLAGS (2 ^ 32 - 1)) =? 0) then (ZX_ERR_INVALID_ARGS, dst, dst_len)
      else if match dst with None => negb (len =? 0) | Some _ => false end then (ZX_ERR_INVALID_ARGS, dst, dst_len)
      else match src with
      | None | Some [] => (ZX_OK, dst, Some 0)
      | Some (bom :: rest) =>
          let detected := detect_endianness flags bom in
          let bom_detected := (bom =? HOST_BOM) || (bom =? INVERT_BOM) in
          let src := if bom_detected && negb (Z.land flags UTF_CONVERT_FLAG_DISCARD_BOM =? 0) then rest else bom :: rest in
          let '(status, out, wr) := Utf16ToUtf8 detected src (default [] dst) len flags in
          (status, (fun _ => out) <$> dst, Some wr)
      end
  end.

(** ** The reference *)

Definition surrogate (c : Z) : bool := (0xD800 <=? c) && (c <=? 0xDFFF).
Definition scalar (c : Z) : Prop := 0 <= c <= 0x10FFFF /\ surrogate c = false.

Definition utf16_encode (c : Z) : list Z :=
  if c <? 0x10000 then [c] else [0xD800 + (c - 0x10000) / 0x400; 0xDC00 + (c - 0x10000) mod 0x400].

Definition utf8_encode (c : Z) : list byte :=
  if c <? 0x80 then [c]
  else if c <? 0x800 then [0xC0 + c / 64; 0x80 + c mod 64]
  else if c <? 0x10000 then [0xE0 + c / 4096; 0x80 + c / 64 mod 64; 0x80 + c mod 64]
  else [0xF0 + c / 262144; 0x80 + c / 4096 mod 64; 0x80 + c / 64 mod 64; 0x80 + c mod 64].

Definition continuation (b : byte) : bool := (0x80 <=? b) && (b <? 0xC0).

(** A strict decoder: no overlong forms, no surrogates, nothing above the last code point. *)
Fixpoint utf8_decode (l : list byte) : option (list Z) :=
  match l with
  | [] => Some []
  | b0 :: l1 =>
      if b0 <? 0x80 then (if 0 <=? b0 then cons b0 <$> utf8_decode l1 else None) else
      match l1 with
      | [] => None
      | b1 :: l2 =>
          if negb (continuation b1) then None else
          if (0xC0 <=? b0) && (b0 <? 0xE0) then
            let c := (b0 - 0xC0) * 64 + (b1 - 0x80) in
            if 0x80 <=? c then cons c <$> utf8_decode l2 else None
          else match l2 with
          | [] => None
          | b2 :: l3 =>
              if negb (continuation b2) then None else
              if (0xE0 <=? b0) && (b0 <? 0xF0) then
                let c := (b0 - 0xE0) * 4096 + (b1 - 0x80) * 64 + (b2 - 0x80) in
                if (0x800 <=? c) && negb (surrogate c) then cons c <$> utf8_decode l3 else None
              else match l3 with
              | [] => None
              | b3 :: l4 =>
                  if negb (continuation b3) then None else
                  if (0xF0 <=? b0) && (b0 <? 0xF8) then
                    let c := (b0 - 0xF0) * 262144 + (b1 - 0x80) * 4096 + (b2 - 0x80) * 64 + (b3 - 0x80) in
                    if (0x10000 <=? c) && (c <=? 0x10FFFF) then cons c <$> utf8_decode l4 else None
                  else None
              end
          end
      end
  end.

(** The code points of any sequence of code units; an unpaired surrogate stands for itself or
    for the replacement character. *)
Definition unpaired (preserve : bool) (u : Z) : Z := if preserve then u else 0xFFFD.

Inductive reads (preserve : bool) : list Z -> list Z -> Prop :=
| reads_nil : reads preserve [] []
| reads_pair u v l cps : 0xD800 <= u <= 0xDBFF -> 0xDC00 <= v <= 0xDFFF -> reads preserve l cps ->
    reads preserve (u :: v :: l) (0x10000 + (u - 0xD800) * 0x400 + (v - 0xDC00) :: cps)
| reads_high u l cps : 0xD800 <= u <= 0xDBFF -> (forall v, head l = Some v -> ~ 0xDC00 <= v <= 0xDFFF) -> reads preserve l cps ->
    reads preserve (u :: l) (unpaired preserve u :: cps)
| reads_low u l cps : 0xDC00 <= u <= 0xDFFF -> reads preserve l cps -> reads preserve (u :: l) (unpaired preserve u :: cps)
| reads_unit u l cps : surrogate u = false -> reads preserve l cps -> reads preserve (u :: l) (u :: cps).

(** ** Encoding one code point *)

Ltac Zify.zify_post_hook ::= Z.to_euclidean_division_equations.

Lemma utf_lor_high n a x : 0 <= n -> 0 <= x < 2 ^ n -> Z.lor (a * 2 ^ n) x = a * 2 ^ n + x.
Proof. intros Hn Hx. rewrite <-Z.shiftl_mul_pow2, Z.lor_comm, lor_shiftl, Z.shiftl_mul_pow2 by done. lia. Qed.

Lemma lead_byte a n c : 0 <= n -> 0 <= c < 2 ^ n -> 0 <= a -> a * 2 ^ n + c < 256 -> wrap 8 (Z.lor (a * 2 ^ n) c) = a * 2 ^ n + c.
Proof. intros. rewrite utf_lor_high by done. apply wrap_small. lia. Qed.

Lemma trail_byte c : wrap 8 (Z.lor 0x80 (Z.land c 0x3F)) = 0x80 + c mod 64.
Proof.
  change 0x3F with (2 ^ 6 - 1). rewrite land_ones_low by done. change 0x80 with (2 * 2 ^ 6).
  rewrite lead_byte; [done|done|by apply Z.mod_pos_bound|done|]. change (2 ^ 6) with 64. lia.
Qed.

Lemma zlen_utf8_encode c : 1 <= zlen (utf8_encode c) <= 4.
Proof. unfold utf8_encode. repeat case_if; rewrite ?zlen_cons, zlen_nil; lia. Qed.

(** The code writes the bytes of the reference encoder. *)
Lemma EncodeUtf8CodePoint_spec c tgt tgt_len offset :
  0 <= c <= 0x10FFFF -> EncodeUtf8CodePoint c tgt tgt_len offset = (store (utf8_encode c) tgt tgt_len offset, zlen (utf8_encode c)).
Proof.
  intros Hc. unfold EncodeUtf8CodePoint, utf8_encode, kMaxUnicodeCodePoint. rewrite (proj2 (Z.ltb_ge 0x10FFFF c)) by lia.
  rewrite !trail_byte, !Z.shiftr_div_pow2 by done.
  change (2 ^ 6) with 64. change (2 ^ 12) with 4096. change (2 ^ 18) with 262144.
  destruct (Z.ltb_spec c 0x80); [rewrite wrap_small by lia; done|]. destruct (Z.ltb_spec c 0x800).
  - change 0xC0 with (6 * 2 ^ 5). rewrite lead_byte by (change (2 ^ 5) with 32; lia). done.
  - destruct (Z.ltb_spec c 0x10000).
    + change 0xE0 with (14 * 2 ^ 4). rewrite lead_byte by (change (2 ^ 4) with 16; lia). done.
    + change 0xF0 with (30 * 2 ^ 3). rewrite lead_byte by (change (2 ^ 3) with 8; lia). done.
Qed.

Lemma combine_surrogates_spec u v :
  0xD800 <= u <= 0xDBFF -> 0xDC00 <= v <= 0xDFFF -> combine_surrogates u v = 0x10000 + (u - 0xD800) * 0x400 + (v - 0xDC00).
Proof.
  intros Hu Hv. unfold combine_surrogates, kSupplementaryPlaneStart. change (Z.shiftl 1 10 - 1) with (2 ^ 10 - 1).
  rewrite !land_ones_low by done. rewrite lor_shiftl by (try done; apply Z.mod_pos_bound; done).
  change (2 ^ 10) with 1024. lia.
Qed.

Lemma utf8_decode_encode c l : scalar c -> utf8_decode (utf8_encode c ++ l) = cons c <$> utf8_decode l.
Proof.
  intros [Hc Hs]. unfold utf8_encode.
  assert (forall x, continuation (0x80 + x mod 64) = true) as Hcont by (intros x; unfold continuation; pose proof (Z.mod_pos_bound x 64); lia).
  destruct (Z.ltb_spec c 0x80) as [H1|H1]; [|destruct (Z.ltb_spec c 0x800) as [H2|H2]; [|destruct (Z.ltb_spec c 0x10000) as [H3|H3]]];
    cbn [utf8_decode app]; rewrite ?Hcont; cbn [negb].
  - rewrite (proj2 (Z.ltb_lt _ _)), (proj2 (Z.leb_le _ _)) by lia. done.
  - rewrite (proj2 (Z.ltb_ge (_ + _) 0x80)) by lia. replace ((0xC0 <=? 0xC0 + c / 64) && (0xC0 + c / 64 <? 0xE0)) with true by lia.
    replace ((192 + c / 64 - 192) * 64 + (128 + c mod 64 - 128)) with c by lia. rewrite (proj2 (Z.leb_le _ _)) by lia. done.
  - rewrite (proj2 (Z.ltb_ge (_ + _) 0x80)) by lia. replace ((0xC0 <=? 0xE0 + c / 4096) && (0xE0 + c / 4096 <? 0xE0)) with false by lia.
    replace ((0xE0 <=? 0xE0 + c / 4096) && (0xE0 + c / 4096 <? 0xF0)) with true by lia.
    replace ((224 + c / 4096 - 224) * 4096 + (128 + c / 64 mod 64 - 128) * 64 + (128 + c mod 64 - 128)) with c by lia.
    rewrite (proj2 (Z.leb_le _ _)), Hs by lia. done.
  - rewrite (proj2 (Z.ltb_ge (_ + _) 0x80)) by lia. replace ((0xC0 <=? 0xF0 + c / 262144) && (0xF0 + c / 262144 <? 0xE0)) with false by lia.
    replace ((0xE0 <=? 0xF0 + c / 262144) && (0xF0 + c / 262144 <? 0xF0)) with false by lia.
    replace ((0xF0 <=? 0xF0 + c / 262144) && (0xF0 + c / 262144 <? 0xF8)) with true by lia.
    replace ((240 + c / 262144 - 240) * 262144 + (128 + c / 4096 mod 64 - 128) * 4096 + (128 + c / 64 mod 64 - 128) * 64 + (128 + c mod 64 - 128)) with c by lia.
    replace ((0x10000 <=? c) && (c <=? 0x10FFFF)) with true by lia. done.
Qed.

Lemma utf8_decode_all cps : Forall scalar cps -> utf8_decode (flat_map utf8_encode cps) = Some cps.
Proof. induction 1 as [|c cps Hc _ IH]; [done|]. cbn [flat_map]. by rewrite utf8_decode_encode, IH. Qed.

(** ** The loop *)

(** The encodings of the code points that fit into [room] bytes, whole. *)
Fixpoint fits (room : Z) (cps : list Z) : list byte :=
  match cps with
  | [] => []
  | c :: cps => if zlen (utf8_encode c) <=? room then utf8_encode c ++ fits (room - zlen (utf8_encode c)) cps else []
  end.

Lemma fits_le room cps : 0 <= room -> zlen (fits room cps) <= room.
Proof.
  revert room. induction cps as [|c cps IH]; intros room Hr; cbn [fits]; [done|]. destruct (Z.leb_spec (zlen (utf8_encode c)) room); [|done].
  rewrite zlen_app. specialize (IH (room - zlen (utf8_encode c))). lia.
Qed.

Lemma fits_neg room cps : room < 1 -> fits room cps = [].
Proof.
  intros Hr. destruct cps as [|c cps]; [done|]. cbn [fits]. pose proof (zlen_utf8_encode c).
  by rewrite (proj2 (Z.leb_gt (zlen (utf8_encode c)) room)) by lia.
Qed.

(** What fits is the encoding of the longest prefix that fits. *)
Lemma fits_prefix room cps :
  0 <= room -> exists k, fits room cps = flat_map utf8_encode (take k cps) /\
    ((length cps <= k)%nat \/ room < zlen (flat_map utf8_encode (take (S k) cps))).
Proof.
  revert room. induction cps as [|c cps IH]; intros room Hr; [exists 0%nat; cbn; auto with lia|]. cbn [fits].
  destruct (Z.leb_spec (zlen (utf8_encode c)) room) as [Hc|Hc].
  - destruct (IH (room - zlen (utf8_encode c))) as (k & -> & Hk); [lia|]. exists (S k). split; [done|].
    destruct Hk as [Hk|Hk]; [left; cbn; lia|right]. rewrite firstn_cons. cbn [flat_map]. rewrite zlen_app. lia.
  - exists 0%nat. split; [done|]. right. cbn [take flat_map]. rewrite app_nil_r. lia.
Qed.

Lemma zsplice_zsplice {A} pos (e f l : list A) :
  0 <= pos -> pos + zlen e + zlen f <= zlen l -> zsplice (pos + zlen e) f (zsplice pos e l) = zsplice pos (e ++ f) l.
Proof.
  intros Hp Hl. pose proof (zlen_nonneg e). pose proof (zlen_nonneg f). unfold zsplice. rewrite (app_assoc (ztake pos l)), ztake_app_exact by (rewrite zlen_app, zlen_ztake; lia).
  rewrite zdrop_app_ge by (rewrite zlen_app, zlen_ztake; lia). rewrite zdrop_zdrop by (rewrite ?zlen_app, ?zlen_ztake; lia).
  rewrite !zlen_app, zlen_ztake, <-!app_assoc. do 4 f_equal. lia.
Qed.

(** One round of the loop. *)
Lemma store_fits c cps dst dst_len wr :
  0 <= wr -> zlen dst = dst_len ->
  zsplice (wr + zlen (utf8_encode c)) (fits (dst_len - (wr + zlen (utf8_encode c))) cps) (store (utf8_encode c) dst dst_len wr) =
  zsplice wr (fits (dst_len - wr) (c :: cps)) dst.
Proof.
  intros Hw Hl. pose proof (zlen_utf8_encode c). cbn [fits]. unfold store. destruct (Z.leb_spec (zlen (utf8_encode c)) (dst_len - wr)) as [Hf|Hf].
  - rewrite (proj2 (Z.ltb_lt _ _)) by lia. cbn [andb]. replace (dst_len - (wr + zlen (utf8_encode c))) with (dst_len - wr - zlen (utf8_encode c)) by lia.
    pose proof (fits_le (dst_len - wr - zlen (utf8_encode c)) cps ltac:(lia)). apply zsplice_zsplice; lia.
  - rewrite andb_false_r, fits_neg, !zsplice_nil by lia. done.
Qed.

Definition unit_ok (E : Endianness) (u : Z) : Prop := 0 <= CodeUnit_Read E u < 0x10000.
Definition codes_ok (cps : list Z) : Prop := Forall (fun c => 0 <= c <= 0x10FFFF) cps.

Lemma high_spec u : reflect (0xD800 <= u <= 0xDBFF) (IsHighSurrogate u).
Proof. unfold IsHighSurrogate. apply iff_reflect. lia. Qed.

Lemma low_spec u : reflect (0xDC00 <= u <= 0xDFFF) (IsLowSurrogate u).
Proof. unfold IsLowSurrogate. apply iff_reflect. lia. Qed.

(** What the loop does with the code units [src]. *)
Definition loop_ok (E : Endianness) (preserve : bool) (src : list Z) : Prop :=
  forall dst dst_len wr, Forall (unit_ok E) src -> 0 <= wr -> wr + 3 * zlen src < 2 ^ 64 -> zlen dst = dst_len ->
  exists cps, reads preserve (map (CodeUnit_Read E) src) cps /\ codes_ok cps /\ zlen (flat_map utf8_encode cps) <= 3 * zlen src /\
    utf16_loop E preserve src dst dst_len wr = (zsplice wr (fits (dst_len - wr) cps) dst, wr + zlen (flat_map utf8_encode cps)).

Lemma zlen_store e dst dst_len wr : 0 <= wr -> zlen dst = dst_len -> zlen (store e dst dst_len wr) = dst_len.
Proof. intros. unfold store. case_if; [|done]. rewrite zlen_zsplice; lia. Qed.

(** One code point [c], read off [n] code units, in front of a tail that is right. *)
Lemma loop_step E preserve c n rest dst dst_len wr :
  loop_ok E preserve rest -> Forall (unit_ok E) rest -> 0 <= c <= 0x10FFFF -> zlen (utf8_encode c) <= 3 * n -> 0 <= wr ->
  wr + 3 * (n + zlen rest) < 2 ^ 64 -> zlen dst = dst_len ->
  exists cps, reads preserve (map (CodeUnit_Read E) rest) cps /\ codes_ok cps /\ zlen (flat_map utf8_encode (c :: cps)) <= 3 * (n + zlen rest) /\
    (let '(dst, k) := EncodeUtf8CodePoint c dst dst_len wr in utf16_loop E preserve rest dst dst_len (wrap64 (wr + k))) =
    (zsplice wr (fits (dst_len - wr) (c :: cps)) dst, wr + zlen (flat_map utf8_encode (c :: cps))).
Proof.
  intros Hok Hu Hc Hn Hw Hb Hl. pose proof (zlen_utf8_encode c). pose proof (zlen_nonneg rest). rewrite EncodeUtf8CodePoint_spec by done.
  rewrite wrap_small by lia.
  destruct (Hok (store (utf8_encode c) dst dst_len wr) dst_len (wr + zlen (utf8_encode c))) as (cps & Hr & Hcs & Hz & ->);
    [done|lia|lia|by apply zlen_store|].
  exists cps. cbn [flat_map]. rewrite zlen_app. split_and!; [done|done|lia|]. rewrite store_fits by done. f_equal. lia.
Qed.

Lemma surrogate_false u : surrogate u = false <-> ~ (0xD800 <= u <= 0xDBFF) /\ ~ (0xDC00 <= u <= 0xDFFF).
Proof. unfold surrogate. lia. Qed.

Lemma utf8_encode_bmp c : c < 0x10000 -> zlen (utf8_encode c) <= 3.
Proof. intros. unfold utf8_encode. rewrite (proj2 (Z.ltb_lt c 0x10000)) by done. repeat case_if; done. Qed.

Lemma unpaired_ok preserve u : 0 <= u < 0x10000 -> 0 <= unpaired preserve u <= 0x10FFFF /\ zlen (utf8_encode (unpaired preserve u)) <= 3 * 1.
Proof. intros Hu. unfold unpaired. destruct preserve; (split; [lia|apply utf8_encode_bmp; lia]). Qed.

Lemma utf16_loop_spec E preserve src : loop_ok E preserve src.
Proof.
  remember (length src) as n eqn:Hn. revert src Hn. induction n as [n IH] using lt_wf_ind. intros src -> dst dst_len wr Hu Hw Hb Hl.
  destruct src as [|u rest]; [exists []; split_and!; [apply reads_nil|by apply Forall_nil|done|cbn [utf16_loop fits flat_map]; by rewrite zsplice_nil, zlen_nil, Z.add_0_r]|].
  apply Forall_cons in Hu as [Hu Hrest]. rewrite zlen_cons in *. cbn [utf16_loop map]. unfold unit_ok in Hu.
  assert (loop_ok E preserve rest) as Hok by (eapply IH; [|done]; cbn; lia).
  set (r := CodeUnit_Read E u) in *. destruct (unpaired_ok preserve r Hu) as [Hp1 Hp2].
  destruct (loop_step E preserve (unpaired preserve r) 1 rest dst dst_len wr) as (cps & Hr & Hc & Hz & Hloop); try done.
  assert (codes_ok (unpaired preserve r :: cps)) as Hcu by (by apply Forall_cons).
  destruct (high_spec r) as [Hh|Hh].
  - destruct rest as [|v rest]; [exists (unpaired preserve r :: cps); split_and!; try done; apply reads_high; [done|done|exact Hr]|].
    apply Forall_cons in Hrest as [Hv Hrest]. cbn [map] in *. destruct (low_spec (CodeUnit_Read E v)) as [Hlow|Hlow].
    + clear cps Hr Hc Hz Hloop Hcu. assert (loop_ok E preserve rest) as Hok' by (eapply IH; [|done]; cbn; lia).
      rewrite combine_surrogates_spec by done. rewrite zlen_cons in *. set (c := 0x10000 + _ + _).
      destruct (loop_step E preserve c 2 rest dst dst_len wr) as (cps & Hr & Hc & Hz & ->); try done; [unfold c; lia|pose proof (zlen_utf8_encode c); lia|lia|].
      exists (c :: cps). split_and!; [by apply reads_pair|apply Forall_cons; split; [unfold c; lia|done]|lia|done].
    + exists (unpaired preserve r :: cps). split_and!; try done. apply reads_high; [done| |exact Hr]. by intros ? [= <-].
  - destruct (low_spec r) as [Hlow|Hlow].
    + exists (unpaired preserve r :: cps). split_and!; try done; [by apply reads_low|]. destruct preserve; exact Hloop.
    + clear cps Hr Hc Hz Hloop Hcu. cbn [andb].
      destruct (loop_step E preserve r 1 rest dst dst_len wr) as (cps & Hr & Hc & Hz & ->); try done; [lia|apply utf8_encode_bmp; lia|].
      exists (r :: cps). split_and!; [by apply reads_unit; [apply surrogate_false|]|apply Forall_cons; split; [lia|done]|done|done].
Qed.

(** ** Byte order, and the code points of a source *)

Lemma bswap16_spec v : 0 <= v < 0x10000 -> bswap16 v = v / 256 + v mod 256 * 256.
Proof.
  intros Hv. unfold bswap16. change 0xFF00 with (Z.shiftl (2 ^ 8 - 1) 8). rewrite land_shifted_ones, Z.shiftl_mul_pow2 by done.
  rewrite Z.div_mul by done. rewrite <-Z.shiftl_mul_pow2 by done. rewrite Z.shiftr_div_pow2, lor_shiftl by (try done; change (2 ^ 8) with 256; lia). done.
Qed.

Lemma CodeUnit_Read_ok E v : 0 <= v < 0x10000 -> 0 <= CodeUnit_Read E v < 0x10000.
Proof. intros. destruct E; [done|]. cbn [CodeUnit_Read]. rewrite bswap16_spec by done. lia. Qed.

Lemma CodeUnit_Read_twice E v : 0 <= v < 0x10000 -> CodeUnit_Read E (CodeUnit_Read E v) = v.
Proof.
  intros. destruct E; [done|]. pose proof (CodeUnit_Read_ok INVERT v ltac:(done)) as H1. cbn [CodeUnit_Read] in *.
  rewrite (bswap16_spec (bswap16 v)) by done. rewrite bswap16_spec by done. lia.
Qed.

Lemma reads_det preserve l cps1 cps2 : reads preserve l cps1 -> reads preserve l cps2 -> cps1 = cps2.
Proof.
  intros H1. revert cps2. induction H1 as [|u v l cps Hu Hv _ IH|u l cps Hu Hnext _ IH|u l cps Hu _ IH|u l cps Hu _ IH]; intros cps2 H2;
    inversion H2 as [|? ? ? ? ? ? H|? ? ? ? Hn H|? ? ? ? H|? ? ? Hs H]; subst; try lia; try (apply surrogate_false in Hu; lia); try (apply surrogate_false in Hs; lia).
  all: try (f_equal; by apply IH).
  - exfalso. by apply (Hn v).
  - exfalso. by eapply Hnext.
Qed.

Lemma reads_encode preserve cps : Forall scalar cps -> reads preserve (flat_map utf16_encode cps) cps.
Proof.
  induction 1 as [|c cps [Hc Hs] _ IH]; [constructor|]. cbn [flat_map]. unfold utf16_encode. destruct (Z.ltb_spec c 0x10000); [by apply reads_unit|].
  cbn [app]. replace c with (0x10000 + (0xD800 + (c - 0x10000) / 0x400 - 0xD800) * 0x400 + (0xDC00 + (c - 0x10000) mod 0x400 - 0xDC00)) at 3 by lia.
  apply reads_pair; [lia|lia|done].
Qed.

(** Without the flag that keeps unpaired surrogates, what is read are scalar values. *)
Lemma reads_scalar l cps : reads false l cps -> Forall (fun u => 0 <= u < 0x10000) l -> Forall scalar cps.
Proof.
  induction 1 as [|u v l cps Hu Hv _ IH|u l cps Hu _ _ IH|u l cps Hu _ IH|u l cps Hu _ IH]; intros Hl; repeat (apply Forall_cons in Hl as [? Hl]);
    constructor; try (by apply IH); unfold scalar; try done; unfold surrogate in *; lia.
Qed.

Lemma encoded_units cps : Forall scalar cps -> Forall (fun u => 0 <= u < 0x10000) (flat_map utf16_encode cps).
Proof.
  induction 1 as [|c cps [Hc _] _ IH]; [constructor|]. cbn [flat_map]. apply Forall_app. split; [|done]. unfold utf16_encode.
  destruct (Z.ltb_spec c 0x10000); repeat constructor; lia.
Qed.

Definition preserving (flags : Z) : bool := negb (Z.land flags UTF_CONVERT_FLAG_PRESERVE_UNPAIRED_SURROGATES =? 0).

(** The code units of the source in host order, without a byte order mark that is discarded. *)
Definition source_units (flags : Z) (src : list Z) : list Z :=
  match src with
  | [] => []
  | bom :: rest =>
      map (CodeUnit_Read (detect_endianness flags bom))
        (if ((bom =? HOST_BOM) || (bom =? INVERT_BOM)) && negb (Z.land flags UTF_CONVERT_FLAG_DISCARD_BOM =? 0) then rest else src)
  end.

Lemma utf16_to_utf8_spec src dst flags :
  Forall (fun u => 0 <= u < 0x10000) src -> 3 * zlen src < 2 ^ 64 -> 0 <= flags <= ALL_FLAGS ->
  exists cps, reads (preserving flags) (source_units flags src) cps /\
    utf16_to_utf8 (Some src) dst (Some (zlen (default [] dst))) flags =
    (ZX_OK, (fun _ => fits (zlen (default [] dst)) cps ++ zdrop (zlen (fits (zlen (default [] dst)) cps)) (default [] dst)) <$> dst,
     Some (zlen (flat_map utf8_encode cps))).
Proof.
  intros Hu Hb Hf. unfold utf16_to_utf8. set (d := default [] dst).
  assert (Z.land flags (Z.lxor ALL_FLAGS (2 ^ 32 - 1)) = 0) as ->.
  { change ALL_FLAGS with (2 ^ 4 - 1) in *. change (Z.lxor (2 ^ 4 - 1) (2 ^ 32 - 1)) with (Z.shiftl (2 ^ 28 - 1) 4).
    rewrite land_shifted_ones by done. rewrite (Z.div_small flags) by lia. done. }
  change (negb (0 =? 0)) with false. cbn match.
  assert ((match dst with None => negb (zlen d =? 0) | Some _ => false end) = false) as -> by (by destruct dst).
  destruct src as [|bom rest]; [exists []; split; [constructor|]; cbn; destruct dst; done|].
  cbn [source_units]. set (E := detect_endianness flags bom). set (src := if _ && _ then rest else _).
  assert (Forall (unit_ok E) src /\ zlen src <= zlen (bom :: rest)) as [Hok Hz].
  { assert (Forall (unit_ok E) (bom :: rest)) as H by (eapply Forall_impl; [exact Hu|]; intros v Hv; by apply CodeUnit_Read_ok).
    unfold src. rewrite zlen_cons. destruct (_ && _); split; try lia; [by apply Forall_cons in H as [_ H]|done|rewrite zlen_cons; lia]. }
  destruct (utf16_loop_spec E (preserving flags) src d (zlen d) 0 Hok ltac:(done) ltac:(lia) eq_refl) as (cps & Hr & _ & _ & Hl).
  exists cps. split; [exact Hr|]. unfold Utf16ToUtf8. fold (preserving flags). rewrite Hl. rewrite Z.sub_0_r, Z.add_0_l. unfold zsplice.
  rewrite ztake_le_0 by done. done.
Qed.

Lemma bad_flags flags :
  0 <= flags < 2 ^ 32 -> negb (Z.land flags (Z.lxor ALL_FLAGS (2 ^ 32 - 1)) =? 0) = (ALL_FLAGS <? flags).
Proof.
  intros Hf. change ALL_FLAGS with (2 ^ 4 - 1). change (Z.lxor (2 ^ 4 - 1) (2 ^ 32 - 1)) with (Z.shiftl (2 ^ 28 - 1) 4).
  rewrite land_shifted_ones by done. rewrite (Z.mod_small (flags / 2 ^ 4)) by lia.
  destruct (Z.ltb_spec (2 ^ 4 - 1) flags) as [H|H].
  - pose proof (Z.div_le_lower_bound flags (2 ^ 4) 1 ltac:(lia) ltac:(lia)). by rewrite (proj2 (Z.eqb_neq _ _)) by lia.
  - by rewrite (Z.div_small flags) by lia.
Qed.

(** C31. The conversion on every combination of arguments: any source, well-formed or not, or a
    null one, any 32-bit flags, and a buffer of the length given, or none. It refuses with
    [ZX_ERR_INVALID_ARGS], touching nothing, exactly when there is no place for the length, an
    unknown flag is set, or there is no buffer but a length for one. Otherwise it succeeds: the
    length it reports is that of the whole UTF-8 form, whatever the size of the buffer; and the
    buffer gets the encodings of the longest prefix of the code points that fits, whole, and
    keeps its bytes after that. *)
Theorem utf16_to_utf8_writes src dst dst_len flags :
  Forall (fun u => 0 <= u < 0x10000) (default [] src) -> 3 * zlen (default [] src) < 2 ^ 64 -> 0 <= flags < 2 ^ 32 ->
  (forall d n, dst = Some d -> dst_len = Some n -> n = zlen d) ->
  if decide (dst_len = None \/ ALL_FLAGS < flags \/ dst = None /\ dst_len <> Some 0)
  then utf16_to_utf8 src dst dst_len flags = (ZX_ERR_INVALID_ARGS, dst, dst_len)
  else exists cps k, reads (preserving flags) (source_units flags (default [] src)) cps /\
    let out := flat_map utf8_encode (take k cps) in
    utf16_to_utf8 src dst dst_len flags =
      (ZX_OK, (fun d => out ++ zdrop (zlen out) d) <$> dst, Some (zlen (flat_map utf8_encode cps))) /\
    forall d, dst = Some d -> zlen out <= zlen d /\
      ((length cps <= k)%nat \/ zlen d < zlen (flat_map utf8_encode (take (S k) cps))).
Proof.
  intros Hu Hb Hf Hd. destruct dst_len as [len|]; [|rewrite decide_True by tauto; done].
  destruct (decide _) as [[|Hbad]|Hgood]; [done| |].
  { unfold utf16_to_utf8. rewrite bad_flags by done. destruct (Z.ltb_spec ALL_FLAGS flags); [done|].
    destruct Hbad as [|[-> Hne]]; [lia|]. destruct (Z.eqb_spec len 0) as [->|]; done. }
  assert (flags <= ALL_FLAGS) as Hle by (apply Znot_gt_le; intros ?; apply Hgood; lia).
  assert (utf16_to_utf8 src dst (Some len) flags =
    utf16_to_utf8 (Some (default [] src)) dst (Some (zlen (default [] dst))) flags) as ->.
  { replace (zlen (default [] dst)) with len; [by destruct src as [[]|]|].
    destruct dst as [d|]; [by apply Hd|]. destruct (decide (len = 0)); [done|]. destruct Hgood. right. right. split; congruence. }
  destruct (utf16_to_utf8_spec (default [] src) dst flags Hu Hb) as (cps & Hr & Hs); [lia|].
  destruct (fits_prefix (zlen (default [] dst)) cps (zlen_nonneg _)) as (k & Hk & Hmax).
  pose proof (fits_le (zlen (default [] dst)) cps (zlen_nonneg _)) as Hfit.
  exists cps, k. split; [done|]. cbn zeta. rewrite <-Hk, Hs. split; [by destruct dst|]. by intros d ->.
Qed.

Lemma fits_all room cps : zlen (flat_map utf8_encode cps) <= room -> fits room cps = flat_map utf8_encode cps.
Proof.
  revert room. induction cps as [|c cps IH]; intros room Hr; [done|]. cbn [fits flat_map] in *. rewrite zlen_app in Hr.
  pose proof (zlen_nonneg (flat_map utf8_encode cps)). rewrite (proj2 (Z.leb_le _ _)) by lia. by rewrite IH by lia.
Qed.

(** A buffer of the right size gets the whole text. *)
Lemma utf16_to_utf8_whole src dst flags :
  Forall (fun u => 0 <= u < 0x10000) src -> 3 * zlen src < 2 ^ 64 -> 0 <= flags <= ALL_FLAGS ->
  exists cps, reads (preserving flags) (source_units flags src) cps /\
    (forall n out, utf16_to_utf8 (Some src) (Some dst) (Some (zlen dst)) flags = (ZX_OK, Some out, Some n) -> zlen dst = n ->
       out = flat_map utf8_encode cps) /\
    (zlen dst = zlen (flat_map utf8_encode cps) ->
     utf16_to_utf8 (Some src) (Some dst) (Some (zlen dst)) flags = (ZX_OK, Some (flat_map utf8_encode cps), Some (zlen dst))).
Proof.
  intros Hu Hb Hf. destruct (utf16_to_utf8_spec src (Some dst) flags Hu Hb Hf) as (cps & Hr & Hs). cbn [default from_option id] in Hs.
  exists cps. split; [done|].
  assert (zlen dst = zlen (flat_map utf8_encode cps) -> fits (zlen dst) cps ++ zdrop (zlen (fits (zlen dst) cps)) dst = flat_map utf8_encode cps) as H.
  { intros Hd. rewrite fits_all by lia. rewrite zdrop_ge by lia. apply app_nil_r. }
  split; [intros n out E Hn; rewrite Hs in E; injection E as E1 E2; rewrite <-E1; apply H; lia|].
  intros Hd. rewrite Hs, <-Hd. cbn. by rewrite H.
Qed.

Lemma source_units_ok flags src : Forall (fun u => 0 <= u < 0x10000) src -> Forall (fun u => 0 <= u < 0x10000) (source_units flags src).
Proof.
  intros Hu. destruct src as [|bom rest]; [done|]. cbn [source_units]. apply Forall_map.
  assert (forall l E, Forall (fun u => 0 <= u < 0x10000) l -> Forall ((fun u => 0 <= u < 0x10000) ∘ CodeUnit_Read E) l) as H.
  { intros l E Hl. eapply Forall_impl; [exact Hl|]. intros v Hv. by apply CodeUnit_Read_ok. }
  destruct (_ && _); apply H; [by apply Forall_cons in Hu as [_ Hu]|done].
Qed.

Lemma source_units_forced E units :
  Forall (fun u => 0 <= u < 0x10000) units ->
  source_units (match E with HOST => UTF_CONVERT_FLAG_FORCE_LITTLE_ENDIAN | INVERT => UTF_CONVERT_FLAG_FORCE_BIG_ENDIAN end) (map (CodeUnit_Read E) units) = units.
Proof.
  intros Hu. assert (map (CodeUnit_Read E) (map (CodeUnit_Read E) units) = units) as H.
  { induction Hu as [|u l Hu' _ IH]; [done|]. cbn [map]. by rewrite CodeUnit_Read_twice, IH. }
  destruct units as [|u l]; [done|]. cbn [map source_units] in *. destruct E; cbn [detect_endianness]; rewrite andb_false_r; exact H.
Qed.

(** C30. Converting the UTF-16 form of any Unicode text, in either byte order, gives its UTF-8 form:
    a strict decoder reads the same code points back. And whatever the source is, unless
    unpaired surrogates are to be preserved, a strict decoder accepts what the conversion writes
    to a buffer of the length it reports. *)
Theorem utf16_utf8_roundtrip cps E dst :
  Forall scalar cps -> 3 * zlen (flat_map utf16_encode cps) < 2 ^ 64 -> zlen dst = zlen (flat_map utf8_encode cps) ->
  let flag := match E with HOST => UTF_CONVERT_FLAG_FORCE_LITTLE_ENDIAN | INVERT => UTF_CONVERT_FLAG_FORCE_BIG_ENDIAN end in
  let src := map (CodeUnit_Read E) (flat_map utf16_encode cps) in
  exists out, utf16_to_utf8 (Some src) (Some dst) (Some (zlen dst)) flag = (ZX_OK, Some out, Some (zlen dst)) /\
    utf8_decode out = Some cps /\
    (forall src' dst' flags out' n, Forall (fun u => 0 <= u < 0x10000) src' -> 3 * zlen src' < 2 ^ 64 -> 0 <= flags <= ALL_FLAGS ->
     preserving flags = false -> utf16_to_utf8 (Some src') (Some dst') (Some (zlen dst')) flags = (ZX_OK, Some out', Some n) ->
     zlen dst' = n -> exists cps', utf8_decode out' = Some cps').
Proof.
  intros Hs Hb Hd flag src. pose proof (encoded_units cps Hs) as Hu.
  assert (Forall (fun u => 0 <= u < 0x10000) src) as Hsrc by (apply Forall_map; eapply Forall_impl; [exact Hu|]; intros v; apply CodeUnit_Read_ok).
  destruct (utf16_to_utf8_whole src dst flag Hsrc) as (cps' & Hr & _ & Hw); [unfold src, zlen; by rewrite length_map|by destruct E|].
  assert (cps' = cps) as ->.
  { eapply reads_det; [exact Hr|]. unfold src, flag. rewrite source_units_forced by done. by apply reads_encode. }
  eexists. split; [by apply Hw|]. split; [by apply utf8_decode_all|].
  intros src' dst' flags out' n Hu' Hb' Hf Hp Hout Hn. destruct (utf16_to_utf8_whole src' dst' flags Hu' Hb' Hf) as (cps' & Hr' & Hw' & _).
  rewrite (Hw' _ _ Hout Hn). exists cps'. apply utf8_decode_all. rewrite Hp in Hr'. eapply reads_scalar; [exact Hr'|]. by apply source_units_ok.
Qed.

Lemma utf16_to_utf8_writes_witness :
  (exists cps k, reads false [0x48; 0xD83D; 0xDE00; 0xD800] cps /\
    utf16_to_utf8 (Some [0xFEFF; 0x48; 0xD83D; 0xDE00; 0xD800]) (Some [1; 2; 3; 4]) (Some 4) UTF_CONVERT_FLAG_DISCARD_BOM =
      (ZX_OK, Some (flat_map utf8_encode (take k cps) ++ zdrop (zlen (flat_map utf8_encode (take k cps))) [1; 2; 3; 4]),
       Some (zlen (flat_map utf8_encode cps)))) /\
  utf16_to_utf8 (Some [0x48]) None (Some 4) 0 = (ZX_ERR_INVALID_ARGS, None, Some 4).
Proof.
  split.
  - destruct (utf16_to_utf8_writes (Some [0xFEFF; 0x48; 0xD83D; 0xDE00; 0xD800]) (Some [1; 2; 3; 4]) (Some 4)
      UTF_CONVERT_FLAG_DISCARD_BOM) as (cps & k & H1 & H2 & _).
    + repeat constructor; lia.
    + reflexivity.
    + split; [discriminate|reflexivity].
    + by intros ? ? [= <-] [= <-].
    + exists cps, k. split; [exact H1|exact H2].
  - apply (utf16_to_utf8_writes (Some [0x48]) None (Some 4) 0).
    + repeat constructor; lia.
    + reflexivity.
    + split; [discriminate|reflexivity].
    + discriminate.
Defined.

Lemma utf16_utf8_roundtrip_witness :
  exists out, utf16_to_utf8 (Some [0x4800; 0x3DD8; 0x00DE]) (Some [0; 0; 0; 0; 0]) (Some 5) UTF_CONVERT_FLAG_FORCE_BIG_ENDIAN = (ZX_OK, Some out, Some 5) /\
    utf8_decode out = Some [0x48; 0x1F600].
Proof.
  destruct (utf16_utf8_roundtrip [0x48; 0x1F600] INVERT [0; 0; 0; 0; 0]) as (out & H1 & H2 & _).
  - repeat constructor; lia.
  - reflexivity.
  - reflexivity.
  - exists out. split; [exact H1|exact H2].
Defined.
