(* ===== verification/RleBitmap.v ===== *)
(** * Run-length encoded bitmaps

    Models [zircon/system/ulib/bitmap/rle-bitmap.cc] and its header: a set of bit positions
    kept as a sorted list of runs. The list is modelled in order; an iterator into it is
    the split of the list at its position. [free_list] is [None] for a null pointer, where
    nodes come from the heap and [ac] says whether that succeeds. The reference is a set of
    positions, given by its membership predicate. *)

From S2P Require Import Prelude Types.

(** ** The code *)

Record RleBitmapElement := mkElem {
  bitoff : Z;
  bitlen : Z;
}.

Definition elem_end (e : RleBitmapElement) : Z := wrap64 (bitoff e + bitlen e).

Record RleBitmap := mkRle {
  elems_ : list RleBitmapElement;
  num_elems_ : Z;
  num_bits_ : Z;
}.

Abbreviation FreeList := (option (list RleBitmapElement)).

Definition AllocateElement (ac : bool) (free_list : FreeList) : FreeList * bool :=
  match free_list with
  | None => (None, ac)
  | Some [] => (Some [], false)
  | Some (_ :: rest) => (Some rest, true)
  end.

Definition ReleaseElement (free_list : FreeList) (e : RleBitmapElement) : FreeList :=
  match free_list with None => None | Some l => Some (l ++ [e]) end.

(** The loop of [Find] over the elements; the status and [*out]. *)
Fixpoint find_loop (is_set : bool) (off bitmax run_len : Z) (l : list RleBitmapElement) : zx_status_t * Z :=
  match l with
  | [] => if negb is_set && (run_len <=? wrap64 (bitmax - off)) then (ZX_OK, off) else (ZX_ERR_NO_RESOURCES, bitmax)
  | e :: l =>
      if elem_end e <=? off then find_loop is_set off bitmax run_len l
      else if wrap64 (bitmax - off) <? run_len then (ZX_ERR_NO_RESOURCES, bitmax)
      else
        let elem_min := Z.max off (bitoff e) in
        let elem_max := Z.min bitmax (elem_end e) in
        if is_set && (elem_min <? elem_max) && (run_len <=? elem_max - elem_min) then (ZX_OK, elem_min)
        else if negb is_set && (off <? bitoff e) && (run_len <=? bitoff e - off) then (ZX_OK, off)
        else if bitmax <? elem_end e then (ZX_ERR_NO_RESOURCES, bitmax)
        else find_loop is_set (elem_end e) bitmax run_len l
  end.

Definition Find (is_set : bool) (off bitmax run_len : Z) (s : RleBitmap) : zx_status_t * Z :=
  find_loop is_set off bitmax run_len (elems_ s).

(** The loop of [Get]: where it leaves [bitoff]. *)
Fixpoint get_loop (off : Z) (l : list RleBitmapElement) : Z :=
  match l with
  | [] => off
  | e :: l => if off <? bitoff e then off else if off <? elem_end e then elem_end e else get_loop off l
  end.

Definition Get (off bitmax : Z) (s : RleBitmap) : bool * Z :=
  let off := get_loop off (elems_ s) in
  let off := if bitmax <? off then bitmax else off in
  (off =? bitmax, off).

Definition ClearAll : RleBitmap := mkRle [] 0 0.

(** [elems_.find_if]: the elements before the first that ends at or after [off], and the rest. *)
Fixpoint ends_after (off : Z) (l : list RleBitmapElement) : list RleBitmapElement * list RleBitmapElement :=
  match l with
  | [] => ([], [])
  | e :: l => if off <=? elem_end e then ([], e :: l) else let '(before, after) := ends_after off l in (e :: before, after)
  end.

(** The loop that merges the elements from [itr] on into [e]. *)
Fixpoint merge_loop (max : Z) (e : RleBitmapElement) (itr : list RleBitmapElement) (num_elems num_bits : Z) (free_list : FreeList)
    : RleBitmapElement * list RleBitmapElement * Z * Z * FreeList :=
  match itr with
  | [] => (e, [], num_elems, num_bits, free_list)
  | i :: rest =>
      if max <? bitoff i then (e, itr, num_elems, num_bits, free_list) else
      let max := Z.max max (elem_end i) in
      let num_bits := wrap64 (num_bits + (max - bitoff e - bitlen i - bitlen e)) in
      let e := mkElem (bitoff e) (wrap64 (max - bitoff e)) in
      merge_loop max e rest (wrap64 (num_elems - 1)) num_bits (ReleaseElement free_list i)
  end.

Definition SetInternal (ac : bool) (off bitmax : Z) (free_list : FreeList) (s : RleBitmap) : RleBitmap * FreeList * zx_status_t :=
  if bitmax <? off then (s, free_list, ZX_ERR_INVALID_ARGS) else
  let len := bitmax - off in
  if len =? 0 then (s, free_list, ZX_OK) else
  let '(free_list, ok) := AllocateElement ac free_list in
  if negb ok then (s, free_list, ZX_ERR_NO_MEMORY) else
  let num_elems := wrap64 (num_elems_ s + 1) in
  let e := mkElem off len in
  let '(before, itr) := ends_after off (elems_ s) in
  let num_bits := wrap64 (num_bits_ s + len) in
  match itr with
  | [] => (mkRle (before ++ [e]) num_elems num_bits, free_list, ZX_OK)
  | i :: _ =>
      let '(e, num_bits) :=
        if bitoff i <=? bitoff e
        then (mkElem (bitoff i) (wrap64 (bitlen e + (bitoff e - bitoff i))), wrap64 (num_bits + (bitoff e - bitoff i)))
        else (e, num_bits) in
      let '(e, rest, num_elems, num_bits, free_list) := merge_loop (elem_end e) e itr num_elems num_bits free_list in
      (mkRle (before ++ e :: rest) num_elems num_bits, free_list, ZX_OK)
  end.

(** The loop of [ClearInternal]: the list from [itr] on, and the counters. *)
Fixpoint clear_loop (ac : bool) (off bitmax : Z) (itr : list RleBitmapElement) (num_elems num_bits : Z) (free_list : FreeList)
    : list RleBitmapElement * Z * Z * FreeList * zx_status_t :=
  match itr with
  | [] => ([], num_elems, num_bits, free_list, ZX_OK)
  | i :: rest =>
      if elem_end i <? off then
        let '(l, num_elems, num_bits, free_list, st) := clear_loop ac off bitmax rest num_elems num_bits free_list in
        (i :: l, num_elems, num_bits, free_list, st)
      else if bitmax <? bitoff i then (itr, num_elems, num_bits, free_list, ZX_OK)
      else if bitoff i <? off then
        if elem_end i <=? bitmax then
          let num_bits := wrap64 (num_bits - (bitlen i - (off - bitoff i))) in
          let '(l, num_elems, num_bits, free_list, st) := clear_loop ac off bitmax rest num_elems num_bits free_list in
          (mkElem (bitoff i) (off - bitoff i) :: l, num_elems, num_bits, free_list, st)
        else
          let '(free_list, ok) := AllocateElement ac free_list in
          if negb ok then (itr, num_elems, num_bits, free_list, ZX_ERR_NO_MEMORY)
          else (mkElem (bitoff i) (off - bitoff i) :: mkElem bitmax (wrap64 (bitoff i + bitlen i - bitmax)) :: rest,
                wrap64 (num_elems + 1), wrap64 (num_bits - (bitmax - off)), free_list, ZX_OK)
      else if bitmax <? elem_end i then
        (mkElem bitmax (wrap64 (bitoff i + bitlen i - bitmax)) :: rest, num_elems, wrap64 (num_bits - (bitmax - bitoff i)), free_list, ZX_OK)
      else clear_loop ac off bitmax rest (wrap64 (num_elems - 1)) (wrap64 (num_bits - bitlen i)) (ReleaseElement free_list i)
  end.

Definition ClearInternal (ac : bool) (off bitmax : Z) (free_list : FreeList) (s : RleBitmap) : RleBitmap * FreeList * zx_status_t :=
  if bitmax <? off then (s, free_list, ZX_ERR_INVALID_ARGS) else
  if bitmax - off =? 0 then (s, free_list, ZX_OK) else
  let '(l, num_elems, num_bits, free_list, st) := clear_loop ac off bitmax (elems_ s) (num_elems_ s) (num_bits_ s) free_list in
  (mkRle l num_elems num_bits, free_list, st).

Definition Set_ (ac : bool) (off bitmax : Z) (s : RleBitmap) : RleBitmap * zx_status_t :=
  let '(s, _, st) := SetInternal ac off bitmax None s in (s, st).
Definition SetNoAlloc (off bitmax : Z) (free_list : FreeList) (s : RleBitmap) : RleBitmap * FreeList * zx_status_t :=
  match free_list with None => (s, None, ZX_ERR_INVALID_ARGS) | Some _ => SetInternal false off bitmax free_list s end.
Definition Clear (ac : bool) (off bitmax : Z) (s : RleBitmap) : RleBitmap * zx_status_t :=
  let '(s, _, st) := ClearInternal ac off bitmax None s in (s, st).
Definition ClearNoAlloc (off bitmax : Z) (free_list : FreeList) (s : RleBitmap) : RleBitmap * FreeList * zx_status_t :=
  match free_list with None => (s, None, ZX_ERR_INVALID_ARGS) | Some _ => ClearInternal false off bitmax free_list s end.

(** ** The invariant and the set of bits *)

(** The runs from [lo] on: not empty, in order, apart from each other, and below [2^64]. *)
Fixpoint runs (lo : Z) (l : list RleBitmapElement) : Prop :=
  match l with
  | [] => True
  | e :: l => lo < bitoff e /\ 0 < bitlen e /\ bitoff e + bitlen e < 2 ^ 64 /\ runs (bitoff e + bitlen e) l
  end.

Definition in_run (b : Z) (e : RleBitmapElement) : Prop := bitoff e <= b < bitoff e + bitlen e.
Definition bit (b : Z) (l : list RleBitmapElement) : Prop := Exists (in_run b) l.
Fixpoint total (l : list RleBitmapElement) : Z := match l with [] => 0 | e :: l => bitlen e + total l end.

Record rle_inv (s : RleBitmap) : Prop := {
  ri_runs : runs (-1) (elems_ s);
  ri_elems : num_elems_ s = zlen (elems_ s);
  ri_bits : num_bits_ s = total (elems_ s);
}.

Lemma runs_weaken lo lo' l : runs lo l -> lo' <= lo -> runs lo' l.
Proof. destruct l as [|e l]; [done|]. cbn. intros (? & ? & ? & ?) ?. split_and!; try done. lia. Qed.

Lemma runs_above lo l b : -1 <= lo -> runs lo l -> bit b l -> lo < b.
Proof.
  revert lo. induction l as [|e l IH]; intros lo Hlo Hr Hb; [by apply Exists_nil in Hb|]. destruct Hr as (H1 & H2 & H3 & H4).
  apply Exists_cons in Hb as [Hb|Hb]; [unfold in_run in Hb; lia|]. apply IH in H4; [lia|lia|done].
Qed.

Lemma bit_nil b : bit b [] <-> False.
Proof. apply Exists_nil. Qed.
Lemma bit_cons b e l : bit b (e :: l) <-> in_run b e \/ bit b l.
Proof. apply Exists_cons. Qed.
Lemma bit_app b l k : bit b (l ++ k) <-> bit b l \/ bit b k.
Proof. apply Exists_app. Qed.

Lemma elem_end_runs lo e l : -1 <= lo -> runs lo (e :: l) -> elem_end e = bitoff e + bitlen e.
Proof. intros Hlo (? & ? & ? & _). apply wrap_small. lia. Qed.

Lemma total_app l k : total (l ++ k) = total l + total k.
Proof. induction l as [|e l IH]; cbn [app total]; lia. Qed.

(** The bits of the runs fit below the bound, so the counters never wrap. *)
Lemma runs_total lo l : -1 <= lo < 2 ^ 64 -> runs lo l -> 0 <= total l /\ 2 * zlen l <= 2 ^ 64 - 1 - lo /\ total l <= 2 ^ 64 - 1 - lo.
Proof.
  revert lo. induction l as [|e l IH]; intros lo Hlo Hr; [change (zlen (@nil RleBitmapElement)) with 0; cbn [total]; lia|]. destruct Hr as (H1 & H2 & H3 & H4).
  rewrite zlen_cons. cbn [total]. destruct (IH (bitoff e + bitlen e)) as (? & ? & ?); [lia|done|]. lia.
Qed.

Lemma ends_after_spec off l lo before after :
  -1 <= lo -> runs lo l -> ends_after off l = (before, after) ->
  l = before ++ after /\ Forall (fun e => bitoff e + bitlen e < off) before /\
  match after with [] => True | i :: _ => off <= bitoff i + bitlen i end.
Proof.
  revert lo before after. induction l as [|e l IH]; intros lo before after Hlo Hr; cbn [ends_after]; [by intros [= <- <-]|].
  rewrite (elem_end_runs lo e l Hlo Hr). destruct Hr as (H1 & H2 & H3 & H4). destruct (Z.leb_spec off (bitoff e + bitlen e)).
  - intros [= <- <-]. by split_and!.
  - destruct (ends_after off l) as [b a] eqn:E. intros [= <- <-]. destruct (IH (bitoff e + bitlen e) b a) as (-> & ? & ?); [lia|done|done|].
    split_and!; [done|by apply Forall_cons|done].
Qed.

(** Splitting and joining sequences of runs. *)
Definition last_end (lo : Z) (l : list RleBitmapElement) : Z := foldl (fun _ e => bitoff e + bitlen e) lo l.

Lemma runs_app lo l k : runs lo (l ++ k) <-> runs lo l /\ runs (last_end lo l) k.
Proof.
  revert lo. induction l as [|e l IH]; intros lo; cbn [app runs last_end foldl]; [tauto|].
  fold (last_end (bitoff e + bitlen e) l). rewrite IH. tauto.
Qed.

Lemma last_end_lt lo l off : Forall (fun e => bitoff e + bitlen e < off) l -> lo < off -> last_end lo l < off.
Proof. intros H. revert lo. induction H as [|e l He _ IH]; intros lo Hlo; [done|]. cbn. by apply IH. Qed.

Lemma last_end_ge lo l : runs lo l -> lo <= last_end lo l.
Proof.
  revert lo. induction l as [|e l IH]; intros lo Hr; [done|]. destruct Hr as (H1 & H2 & H3 & H4). apply IH in H4. cbn. unfold last_end in H4. lia.
Qed.

(** ** Setting *)

(** The nodes the caller and a bitmap of [n] runs have together. *)
Definition nodes (f : FreeList) (n : Z) : option Z := match f with None => None | Some l => Some (zlen l + n) end.

Lemma nodes_release f i n : nodes (ReleaseElement f i) n = nodes f (n + 1).
Proof. destruct f as [l|]; [|done]. cbn [ReleaseElement nodes]. rewrite zlen_app, zlen_cons, zlen_nil. f_equal. lia. Qed.

Lemma merge_loop_spec max e itr lo ne nb f e' rest ne' nb' f' :
  merge_loop max e itr ne nb f = (e', rest, ne', nb', f') ->
  0 <= bitoff e <= lo + 1 -> 0 < bitlen e -> max = bitoff e + bitlen e -> max < 2 ^ 64 -> runs lo itr ->
  zlen itr <= ne < 2 ^ 64 ->
  bitoff e' = bitoff e /\ 0 < bitlen e' /\ bitoff e + bitlen e' < 2 ^ 64 /\ runs (bitoff e + bitlen e') rest /\
  (forall b, bit b (e' :: rest) <-> bit b (e :: itr)) /\
  ne' = ne - (zlen itr - zlen rest) /\ wrap64 (nb' - total (e' :: rest)) = wrap64 (nb - total (e :: itr)) /\ nodes f' ne' = nodes f ne.
Proof.
  revert max e lo ne nb f. induction itr as [|i itr IH]; intros max e lo ne nb f; cbn [merge_loop].
  - intros [= <- <- <- <- <-] ? ? -> ? _ ?. split_and!; try done. lia.
  - intros Hm He Hlen -> Hmax Hr Hne. pose proof (elem_end_runs lo i itr ltac:(lia) Hr) as Hend. rewrite Hend in Hm. destruct Hr as (H1 & H2 & H3 & H4).
    destruct (Z.ltb_spec (bitoff e + bitlen e) (bitoff i)) as [Hlt|Hle].
    + injection Hm as <- <- <- <- <-. split_and!; try done; lia.
    + rewrite zlen_cons in *. set (m := Z.max (bitoff e + bitlen e) (bitoff i + bitlen i)) in *. pose proof (zlen_nonneg itr).
      rewrite (wrap_small 64 (m - bitoff e)), (wrap_small 64 (ne - 1)) in Hm by lia.
      apply (IH m _ (bitoff i + bitlen i)) in Hm as (E1 & E2 & E3 & E4 & E5 & E6 & E7 & E8); cbn [bitoff bitlen] in *; try lia; [|done].
      split_and!; try done; [|lia| |].
      * intros b. assert (in_run b (mkElem (bitoff e) (m - bitoff e)) <-> in_run b e \/ in_run b i) as Hb by (unfold in_run; cbn [bitoff bitlen]; lia).
        rewrite E5, !bit_cons, Hb. tauto.
      * rewrite E7. unfold wrap. cbn [total bitlen]. rewrite Zminus_mod_idemp_l. f_equal. lia.
      * rewrite E8, nodes_release. f_equal. lia.
Qed.

Definition can_alloc (ac : bool) (f : FreeList) : bool := match f with None => ac | Some [] => false | Some (_ :: _) => true end.

Lemma AllocateElement_spec ac f f' ok :
  AllocateElement ac f = (f', ok) -> ok = can_alloc ac f /\ (ok = true -> forall n, nodes f' (n + 1) = nodes f n) /\ (ok = false -> f' = f).
Proof.
  destruct f as [[|x l]|]; cbn [AllocateElement nodes can_alloc]; intros [= <- <-]; split_and!; try done. intros _ n. cbn [nodes]. rewrite zlen_cons. f_equal. lia.
Qed.

(** Two counts that agree modulo [2^64], both in range. *)
Lemma wrap_eq_range a b : wrap64 a = wrap64 b -> 0 <= a < 2 ^ 64 -> 0 <= b < 2 ^ 64 -> a = b.
Proof. intros H ? ?. by rewrite !wrap_small in H. Qed.

Definition update_status (ac : bool) (off bitmax : Z) (need : bool) (f : FreeList) : zx_status_t :=
  if bitmax <? off then ZX_ERR_INVALID_ARGS else if need && negb (can_alloc ac f) then ZX_ERR_NO_MEMORY else ZX_OK.

Lemma wrap_diff nb nb' t t' : wrap64 (nb' - t') = wrap64 (nb - t) -> wrap64 nb = wrap64 t -> wrap64 nb' = wrap64 t'.
Proof.
  unfold wrap. intros H1 H2. replace nb' with ((nb' - t') + t') by lia. rewrite <-Zplus_mod_idemp_l, H1, Zplus_mod_idemp_l.
  replace (nb - t + t') with (nb + (t' - t)) by lia. rewrite <-Zplus_mod_idemp_l, H2, Zplus_mod_idemp_l. f_equal. lia.
Qed.

(** The merge of a new run into the runs after it. *)
Lemma merge_new off len before itr lo ne nb f e' rest ne' nb' f' (e := mkElem off len) :
  runs lo before -> -1 <= lo -> last_end lo before < off -> runs (last_end lo before) itr -> 0 < len -> off + len < 2 ^ 64 ->
  match itr with [] => True | i :: _ => off <= bitoff i + bitlen i end -> zlen itr <= ne < 2 ^ 64 ->
  match itr with
  | [] => (e, [], ne, nb, f)
  | i :: _ =>
      let '(e, nb) := if bitoff i <=? off then (mkElem (bitoff i) (wrap64 (len + (off - bitoff i))), wrap64 (nb + (off - bitoff i))) else (e, nb) in
      merge_loop (elem_end e) e itr ne nb f
  end = (e', rest, ne', nb', f') ->
  runs lo (before ++ e' :: rest) /\ (forall b, bit b (before ++ e' :: rest) <-> bit b (before ++ itr) \/ off <= b < off + len) /\
  ne' = ne - (zlen itr - zlen rest) /\ wrap64 (nb' - total (e' :: rest)) = wrap64 (nb - (len + total itr)) /\ nodes f' ne' = nodes f ne.
Proof.
  intros Hb Hlo Hlast Hr Hlen Hmax Hfirst Hne. pose proof (last_end_ge lo before Hb) as Hge. destruct itr as [|i itr].
  - intros [= <- <- <- <- <-]. split.
    { rewrite runs_app. split; [done|]. cbn [runs bitoff bitlen e]. split_and!; try done; lia. }
    split_and!; try done; [|lia]. intros b. rewrite !bit_app, bit_cons, bit_nil. unfold in_run. cbn [bitoff bitlen e]. tauto.
  - pose proof Hr as (H1 & H2 & H3 & H4). destruct (Z.leb_spec (bitoff i) off) as [Hle|Hgt].
    + rewrite (wrap_small 64 (len + _)) by lia. intros Hm. unfold elem_end in Hm at 1. cbn [bitoff bitlen] in Hm. rewrite wrap_small in Hm by lia.
      apply (merge_loop_spec _ _ _ (bitoff i - 1)) in Hm as (E1 & E2 & E3 & E4 & E5 & E6 & E7 & E8); cbn [bitoff bitlen] in *; try lia; [|split_and!; try done; lia].
      split_and!; try done.
      * rewrite runs_app. split; [done|]. cbn [runs]. rewrite E1. split_and!; try done; lia.
      * intros b. rewrite !bit_app, E5, !bit_cons. unfold in_run. cbn [bitoff bitlen]. 
        assert (bitoff i <= b < bitoff i + (len + (off - bitoff i)) \/ bitoff i <= b < bitoff i + bitlen i <-> bitoff i <= b < bitoff i + bitlen i \/ off <= b < off + len) by lia. tauto.
      * rewrite E7. unfold wrap. cbn [total bitlen]. rewrite Zminus_mod_idemp_l. f_equal. lia.
    + intros Hm. unfold elem_end in Hm at 1. cbn [bitoff bitlen e] in Hm. rewrite wrap_small in Hm by lia.
      apply (merge_loop_spec _ _ _ (off - 1)) in Hm as (E1 & E2 & E3 & E4 & E5 & E6 & E7 & E8); cbn [bitoff bitlen e] in *; try lia; [|split_and!; try done; lia].
      split_and!; try done.
      * rewrite runs_app. split; [done|]. cbn [runs]. rewrite E1. split_and!; try done; lia.
      * intros b. rewrite !bit_app, E5, !bit_cons. unfold in_run. cbn [bitoff bitlen]. tauto.
Qed.

Lemma merge_loop_range max e itr ne nb f e' rest ne' nb' f' :
  merge_loop max e itr ne nb f = (e', rest, ne', nb', f') -> 0 <= nb < 2 ^ 64 -> 0 <= nb' < 2 ^ 64.
Proof.
  revert max e ne nb f. induction itr as [|i itr IH]; intros max e ne nb f; cbn [merge_loop]; [by intros [= _ _ _ <- _]|].
  case_if; [by intros [= _ _ _ <- _]|]. intros Hm _. eapply IH; [exact Hm|]. by apply wrap_range.
Qed.

(** The counters of a sequence of runs, from counters that agree modulo [2^64]. *)
Lemma rle_inv_intro l ne nb : runs (-1) l -> ne = zlen l -> wrap64 nb = wrap64 (total l) -> 0 <= nb < 2 ^ 64 -> total l < 2 ^ 64 -> rle_inv (mkRle l ne nb).
Proof.
  intros Hr -> Hnb Hb Ht. destruct (runs_total (-1) l) as (H1 & _ & _); [lia|done|]. constructor; [done|done|]. cbn. apply wrap_eq_range; [done|done|lia].
Qed.

(** A set of runs below [2^64 - 1] never has all [2^64] bits. *)
Lemma total_lt l : runs (-1) l -> total l < 2 ^ 64.
Proof.
  intros Hr. destruct l as [|e l]; [done|]. destruct Hr as (H1 & H2 & H3 & H4). destruct (runs_total (bitoff e + bitlen e) l) as (_ & _ & H); [lia|done|].
  cbn [total]. lia.
Qed.

Lemma rle_inv_mod s : rle_inv s -> wrap64 (num_bits_ s) = wrap64 (total (elems_ s)) /\ 0 <= num_elems_ s < 2 ^ 64 - 1 /\ num_elems_ s = zlen (elems_ s).
Proof. intros [Hr He Hb]. destruct (runs_total (-1) (elems_ s)) as (? & ? & ?); [lia|done|]. pose proof (zlen_nonneg (elems_ s)). rewrite Hb, He. lia. Qed.

(** What an update does: the invariant, the nodes, the status, and the bits. *)
Record update_ok (ac need : bool) (off bitmax : Z) (f : FreeList) (s s' : RleBitmap) (f' : FreeList) (st : zx_status_t) (P : Z -> Prop) : Prop := {
  uo_inv : rle_inv s';
  uo_nodes : nodes f' (num_elems_ s') = nodes f (num_elems_ s);
  uo_status : st = update_status ac off bitmax need f;
  uo_error : st <> ZX_OK -> s' = s /\ f' = f;
  uo_bits : st = ZX_OK -> forall b, bit b (elems_ s') <-> P b;
}.

Lemma wrap_of_wrap x : wrap64 (wrap64 x) = wrap64 x.
Proof. unfold wrap. by rewrite Zmod_mod. Qed.

Lemma SetInternal_spec ac off bitmax f s s' f' st :
  rle_inv s -> 0 <= off -> bitmax < 2 ^ 64 -> SetInternal ac off bitmax f s = (s', f', st) ->
  update_ok ac (negb (off =? bitmax)) off bitmax f s s' f' st (fun b => bit b (elems_ s) \/ off <= b < bitmax).
Proof.
  intros Hi Hoff Hmax. unfold SetInternal. destruct (Z.ltb_spec bitmax off).
  { intros [= <- <- <-]. constructor; try done. unfold update_status. by rewrite (proj2 (Z.ltb_lt _ _)). }
  assert ((bitmax - off =? 0) = (off =? bitmax)) as -> by lia. destruct (Z.eqb_spec off bitmax).
  { intros [= <- <- <-]. constructor; try done; [unfold update_status; by rewrite (proj2 (Z.ltb_ge _ _))|]. intros _ b. split; [by left|]. intros [?|?]; [done|lia]. }
  destruct (AllocateElement ac f) as [f1 ok] eqn:Ea. apply AllocateElement_spec in Ea as (Hok & Hn & Hf).
  destruct ok; cbn [negb]; [|intros [= <- <- <-]; rewrite Hf by done; constructor; try done; unfold update_status; by rewrite (proj2 (Z.ltb_ge _ _)), <-Hok].
  destruct (ends_after off (elems_ s)) as [before itr] eqn:Ee. pose proof (ri_runs s Hi) as Hr.
  destruct (ends_after_spec off (elems_ s) (-1) before itr ltac:(done) Hr Ee) as (Hl & Hbefore & Hfirst).
  rewrite Hl, runs_app in Hr. destruct Hr as [Hr1 Hr2]. destruct (rle_inv_mod s Hi) as (Hmod & Hne & Hlen).
  rewrite (wrap_small 64 (num_elems_ s + 1)) by lia. rewrite Hl, zlen_app in Hlen. pose proof (zlen_nonneg before). cbn [bitoff bitlen].
  set (body := match itr with [] => _ | _ => _ end). intros E.
  destruct (match itr with
    | [] => (mkElem off (bitmax - off), [], num_elems_ s + 1, wrap64 (num_bits_ s + (bitmax - off)), f1)
    | i :: _ =>
      let '(e, nb) := if bitoff i <=? off then (mkElem (bitoff i) (wrap64 (bitmax - off + (off - bitoff i))), wrap64 (wrap64 (num_bits_ s + (bitmax - off)) + (off - bitoff i)))
                      else (mkElem off (bitmax - off), wrap64 (num_bits_ s + (bitmax - off))) in
      merge_loop (elem_end e) e itr (num_elems_ s + 1) nb f1
    end) as [[[[e' rest] ne'] nb'] f2] eqn:Em.
  assert ((s', f', st) = (mkRle (before ++ e' :: rest) ne' nb', f2, ZX_OK)) as [= -> -> ->].
  { rewrite <-E. unfold body. destruct itr as [|i itr]; [by injection Em as <- <- <- <- <-|]. destruct (bitoff i <=? off); by rewrite Em. }
  assert (0 <= nb' < 2 ^ 64) as Hnb'.
  { clear -Em. destruct itr as [|i itr]; [injection Em as _ _ _ <- _; by apply wrap_range|].
    destruct (bitoff i <=? off); (eapply merge_loop_range; [exact Em|]; by apply wrap_range). }
  apply (merge_new off (bitmax - off) before itr (-1)) in Em as (E1 & E2 & E3 & E4 & E5); try done; try lia;
    [|apply last_end_lt; [done|lia]].
  constructor.
  - apply rle_inv_intro; try done; [rewrite zlen_app, zlen_cons; lia| |by apply total_lt].
    eapply (wrap_diff (num_bits_ s) _ (total (elems_ s))); [|done]. rewrite Hl, !total_app.
    unfold wrap in *. replace (nb' - (total before + total (e' :: rest))) with (nb' - total (e' :: rest) - total before) by lia.
    rewrite <-Zminus_mod_idemp_l, E4, Zminus_mod_idemp_l. rewrite <-Z.sub_add_distr, Zminus_mod_idemp_l. f_equal. lia.
  - cbn [num_elems_]. rewrite E5, Hn by done. done.
  - unfold update_status. rewrite (proj2 (Z.ltb_ge _ _)) by done. by rewrite <-Hok.
  - done.
  - intros _ b. cbn [elems_]. rewrite E2, Hl. replace (off + (bitmax - off)) with bitmax by lia. done.
Qed.

(** ** Clearing *)

(** Clearing needs a node when it cuts a run in two. *)
Definition cut (off bitmax : Z) (l : list RleBitmapElement) : bool :=
  existsb (fun e => (bitoff e <? off) && (bitmax <? bitoff e + bitlen e)) l.

Lemma cut_above lo off bitmax l : runs lo l -> off <= lo -> cut off bitmax l = false.
Proof.
  revert lo. induction l as [|e l IH]; intros lo Hr Hlo; [done|]. destruct Hr as (H1 & H2 & H3 & H4). cbn [cut existsb].
  rewrite (proj2 (Z.ltb_ge _ _)) by lia. eapply IH; [exact H4|lia].
Qed.

Record clear_ok (off bitmax lo : Z) (itr l' : list RleBitmapElement) (ne nb ne' nb' : Z) (f f' : FreeList) : Prop := {
  co_runs : runs lo l';
  co_bits : forall b, bit b l' <-> bit b itr /\ ~ (off <= b < bitmax);
  co_ne : ne' - zlen l' = ne - zlen itr;
  co_nb : wrap64 (nb' - total l') = wrap64 (nb - total itr);
  co_range : 0 <= nb' < 2 ^ 64;
  co_nodes : nodes f' ne' = nodes f ne;
}.

(** Clearing behind a run [i] that stays as it is, or as [i'], or goes away. *)
Lemma clear_ok_keep off bitmax lo i i' rest l' ne nb nb0 ne' nb' f f' :
  runs lo (i :: rest) -> clear_ok off bitmax (bitoff i + bitlen i) rest l' ne nb0 ne' nb' f f' ->
  bitoff i' = bitoff i -> 0 < bitlen i' <= bitlen i ->
  (forall b, in_run b i' <-> in_run b i /\ ~ (off <= b < bitmax)) -> wrap64 (nb0 - bitlen i') = wrap64 (nb - bitlen i) ->
  clear_ok off bitmax lo (i :: rest) (i' :: l') ne nb ne' nb' f f'.
Proof.
  intros (H1 & H2 & H3 & H4) [] Eo Hlen Hb Hnb. constructor; try done.
  - cbn [runs]. rewrite Eo. split_and!; try lia. eapply runs_weaken; [done|lia].
  - intros b. rewrite !bit_cons, Hb, co_bits0. tauto.
  - rewrite !zlen_cons. lia.
  - cbn [total]. unfold wrap in *. replace (nb' - (bitlen i' + total l')) with (nb' - total l' - bitlen i') by lia.
    rewrite <-Zminus_mod_idemp_l, co_nb0, Zminus_mod_idemp_l. replace (nb0 - total rest - bitlen i') with (nb0 - bitlen i' - total rest) by lia.
    rewrite <-Zminus_mod_idemp_l, Hnb, Zminus_mod_idemp_l. f_equal. lia.
Qed.

Lemma clear_ok_erase off bitmax lo i rest l' ne nb ne' nb' f f' :
  runs lo (i :: rest) -> clear_ok off bitmax (bitoff i + bitlen i) rest l' (ne - 1) (wrap64 (nb - bitlen i)) ne' nb' (ReleaseElement f i) f' ->
  off <= bitoff i -> bitoff i + bitlen i <= bitmax -> clear_ok off bitmax lo (i :: rest) l' ne nb ne' nb' f f'.
Proof.
  intros (H1 & H2 & H3 & H4) [] Ho Hm. constructor; try done.
  - eapply runs_weaken; [done|lia].
  - intros b. rewrite co_bits0, bit_cons. unfold in_run. split; [tauto|]. intros [[?|?] ?]; [lia|tauto].
  - rewrite zlen_cons. lia.
  - rewrite co_nb0. unfold wrap. cbn [total]. rewrite Zminus_mod_idemp_l. f_equal. lia.
  - rewrite co_nodes0, nodes_release. f_equal. lia.
Qed.

Lemma bits_beyond lo l off bitmax b : -1 <= lo -> runs lo l -> bitmax <= lo + 1 -> bit b l <-> bit b l /\ ~ (off <= b < bitmax).
Proof. intros Hlo Hr Hm. split; [|tauto]. intros Hb. pose proof (runs_above lo l b Hlo Hr Hb). split; [done|lia]. Qed.

Lemma clear_loop_spec ac off bitmax itr lo ne nb f l' ne' nb' f' st :
  clear_loop ac off bitmax itr ne nb f = (l', ne', nb', f', st) -> 0 <= off < bitmax -> -1 <= lo -> runs lo itr ->
  zlen itr <= ne < 2 ^ 64 - 1 -> 0 <= nb < 2 ^ 64 ->
  st = (if cut off bitmax itr && negb (can_alloc ac f) then ZX_ERR_NO_MEMORY else ZX_OK) /\
  (st = ZX_OK -> clear_ok off bitmax lo itr l' ne nb ne' nb' f f') /\
  (st <> ZX_OK -> (l', ne', nb', f') = (itr, ne, nb, f)).
Proof.
  intros Hc Hoff. revert lo ne nb f l' ne' nb' f' st Hc.
  induction itr as [|i itr IH]; intros lo ne nb f l' ne' nb' f' st Hc Hlo Hr Hne Hnb; cbn [clear_loop] in Hc.
  { injection Hc as <- <- <- <- <-. split_and!; try done. intros _. constructor; try done. intros b. rewrite bit_nil. tauto. }
  rewrite (elem_end_runs lo i itr Hlo Hr) in Hc. pose proof Hr as (H1 & H2 & H3 & H4). rewrite zlen_cons in Hne. pose proof (zlen_nonneg itr).
  cbn [cut existsb]. fold (cut off bitmax itr). destruct (Z.ltb_spec (bitoff i + bitlen i) off).
  - rewrite (proj2 (Z.ltb_ge bitmax _)) by lia. rewrite andb_false_r. cbn [orb].
    destruct (clear_loop ac off bitmax itr ne nb f) as [[[[l1 ne1] nb1] f1] st1] eqn:E1. injection Hc as <- <- <- <- <-.
    destruct (IH (bitoff i + bitlen i) ne nb f l1 ne1 nb1 f1 st1 E1) as (G1 & G2 & G3); try done; try lia. split_and!; [done| |].
    + intros Hst. eapply clear_ok_keep; [done|by apply G2|done|lia| |done]. intros b. unfold in_run. lia.
    + intros Hst. by injection (G3 Hst) as -> -> -> ->.
  - destruct (Z.ltb_spec bitmax (bitoff i)).
    { injection Hc as <- <- <- <- <-. rewrite (proj2 (Z.ltb_ge (bitoff i) off)) by lia. cbn [andb orb]. rewrite (cut_above _ off bitmax itr H4) by lia.
      split_and!; try done. intros _. constructor; try done. intros b. apply (bits_beyond (bitoff i - 1)); [lia| |lia]. split_and!; try done. lia. }
    destruct (Z.ltb_spec (bitoff i) off).
    + destruct (Z.leb_spec (bitoff i + bitlen i) bitmax).
      * destruct (clear_loop ac off bitmax itr ne _ f) as [[[[l1 ne1] nb1] f1] st1] eqn:E1. injection Hc as <- <- <- <- <-.
        destruct (IH (bitoff i + bitlen i) _ _ _ _ _ _ _ _ E1) as (G1 & G2 & G3); try done; try lia; [by apply wrap_range|].
        rewrite (proj2 (Z.ltb_ge bitmax _)) by lia. rewrite (cut_above _ off bitmax itr H4) in * by lia. cbn [orb andb] in *. rewrite G1.
        split_and!; try done. intros _. eapply clear_ok_keep; [done|by apply G2|done|cbn [bitlen]; lia| |].
        -- intros b. unfold in_run. cbn [bitoff bitlen]. lia.
        -- cbn [bitlen]. unfold wrap. rewrite Zminus_mod_idemp_l. f_equal. lia.
      * rewrite (proj2 (Z.ltb_lt bitmax _)) by lia. cbn [andb orb]. destruct (AllocateElement ac f) as [f1 ok] eqn:Ea.
        apply AllocateElement_spec in Ea as (Hok & Hn & Hf). rewrite <-Hok. destruct ok; cbn [negb] in *; injection Hc as <- <- <- <- <-;
          [|by rewrite Hf by done]. split_and!; try done. intros _. rewrite (wrap_small 64 (bitoff i + _ - _)), (wrap_small 64 (ne + 1)) by lia.
        constructor; cbn [runs bitoff bitlen total].
        -- split_and!; try lia. replace (bitmax + (bitoff i + bitlen i - bitmax)) with (bitoff i + bitlen i) by lia. done.
        -- intros b. rewrite !bit_cons. unfold in_run. cbn [bitoff bitlen]. rewrite (bits_beyond (bitoff i + bitlen i) itr off bitmax b ltac:(lia) H4) by lia.
           assert (bitoff i <= b < bitoff i + (off - bitoff i) \/ bitmax <= b < bitmax + (bitoff i + bitlen i - bitmax) <->
                   bitoff i <= b < bitoff i + bitlen i /\ ~ (off <= b < bitmax)) by lia. tauto.
        -- rewrite !zlen_cons. lia.
        -- unfold wrap. rewrite Zminus_mod_idemp_l. f_equal. lia.
        -- by apply wrap_range.
        -- by apply Hn.
    + cbn [andb orb]. rewrite (cut_above _ off bitmax itr H4) by lia. destruct (Z.ltb_spec bitmax (bitoff i + bitlen i)).
      * injection Hc as <- <- <- <- <-. split_and!; try done. intros _. rewrite (wrap_small 64 (bitoff i + _ - _)) by lia.
        constructor; cbn [runs bitoff bitlen total]; try done.
        -- replace (bitmax + (bitoff i + bitlen i - bitmax)) with (bitoff i + bitlen i) by lia. split_and!; try done; lia.
        -- intros b. rewrite !bit_cons. unfold in_run. cbn [bitoff bitlen]. rewrite (bits_beyond (bitoff i + bitlen i) itr off bitmax b ltac:(lia) H4) by lia.
           assert (bitmax <= b < bitmax + (bitoff i + bitlen i - bitmax) <-> bitoff i <= b < bitoff i + bitlen i /\ ~ (off <= b < bitmax)) by lia. tauto.
        -- unfold wrap. rewrite Zminus_mod_idemp_l. f_equal. lia.
        -- by apply wrap_range.
      * rewrite (wrap_small 64 (ne - 1)) in Hc by lia.
        destruct (IH (bitoff i + bitlen i) _ _ _ _ _ _ _ _ Hc) as (G1 & G2 & G3); try done; try lia; [by apply wrap_range|].
        rewrite (cut_above _ off bitmax itr H4) in G1 by lia. split_and!; try done. intros Hst. apply clear_ok_erase; try done. by apply G2.
Qed.

Lemma ClearInternal_spec ac off bitmax f s s' f' st :
  rle_inv s -> 0 <= off -> bitmax < 2 ^ 64 -> ClearInternal ac off bitmax f s = (s', f', st) ->
  update_ok ac (negb (off =? bitmax) && cut off bitmax (elems_ s)) off bitmax f s s' f' st (fun b => bit b (elems_ s) /\ ~ (off <= b < bitmax)).
Proof.
  intros Hi Hoff Hmax. unfold ClearInternal. destruct (Z.ltb_spec bitmax off).
  { intros [= <- <- <-]. constructor; try done. unfold update_status. by rewrite (proj2 (Z.ltb_lt _ _)). }
  assert ((bitmax - off =? 0) = (off =? bitmax)) as -> by lia. destruct (Z.eqb_spec off bitmax).
  { intros [= <- <- <-]. constructor; try done; [unfold update_status; by rewrite (proj2 (Z.ltb_ge _ _))|]. intros _ b. split; [|tauto]. intros ?. split; [done|lia]. }
  destruct (clear_loop ac off bitmax (elems_ s) (num_elems_ s) (num_bits_ s) f) as [[[[l ne] nb] f1] st1] eqn:E. intros [= <- <- <-].
  destruct (rle_inv_mod s Hi) as (Hmod & Hne & Hlen). destruct (runs_total (-1) (elems_ s)) as (Ht & _ & _); [lia|apply Hi|].
  pose proof (total_lt _ (ri_runs s Hi)). pose proof (ri_bits s Hi).
  destruct (clear_loop_spec ac off bitmax (elems_ s) (-1) _ _ _ _ _ _ _ _ E) as (G1 & G2 & G3); try done; try lia; [apply Hi|].
  assert (st1 = update_status ac off bitmax (negb false && cut off bitmax (elems_ s)) f) as Hst by (unfold update_status; by rewrite (proj2 (Z.ltb_ge _ _))).
  destruct (decide (st1 = ZX_OK)) as [Hok|Hok].
  - destruct (G2 Hok). constructor; try done. apply rle_inv_intro; try done; [lia|by eapply wrap_diff|by apply total_lt].
  - destruct s as [es en eb]. injection (G3 Hok) as -> -> -> ->. by constructor.
Qed.

(** ** Queries *)

Lemma not_bit_before lo e l b : -1 <= lo -> runs lo (e :: l) -> b < bitoff e -> ~ bit b (e :: l).
Proof.
  intros Hlo Hr Hb H. assert (runs (bitoff e - 1) (e :: l)) as Hr' by (destruct Hr as (? & ? & ? & ?); split_and!; try done; lia).
  apply (runs_above (bitoff e - 1)) in H; [lia| |done]. destruct Hr as (? & _). lia.
Qed.

(** The end of a run is never set. *)
Lemma not_bit_end lo e l : -1 <= lo -> runs lo (e :: l) -> ~ bit (bitoff e + bitlen e) (e :: l).
Proof.
  intros Hlo (H1 & H2 & H3 & H4). rewrite bit_cons. intros [H|H]; [unfold in_run in H; lia|]. apply (runs_above (bitoff e + bitlen e) l _ ltac:(lia) H4) in H. lia.
Qed.

Lemma get_loop_spec lo off l :
  -1 <= lo -> runs lo l -> (forall b, off <= b < get_loop off l -> bit b l) /\ ~ bit (get_loop off l) l /\ off <= get_loop off l.
Proof.
  revert lo. induction l as [|e l IH]; intros lo Hlo Hr; cbn [get_loop].
  { split_and!; [intros; lia|by intros ?%bit_nil|lia]. }
  rewrite (elem_end_runs lo e l Hlo Hr). destruct (Z.ltb_spec off (bitoff e)).
  { split_and!; [intros; lia|by eapply not_bit_before|lia]. }
  destruct (Z.ltb_spec off (bitoff e + bitlen e)).
  { split_and!; [intros b Hb; apply bit_cons; left; unfold in_run; lia|by eapply not_bit_end|lia]. }
  destruct Hr as (H1 & H2 & H3 & H4). destruct (IH (bitoff e + bitlen e)) as (G1 & G2 & G3); [lia|done|].
  split_and!; [intros b Hb; apply bit_cons; right; by apply G1| |done]. rewrite bit_cons. intros [H'|?]; [unfold in_run in H'; lia|done].
Qed.

(** A run of [n] bits that are all set, or all unset, at [q]. *)
Definition run_at (is_set : bool) (l : list RleBitmapElement) (q n : Z) : Prop := forall b, q <= b < q + n -> (bit b l <-> is_set = true).

Lemma run_at_tail is_set e l q n : bitoff e + bitlen e <= q -> run_at is_set (e :: l) q n <-> run_at is_set l q n.
Proof.
  intros Hq. assert (forall b, q <= b -> (bit b (e :: l) <-> bit b l)) as H by (intros b Hb; rewrite bit_cons; unfold in_run; split; [intros [?|?]; [lia|done]|by right]).
  split; intros Hrun b Hb; [rewrite <-H by lia|rewrite H by lia]; by apply Hrun.
Qed.

(** No run starts before the end of [e] when neither the gap before it nor what it has from [off] on is long enough. *)
Lemma no_run_before lo is_set off n e l q top :
  -1 <= lo -> runs lo (e :: l) -> 0 < n -> off <= q < bitoff e + bitlen e -> q + n <= top ->
  (is_set = true -> forall m, m = Z.max off (bitoff e) -> m < Z.min top (bitoff e + bitlen e) -> Z.min top (bitoff e + bitlen e) - m < n) ->
  (is_set = false -> off < bitoff e -> bitoff e - off < n) -> ~ run_at is_set (e :: l) q n.
Proof.
  intros Hlo Hr Hn Hq Htop Hset Hunset Hrun. destruct is_set.
  - assert (bit q (e :: l)) as Hbq by (apply Hrun; [lia|done]). destruct (decide (q < bitoff e)); [by eapply not_bit_before|].
    specialize (Hset eq_refl _ eq_refl ltac:(lia)). assert (bitoff e + bitlen e < q + n) by lia.
    eapply not_bit_end; [exact Hlo|exact Hr|]. apply Hrun; [lia|done].
  - assert (~ bit (Z.max q (bitoff e)) (e :: l)) as Hnb by (intros H%Hrun; [done|]; specialize (Hunset eq_refl); destruct (decide (off < bitoff e)); lia).
    apply Hnb, bit_cons. left. unfold in_run. destruct Hr as (? & ? & _). lia.
Qed.

Lemma find_loop_spec is_set bitmax n l : forall lo off,
  -1 <= lo -> runs lo l -> 0 <= off <= bitmax -> bitmax < 2 ^ 64 -> 0 < n ->
  let '(st, p) := find_loop is_set off bitmax n l in
  (st = ZX_OK /\ off <= p /\ p + n <= bitmax /\ run_at is_set l p n /\ (forall q, off <= q < p -> ~ run_at is_set l q n)) \/
  (st = ZX_ERR_NO_RESOURCES /\ p = bitmax /\ forall q, off <= q -> q + n <= bitmax -> ~ run_at is_set l q n).
Proof.
  induction l as [|e l IH]; intros lo off Hlo Hr Hoff Hmax Hn; cbn [find_loop]; rewrite (wrap_small 64 (bitmax - off)) by lia.
  - destruct is_set; cbn [negb andb].
    + right. split_and!; try done. intros q _ _ Hrun. apply (bit_nil q), Hrun; [lia|done].
    + destruct (Z.leb_spec n (bitmax - off)); [left|right].
      * split_and!; try lia; try done. intros b _. by rewrite bit_nil.
      * split_and!; try done. intros; lia.
  - rewrite (elem_end_runs lo e l Hlo Hr). pose proof Hr as (H1 & H2 & H3 & H4). destruct (Z.leb_spec (bitoff e + bitlen e) off).
    { pose proof (IH (bitoff e + bitlen e) off ltac:(lia) H4 ltac:(lia) Hmax Hn) as Hf. destruct (find_loop is_set off bitmax n l) as [st p].
      destruct Hf as [(-> & ? & ? & ? & Hq)|(-> & -> & Hq)]; [left|right]; split_and!; try done; [by apply run_at_tail; [lia|]| |];
        intros q ?; intros; rewrite run_at_tail by lia; by apply Hq. }
    destruct (Z.ltb_spec (bitmax - off) n); [right; split_and!; try done; intros; lia|].
    destruct (is_set && _ && _) eqn:E1.
    { apply andb_prop in E1 as [E1 E3]. apply andb_prop in E1 as [-> E2]. left. split_and!; try done; try lia.
      - intros b Hb. split; [done|]. intros _. apply bit_cons. left. unfold in_run. lia.
      - intros q Hq Hrun. eapply (not_bit_before lo e l q); [done|done|lia|]. apply Hrun; [lia|done]. }
    destruct (negb is_set && _ && _) eqn:E2.
    { apply andb_prop in E2 as [E2 E4]. apply andb_prop in E2 as [E2 E3]. apply negb_true_iff in E2 as ->. left. split_and!; try done; try lia.
      intros b Hb. split; [|done]. intros Hbit. exfalso. eapply (not_bit_before lo e l b); [done|done|lia|done]. }
    assert (forall q, off <= q < bitoff e + bitlen e -> q + n <= bitmax -> ~ run_at is_set (e :: l) q n) as Hno.
    { intros q Hq Hqn. eapply (no_run_before lo is_set off n e l q bitmax); try done.
      - intros -> m -> Hm. cbn [andb] in E1. lia.
      - intros -> Ho. cbn [andb negb] in E2. lia. }
    destruct (Z.ltb_spec bitmax (bitoff e + bitlen e)).
    { right. split_and!; try done. intros q Hq Hqn. apply Hno; lia. }
    pose proof (IH (bitoff e + bitlen e) (bitoff e + bitlen e) ltac:(lia) H4 ltac:(lia) Hmax Hn) as Hf. destruct (find_loop is_set _ bitmax n l) as [st p].
    destruct Hf as [(-> & ? & ? & ? & Hq)|(-> & -> & Hq)]; [left|right]; split_and!; try done; try lia; [by apply run_at_tail; [lia|]| |].
    + intros q Hq'. destruct (decide (q < bitoff e + bitlen e)); [apply Hno; lia|]. rewrite run_at_tail by lia. apply Hq. lia.
    + intros q Hq1 Hq2. destruct (decide (q < bitoff e + bitlen e)); [apply Hno; lia|]. rewrite run_at_tail by lia. apply Hq; lia.
Qed.

(** ** Runs of operations, and the set they compute *)

Inductive RleOp :=
| OpSet (ac : bool) (off bitmax : Z)
| OpSetNoAlloc (off bitmax : Z)
| OpClear (ac : bool) (off bitmax : Z)
| OpClearNoAlloc (off bitmax : Z)
| OpClearAll.

(** One call; the caller keeps one list of spare nodes. *)
Definition rle_step (op : RleOp) (s : RleBitmap) (spare : list RleBitmapElement) : RleBitmap * list RleBitmapElement * zx_status_t :=
  match op with
  | OpSet ac off bitmax => let '(s, st) := Set_ ac off bitmax s in (s, spare, st)
  | OpSetNoAlloc off bitmax => let '(s, f, st) := SetNoAlloc off bitmax (Some spare) s in (s, default [] f, st)
  | OpClear ac off bitmax => let '(s, st) := Clear ac off bitmax s in (s, spare, st)
  | OpClearNoAlloc off bitmax => let '(s, f, st) := ClearNoAlloc off bitmax (Some spare) s in (s, default [] f, st)
  | OpClearAll => (ClearAll, spare, ZX_OK)
  end.

Definition node_available (op : RleOp) (spare : list RleBitmapElement) : bool :=
  match op with OpSet ac _ _ | OpClear ac _ _ => ac | _ => match spare with [] => false | _ => true end end.

(** A run, with the log of whether a node was available to each call and of its status. *)
Fixpoint rle_run (ops : list RleOp) (s : RleBitmap) (spare : list RleBitmapElement) : RleBitmap * list RleBitmapElement * list (bool * zx_status_t) :=
  match ops with
  | [] => (s, spare, [])
  | op :: ops =>
      let '(s1, spare1, st) := rle_step op s spare in
      let '(s2, spare2, log) := rle_run ops s1 spare1 in
      (s2, spare2, (node_available op spare, st) :: log)
  end.

Definition op_range (op : RleOp) : option (bool * Z * Z) :=
  match op with
  | OpSet _ off bitmax | OpSetNoAlloc off bitmax => Some (true, off, bitmax)
  | OpClear _ off bitmax | OpClearNoAlloc off bitmax => Some (false, off, bitmax)
  | OpClearAll => None
  end.

(** The arguments are of type [size_t]. *)
Definition op_ok (op : RleOp) : Prop :=
  match op_range op with Some (_, off, bitmax) => 0 <= off < 2 ^ 64 /\ 0 <= bitmax < 2 ^ 64 | None => True end.

(** Clearing [off, bitmax) cuts a run of [P] in two. *)
Definition cuts (P : Z -> Prop) (off bitmax : Z) : Prop := forall b, off - 1 <= b <= bitmax -> P b.

(** What a call does to a set [P] of positions: the status, and the new set [P']. *)
Definition set_step (avail : bool) (op : RleOp) (P : Z -> Prop) (st : zx_status_t) (P' : Z -> Prop) : Prop :=
  match op_range op with
  | None => st = ZX_OK /\ forall b, ~ P' b
  | Some (set, off, bitmax) =>
      if bitmax <? off then st = ZX_ERR_INVALID_ARGS /\ forall b, P' b <-> P b
      else if off =? bitmax then st = ZX_OK /\ forall b, P' b <-> P b
      else (st = ZX_OK /\ (forall b, P' b <-> if set then P b \/ off <= b < bitmax else P b /\ ~ (off <= b < bitmax)) /\
            (avail = true \/ (set = false /\ ~ cuts P off bitmax))) \/
           (st = ZX_ERR_NO_MEMORY /\ (forall b, P' b <-> P b) /\ avail = false /\ (set = true \/ cuts P off bitmax))
  end.

Inductive set_run : list RleOp -> list (bool * zx_status_t) -> (Z -> Prop) -> (Z -> Prop) -> Prop :=
| set_run_nil P : set_run [] [] P P
| set_run_cons op ops avail st log P P1 P2 :
    set_step avail op P st P1 -> set_run ops log P1 P2 -> set_run (op :: ops) ((avail, st) :: log) P P2.

Lemma runs_elem lo l e : -1 <= lo -> runs lo l -> e ∈ l -> lo < bitoff e /\ 0 < bitlen e.
Proof.
  revert lo. induction l as [|x l IH]; intros lo Hlo Hr He; [by apply not_elem_of_nil in He|]. destruct Hr as (H1 & H2 & H3 & H4).
  apply elem_of_cons in He as [->|He]; [done|]. destruct (IH (bitoff x + bitlen x) ltac:(lia) H4 He). lia.
Qed.

Lemma not_bit_ends lo l e : -1 <= lo -> runs lo l -> e ∈ l -> ~ bit (bitoff e + bitlen e) l.
Proof.
  revert lo. induction l as [|x l IH]; intros lo Hlo Hr He; [by apply not_elem_of_nil in He|]. pose proof Hr as (H1 & H2 & H3 & H4).
  apply elem_of_cons in He as [->|He]; [by eapply not_bit_end|]. rewrite bit_cons. intros [H|H]; [|by eapply (IH (bitoff x + bitlen x)); [lia|..]].
  destruct (runs_elem (bitoff x + bitlen x) l e ltac:(lia) H4 He). unfold in_run in H. lia.
Qed.

Lemma bit_between lo l e b n :
  -1 <= lo -> runs lo l -> e ∈ l -> in_run b e -> (forall c, b <= c <= b + Z.of_nat n -> bit c l) -> b + Z.of_nat n < bitoff e + bitlen e.
Proof.
  intros Hlo Hr He Hb Hall. destruct (decide (b + Z.of_nat n < bitoff e + bitlen e)); [done|]. unfold in_run in Hb.
  exfalso. eapply not_bit_ends; [exact Hlo|exact Hr|exact He|]. apply Hall. lia.
Qed.

Lemma cut_cuts lo l off bitmax : -1 <= lo -> runs lo l -> off < bitmax -> cut off bitmax l = true <-> cuts (fun b => bit b l) off bitmax.
Proof.
  intros Hlo Hr Hm. unfold cut. rewrite existsb_exists. setoid_rewrite <-list_elem_of_In. split.
  - intros (e & He & H). apply andb_prop in H as [H1%Z.ltb_lt H2%Z.ltb_lt]. intros b Hb. apply Exists_exists. exists e. split; [done|]. unfold in_run. lia.
  - intros Hc. assert (bit (off - 1) l) as Hbit by (apply Hc; lia). apply Exists_exists in Hbit as (e & He & Hin). exists e. split; [done|].
    pose proof (bit_between lo l e (off - 1) (Z.to_nat (bitmax - (off - 1))) Hlo Hr He Hin) as H. unfold in_run in Hin.
    rewrite Z2Nat.id in H by lia. specialize (H ltac:(intros c Hc'; apply Hc; lia)). apply andb_true_intro. lia.
Qed.

Lemma cuts_proper P Q off bitmax : (forall b, P b <-> Q b) -> cuts P off bitmax <-> cuts Q off bitmax.
Proof. intros H. unfold cuts. by setoid_rewrite H. Qed.

Lemma update_sim (set : bool) op ac need off bitmax f s s' f' st (P : Z -> Prop) :
  op_range op = Some (set, off, bitmax) -> (forall b, bit b (elems_ s) <-> P b) ->
  need = negb (off =? bitmax) && (set || cut off bitmax (elems_ s)) -> runs (-1) (elems_ s) ->
  update_ok ac need off bitmax f s s' f' st
    (fun b => if set then bit b (elems_ s) \/ off <= b < bitmax else bit b (elems_ s) /\ ~ (off <= b < bitmax)) ->
  set_step (can_alloc ac f) op P st (fun b => bit b (elems_ s')).
Proof.
  intros Hop HP Hneed Hr [Hi Hn Hst Herr Hbits]. unfold set_step. rewrite Hop. unfold update_status in Hst.
  destruct (Z.ltb_spec bitmax off) as [Hlt|Hge]; [split; [done|]; destruct Herr as [-> _]; [by rewrite Hst|done]|].
  destruct (Z.eqb_spec off bitmax) as [Heq|Hne]; cbn [negb andb] in Hneed.
  { rewrite Hneed in Hst. cbn [andb] in Hst. split; [done|]. intros b. rewrite (Hbits Hst b), <-HP. destruct set; split; try tauto; [intros [?|?]; [done|lia]|].
    intros ?. split; [done|lia]. }
  assert (cut off bitmax (elems_ s) = true <-> cuts P off bitmax) as Hcut by (rewrite <-(cuts_proper _ _ _ _ HP); apply (cut_cuts (-1)); [done|done|lia]).
  assert (need = true <-> set = true \/ cuts P off bitmax) as Hneed' by (rewrite <-Hcut, Hneed; destruct set, (cut off bitmax (elems_ s)); naive_solver).
  destruct (need && negb (can_alloc ac f)) eqn:E; [right|left].
  - apply andb_prop in E as [E1%Hneed' E2%negb_true_iff]. destruct Herr as [-> _]; [by rewrite Hst|]. by split_and!.
  - split_and!; [done|intros b; rewrite (Hbits Hst b); destruct set; by rewrite HP|].
    destruct (can_alloc ac f); [by left|]. rewrite andb_true_r in E. right. destruct set; [exfalso; naive_solver congruence|]. split; [done|].
    intros Hc. assert (need = true) by (apply Hneed'; by right). congruence.
Qed.

Lemma rle_step_sim op s spare s' spare' st P :
  rle_inv s -> (forall b, bit b (elems_ s) <-> P b) -> op_ok op -> rle_step op s spare = (s', spare', st) ->
  rle_inv s' /\ set_step (node_available op spare) op P st (fun b => bit b (elems_ s')) /\
  (match op with OpSetNoAlloc _ _ | OpClearNoAlloc _ _ => zlen spare' + num_elems_ s' = zlen spare + num_elems_ s | _ => spare' = spare end).
Proof.
  intros Hi HP Hok Hs. pose proof (ri_runs s Hi) as Hr. destruct op as [ac off bitmax|off bitmax|ac off bitmax|off bitmax|]; cbn in Hok.
  - cbn [rle_step] in Hs. unfold Set_ in Hs. destruct (SetInternal ac off bitmax None s) as [[s1 f1] st1] eqn:E. injection Hs as <- <- <-.
    apply SetInternal_spec in E; [|done|lia|lia]. split_and!; [apply E| |done]. eapply (update_sim true _ ac _ off bitmax None); try done. by rewrite andb_true_r.
  - cbn [rle_step SetNoAlloc] in Hs. destruct (SetInternal false off bitmax (Some spare) s) as [[s1 f1] st1] eqn:E. injection Hs as <- <- <-.
    apply SetInternal_spec in E; [|done|lia|lia]. pose proof (uo_nodes _ _ _ _ _ _ _ _ _ _ E) as Hn. split_and!; [apply E| |].
    + replace (node_available _ spare) with (can_alloc false (Some spare)) by (by destruct spare).
      eapply (update_sim true _ false _ off bitmax (Some spare)); try done. by rewrite andb_true_r.
    + destruct f1 as [l|]; [by injection Hn|done].
  - cbn [rle_step] in Hs. unfold Clear in Hs. destruct (ClearInternal ac off bitmax None s) as [[s1 f1] st1] eqn:E. injection Hs as <- <- <-.
    apply ClearInternal_spec in E; [|done|lia|lia]. split_and!; [apply E| |done]. by eapply (update_sim false _ ac _ off bitmax None).
  - cbn [rle_step ClearNoAlloc] in Hs. destruct (ClearInternal false off bitmax (Some spare) s) as [[s1 f1] st1] eqn:E. injection Hs as <- <- <-.
    apply ClearInternal_spec in E; [|done|lia|lia]. pose proof (uo_nodes _ _ _ _ _ _ _ _ _ _ E) as Hn. split_and!; [apply E| |].
    + replace (node_available _ spare) with (can_alloc false (Some spare)) by (by destruct spare). by eapply (update_sim false _ false _ off bitmax (Some spare)).
    + destruct f1 as [l|]; [by injection Hn|done].
  - injection Hs as <- <- <-. split_and!; [by constructor| |done]. split; [done|]. by intros b ?%bit_nil.
Qed.

Lemma rle_run_sim ops : forall s spare s' spare' log P,
  rle_inv s -> (forall b, bit b (elems_ s) <-> P b) -> Forall op_ok ops -> rle_run ops s spare = (s', spare', log) ->
  rle_inv s' /\ exists P', set_run ops log P P' /\ forall b, bit b (elems_ s') <-> P' b.
Proof.
  induction ops as [|op ops IH]; intros s spare s' spare' log P Hi HP Hok Hrun; cbn [rle_run] in Hrun.
  - injection Hrun as <- <- <-. split; [done|]. exists P. by split; [constructor|].
  - apply Forall_cons in Hok as [Hop Hok]. destruct (rle_step op s spare) as [[s1 spare1] st] eqn:E1. destruct (rle_run ops s1 spare1) as [[s2 spare2] log2] eqn:E2.
    injection Hrun as <- <- <-. destruct (rle_step_sim op s spare s1 spare1 st P Hi HP Hop E1) as (Hi1 & Hs & _).
    destruct (IH s1 spare1 s2 spare2 log2 (fun b => bit b (elems_ s1)) Hi1 ltac:(done) Hok E2) as (Hi2 & P' & Hr & HP'). split; [done|].
    exists P'. split; [by econstructor|done].
Qed.

Lemma ClearAll_inv : rle_inv ClearAll.
Proof. by constructor. Qed.

(** [Get] tells whether a whole range is set and finds the first position of it that is not.
    [Find] finds the first run of the wanted length of set, or of unset, bits in a range, and
    fails only if the range has none. *)
Definition queries_exact (s : RleBitmap) : Prop := forall off bitmax, 0 <= off <= bitmax -> bitmax < 2 ^ 64 ->
  (let '(all, first_unset) := Get off bitmax s in
   (all = true <-> forall b, off <= b < bitmax -> bit b (elems_ s)) /\ off <= first_unset <= bitmax /\
   (forall b, off <= b < first_unset -> bit b (elems_ s)) /\ (first_unset < bitmax -> ~ bit first_unset (elems_ s))) /\
  (forall is_set n, 0 < n ->
   let '(st, p) := Find is_set off bitmax n s in
   (st = ZX_OK /\ off <= p /\ p + n <= bitmax /\ run_at is_set (elems_ s) p n /\ (forall q, off <= q < p -> ~ run_at is_set (elems_ s) q n)) \/
   (st = ZX_ERR_NO_RESOURCES /\ p = bitmax /\ forall q, off <= q -> q + n <= bitmax -> ~ run_at is_set (elems_ s) q n)).

Lemma runs_queries_exact s : runs (-1) (elems_ s) -> queries_exact s.
Proof.
  intros Hr off bitmax Hoff Hmax. split; [|intros is_set n Hn; by apply (find_loop_spec is_set bitmax n (elems_ s) (-1))].
  unfold Get. destruct (get_loop_spec (-1) off (elems_ s)) as (H1 & H2 & H3); [done|done|].
  destruct (Z.ltb_spec bitmax (get_loop off (elems_ s))).
  - rewrite Z.eqb_refl. split_and!; try lia; [|intros b Hb; apply H1; lia]. split; [intros _ b Hb; apply H1; lia|done].
  - split_and!; try done. split; [intros E%Z.eqb_eq b Hb; apply H1; lia|]. intros Hall. apply Z.eqb_eq.
    destruct (decide (get_loop off (elems_ s) = bitmax)); [done|]. exfalso. apply H2, Hall. lia.
Qed.

(** C29. A run-length encoded bitmap is a set of positions. For every sequence of calls that set and
    clear ranges, with or without spare nodes, every call gives the status and has the effect
    that the operation on sets has: it fails only for a reversed range, or when it needs a node,
    which setting a range and cutting a run in two do, and there is none, and then it changes
    nothing. The runs stay sorted, not empty and apart from each other, the counts of runs and of
    bits are exact and never wrap, and Get and Find answer for the set. *)
Theorem rle_bitmap_refines_set ops spare s spare' log :
  Forall op_ok ops -> rle_run ops ClearAll spare = (s, spare', log) ->
  (exists P, set_run ops log (fun _ => False) P /\ forall b, bit b (elems_ s) <-> P b) /\
  runs (-1) (elems_ s) /\ num_elems_ s = zlen (elems_ s) /\ num_bits_ s = total (elems_ s) /\ queries_exact s.
Proof.
  intros Hok Hrun. destruct (rle_run_sim ops ClearAll spare s spare' log (fun _ => False) ClearAll_inv bit_nil Hok Hrun) as ([] & P & HP).
  split_and!; eauto using runs_queries_exact.
Qed.

Definition example_ops : list RleOp :=
  [OpSet true 4 8; OpSet true 12 16; OpSetNoAlloc 8 12; OpSet true 8 12; OpClearNoAlloc 6 7; OpClear true 6 7; OpSet false 0 1; OpClear true 15 20].

Lemma rle_bitmap_refines_set_witness :
  let '(s, spare, log) := rle_run example_ops ClearAll [] in
  log = [(true, ZX_OK); (true, ZX_OK); (false, ZX_ERR_NO_MEMORY); (true, ZX_OK); (false, ZX_ERR_NO_MEMORY); (true, ZX_OK); (false, ZX_ERR_NO_MEMORY); (true, ZX_OK)] /\
  elems_ s = [mkElem 4 2; mkElem 7 8] /\ num_bits_ s = 10 /\ (exists P, set_run example_ops log (fun _ => False) P /\ P 14 /\ ~ P 15) /\
  Find false 4 20 3 s = (ZX_OK, 15) /\ queries_exact s.
Proof.
  destruct (rle_run example_ops ClearAll []) as [[s spare] log] eqn:E.
  destruct (rle_bitmap_refines_set example_ops [] s spare log) as ((P & HP & Hb) & _ & _ & _ & Hq); [repeat constructor; done|done|].
  vm_compute in E. injection E as <- <- <-. split; [done|]. split; [done|]. split; [done|]. split; [|split; [done|exact Hq]]. exists P. split_and!; [done|apply Hb|intros H%Hb].
  - apply Exists_exists. exists (mkElem 7 8). split; [set_solver|split; done].
  - apply Exists_exists in H as (e & He & Hin). unfold in_run in Hin. apply elem_of_cons in He as [->|[->|He]%elem_of_cons]; cbn in Hin; [lia|lia|set_solver].
Defined.
