(* ===== verification/TimerQueue.v ===== *)
(** * Kernel timers

    Models [zircon/kernel/kernel/timer.cc], [zircon/kernel/kernel/deadline.cc] and the time
    arithmetic of [zircon/system/public/zircon/time.h]: deadlines with slack, the timer queue
    of each cpu with its coalescing, the one-shot hardware timer, ticks, and cancelling.

    Each section under the timer lock is one step. A cpu runs threads, is inside [Tick], or
    runs a callback that [Tick] called; [Timer::Cancel] waits for a callback on another cpu,
    so its end is a step of its own. [None] stands for a kernel panic or a call of a null
    callback. Times are 64-bit signed integers. *)

From Stdlib Require Import Sorting.Sorted.
From S2P Require Import Prelude Types.

(** ** Deadlines *)

Definition ZX_TIME_INFINITE : Z := 2 ^ 63 - 1.
Definition ZX_TIME_INFINITE_PAST : Z := - 2 ^ 63.

Definition time_ok (t : Z) : Prop := ZX_TIME_INFINITE_PAST <= t <= ZX_TIME_INFINITE.

(** The low 64 bits as a signed number. *)
Definition swrap64 (z : Z) : Z := let x := wrap64 z in if x <? 2 ^ 63 then x else x - 2 ^ 64.

(** [add_overflow] and [sub_overflow]: the wrapped result, and whether it overflowed. *)
Definition saturate (exact : Z) : Z :=
  let x := swrap64 exact in
  if negb (x =? exact) then (if 0 <=? x then ZX_TIME_INFINITE_PAST else ZX_TIME_INFINITE) else x.

Definition zx_time_add_duration (time duration : Z) : Z := saturate (time + duration).
Definition zx_time_sub_duration (time duration : Z) : Z := saturate (time - duration).
Definition zx_time_sub_time (time1 time2 : Z) : Z := saturate (time1 - time2).

Inductive slack_mode := TIMER_SLACK_CENTER | TIMER_SLACK_EARLY | TIMER_SLACK_LATE.

Record Deadline := mkDeadline {
  when_ : Z;
  slack_amount : Z;
  slack_mode_of : slack_mode;
}.

Definition earliest (d : Deadline) : Z :=
  match slack_mode_of d with
  | TIMER_SLACK_CENTER => zx_time_sub_duration (when_ d) (slack_amount d)
  | TIMER_SLACK_LATE => when_ d
  | TIMER_SLACK_EARLY => zx_time_sub_duration (when_ d) (slack_amount d)
  end.

Definition latest (d : Deadline) : Z :=
  match slack_mode_of d with
  | TIMER_SLACK_CENTER => zx_time_add_duration (when_ d) (slack_amount d)
  | TIMER_SLACK_LATE => zx_time_add_duration (when_ d) (slack_amount d)
  | TIMER_SLACK_EARLY => when_ d
  end.

Definition deadline_ok (d : Deadline) : Prop := time_ok (when_ d) /\ 0 <= slack_amount d <= ZX_TIME_INFINITE.

(** ** The state *)

Record Timer := mkTimer {
  scheduled_time_ : Z;
  slack_ : Z;
  callback_ : bool;                  (* not null *)
  active_cpu_ : option nat;
  cancel_ : bool;
}.

Definition Timer_new : Timer := mkTimer 0 0 false None false.

Record TimerQueue := mkTQ {
  timer_list_ : list Z;
  preempt_timer_deadline_ : Z;
  next_timer_deadline_ : Z;
}.

Definition TimerQueue_new : TimerQueue := mkTQ [] ZX_TIME_INFINITE ZX_TIME_INFINITE.

(** What a cpu is doing with its timers. *)
Inductive CpuState :=
| CpuThread
| CpuTick (now : Z)
| CpuCallback (now id : Z).

Record Fired := mkFired {
  f_id : Z;
  f_now : Z;
  f_scheduled : Z;
  f_window : Z * Z;
}.

(** [hw] is the time each one-shot hardware timer is set to; [window] is the deadline's
    earliest and latest time for a timer that is set; [cancelling] are the timers some
    [Cancel] waits for; [fired] logs the callbacks. *)
Record TimerSys := mkTS {
  queues : list TimerQueue;
  hw : list (option Z);
  cpus : list CpuState;
  timers : gmap Z Timer;
  window : gmap Z (Z * Z);
  cancelling : list Z;
  fired : list Fired;
}.

Definition timer_at (s : TimerSys) (id : Z) : Timer := default Timer_new (timers s !! id).
Definition queue_at (s : TimerSys) (c : nat) : TimerQueue := default TimerQueue_new (queues s !! c).

Definition set_queue (c : nat) (q : TimerQueue) (s : TimerSys) : TimerSys :=
  mkTS (<[c := q]> (queues s)) (hw s) (cpus s) (timers s) (window s) (cancelling s) (fired s).
Definition set_queues (q : list TimerQueue) (s : TimerSys) : TimerSys :=
  mkTS q (hw s) (cpus s) (timers s) (window s) (cancelling s) (fired s).
Definition set_hw (c : nat) (h : option Z) (s : TimerSys) : TimerSys :=
  mkTS (queues s) (<[c := h]> (hw s)) (cpus s) (timers s) (window s) (cancelling s) (fired s).
Definition set_cpu (c : nat) (st : CpuState) (s : TimerSys) : TimerSys :=
  mkTS (queues s) (hw s) (<[c := st]> (cpus s)) (timers s) (window s) (cancelling s) (fired s).
Definition set_timer (id : Z) (t : Timer) (s : TimerSys) : TimerSys :=
  mkTS (queues s) (hw s) (cpus s) (<[id := t]> (timers s)) (window s) (cancelling s) (fired s).
Definition set_window (id : Z) (w : Z * Z) (s : TimerSys) : TimerSys :=
  mkTS (queues s) (hw s) (cpus s) (timers s) (<[id := w]> (window s)) (cancelling s) (fired s).
Definition set_cancelling (l : list Z) (s : TimerSys) : TimerSys :=
  mkTS (queues s) (hw s) (cpus s) (timers s) (window s) l (fired s).
Definition log_fired (f : Fired) (s : TimerSys) : TimerSys :=
  mkTS (queues s) (hw s) (cpus s) (timers s) (window s) (cancelling s) (fired s ++ [f]).

Definition with_list (l : list Z) (q : TimerQueue) : TimerQueue := mkTQ l (preempt_timer_deadline_ q) (next_timer_deadline_ q).
Definition with_preempt (d : Z) (q : TimerQueue) : TimerQueue := mkTQ (timer_list_ q) d (next_timer_deadline_ q).
Definition with_next (d : Z) (q : TimerQueue) : TimerQueue := mkTQ (timer_list_ q) (preempt_timer_deadline_ q) d.

(** [timer.InContainer()]. *)
Definition in_queue (id : Z) (q : TimerQueue) : bool := bool_decide (id ∈ timer_list_ q).
Definition InContainer (id : Z) (s : TimerSys) : bool := existsb (in_queue id) (queues s).

(** [RemoveFromContainer]: from whatever queue it is on. *)
Definition remove_timer (id : Z) (q : TimerQueue) : TimerQueue := with_list (filter (fun x => x <> id) (timer_list_ q)) q.
Definition RemoveFromContainer (id : Z) (s : TimerSys) : TimerSys := set_queues (map (remove_timer id) (queues s)) s.

(** ** The operations *)

Definition UpdatePlatformTimer (c : nat) (new_deadline : Z) (s : TimerSys) : TimerSys :=
  let q := queue_at s c in
  if new_deadline <? next_timer_deadline_ q then set_hw c (Some new_deadline) (set_queue c (with_next new_deadline q) s) else s.

(** The loop of [Insert]: the new list, the slack applied and the new scheduled time of [id]. *)
Fixpoint insert_loop (sched : Z -> Z) (id t earliest_deadline latest_deadline : Z) (l : list Z) : list Z * Z * Z :=
  match l with
  | [] => ([id], 0, t)
  | entry :: rest =>
      let continue :=
        let '(l, slack, t') := insert_loop sched id t earliest_deadline latest_deadline rest in (entry :: l, slack, t') in
      let coalesce := (entry :: id :: rest, zx_time_sub_time (sched entry) t, sched entry) in
      if latest_deadline <? sched entry then (id :: entry :: rest, 0, t)
      else if t <=? sched entry then coalesce
      else if sched entry <? earliest_deadline then continue
      else match rest with
           | next :: _ =>
               if sched next <=? t then continue
               else if (sched next <? latest_deadline) && (zx_time_sub_time (sched next) t <? zx_time_sub_time t (sched entry)) then continue
               else coalesce
           | [] => coalesce
           end
  end.

Definition Insert (c : nat) (id earliest_deadline latest_deadline : Z) (s : TimerSys) : TimerSys :=
  let q := queue_at s c in
  let t := timer_at s id in
  let '(l, slack, sched) :=
    insert_loop (fun x => scheduled_time_ (timer_at s x)) id (scheduled_time_ t) earliest_deadline latest_deadline (timer_list_ q) in
  set_queue c (with_list l q) (set_timer id (mkTimer sched slack (callback_ t) (active_cpu_ t) (cancel_ t)) s).

(** [Timer::Set] on cpu [c]. *)
Definition Timer_Set (c : nat) (id : Z) (d : Deadline) (s : TimerSys) : option TimerSys :=
  if InContainer id s then None else
  let t := timer_at s id in
  let arm :=
    let s := set_timer id (mkTimer (when_ d) (slack_ t) true (active_cpu_ t) false) s in
    let s := Insert c id (earliest d) (latest d) (set_window id (earliest d, latest d) s) in
    match timer_list_ (queue_at s c) with
    | head :: _ => if head =? id then UpdatePlatformTimer c (when_ d) s else s
    | [] => s
    end in
  match active_cpu_ t with
  | Some a => if bool_decide (a = c) then (if cancel_ t then Some s else Some arm) else None
  | None => Some arm
  end.

(** [Timer::Cancel] under the lock: its result, and whether it goes on to wait. *)
Definition Timer_Cancel_locked (c : nat) (id : Z) (s : TimerSys) : TimerSys * bool * bool :=
  let t := timer_at s id in
  let s := set_timer id (mkTimer (scheduled_time_ t) (slack_ t) (callback_ t) (active_cpu_ t) true) s in
  if bool_decide (active_cpu_ t = Some c) then
    (set_timer id (mkTimer (scheduled_time_ t) (slack_ t) false (active_cpu_ t) true) s, false, false)
  else if InContainer id s then
    let oldhead := head (timer_list_ (queue_at s c)) in
    let s := RemoveFromContainer id s in
    let s :=
      if bool_decide (oldhead = Some id) then
        match timer_list_ (queue_at s c) with
        | h :: _ => UpdatePlatformTimer c (scheduled_time_ (timer_at s h)) s
        | [] => if next_timer_deadline_ (queue_at s c) =? ZX_TIME_INFINITE then set_hw c None s else s
        end
      else s in
    (s, true, true)
  else (s, false, true).

(** The end of [Timer::Cancel], once the timer is not active. *)
Definition Timer_Cancel_finish (id : Z) (s : TimerSys) : TimerSys :=
  let t := timer_at s id in
  set_timer id (mkTimer (scheduled_time_ t) (slack_ t) false (active_cpu_ t) (cancel_ t)) s.

Definition PreemptReset (c : nat) (deadline : Z) (s : TimerSys) : TimerSys :=
  UpdatePlatformTimer c deadline (set_queue c (with_preempt deadline (queue_at s c)) s).

(** [Tick] up to the loop. *)
Definition Tick_begin (c : nat) (now : Z) (s : TimerSys) : TimerSys :=
  let q := with_next ZX_TIME_INFINITE (queue_at s c) in
  let q := if preempt_timer_deadline_ q <=? now then with_preempt ZX_TIME_INFINITE q else q in
  set_hw c None (set_queue c q (set_cpu c (CpuTick now) s)).

(** One round of the loop of [Tick], up to the callback, and the call of the callback. *)
Definition Tick_pop (c : nat) (now : Z) (s : TimerSys) : option TimerSys :=
  match timer_list_ (queue_at s c) with
  | id :: rest =>
      let t := timer_at s id in
      if callback_ t then
        Some (log_fired (mkFired id now (scheduled_time_ t) (default (0, 0) (window s !! id)))
               (set_cpu c (CpuCallback now id)
                 (set_timer id (mkTimer (scheduled_time_ t) (slack_ t) (callback_ t) (Some c) (cancel_ t))
                   (set_queue c (with_list rest (queue_at s c)) s))))
      else None
  | [] => None
  end.

(** The loop goes on: the first timer is due. *)
Definition Tick_due (c : nat) (now : Z) (s : TimerSys) : bool :=
  match timer_list_ (queue_at s c) with id :: _ => negb (now <? scheduled_time_ (timer_at s id)) | [] => false end.

(** The callback returns. *)
Definition Tick_callback_end (c : nat) (now id : Z) (s : TimerSys) : TimerSys :=
  let t := timer_at s id in
  set_cpu c (CpuTick now) (set_timer id (mkTimer (scheduled_time_ t) (slack_ t) (callback_ t) None (cancel_ t)) s).

(** The deadline the queue and the preemption timer need. *)
Definition queue_deadline (c : nat) (s : TimerSys) : Z :=
  let q := queue_at s c in
  let deadline := match timer_list_ q with id :: _ => scheduled_time_ (timer_at s id) | [] => ZX_TIME_INFINITE end in
  if preempt_timer_deadline_ q <? deadline then preempt_timer_deadline_ q else deadline.

(** The end of [Tick]. *)
Definition Tick_end (c : nat) (s : TimerSys) : TimerSys := set_cpu c CpuThread (UpdatePlatformTimer c (queue_deadline c s) s).

(** [TransitionOffCpu]: the timers of [source] move to [c]. *)
Fixpoint move_timers (c : nat) (ids : list Z) (s : TimerSys) : TimerSys :=
  match ids with
  | [] => s
  | id :: ids => let t := scheduled_time_ (timer_at s id) in move_timers c ids (Insert c id t t s)
  end.

Definition TransitionOffCpu (c source : nat) (s : TimerSys) : TimerSys :=
  let old_head := head (timer_list_ (queue_at s c)) in
  let ids := timer_list_ (queue_at s source) in
  let s := move_timers c ids (set_queue source (with_list [] (queue_at s source)) s) in
  let s := match timer_list_ (queue_at s c) with
           | new_head :: _ => if bool_decide (old_head = Some new_head) then s else UpdatePlatformTimer c (scheduled_time_ (timer_at s new_head)) s
           | [] => s
           end in
  set_queue source (mkTQ (timer_list_ (queue_at s source)) ZX_TIME_INFINITE ZX_TIME_INFINITE) s.

(** [ThawPercpu], after the hardware timer was lost. *)
Definition ThawPercpu (c : nat) (s : TimerSys) : TimerSys :=
  let s := set_queue c (with_next ZX_TIME_INFINITE (queue_at s c)) s in
  UpdatePlatformTimer c (queue_deadline c s) s.

(** ** Runs *)

Inductive TimerOp :=
| OpSet (c : nat) (id : Z) (d : Deadline)
| OpCancel (c : nat) (id : Z)
| OpCancelFinish (id : Z)
| OpPreempt (c : nat) (deadline : Z)
| OpTickBegin (c : nat) (now : Z)
| OpTickStep (c : nat)
| OpCallbackEnd (c : nat)
| OpTransition (c source : nat)
| OpThaw (c : nat).

(** Code other than [Tick] runs on the cpu. *)
Definition runs_code (c : nat) (s : TimerSys) : bool :=
  match cpus s !! c with Some CpuThread | Some (CpuCallback _ _) => true | _ => false end.
Definition in_thread (c : nat) (s : TimerSys) : bool := match cpus s !! c with Some CpuThread => true | _ => false end.
Definition is_cancelling (id : Z) (s : TimerSys) : bool := bool_decide (id ∈ cancelling s).
Definition active_on (c : nat) (id : Z) (s : TimerSys) : bool := bool_decide (active_cpu_ (timer_at s id) = Some c).

Definition set_deadline_ok (d : Deadline) : bool :=
  (ZX_TIME_INFINITE_PAST <=? when_ d) && (when_ d <=? ZX_TIME_INFINITE) && (0 <=? slack_amount d) && (slack_amount d <=? ZX_TIME_INFINITE).

Definition enabled_if (b : bool) (r : option TimerSys) : option (option TimerSys) := if b then Some r else None.

(** A step: [None] when it is not enabled, [Some None] when the kernel panics. *)
Definition timer_step (op : TimerOp) (s : TimerSys) : option (option TimerSys) :=
  match op with
  | OpSet c id d => enabled_if (runs_code c s && set_deadline_ok d) (Timer_Set c id d s)
  | OpCancel c id =>
      enabled_if (runs_code c s)
        (let '(s, _, wait) := Timer_Cancel_locked c id s in Some (if wait then set_cancelling (id :: cancelling s) s else s))
  | OpCancelFinish id =>
      enabled_if (is_cancelling id s && bool_decide (active_cpu_ (timer_at s id) = None))
        (Some (set_cancelling (filter (fun x => x <> id) (cancelling s)) (Timer_Cancel_finish id s)))
  | OpPreempt c deadline => enabled_if (in_thread c s && (deadline <=? ZX_TIME_INFINITE)) (Some (PreemptReset c deadline s))
  | OpTickBegin c now => enabled_if (in_thread c s) (Some (Tick_begin c now s))
  | OpTickStep c =>
      match cpus s !! c with
      | Some (CpuTick now) => Some (if Tick_due c now s then Tick_pop c now s else Some (Tick_end c s))
      | _ => None
      end
  | OpCallbackEnd c => match cpus s !! c with Some (CpuCallback now id) => Some (Some (Tick_callback_end c now id s)) | _ => None end
  | OpTransition c source =>
      enabled_if (in_thread c s && in_thread source s && negb (bool_decide (c = source))) (Some (TransitionOffCpu c source s))
  | OpThaw c => enabled_if (in_thread c s) (Some (ThawPercpu c s))
  end.

(** A run; [None] when the kernel panics. Steps that are not enabled are skipped. *)
Fixpoint timer_run (ops : list TimerOp) (s : TimerSys) : option TimerSys :=
  match ops with
  | [] => Some s
  | op :: ops => match timer_step op s with Some (Some s) => timer_run ops s | Some None => None | None => timer_run ops s end
  end.

Definition timer_boot (n : nat) : TimerSys :=
  mkTS (replicate n TimerQueue_new) (replicate n None) (replicate n CpuThread) ∅ ∅ [] [].

(** ** Deadlines *)

Lemma saturate_spec z : - 2 ^ 64 <= z < 2 ^ 64 -> saturate z = Z.max ZX_TIME_INFINITE_PAST (Z.min ZX_TIME_INFINITE z).
Proof.
  intros Hz. unfold saturate, swrap64, ZX_TIME_INFINITE, ZX_TIME_INFINITE_PAST.
  assert ((wrap64 z = z /\ 0 <= z) \/ (wrap64 z = z + 2 ^ 64 /\ z < 0)) as [[-> ?]|[-> ?]].
  { unfold wrap. destruct (decide (0 <= z)); [left; split; [apply Z.mod_small|]; lia|]. right. split; [|lia].
    symmetry. apply (Z.mod_unique_pos _ _ (-1)); lia. }
  - destruct (Z.ltb_spec z (2 ^ 63)); cbv zeta; repeat case_if; lia.
  - destruct (Z.ltb_spec (z + 2 ^ 64) (2 ^ 63)); cbv zeta; repeat case_if; lia.
Qed.

Lemma window_ok d : deadline_ok d -> earliest d <= when_ d <= latest d /\ time_ok (earliest d) /\ time_ok (latest d).
Proof.
  intros [Hw Ha]. unfold time_ok, ZX_TIME_INFINITE, ZX_TIME_INFINITE_PAST in *. unfold earliest, latest, zx_time_sub_duration, zx_time_add_duration.
  rewrite !saturate_spec by lia. unfold ZX_TIME_INFINITE, ZX_TIME_INFINITE_PAST. destruct (slack_mode_of d); lia.
Qed.

(** ** Inserting *)

Definition ascending (sched : Z -> Z) (l : list Z) : Prop := StronglySorted (fun a b => sched a <= sched b) l.
Definition upd (id t : Z) (sched : Z -> Z) (x : Z) : Z := if decide (x = id) then t else sched x.

Lemma ascending_ext sched sched' l : (forall x, x ∈ l -> sched x = sched' x) -> ascending sched l -> ascending sched' l.
Proof.
  intros He Hs. induction Hs as [|x l Hs IH Hf]; constructor.
  - apply IH. intros y Hy. apply He. by right.
  - rewrite Forall_forall in *. intros y Hy. rewrite <-!He by (by constructor || by right). by apply Hf.
Qed.

Lemma ascending_cons sched x l : ascending sched (x :: l) <-> (forall y, y ∈ l -> sched x <= sched y) /\ ascending sched l.
Proof.
  split; [intros H; inversion H as [|? ? ? Hf]; subst; rewrite Forall_forall in Hf; by split|]. intros [H1 H2]. constructor; [done|]. by apply Forall_forall.
Qed.

Lemma insert_loop_spec sched id t e lt l l' slack t' :
  insert_loop sched id t e lt l = (l', slack, t') -> ascending sched l -> id ∉ l -> e <= t <= lt ->
  l' ≡ₚ id :: l /\ ascending (upd id t' sched) l' /\ e <= t' <= lt /\ (t' = t \/ exists x, x ∈ l /\ t' = sched x) /\
  ((head l' = Some id /\ t' = t) \/ head l' = head l).
Proof.
  revert l' slack t'. induction l as [|x l IH]; intros l' slack t' Hi Hs Hn Ht; cbn [insert_loop] in Hi.
  { injection Hi as <- <- <-. split; [done|]. split; [apply SSorted_cons; [apply SSorted_nil|done]|]. split; [done|]. split; by left. }
  apply not_elem_of_cons in Hn as [Hnx Hn]. apply ascending_cons in Hs as [Hx Hs].
  assert (forall t' y, y ∈ x :: l -> sched y = upd id t' sched y) as Hupd.
  { intros u y Hy. unfold upd. rewrite decide_False; [done|]. intros ->. apply elem_of_cons in Hy as [->|?]; done. }
  assert (ascending sched (x :: l)) as Hxl by (by apply ascending_cons).
  assert ((x :: id :: l, zx_time_sub_time (sched x) t, sched x) = (l', slack, t') -> e <= sched x <= lt ->
    l' ≡ₚ id :: x :: l /\ ascending (upd id t' sched) l' /\ e <= t' <= lt /\ (t' = t \/ exists y, y ∈ x :: l /\ t' = sched y) /\
    ((head l' = Some id /\ t' = t) \/ head l' = head (x :: l))) as Hcoalesce.
  { intros [= <- <- <-] [Hb1 Hb2]. split_and!; try done; [by apply Permutation_swap| |right; exists x; split; [by left|done]|by right].
    assert (upd id (sched x) sched id = sched x) as Hid by (unfold upd; by rewrite decide_True).
    apply ascending_cons. split.
    - intros y Hy. rewrite <-(Hupd (sched x) x) by by left. apply elem_of_cons in Hy as [->|Hy]; [by rewrite Hid|]. rewrite <-Hupd by (by right). auto.
    - apply ascending_cons. split; [intros y Hy; rewrite Hid, <-Hupd by (by right); auto|]. eapply ascending_ext; [|exact Hs]. intros y Hy. apply Hupd. by right. }
  assert ((let '(l0, sl, u) := insert_loop sched id t e lt l in (x :: l0, sl, u)) = (l', slack, t') -> sched x <= t ->
    l' ≡ₚ id :: x :: l /\ ascending (upd id t' sched) l' /\ e <= t' <= lt /\ (t' = t \/ exists y, y ∈ x :: l /\ t' = sched y) /\
    ((head l' = Some id /\ t' = t) \/ head l' = head (x :: l))) as Hcontinue.
  { intros Hr Hxt. destruct (insert_loop sched id t e lt l) as [[l0 sl] u] eqn:E. injection Hr as <- <- <-.
    destruct (IH l0 sl u eq_refl Hs Hn Ht) as (H1 & H2 & [H3 H3'] & H4 & _).
    split_and!; try done; [rewrite H1; apply Permutation_swap| |destruct H4 as [?|(y & ? & ?)]; [by left|right; exists y; split; [by right|done]]|by right].
    apply ascending_cons. split; [|done]. intros y Hy. rewrite H1 in Hy. rewrite <-(Hupd u x) by by left.
    apply elem_of_cons in Hy as [->|Hy]; [|rewrite <-Hupd by (by right); auto]. unfold upd. rewrite decide_True by done.
    destruct H4 as [->|(z & Hz & ->)]; [done|auto]. }
  destruct (Z.ltb_spec lt (sched x)) as [Hlt|Hge].
  { injection Hi as <- <- <-. split; [done|]. split; [|split; [done|split; by left]]. apply ascending_cons. split.
    - intros y Hy. unfold upd at 1. rewrite decide_True, <-Hupd by done. apply elem_of_cons in Hy as [->|Hy]; [lia|]. specialize (Hx y Hy). lia.
    - eapply ascending_ext; [|exact Hxl]. intros y Hy. by apply Hupd. }
  destruct (Z.leb_spec t (sched x)); [apply Hcoalesce; [done|lia]|]. destruct (Z.ltb_spec (sched x) e); [apply Hcontinue; [done|lia]|].
  destruct l as [|y l]; [apply Hcoalesce; [done|lia]|]. destruct (sched y <=? t); [apply Hcontinue; [done|lia]|].
  destruct (_ && _); [apply Hcontinue; [done|lia]|apply Hcoalesce; [done|lia]].
Qed.

(** ** The invariant *)

Definition sched (s : TimerSys) (id : Z) : Z := scheduled_time_ (timer_at s id).
Definition all_timers (s : TimerSys) : list Z := flat_map timer_list_ (queues s).

(** The hardware timer of a cpu is set in time for its queue and its preemption timer. *)
Definition armed (c : nat) (s : TimerSys) : Prop := next_timer_deadline_ (queue_at s c) <= queue_deadline c s.

(** [ex] is a cpu whose hardware timer need not be set in time yet. *)
Record tinv_but (ex : option nat) (s : TimerSys) : Prop := {
  ti_len : length (hw s) = length (queues s) /\ length (cpus s) = length (queues s);
  ti_nodup : NoDup (all_timers s);
  ti_sorted : forall c, ascending (sched s) (timer_list_ (queue_at s c));
  ti_queued : forall id, id ∈ all_timers s -> callback_ (timer_at s id) = true /\ (id ∉ cancelling s) /\
    exists e l, window s !! id = Some (e, l) /\ e <= sched s id <= l /\ sched s id <= ZX_TIME_INFINITE;
  ti_active : forall id c, active_cpu_ (timer_at s id) = Some c <-> exists now, cpus s !! c = Some (CpuCallback now id);
  ti_active_queue : forall id c, id ∈ timer_list_ (queue_at s c) -> active_cpu_ (timer_at s id) = None \/ active_cpu_ (timer_at s id) = Some c;
  ti_cancel : forall id, id ∈ cancelling s -> cancel_ (timer_at s id) = true;
  ti_next : forall c, next_timer_deadline_ (queue_at s c) <= ZX_TIME_INFINITE /\
    (next_timer_deadline_ (queue_at s c) < ZX_TIME_INFINITE -> hw s !! c = Some (Some (next_timer_deadline_ (queue_at s c))));
  ti_preempt : forall c, preempt_timer_deadline_ (queue_at s c) <= ZX_TIME_INFINITE;
  ti_armed : forall c, ex <> Some c -> cpus s !! c = Some CpuThread -> armed c s;
  ti_fired : Forall (fun f => fst (f_window f) <= f_scheduled f <= snd (f_window f) /\ f_scheduled f <= f_now f) (fired s);
}.

Abbreviation tinv := (tinv_but None).

Lemma timer_at_set id t s x : timer_at (set_timer id t s) x = if decide (x = id) then t else timer_at s x.
Proof. unfold timer_at. cbn. destruct (decide (x = id)) as [->|]; [by rewrite lookup_insert_eq|by rewrite lookup_insert_ne]. Qed.

Lemma queue_at_set c q s c' : (c < length (queues s))%nat -> queue_at (set_queue c q s) c' = if decide (c' = c) then q else queue_at s c'.
Proof.
  intros Hc. unfold queue_at. cbn. destruct (decide (c' = c)) as [->|]; [by rewrite list_lookup_insert_eq|by rewrite list_lookup_insert_ne].
Qed.

Lemma all_timers_set c q s :
  (c < length (queues s))%nat -> exists R, all_timers s ≡ₚ timer_list_ (queue_at s c) ++ R /\ all_timers (set_queue c q s) ≡ₚ timer_list_ q ++ R.
Proof.
  intros Hc. destruct (lookup_lt_is_Some_2 _ _ Hc) as [q0 Hq]. destruct (flat_map_insert timer_list_ (queues s) c q0 Hq) as (R & H1 & H2).
  exists R. unfold all_timers, queue_at. rewrite Hq. split; [done|]. apply H2.
Qed.

Lemma queue_at_all c s id : id ∈ timer_list_ (queue_at s c) -> id ∈ all_timers s.
Proof.
  unfold queue_at, all_timers. destruct (queues s !! c) as [q|] eqn:E; [|by intros ?%not_elem_of_nil]. cbn. intros Hi.
  apply list_elem_of_In, in_flat_map. exists q. split; [by eapply list_elem_of_In, list_elem_of_lookup_2|by apply list_elem_of_In].
Qed.

Lemma all_queue_at s id : id ∈ all_timers s -> exists c, (c < length (queues s))%nat /\ id ∈ timer_list_ (queue_at s c).
Proof.
  intros Hi. apply list_elem_of_In, in_flat_map in Hi as (q & Hq & Hi). apply list_elem_of_In, list_elem_of_lookup in Hq as [c Hc].
  exists c. split; [by eapply lookup_lt_Some|]. unfold queue_at. rewrite Hc. by apply list_elem_of_In.
Qed.

Lemma InContainer_spec id s : InContainer id s = true <-> id ∈ all_timers s.
Proof.
  unfold InContainer. rewrite existsb_exists. unfold all_timers. rewrite list_elem_of_In, in_flat_map. unfold in_queue.
  split; intros (q & H1 & H2); exists q; (split; [done|]); [by apply bool_decide_eq_true, list_elem_of_In in H2|by apply bool_decide_eq_true, list_elem_of_In].
Qed.

Lemma ascending_head sched l x y : ascending sched l -> head l = Some x -> y ∈ l -> sched x <= sched y.
Proof.
  destruct l as [|z l]; [done|]. intros [H _]%ascending_cons [= ->] [->|Hy]%elem_of_cons; [done|auto].
Qed.

(** *** Steps that keep the lists *)

Lemma tinv_set_timer ex id t s :
  tinv_but ex s -> (id ∈ all_timers s -> scheduled_time_ t = sched s id /\ callback_ t = true) ->
  active_cpu_ t = active_cpu_ (timer_at s id) -> (id ∈ cancelling s -> cancel_ t = true) -> tinv_but ex (set_timer id t s).
Proof.
  intros [] Hs Ha Hc. assert (forall x, x ∈ all_timers s -> sched (set_timer id t s) x = sched s x) as Es.
  { intros x Hx. unfold sched in *. rewrite timer_at_set. case_decide as E; [subst; by apply Hs|done]. }
  constructor; try done.
  - intros c. eapply ascending_ext; [|apply (ti_sorted0 c)]. intros x Hx. by rewrite Es by (by eapply queue_at_all).
  - intros x Hx. rewrite (Es x Hx). destruct (ti_queued0 x Hx) as (H1 & H2 & H3). split_and!; try done. rewrite timer_at_set. case_decide as E; [subst; by apply Hs|done].
  - intros x c. rewrite timer_at_set. case_decide as E; [subst; by rewrite Ha|done].
  - intros x c Hx. rewrite timer_at_set. case_decide as E; [subst; rewrite Ha|]; by apply (ti_active_queue0 _ c).
  - intros x Hx. rewrite timer_at_set. case_decide as E; [subst; auto|auto].
  - intros c Hex Hcpu. specialize (ti_armed0 c Hex Hcpu). unfold armed, queue_deadline in *. change (queue_at (set_timer id t s)) with (queue_at s).
    pose proof (fun x => queue_at_all c s x) as Hq. destruct (timer_list_ (queue_at s c)) as [|x l]; [done|].
    specialize (Es x (Hq x (list_elem_of_here x l))). unfold sched in Es. by rewrite Es.
Qed.

Lemma tinv_set_window ex id w s : tinv_but ex s -> (id ∉ all_timers s) -> tinv_but ex (set_window id w s).
Proof.
  intros [] Hn. constructor; try done. intros x Hx. cbn. change (all_timers (set_window id w s)) with (all_timers s) in Hx.
  rewrite lookup_insert_ne by (by intros ->). by apply ti_queued0.
Qed.

Lemma Zmin_if a b : (if a <? b then a else b) = Z.min a b.
Proof. destruct (Z.ltb_spec a b); lia. Qed.

Lemma queue_deadline_same c s s' :
  timer_list_ (queue_at s' c) = timer_list_ (queue_at s c) -> preempt_timer_deadline_ (queue_at s' c) = preempt_timer_deadline_ (queue_at s c) ->
  (forall id, sched s' id = sched s id) -> queue_deadline c s' = queue_deadline c s.
Proof. intros H1 H2 H3. unfold queue_deadline. rewrite H1, H2. unfold sched in H3. destruct (timer_list_ (queue_at s c)) as [|x l]; [done|]. by rewrite H3. Qed.

Lemma queue_deadline_preempt c s : queue_deadline c s <= preempt_timer_deadline_ (queue_at s c).
Proof. unfold queue_deadline. cbv zeta. rewrite Zmin_if. lia. Qed.

Lemma UpdatePlatformTimer_inv c d s :
  tinv_but (Some c) s -> (c < length (queues s))%nat -> d <= ZX_TIME_INFINITE ->
  (cpus s !! c = Some CpuThread -> Z.min (next_timer_deadline_ (queue_at s c)) d <= queue_deadline c s) -> tinv (UpdatePlatformTimer c d s).
Proof.
  intros [] Hc Hd Hmin. unfold UpdatePlatformTimer. destruct (Z.ltb_spec d (next_timer_deadline_ (queue_at s c))) as [Hlt|Hge].
  - set (s' := set_hw _ _ _). assert (forall c', queue_at s' c' = if decide (c' = c) then with_next d (queue_at s c) else queue_at s c') as Eq.
    { intros c'. change (queue_at s') with (queue_at (set_queue c (with_next d (queue_at s c)) s)). by apply queue_at_set. }
    assert (forall c', timer_list_ (queue_at s' c') = timer_list_ (queue_at s c') /\ preempt_timer_deadline_ (queue_at s' c') = preempt_timer_deadline_ (queue_at s c')) as El.
    { intros c'. rewrite Eq. by case_decide as E; [subst|]. }
    assert (all_timers s' ≡ₚ all_timers s) as Ea.
    { change (all_timers s') with (all_timers (set_queue c (with_next d (queue_at s c)) s)).
      destruct (all_timers_set c (with_next d (queue_at s c)) s Hc) as (R & -> & ->). done. }
    assert (forall c', queue_deadline c' s' = queue_deadline c' s) as Ed by (intros c'; apply queue_deadline_same; [apply El|apply El|done]).
    constructor; try done.
    + cbn. by rewrite !length_insert.
    + by rewrite Ea.
    + intros c'. rewrite (proj1 (El c')). apply ti_sorted0.
    + intros id. rewrite Ea. apply ti_queued0.
    + intros id c'. rewrite (proj1 (El c')). apply ti_active_queue0.
    + intros c'. rewrite Eq. case_decide as E; [subst; cbn; split; [done|]; intros _; apply list_lookup_insert_eq; lia|].
      cbn. rewrite list_lookup_insert_ne by done. apply ti_next0.
    + intros c'. rewrite (proj2 (El c')). apply ti_preempt0.
    + intros c' _ Hcpu. unfold armed. rewrite Ed, Eq. case_decide as E; [subst; cbn; specialize (Hmin Hcpu); lia|]. apply ti_armed0; [congruence|done].
  - constructor; try done. intros c' _ Hcpu. destruct (decide (c' = c)) as [->|]; [|apply ti_armed0; [congruence|done]]. specialize (Hmin Hcpu). unfold armed. lia.
Qed.

Lemma tinv_weaken c s : tinv s -> tinv_but (Some c) s.
Proof. intros []. constructor; try done. intros c' _. by apply ti_armed0. Qed.

(** *** Inserting into a queue *)

(** What [Insert] leaves alone, and where it puts the timer. *)
Record inserted (c : nat) (id e l : Z) (s s' : TimerSys) : Prop := {
  in_sched : forall x, x <> id -> sched s' x = sched s x;
  in_window : e <= sched s' id <= l /\ (sched s' id = sched s id \/ exists x, x ∈ timer_list_ (queue_at s c) /\ sched s' id = sched s x);
  in_perm : timer_list_ (queue_at s' c) ≡ₚ id :: timer_list_ (queue_at s c);
  in_head : (head (timer_list_ (queue_at s' c)) = Some id /\ sched s' id = sched s id) \/
            head (timer_list_ (queue_at s' c)) = head (timer_list_ (queue_at s c));
  in_ascending : ascending (sched s') (timer_list_ (queue_at s' c));
  in_queue_rest : forall c', (c' <> c -> queue_at s' c' = queue_at s c') /\
    next_timer_deadline_ (queue_at s' c') = next_timer_deadline_ (queue_at s c') /\
    preempt_timer_deadline_ (queue_at s' c') = preempt_timer_deadline_ (queue_at s c');
  in_timer : forall x, callback_ (timer_at s' x) = callback_ (timer_at s x) /\ active_cpu_ (timer_at s' x) = active_cpu_ (timer_at s x) /\
    cancel_ (timer_at s' x) = cancel_ (timer_at s x);
  in_rest : hw s' = hw s /\ cpus s' = cpus s /\ window s' = window s /\ cancelling s' = cancelling s /\ fired s' = fired s /\
    length (queues s') = length (queues s);
}.

Lemma Insert_spec c id e l s :
  (c < length (queues s))%nat -> ascending (sched s) (timer_list_ (queue_at s c)) -> id ∉ timer_list_ (queue_at s c) ->
  e <= sched s id <= l -> inserted c id e l s (Insert c id e l s).
Proof.
  intros Hc Hs Hn Hw. unfold Insert. destruct (insert_loop _ id _ e l _) as [[l' slack] t'] eqn:E.
  apply (insert_loop_spec (sched s)) in E as (E1 & E2 & E3 & E4 & E5); try done.
  set (s1 := set_timer id _ s). assert (forall x, sched s1 x = upd id t' (sched s) x) as Es.
  { intros x. unfold sched, s1, upd. rewrite timer_at_set. by case_decide. }
  assert (sched s1 id = t') as Ei by (rewrite Es; unfold upd; by rewrite decide_True).
  assert (forall c', queue_at (set_queue c (with_list l' (queue_at s c)) s1) c' = if decide (c' = c) then with_list l' (queue_at s c) else queue_at s c') as Eq.
  { intros c'. by apply (queue_at_set c _ s1). }
  change (sched (set_queue c _ s1)) with (sched s1). constructor; try change (sched (set_queue c _ s1)) with (sched s1).
  - intros x Hx. rewrite Es. unfold upd. by rewrite decide_False.
  - rewrite Ei. split; [done|]. exact E4.
  - rewrite Eq, decide_True by done. done.
  - rewrite Eq, decide_True by done. cbn. rewrite Ei. exact E5.
  - rewrite Eq, decide_True by done. eapply ascending_ext; [|exact E2]. intros x _. by rewrite Es.
  - intros c'. rewrite Eq. case_decide as H; [rewrite H|]; done.
  - intros x. change (timer_at (set_queue c _ s1) x) with (timer_at s1 x). unfold s1. rewrite timer_at_set. by case_decide as H; [rewrite H|].
  - split_and!; try done. cbn. by rewrite length_insert.
Qed.

Lemma inserted_all c id e l s s' : (c < length (queues s))%nat -> inserted c id e l s s' -> queues s' = <[c := queue_at s' c]> (queues s) -> all_timers s' ≡ₚ id :: all_timers s.
Proof.
  intros Hc [] Hq. destruct (all_timers_set c (queue_at s' c) s Hc) as (R & H1 & H2). unfold all_timers at 1. rewrite Hq.
  unfold all_timers, set_queue in H2. cbn in H2. rewrite H2, H1, in_perm0. done.
Qed.

Lemma Insert_queues c id e l s : (c < length (queues s))%nat -> queues (Insert c id e l s) = <[c := queue_at (Insert c id e l s) c]> (queues s).
Proof.
  intros Hc. unfold Insert. destruct (insert_loop _ id _ e l _) as [[l' slack] t']. rewrite queue_at_set by done. by rewrite decide_True.
Qed.

(** The deadline a queue needs after an insertion. *)
Lemma inserted_deadline c id e l s s' :
  inserted c id e l s s' -> id ∉ timer_list_ (queue_at s c) ->
  (head (timer_list_ (queue_at s' c)) = Some id /\ queue_deadline c s' = Z.min (sched s id) (preempt_timer_deadline_ (queue_at s c))) \/
  (head (timer_list_ (queue_at s' c)) <> Some id /\ queue_deadline c s' = queue_deadline c s).
Proof.
  intros [] Hn. unfold queue_deadline. destruct (in_queue_rest0 c) as (_ & _ & ->).
  destruct in_head0 as [[Hh Hs]|Hh].
  - left. split; [done|]. destruct (timer_list_ (queue_at s' c)) as [|x l'] eqn:El; [done|]. injection Hh as ->. fold (sched s' id). rewrite Hs. case_if; lia.
  - right. split.
    + rewrite Hh. intros Hx. apply Hn. destruct (timer_list_ (queue_at s c)); [done|]. injection Hx as ->. by left.
    + destruct (timer_list_ (queue_at s' c)) as [|x l'] eqn:El, (timer_list_ (queue_at s c)) as [|y l0]; try done. injection Hh as ->.
      fold (sched s' y) (sched s y). rewrite in_sched0; [done|]. intros ->. apply Hn. by left.
Qed.

Lemma Insert_inv ex c id e l s :
  tinv_but ex s -> (c < length (queues s))%nat -> (id ∉ all_timers s) -> callback_ (timer_at s id) = true -> (id ∉ cancelling s) ->
  e <= sched s id <= l -> sched s id <= ZX_TIME_INFINITE -> (exists e0 l0, window s !! id = Some (e0, l0) /\ e0 <= e /\ l <= l0) ->
  (active_cpu_ (timer_at s id) = None \/ active_cpu_ (timer_at s id) = Some c) ->
  (forall c', ex <> Some c' -> c' <> c) -> tinv_but ex (Insert c id e l s).
Proof.
  intros Hi Hc Hn Hcb Hcan Hw Hinf (e0 & l0 & Hwin & He & Hl) Hact Hex. pose proof Hi as [].
  assert (id ∉ timer_list_ (queue_at s c)) as Hnc by (intros H; apply Hn; by eapply queue_at_all).
  pose proof (Insert_spec c id e l s Hc (ti_sorted0 c) Hnc Hw) as Hins. pose proof (inserted_all _ _ _ _ _ _ Hc Hins (Insert_queues c id e l s Hc)) as Hall.
  pose proof Hins as []. destruct in_rest0 as (R1 & R2 & R3 & R4 & R5 & R6). set (s' := Insert c id e l s) in *.
  assert (forall c' x, c' <> c -> x ∈ timer_list_ (queue_at s c') -> x <> id) as Hother by (intros c' x _ Hx ->; apply Hn; by eapply queue_at_all).
  constructor; try (by rewrite ?R1, ?R2, ?R4, ?R5, ?R6).
  - rewrite Hall. by constructor.
  - intros c'. destruct (decide (c' = c)) as [->|Hne]; [done|]. rewrite (proj1 (in_queue_rest0 c') Hne).
    eapply ascending_ext; [|apply (ti_sorted0 c')]. intros x Hx. rewrite in_sched0; [done|]. by eapply Hother.
  - intros x Hx. rewrite Hall in Hx. rewrite R3, R4, (proj1 (in_timer0 x)). destruct (decide (x = id)) as [->|Hne].
    + split_and!; try done. exists e0, l0. destruct in_window0 as [Hb Hor]. split_and!; try done; try lia.
      destruct Hor as [->|(y & Hy & ->)]; [done|]. by destruct (ti_queued0 y (queue_at_all c s y Hy)) as (_ & _ & ? & ? & _ & _ & ?).
    + apply elem_of_cons in Hx as [?|Hx]; [done|]. rewrite in_sched0 by done. by apply ti_queued0.
  - intros x c'. rewrite (proj1 (proj2 (in_timer0 x))), R2. apply ti_active0.
  - intros x c'. rewrite (proj1 (proj2 (in_timer0 x))). destruct (decide (c' = c)) as [->|Hne]; [|rewrite (proj1 (in_queue_rest0 c') Hne); apply ti_active_queue0].
    rewrite in_perm0. intros [->|Hx]%elem_of_cons; [done|by apply ti_active_queue0].
  - intros x. rewrite R4, (proj2 (proj2 (in_timer0 x))). apply ti_cancel0.
  - intros c'. destruct (in_queue_rest0 c') as (_ & -> & _). rewrite R1. apply ti_next0.
  - intros c'. destruct (in_queue_rest0 c') as (_ & _ & ->). apply ti_preempt0.
  - intros c' Hc' Hcpu. rewrite R2 in Hcpu. specialize (ti_armed0 c' Hc' Hcpu). unfold armed, queue_deadline in *. specialize (Hex c' Hc').
    rewrite (proj1 (in_queue_rest0 c') Hex). destruct (timer_list_ (queue_at s c')) as [|x l1] eqn:El; [done|].
    fold (sched s x) in ti_armed0. fold (sched s' x). rewrite in_sched0; [done|]. eapply (Hother c'); [done|]. rewrite El. by left.
Qed.

(** *** Setting a timer *)

Lemma set_deadline_ok_spec d : set_deadline_ok d = true -> deadline_ok d.
Proof. unfold set_deadline_ok, deadline_ok, time_ok. rewrite !andb_true_iff, !Z.leb_le. lia. Qed.

Lemma Set_arm_inv c id d t s :
  tinv s -> (c < length (queues s))%nat -> deadline_ok d -> (id ∉ all_timers s) -> (id ∉ cancelling s) ->
  t = mkTimer (when_ d) (slack_ (timer_at s id)) true (active_cpu_ (timer_at s id)) false ->
  (active_cpu_ (timer_at s id) = None \/ active_cpu_ (timer_at s id) = Some c) ->
  let s1 := Insert c id (earliest d) (latest d) (set_window id (earliest d, latest d) (set_timer id t s)) in
  tinv (match timer_list_ (queue_at s1 c) with head :: _ => if head =? id then UpdatePlatformTimer c (when_ d) s1 else s1 | [] => s1 end).
Proof.
  intros Hi Hc Hd Hn Hcan Ht Hact s1. destruct (window_ok d Hd) as ([Hw1 Hw2] & _ & _). destruct Hd as [[_ Hd] _].
  set (s0 := set_window id (earliest d, latest d) (set_timer id t s)) in *.
  assert (tinv s0) as Hi0. { apply tinv_set_window; [|done]. apply tinv_set_timer; [done|done|by rewrite Ht|done]. }
  assert (timer_at s0 id = t) as Et. { change (timer_at s0 id) with (timer_at (set_timer id t s) id). rewrite timer_at_set. by rewrite decide_True. }
  assert (sched s0 id = when_ d) as Es by (unfold sched; by rewrite Et, Ht).
  assert (id ∉ timer_list_ (queue_at s0 c)) as Hnq by (intros H; apply Hn; by eapply (queue_at_all c s)).
  assert (tinv_but (Some c) s1) as Hi1.
  { apply Insert_inv; try done; [by apply tinv_weaken|by rewrite Et, Ht|by rewrite Es|by rewrite Es| |by rewrite Et, Ht|congruence].
    exists (earliest d), (latest d). split; [apply lookup_insert_eq|done]. }
  assert (inserted c id (earliest d) (latest d) s0 s1) as Hins by (apply Insert_spec; [done|apply Hi0|done|by rewrite Es]).
  pose proof (inserted_deadline _ _ _ _ _ _ Hins Hnq) as Hdl. destruct (in_queue_rest _ _ _ _ _ _ Hins c) as (_ & Hnx & _).
  assert (cpus s1 !! c = Some CpuThread -> next_timer_deadline_ (queue_at s1 c) <= queue_deadline c s0) as Harm.
  { intros Hcpu. rewrite Hnx. apply (ti_armed _ _ Hi0 c); [done|]. by destruct (in_rest _ _ _ _ _ _ Hins) as (_ & <- & _). }
  destruct Hdl as [[Hh Hdl]|[Hh Hdl]].
  - destruct (timer_list_ (queue_at s1 c)) as [|x l] eqn:El; [done|]. injection Hh as ->. rewrite Z.eqb_refl.
    apply UpdatePlatformTimer_inv; [done| |done|].
    { by destruct (in_rest _ _ _ _ _ _ Hins) as (_ & _ & _ & _ & _ & ->). }
    intros Hcpu. rewrite Hdl, Es. specialize (Harm Hcpu). pose proof (queue_deadline_preempt c s0). lia.
  - assert (tinv s1) as Ht1.
    { destruct Hi1. constructor; try done. intros c' _ Hcpu. destruct (decide (c' = c)) as [->|]; [|apply ti_armed0; [congruence|done]].
      unfold armed. rewrite Hdl. by apply Harm. }
    destruct (timer_list_ (queue_at s1 c)) as [|x l]; [done|]. destruct (Z.eqb_spec x id) as [->|]; [done|done].
Qed.

(** When an owner may set a timer: it is on no queue, its callback does not run on another cpu
    (on these two [Set] panics), and no other thread is inside [Cancel] for it. *)
Definition may_set (c : nat) (id : Z) (s : TimerSys) : bool :=
  negb (InContainer id s) && (active_on c id s || (negb (is_cancelling id s) && bool_decide (active_cpu_ (timer_at s id) = None))).

(** When an owner may cancel a timer: from its callback only if that has not set it again, and
    otherwise if no other thread is inside [Cancel] for it. *)
Definition may_cancel (c : nat) (id : Z) (s : TimerSys) : bool :=
  if active_on c id s then negb (InContainer id s) else negb (is_cancelling id s).

Lemma Timer_Set_inv c id d s :
  tinv s -> (c < length (queues s))%nat -> set_deadline_ok d = true -> may_set c id s = true -> exists s', Timer_Set c id d s = Some s' /\ tinv s'.
Proof.
  intros Hi Hc Hd%set_deadline_ok_spec [Hn Hm]%andb_true_iff. unfold Timer_Set. rewrite negb_true_iff in Hn. rewrite Hn.
  assert (id ∉ all_timers s) as Hna by (rewrite <-InContainer_spec, Hn; done).
  assert ((id ∉ cancelling s) -> (active_cpu_ (timer_at s id) = None \/ active_cpu_ (timer_at s id) = Some c) -> tinv (let s1 := Insert c id (earliest d) (latest d) (set_window id (earliest d, latest d)
    (set_timer id (mkTimer (when_ d) (slack_ (timer_at s id)) true (active_cpu_ (timer_at s id)) false) s)) in
    match timer_list_ (queue_at s1 c) with head :: _ => if head =? id then UpdatePlatformTimer c (when_ d) s1 else s1 | [] => s1 end)) as Harm.
  { intros H Hact. by apply Set_arm_inv. }
  cbv zeta in *. unfold active_on, is_cancelling in Hm. destruct (active_cpu_ (timer_at s id)) as [a|] eqn:Ea.
  - destruct (decide (a = c)) as [->|Hne].
    + rewrite bool_decide_true by done. destruct (cancel_ (timer_at s id)) eqn:Ecan; [by eexists|].
      eexists. split; [done|]. apply Harm; [|by right]. intros H%(ti_cancel _ _ Hi). congruence.
    + rewrite !bool_decide_false in Hm by congruence. rewrite andb_false_r in Hm. done.
  - eexists. split; [done|]. apply Harm; [|by left]. rewrite bool_decide_false in Hm by done. cbn in Hm. apply andb_true_iff in Hm as [Hm _].
    by rewrite negb_true_iff, bool_decide_eq_false in Hm.
Qed.

(** *** Lists that shrink *)

Definition shrinks (q q' : TimerQueue) : Prop :=
  sublist (timer_list_ q') (timer_list_ q) /\ preempt_timer_deadline_ q' = preempt_timer_deadline_ q /\ next_timer_deadline_ q' = next_timer_deadline_ q.

#[export] Instance shrinks_refl : Reflexive shrinks.
Proof. intros q. by split. Qed.

Lemma ascending_sublist sched l l' : sublist l' l -> ascending sched l -> ascending sched l'.
Proof.
  induction 1 as [|x l' l Hs IH|x l' l Hs IH]; intros Ha; [apply SSorted_nil| |].
  - apply ascending_cons in Ha as [H1 H2]. apply ascending_cons. split; [|auto]. intros y Hy. apply H1. by eapply elem_of_sublist.
  - apply ascending_cons in Ha as [_ H2]. auto.
Qed.

Lemma flat_map_shrinks qs qs' : Forall2 shrinks qs qs' -> sublist (flat_map timer_list_ qs') (flat_map timer_list_ qs).
Proof. induction 1 as [|q q' qs qs' [H _] _ IH]; cbn; [done|]. by apply sublist_app. Qed.

Lemma shrinks_queue_at qs s c : Forall2 shrinks (queues s) qs -> shrinks (queue_at s c) (queue_at (set_queues qs s) c).
Proof.
  intros H. unfold queue_at. cbn. destruct (queues s !! c) as [q|] eqn:E.
  - destruct (Forall2_lookup_l _ _ _ _ _ H E) as (q' & -> & Hq). done.
  - apply lookup_ge_None in E. rewrite (lookup_ge_None_2 qs) by (by rewrite <-(Forall2_length _ _ _ H)). done.
Qed.

Lemma tinv_shrink ex qs s : tinv_but ex s -> Forall2 shrinks (queues s) qs -> tinv_but ex (set_queues qs s).
Proof.
  intros [] Hf. pose proof (fun c => shrinks_queue_at qs s c Hf) as Hq. pose proof (flat_map_shrinks _ _ Hf) as Hall.
  constructor; try done.
  - cbn. by rewrite <-(Forall2_length _ _ _ Hf).
  - by eapply sublist_NoDup.
  - intros c. eapply ascending_sublist; [apply Hq|]. apply ti_sorted0.
  - intros id Hid. apply ti_queued0. by eapply elem_of_sublist.
  - intros id c Hid. apply (ti_active_queue0 id c). eapply elem_of_sublist; [exact Hid|apply Hq].
  - intros c. destruct (Hq c) as (_ & _ & ->). apply ti_next0.
  - intros c. destruct (Hq c) as (_ & -> & _). apply ti_preempt0.
  - intros c Hex Hcpu. specialize (ti_armed0 c Hex Hcpu). unfold armed, queue_deadline in *. destruct (Hq c) as (Hs & -> & ->).
    assert (match timer_list_ (queue_at s c) with id :: _ => sched s id | [] => ZX_TIME_INFINITE end <=
            match timer_list_ (queue_at (set_queues qs s) c) with id :: _ => sched s id | [] => ZX_TIME_INFINITE end) as Hle.
    { destruct (timer_list_ (queue_at s c)) as [|x l] eqn:El; [by rewrite (proj1 (sublist_nil_r _) Hs)|].
      destruct (timer_list_ (queue_at (set_queues qs s) c)) as [|y l'].
      - destruct (ti_queued0 x) as (_ & _ & ? & ? & _ & _ & ?); [|done]. eapply (queue_at_all c). rewrite El. by left.
      - specialize (ti_sorted0 c). rewrite El in ti_sorted0. eapply ascending_head; [done|done|]. eapply elem_of_sublist; [by left|done]. }
    unfold sched in Hle. change (timer_at (set_queues qs s)) with (timer_at s). cbv zeta in *.
    rewrite !Zmin_if in *. lia.
Qed.

(** Removing a timer shrinks the lists. *)
Lemma remove_shrinks id s : Forall2 shrinks (queues s) (map (remove_timer id) (queues s)).
Proof. induction (queues s) as [|q qs IH]; cbn; constructor; [|done]. split; [apply sublist_filter|done]. Qed.

Lemma set_queue_shrinks c q s : shrinks (queue_at s c) q -> Forall2 shrinks (queues s) (<[c := q]> (queues s)).
Proof.
  intros H. destruct (decide (c < length (queues s))%nat) as [Hc|Hc].
  - destruct (lookup_lt_is_Some_2 _ _ Hc) as [q0 Hq]. unfold queue_at in H. rewrite Hq in H. rewrite <-(list_insert_id (queues s) c q0 Hq) at 1.
    apply Forall2_insert; [|done]. apply Forall_Forall2_diag, Forall_true. reflexivity.
  - rewrite list_insert_ge by lia. apply Forall_Forall2_diag, Forall_true. reflexivity.
Qed.

Lemma remove_not_in id s : id ∉ all_timers (RemoveFromContainer id s).
Proof.
  intros (q & Hq & Hi)%list_elem_of_In%in_flat_map. cbn in Hq. apply in_map_iff in Hq as (q0 & <- & _). cbn in Hi.
  apply list_elem_of_In, list_elem_of_filter in Hi as [Hne _]. done.
Qed.

(** *** Cancelling *)

Lemma set_hw_None_inv ex c s : tinv_but ex s -> next_timer_deadline_ (queue_at s c) = ZX_TIME_INFINITE -> tinv_but ex (set_hw c None s).
Proof.
  intros [] Hn. constructor; try done; [cbn; by rewrite length_insert|]. intros c'. change (queue_at (set_hw c None s)) with (queue_at s).
  destruct (ti_next0 c') as [H1 H2]. split; [done|]. intros Hlt. cbn. destruct (decide (c' = c)) as [->|]; [lia|]. rewrite list_lookup_insert_ne by done. auto.
Qed.

Lemma tinv_cancelling ex l s :
  tinv_but ex s -> (forall id, id ∈ l -> id ∈ cancelling s \/ ((id ∉ all_timers s) /\ cancel_ (timer_at s id) = true)) -> tinv_but ex (set_cancelling l s).
Proof.
  intros [] Hl. constructor; try done.
  - intros id Hid. destruct (ti_queued0 id Hid) as (H1 & H2 & H3). split_and!; try done. intros Hin. cbn in Hin. by destruct (Hl id Hin) as [?|[? _]].
  - intros id Hid. destruct (Hl id Hid) as [?|[_ ?]]; [|done]. by apply ti_cancel0.
Qed.

Lemma all_timers_same c q s : timer_list_ q = timer_list_ (queue_at s c) -> all_timers (set_queue c q s) = all_timers s.
Proof.
  intros Hq. unfold all_timers, set_queue. cbn. rewrite !flat_map_concat_map. f_equal. rewrite (list_fmap_insert timer_list_). apply list_insert_id'.
  intros Hc. rewrite length_fmap in Hc. rewrite list_lookup_fmap. unfold queue_at in Hq. destruct (lookup_lt_is_Some_2 _ _ Hc) as [q0 E]. rewrite E in *. by rewrite Hq.
Qed.

Lemma UpdatePlatformTimer_rest c d s : let s' := UpdatePlatformTimer c d s in
  cancelling s' = cancelling s /\ timers s' = timers s /\ cpus s' = cpus s /\ all_timers s' = all_timers s /\ length (queues s') = length (queues s).
Proof.
  unfold UpdatePlatformTimer. destruct (_ <? _); [|done]. split_and!; try done; [|cbn; by rewrite length_insert].
  by apply (all_timers_same c (with_next d (queue_at s c)) s).
Qed.

Lemma UpdatePlatformTimer_other c d s c' : c' <> c -> queue_at (UpdatePlatformTimer c d s) c' = queue_at s c'.
Proof. intros Hne. unfold UpdatePlatformTimer, queue_at. destruct (_ <? _); [|done]. cbn. by rewrite list_lookup_insert_ne. Qed.

(** The hardware timer is updated for the new head of a list that shrank. *)
Lemma Update_head_inv c h l s :
  tinv s -> (c < length (queues s))%nat -> timer_list_ (queue_at s c) = h :: l -> tinv (UpdatePlatformTimer c (sched s h) s).
Proof.
  intros Hi Hc El. destruct (ti_queued _ _ Hi h) as (_ & _ & ? & ? & _ & _ & ?); [eapply (queue_at_all c); rewrite El; by left|].
  apply UpdatePlatformTimer_inv; [by apply tinv_weaken|done|done|]. intros Hcpu. pose proof (ti_armed _ _ Hi c ltac:(done) Hcpu) as Ha. unfold armed in Ha. lia.
Qed.

Lemma Timer_Cancel_inv c id s :
  tinv s -> (c < length (queues s))%nat -> (active_on c id s && InContainer id s = false) ->
  tinv (let '(s', _, wait) := Timer_Cancel_locked c id s in if (wait : bool) then set_cancelling (id :: cancelling s') s' else s').
Proof.
  intros Hi Hc Hsafe. unfold Timer_Cancel_locked. set (t := timer_at s id).
  set (s1 := set_timer id (mkTimer (scheduled_time_ t) (slack_ t) (callback_ t) (active_cpu_ t) true) s).
  assert (tinv s1) as H1.
  { apply tinv_set_timer; try done. intros Hin. split; [done|]. by apply (ti_queued _ _ Hi id Hin). }
  assert (cancel_ (timer_at s1 id) = true) as Hcan by (unfold s1; rewrite timer_at_set; by rewrite decide_True).
  change (InContainer id s1) with (InContainer id s). unfold active_on in Hsafe. fold t in Hsafe. case_bool_decide as Ha.
  { cbn in Hsafe. apply tinv_set_timer; [done| |unfold s1; rewrite timer_at_set; by rewrite decide_True|done]. intros Hin. rewrite <-InContainer_spec in Hin.
    change (InContainer id s1) with (InContainer id s) in Hin. congruence. }
  assert (forall s', tinv s' -> timers s' = timers s1 -> (id ∉ all_timers s') -> tinv (set_cancelling (id :: cancelling s') s')) as Hfin.
  { intros s' Hi' Ht' Hn. apply tinv_cancelling; [done|]. intros x [->|Hx]%elem_of_cons; [right|by left]. split; [done|]. unfold timer_at. by rewrite Ht'. }
  destruct (InContainer id s) eqn:Ein; [|apply Hfin; [done|done|]; rewrite <-InContainer_spec; change (InContainer id s1) with (InContainer id s); congruence].
  pose proof (tinv_shrink _ _ _ H1 (remove_shrinks id s1)) as H2. fold (RemoveFromContainer id s1) in H2. pose proof (remove_not_in id s1) as Hn.
  set (s2 := RemoveFromContainer id s1) in *. assert (c < length (queues s2))%nat as Hc2 by (cbn; by rewrite length_map).
  case_bool_decide; [|by apply Hfin]. destruct (timer_list_ (queue_at s2 c)) as [|h l] eqn:El.
  - destruct (Z.eqb_spec (next_timer_deadline_ (queue_at s2 c)) ZX_TIME_INFINITE); apply Hfin; try done. by apply set_hw_None_inv.
  - destruct (UpdatePlatformTimer_rest c (scheduled_time_ (timer_at s2 h)) s2) as (_ & Ht & _ & Hall & _).
    apply Hfin; [by eapply (Update_head_inv c h l)|by rewrite Ht|by rewrite Hall].
Qed.

Lemma Timer_Cancel_finish_inv id s :
  tinv s -> id ∈ cancelling s -> tinv (set_cancelling (filter (fun x => x <> id) (cancelling s)) (Timer_Cancel_finish id s)).
Proof.
  intros Hi Hin. apply tinv_cancelling; [|intros x [_ Hx]%list_elem_of_filter; by left].
  apply tinv_set_timer; [done| |done|intros _; by apply (ti_cancel _ _ Hi)]. intros Hq. by destruct (ti_queued _ _ Hi id Hq) as (_ & ? & _).
Qed.

(** *** Ticks, preemption and thawing *)

Lemma tinv_strengthen c s : tinv_but (Some c) s -> (cpus s !! c = Some CpuThread -> armed c s) -> tinv s.
Proof.
  intros [] Ha. constructor; try done. intros c' _ Hcpu. destruct (decide (c' = c)) as [->|]; [by apply Ha|]. apply ti_armed0; [congruence|done].
Qed.

(** New deadlines for a queue whose list stays. *)
Lemma tinv_set_deadlines c q s :
  tinv_but (Some c) s -> timer_list_ q = timer_list_ (queue_at s c) -> preempt_timer_deadline_ q <= ZX_TIME_INFINITE ->
  next_timer_deadline_ q = ZX_TIME_INFINITE \/ next_timer_deadline_ q = next_timer_deadline_ (queue_at s c) -> tinv_but (Some c) (set_queue c q s).
Proof.
  intros Hi Hl Hp Hn. destruct (decide (c < length (queues s))%nat) as [Hc|Hc].
  2: { unfold set_queue. rewrite list_insert_ge by lia. by destruct s. }
  pose proof Hi as []. assert (forall c', timer_list_ (queue_at (set_queue c q s) c') = timer_list_ (queue_at s c')) as Eq.
  { intros c'. rewrite queue_at_set by done. by case_decide as E; [rewrite E|]. }
  constructor; try done.
  - cbn. by rewrite length_insert.
  - by rewrite all_timers_same.
  - intros c'. rewrite Eq. apply ti_sorted0.
  - intros id. rewrite all_timers_same by done. apply ti_queued0.
  - intros id c'. rewrite Eq. apply ti_active_queue0.
  - intros c'. rewrite queue_at_set by done. case_decide as E; [|apply ti_next0]. subst. destruct Hn as [Hn|Hn]; rewrite Hn; [lia|apply ti_next0].
  - intros c'. rewrite queue_at_set by done. case_decide as E; [done|apply ti_preempt0].
  - intros c' Hne Hcpu. specialize (ti_armed0 c' Hne Hcpu). unfold armed in *. rewrite (queue_deadline_same c' s); try done;
      rewrite queue_at_set, decide_False by congruence; done.
Qed.

Definition is_callback (st : CpuState) : bool := match st with CpuCallback _ _ => true | _ => false end.

Lemma tinv_set_cpu c st st0 s :
  tinv_but (Some c) s -> cpus s !! c = Some st0 -> is_callback st0 = false -> is_callback st = false -> tinv_but (Some c) (set_cpu c st s).
Proof.
  intros [] Hc H0 H1. constructor; try done.
  - cbn. by rewrite length_insert.
  - intros id c'. change (timer_at (set_cpu c st s)) with (timer_at s). rewrite ti_active0. cbn. destruct (decide (c' = c)) as [->|]; [|by rewrite list_lookup_insert_ne].
    rewrite list_lookup_insert_eq by (by eapply lookup_lt_Some). split; intros [now Hx]; rewrite ?Hc in Hx; injection Hx as ->; done.
  - intros c' Hne. cbn. rewrite list_lookup_insert_ne by congruence. apply (ti_armed0 c' Hne).
Qed.

Lemma queue_deadline_min c s :
  queue_deadline c s = Z.min (preempt_timer_deadline_ (queue_at s c)) (match timer_list_ (queue_at s c) with id :: _ => sched s id | [] => ZX_TIME_INFINITE end).
Proof. apply Zmin_if. Qed.

Lemma queue_deadline_inf c s : tinv_but (Some c) s -> queue_deadline c s <= ZX_TIME_INFINITE.
Proof. intros []. specialize (ti_preempt0 c). rewrite queue_deadline_min. lia. Qed.

Lemma PreemptReset_inv c d s : tinv s -> (c < length (queues s))%nat -> d <= ZX_TIME_INFINITE -> tinv (PreemptReset c d s).
Proof.
  intros Hi Hc Hd. unfold PreemptReset. apply UpdatePlatformTimer_inv; [|cbn; by rewrite length_insert|done|].
  - apply tinv_set_deadlines; [by apply tinv_weaken|done|done|by right].
  - intros Hcpu. pose proof (ti_armed _ _ Hi c ltac:(done) Hcpu) as Ha. unfold armed in Ha. rewrite queue_deadline_min in *.
    rewrite queue_at_set, decide_True by done. cbn [with_preempt timer_list_ next_timer_deadline_ preempt_timer_deadline_].
    change (sched (set_queue c (with_preempt d (queue_at s c)) s)) with (sched s). lia.
Qed.

Lemma ThawPercpu_inv c s : tinv s -> (c < length (queues s))%nat -> tinv (ThawPercpu c s).
Proof.
  intros Hi Hc. unfold ThawPercpu. set (s1 := set_queue _ _ _).
  assert (tinv_but (Some c) s1) as H1 by (apply tinv_set_deadlines; [by apply tinv_weaken|done|apply Hi|by left]).
  apply UpdatePlatformTimer_inv; [done|cbn; by rewrite length_insert|by apply queue_deadline_inf|lia].
Qed.

Lemma Tick_begin_inv c now s : tinv s -> in_thread c s = true -> tinv (Tick_begin c now s).
Proof.
  intros Hi Hcpu. unfold in_thread in Hcpu. destruct (cpus s !! c) as [[]|] eqn:E; try done.
  assert (c < length (cpus s))%nat as Hc by (by eapply lookup_lt_Some). assert (length (cpus s) = length (queues s)) as Hl by apply (ti_len _ _ Hi).
  unfold Tick_begin. set (q := if _ : bool then _ else _).
  assert (tinv_but (Some c) (set_cpu c (CpuTick now) s)) as H1 by (eapply tinv_set_cpu; [by apply tinv_weaken|done|done|done]).
  assert (timer_list_ q = timer_list_ (queue_at s c) /\ preempt_timer_deadline_ q <= ZX_TIME_INFINITE /\ next_timer_deadline_ q = ZX_TIME_INFINITE) as (Q1 & Q2 & Q3).
  { pose proof (ti_preempt _ _ Hi c). unfold q. by destruct (_ <=? _). }
  apply (tinv_strengthen c).
  - apply set_hw_None_inv; [apply tinv_set_deadlines; try done; by left|]. rewrite queue_at_set by (cbn; lia). by rewrite decide_True.
  - intros Hx. cbn in Hx. rewrite list_lookup_insert_eq in Hx by done. done.
Qed.

Lemma Tick_end_inv c now s : tinv s -> cpus s !! c = Some (CpuTick now) -> tinv (Tick_end c s).
Proof.
  intros Hi E. assert (c < length (cpus s))%nat as Hc by (by eapply lookup_lt_Some). assert (length (cpus s) = length (queues s)) as Hl by apply (ti_len _ _ Hi).
  assert (Tick_end c s = UpdatePlatformTimer c (queue_deadline c (set_cpu c CpuThread s)) (set_cpu c CpuThread s)) as ->.
  { unfold Tick_end, UpdatePlatformTimer. change (queue_deadline c (set_cpu c CpuThread s)) with (queue_deadline c s).
    change (queue_at (set_cpu c CpuThread s)) with (queue_at s). by destruct (_ <? _). }
  assert (tinv_but (Some c) (set_cpu c CpuThread s)) as H1 by (eapply tinv_set_cpu; [by apply tinv_weaken|done|done|done]).
  apply UpdatePlatformTimer_inv; [done|cbn; lia|by apply queue_deadline_inf|lia].
Qed.

(** Marking a timer active on a cpu that ran no callback, and idle again. *)
Lemma tinv_activate c now id st s :
  tinv s -> cpus s !! c = Some st -> is_callback st = false -> (forall c', id ∈ timer_list_ (queue_at s c') -> c' = c) ->
  active_cpu_ (timer_at s id) = None ->
  let t := timer_at s id in
  tinv (set_cpu c (CpuCallback now id) (set_timer id (mkTimer (scheduled_time_ t) (slack_ t) (callback_ t) (Some c) (cancel_ t)) s)).
Proof.
  intros Hi E Hst Hq Hact t. pose proof Hi as []. set (s' := set_cpu _ _ _).
  assert (forall x, timer_at s' x = if decide (x = id) then mkTimer (scheduled_time_ t) (slack_ t) (callback_ t) (Some c) (cancel_ t) else timer_at s x) as Et by apply timer_at_set.
  assert (forall x, sched s' x = sched s x) as Es by (intros x; unfold sched; rewrite Et; case_decide as Hx; [by rewrite Hx|done]).
  assert (c < length (cpus s))%nat as Hc by (by eapply lookup_lt_Some).
  constructor; try done.
  - cbn. by rewrite length_insert.
  - intros c'. eapply ascending_ext; [|apply (ti_sorted0 c')]. intros x _. by rewrite Es.
  - intros x Hx. rewrite Es, Et. destruct (ti_queued0 x Hx) as (H1 & H2 & H3). split_and!; try done. by case_decide as Hd; [rewrite Hd in H1|].
  - intros x c'. rewrite Et. cbn. case_decide as Hd.
    + subst x. cbn. split; [intros [= <-]; exists now; by apply list_lookup_insert_eq|]. intros [n Hn]. destruct (decide (c' = c)) as [->|]; [done|].
      rewrite list_lookup_insert_ne in Hn by done. specialize (proj2 (ti_active0 id c') (ex_intro _ n Hn)). congruence.
    + rewrite ti_active0. destruct (decide (c' = c)) as [->|]; [|by rewrite list_lookup_insert_ne]. rewrite list_lookup_insert_eq, E by done.
      split; intros [n Hn]; injection Hn as Hn; [by subst st|congruence].
  - intros x c' Hx. rewrite Et. case_decide as Hd; [subst x; right; by rewrite (Hq c' Hx)|by apply ti_active_queue0].
  - intros x Hx. rewrite Et. case_decide as Hd; [|by apply ti_cancel0]. subst x. by apply ti_cancel0.
  - intros c' _ Hcpu. cbn in Hcpu. destruct (decide (c' = c)) as [->|]; [rewrite list_lookup_insert_eq in Hcpu by done; done|].
    rewrite list_lookup_insert_ne in Hcpu by done. specialize (ti_armed0 c' ltac:(done) Hcpu). unfold armed in *. by rewrite (queue_deadline_same c' s).
Qed.

Lemma queue_at_disjoint c c' id s : NoDup (all_timers s) -> id ∈ timer_list_ (queue_at s c) -> id ∈ timer_list_ (queue_at s c') -> c' = c.
Proof.
  intros Hnd H1 H2. destruct (decide (c' = c)) as [|Hne]; [done|]. exfalso.
  assert (c < length (queues s))%nat as Hc.
  { destruct (decide (c < length (queues s))%nat); [done|]. unfold queue_at in H1. rewrite lookup_ge_None_2 in H1 by lia. by apply not_elem_of_nil in H1. }
  destruct (all_timers_set c (with_list [] (queue_at s c)) s Hc) as (R & Hp & Hp'). rewrite Hp in Hnd. apply NoDup_app in Hnd as (_ & Hd & _).
  apply (Hd id H1). change (id ∈ timer_list_ (with_list [] (queue_at s c)) ++ R). rewrite <-Hp'. apply (queue_at_all c'). by rewrite queue_at_set, decide_False.
Qed.

Lemma Tick_pop_inv c now s : tinv s -> cpus s !! c = Some (CpuTick now) -> Tick_due c now s = true -> exists s', Tick_pop c now s = Some s' /\ tinv s'.
Proof.
  intros Hi E Hdue. unfold Tick_due in Hdue. unfold Tick_pop. destruct (timer_list_ (queue_at s c)) as [|id rest] eqn:El; [done|].
  assert (id ∈ timer_list_ (queue_at s c)) as Hin by (rewrite El; by left). pose proof (queue_at_all c s id Hin) as Hall.
  destruct (ti_queued _ _ Hi id Hall) as (Hcb & _ & e & l & Hw & Hb & _). cbv zeta. rewrite Hcb. eexists. split; [done|]. rewrite <-Hcb.
  assert (c < length (queues s))%nat as Hc.
  { rewrite <-(proj2 (ti_len _ _ Hi)). by eapply lookup_lt_Some. }
  assert (active_cpu_ (timer_at s id) = None) as Ha.
  { destruct (ti_active_queue _ _ Hi id c Hin) as [|Ha]; [done|]. apply (ti_active _ _ Hi) in Ha as [n Hn]. congruence. }
  set (s1 := set_queue c (with_list rest (queue_at s c)) s).
  assert (tinv s1) as H1.
  { apply tinv_shrink; [done|]. apply set_queue_shrinks. split; [|done]. cbn. rewrite El. by apply sublist_cons. }
  assert (tinv (set_cpu c (CpuCallback now id) (set_timer id (mkTimer (scheduled_time_ (timer_at s id)) (slack_ (timer_at s id)) (callback_ (timer_at s id)) (Some c) (cancel_ (timer_at s id))) s1))) as H2.
  { apply (tinv_activate c now id (CpuTick now) s1); [done|done|done| |done]. intros c' Hin'. unfold s1 in Hin'. rewrite queue_at_set in Hin' by done.
    case_decide as Hd; [done|]. by eapply (queue_at_disjoint c c' id s); [apply Hi| |]. }
  destruct H2. constructor; try done. cbn. apply Forall_app. split; [done|]. apply Forall_singleton. cbn. rewrite Hw. cbn. split; [done|].
  rewrite negb_true_iff, Z.ltb_ge in Hdue. done.
Qed.

Lemma Tick_callback_end_inv c now id s : tinv s -> cpus s !! c = Some (CpuCallback now id) -> tinv (Tick_callback_end c now id s).
Proof.
  intros Hi E. pose proof Hi as []. unfold Tick_callback_end. set (t := timer_at s id). set (s' := set_cpu _ _ _).
  assert (forall x, timer_at s' x = if decide (x = id) then mkTimer (scheduled_time_ t) (slack_ t) (callback_ t) None (cancel_ t) else timer_at s x) as Et by apply timer_at_set.
  assert (forall x, sched s' x = sched s x) as Es by (intros x; unfold sched; rewrite Et; case_decide as Hx; [by rewrite Hx|done]).
  assert (c < length (cpus s))%nat as Hc by (by eapply lookup_lt_Some).
  assert (forall x c', active_cpu_ (timer_at s x) = Some c' -> x = id <-> c' = c) as Hone.
  { intros x c' Hx. apply ti_active0 in Hx as [n Hn]. split; intros ->; [|congruence].
    pose proof (proj2 (ti_active0 id c) (ex_intro _ now E)). pose proof (proj2 (ti_active0 id c') (ex_intro _ n Hn)). congruence. }
  constructor; try done.
  - cbn. by rewrite length_insert.
  - intros c'. eapply ascending_ext; [|apply (ti_sorted0 c')]. intros x _. by rewrite Es.
  - intros x Hx. rewrite Es, Et. destruct (ti_queued0 x Hx) as (H1 & H2 & H3). split_and!; try done. by case_decide as Hd; [rewrite Hd in H1|].
  - intros x c'. rewrite Et. cbn. case_decide as Hd.
    + subst x. cbn. split; [done|]. intros [n Hn]. destruct (decide (c' = c)) as [->|Hne]; [rewrite list_lookup_insert_eq in Hn by done; done|].
      rewrite list_lookup_insert_ne in Hn by done. exfalso. apply Hne. apply (Hone id c'); [|done]. apply ti_active0. by exists n.
    + rewrite ti_active0. destruct (decide (c' = c)) as [->|]; [|by rewrite list_lookup_insert_ne]. rewrite list_lookup_insert_eq, E by done.
      split; intros [n Hn]; injection Hn as Hn; [by subst|done].
  - intros x c' Hx. rewrite Et. case_decide as Hd; [by left|by apply ti_active_queue0].
  - intros x Hx. rewrite Et. case_decide as Hd; [|by apply ti_cancel0]. subst x. by apply ti_cancel0.
  - intros c' _ Hcpu. cbn in Hcpu. destruct (decide (c' = c)) as [->|]; [rewrite list_lookup_insert_eq in Hcpu by done; done|].
    rewrite list_lookup_insert_ne in Hcpu by done. specialize (ti_armed0 c' ltac:(done) Hcpu). unfold armed in *. by rewrite (queue_deadline_same c' s).
Qed.

(** *** Moving the timers of a cpu *)

(** A timer that may be put on any queue as it is. *)
Definition movable (s : TimerSys) (id : Z) : Prop :=
  (id ∉ all_timers s) /\ callback_ (timer_at s id) = true /\ (id ∉ cancelling s) /\ active_cpu_ (timer_at s id) = None /\
  sched s id <= ZX_TIME_INFINITE /\ exists e l, window s !! id = Some (e, l) /\ e <= sched s id <= l.

Lemma move_timers_inv c ids s :
  tinv_but (Some c) s -> (c < length (queues s))%nat -> NoDup ids -> Forall (movable s) ids ->
  let s' := move_timers c ids s in
  tinv_but (Some c) s' /\ cpus s' = cpus s /\ length (queues s') = length (queues s) /\ all_timers s' ≡ₚ ids ++ all_timers s /\
  (forall c', (c' <> c -> queue_at s' c' = queue_at s c') /\ next_timer_deadline_ (queue_at s' c') = next_timer_deadline_ (queue_at s c') /\
     preempt_timer_deadline_ (queue_at s' c') = preempt_timer_deadline_ (queue_at s c')) /\
  (forall x, x ∉ ids -> sched s' x = sched s x) /\
  (head (timer_list_ (queue_at s' c)) = head (timer_list_ (queue_at s c)) \/ exists id, id ∈ ids /\ head (timer_list_ (queue_at s' c)) = Some id).
Proof.
  revert s. induction ids as [|id ids IH]; intros s Hi Hc Hnd Hm; [by split_and!; try (by left)|]. cbn [move_timers].
  apply NoDup_cons in Hnd as [Hid Hnd]. apply Forall_cons in Hm as [(M1 & M2 & M3 & M4 & M5 & e & l & M6 & M7 & M8) Hm].
  fold (sched s id). set (s1 := Insert c id (sched s id) (sched s id) s).
  assert (id ∉ timer_list_ (queue_at s c)) as Hnq by (intros H; by apply M1, (queue_at_all c)).
  pose proof (Insert_spec c id (sched s id) (sched s id) s Hc (ti_sorted _ _ Hi c) Hnq ltac:(lia)) as Hins. fold s1 in Hins.
  pose proof (inserted_all _ _ _ _ _ _ Hc Hins (Insert_queues _ _ _ _ _ Hc)) as Hall. pose proof Hins as []. destruct in_rest0 as (R1 & R2 & R3 & R4 & R5 & R6).
  assert (tinv_but (Some c) s1) as Hi1.
  { apply Insert_inv; try done; [by exists e, l|by left|congruence]. }
  assert (Forall (movable s1) ids) as Hm1.
  { rewrite Forall_forall in *. intros x Hx. assert (x <> id) as Hne by congruence. destruct (Hm x Hx) as (N1 & N2 & N3 & N4 & N5 & N6).
    destruct (in_timer0 x) as (T1 & T2 & T3). unfold movable. rewrite T1, T2, in_sched0, R3, R4 by done. split_and!; try done. rewrite Hall. by apply not_elem_of_cons. }
  destruct (IH s1 Hi1 ltac:(lia) Hnd Hm1) as (I1 & I2 & I3 & I4 & I5 & I6 & I7). split_and!; try done; [congruence|congruence| | | |].
  - rewrite I4, Hall. cbn. symmetry. apply Permutation_middle.
  - intros c'. destruct (I5 c') as (J1 & -> & ->). destruct (in_queue_rest0 c') as (K1 & -> & ->). split_and!; try done. intros Hne. by rewrite J1, K1.
  - intros x [Hx1 Hx2]%not_elem_of_cons. by rewrite I6, in_sched0.
  - destruct I7 as [->|(y & Hy & ->)]; [|right; exists y; split; [by right|done]]. destruct in_head0 as [[-> _]| ->]; [|by left]. right. exists id. split; [by left|done].
Qed.

Lemma queued_movable c s id :
  tinv s -> id ∈ timer_list_ (queue_at s c) -> cpus s !! c = Some CpuThread -> (c < length (queues s))%nat ->
  movable (set_queue c (with_list [] (queue_at s c)) s) id.
Proof.
  intros Hi Hin Hcpu Hc. destruct (ti_queued _ _ Hi id (queue_at_all c s id Hin)) as (Q1 & Q2 & e & l & Q3 & Q4 & Q5). split_and!; try done.
  - intros (c' & _ & Hx)%all_queue_at. rewrite queue_at_set in Hx by done. case_decide as Hd; [by apply not_elem_of_nil in Hx|].
    apply Hd. eapply queue_at_disjoint; [apply Hi|done|done].
  - destruct (ti_active_queue _ _ Hi id c Hin) as [|Ha]; [done|]. apply (ti_active _ _ Hi) in Ha as [n Hn]. congruence.
  - by exists e, l.
Qed.

Lemma NoDup_queue c s : NoDup (all_timers s) -> NoDup (timer_list_ (queue_at s c)).
Proof.
  intros Hnd. destruct (decide (c < length (queues s))%nat) as [Hc|Hc].
  - destruct (all_timers_set c (queue_at s c) s Hc) as (R & Hp & _). rewrite Hp in Hnd. by apply NoDup_app in Hnd as (? & _).
  - unfold queue_at. rewrite lookup_ge_None_2 by lia. apply NoDup_nil_2.
Qed.

Lemma TransitionOffCpu_inv c src s :
  tinv s -> (c < length (queues s))%nat -> (src < length (queues s))%nat -> cpus s !! c = Some CpuThread -> cpus s !! src = Some CpuThread -> c <> src ->
  tinv (TransitionOffCpu c src s).
Proof.
  intros Hi Hc Hsrc Hcpu Hcpus Hne. unfold TransitionOffCpu. set (ids := timer_list_ (queue_at s src)). set (s0 := set_queue src _ s).
  assert (tinv s0) as Hi0 by (apply tinv_shrink; [done|]; apply set_queue_shrinks; split; [apply sublist_nil_l|done]).
  assert (queue_at s0 c = queue_at s c) as Eqc by (unfold s0; by rewrite queue_at_set, decide_False).
  assert (length (queues s0) = length (queues s)) as El0 by (cbn; by rewrite length_insert).
  destruct (move_timers_inv c ids s0) as (I1 & I2 & I3 & I4 & I5 & I6 & I7); [by apply tinv_weaken|lia|by apply NoDup_queue, Hi| |].
  { apply Forall_forall. intros id Hid. by apply queued_movable. }
  set (s1 := move_timers c ids s0) in *. set (s2 := match timer_list_ (queue_at s1 c) with h :: _ => _ | [] => s1 end).
  pose proof (ti_armed _ _ Hi0 c ltac:(done) Hcpu) as Harm. unfold armed in Harm. rewrite queue_deadline_min in Harm.
  assert (tinv s2 /\ cpus s2 = cpus s /\ timer_list_ (queue_at s2 src) = [] /\ length (queues s2) = length (queues s)) as (H2 & H2' & H2'' & H2l).
  { assert (timer_list_ (queue_at s1 src) = []) as Es by (rewrite (proj1 (I5 src)) by done; unfold s0; rewrite queue_at_set, decide_True by done; done).
    assert (head (timer_list_ (queue_at s1 c)) = head (timer_list_ (queue_at s c)) -> tinv s1) as Hsame.
    { intros Hh. apply (tinv_strengthen c); [done|]. intros _. unfold armed. rewrite queue_deadline_min. destruct (I5 c) as (_ & -> & ->). rewrite Eqc in *.
      destruct (timer_list_ (queue_at s1 c)) as [|h l], (timer_list_ (queue_at s c)) as [|h' l'] eqn:El'; try done. injection Hh as ->. rewrite I6; [done|].
      intros Hin. apply Hne. symmetry. eapply (queue_at_disjoint c src h' s); [apply Hi|rewrite El'; by left|done]. }
    unfold s2. destruct (timer_list_ (queue_at s1 c)) as [|h l] eqn:El1.
    { split_and!; try done; [|congruence]. apply Hsame. destruct I7 as [I7|(y & _ & I7)]; [by rewrite I7, Eqc|done]. }
    case_bool_decide as Hh; [split_and!; try done; [by apply Hsame|congruence]|]. fold (sched s1 h).
    destruct (UpdatePlatformTimer_rest c (sched s1 h) s1) as (_ & _ & -> & _ & ->). split_and!; try done; [| |congruence].
    - destruct (ti_queued _ _ I1 h) as (_ & _ & ? & ? & _ & _ & Hinf); [eapply (queue_at_all c); rewrite El1; by left|].
      apply UpdatePlatformTimer_inv; [done|lia|done|]. intros _. rewrite queue_deadline_min, El1. destruct (I5 c) as (_ & -> & ->). lia.
    - rewrite UpdatePlatformTimer_other by done. done. }
  apply (tinv_strengthen src); [apply tinv_set_deadlines; [by apply tinv_weaken|done|done|by left]|].
  intros _. unfold armed. rewrite queue_deadline_min, queue_at_set, decide_True by lia. cbn. rewrite H2''. lia.
Qed.

(** ** Runs *)

(** The contract of the owners of timers. It restricts [Set] and [Cancel] only. *)
Definition safe_op (op : TimerOp) (s : TimerSys) : bool :=
  match op with OpSet c id _ => may_set c id s | OpCancel c id => may_cancel c id s | _ => true end.

(** A run in which the owners keep the contract. *)
Fixpoint well_used (ops : list TimerOp) (s : TimerSys) : bool :=
  match ops with
  | [] => true
  | op :: ops =>
      match timer_step op s with
      | Some (Some s') => safe_op op s && well_used ops s'
      | Some None => safe_op op s
      | None => well_used ops s
      end
  end.

Lemma runs_code_lt c s : tinv s -> runs_code c s = true -> (c < length (queues s))%nat.
Proof.
  intros Hi Hr. rewrite <-(proj2 (ti_len _ _ Hi)). unfold runs_code in Hr. destruct (cpus s !! c) eqn:E; [|done]. by eapply lookup_lt_Some.
Qed.

Lemma in_thread_lt c s : tinv s -> in_thread c s = true -> cpus s !! c = Some CpuThread /\ (c < length (queues s))%nat.
Proof.
  intros Hi Hr. rewrite <-(proj2 (ti_len _ _ Hi)). unfold in_thread in Hr. destruct (cpus s !! c) as [[]|] eqn:E; try done. split; [done|]. by eapply lookup_lt_Some.
Qed.

Lemma enabled_if_Some b r x : enabled_if b r = Some x -> b = true /\ x = r.
Proof. destruct b; [intros [= <-]|]; done. Qed.

Lemma timer_step_inv op s r : tinv s -> timer_step op s = Some r -> safe_op op s = true -> exists s', r = Some s' /\ tinv s'.
Proof.
  intros Hi. destruct op as [c id d|c id|id|c d|c now|c|c|c src|c]; cbn [timer_step]; intros Hs Hsafe.
  - apply enabled_if_Some in Hs as [[Hr Hd]%andb_true_iff ->]. by apply Timer_Set_inv; [|apply runs_code_lt| |].
  - apply enabled_if_Some in Hs as [Hr ->]. cbn in Hsafe.
    assert (active_on c id s && InContainer id s = false) as Hs by (unfold may_cancel in Hsafe; destruct (active_on c id s), (InContainer id s); done).
    pose proof (Timer_Cancel_inv c id s Hi (runs_code_lt c s Hi Hr) Hs) as Hc. destruct (Timer_Cancel_locked c id s) as [[s' ?] wait]. by eexists.
  - apply enabled_if_Some in Hs as [[Hc%bool_decide_eq_true _]%andb_true_iff ->]. eexists. split; [done|]. by apply Timer_Cancel_finish_inv.
  - apply enabled_if_Some in Hs as [[[_ Hr]%(in_thread_lt c s Hi) Hd%Z.leb_le]%andb_true_iff ->]. eexists. split; [done|]. by apply PreemptReset_inv.
  - apply enabled_if_Some in Hs as [Hr ->]. eexists. split; [done|]. by apply Tick_begin_inv.
  - destruct (cpus s !! c) as [[|now|]|] eqn:E; try done. injection Hs as <-. destruct (Tick_due c now s) eqn:Ed; [by apply Tick_pop_inv|].
    eexists. split; [done|]. by eapply Tick_end_inv.
  - destruct (cpus s !! c) as [[|now|now id]|] eqn:E; try done. injection Hs as <-. eexists. split; [done|]. by apply Tick_callback_end_inv.
  - apply enabled_if_Some in Hs as [[[[H1 H2]%(in_thread_lt c s Hi) [H3 H4]%(in_thread_lt src s Hi)]%andb_true_iff Hne]%andb_true_iff ->].
    rewrite negb_true_iff, bool_decide_eq_false in Hne. eexists. split; [done|]. by apply TransitionOffCpu_inv.
  - apply enabled_if_Some in Hs as [[_ Hr]%(in_thread_lt c s Hi) ->]. eexists. split; [done|]. by apply ThawPercpu_inv.
Qed.

Lemma timer_run_inv ops s : tinv s -> well_used ops s = true -> exists s', timer_run ops s = Some s' /\ tinv s'.
Proof.
  revert s. induction ops as [|op ops IH]; intros s Hi Hw; cbn [timer_run well_used] in *; [by exists s|].
  destruct (timer_step op s) as [r|] eqn:E; [|by apply IH].
  assert (safe_op op s = true) as Hsafe by (destruct r; [by apply andb_true_iff in Hw as [? _]|done]).
  destruct (timer_step_inv op s r Hi E Hsafe) as (s' & -> & Hi'). apply andb_true_iff in Hw as [_ Hw]. by apply IH.
Qed.

Lemma queue_at_boot n c : queue_at (timer_boot n) c = TimerQueue_new.
Proof.
  unfold queue_at. cbn. destruct (decide (c < n)%nat); [by rewrite lookup_replicate_2|]. by rewrite lookup_ge_None_2 by (rewrite length_replicate; lia).
Qed.

Lemma all_timers_boot n : all_timers (timer_boot n) = [].
Proof. unfold all_timers. cbn. induction n as [|n IH]; [done|]. cbn. exact IH. Qed.

Lemma tinv_boot n : tinv (timer_boot n).
Proof.
  pose proof (queue_at_boot n) as Eq. constructor.
  - cbn. by rewrite !length_replicate.
  - rewrite all_timers_boot. apply NoDup_nil_2.
  - intros c. rewrite Eq. apply SSorted_nil.
  - intros id. rewrite all_timers_boot. by intros ?%not_elem_of_nil.
  - intros id c. cbn. split; [done|]. intros [now H]. apply lookup_replicate in H as [H _]. done.
  - intros id c Hin. by left.
  - intros id Hin. by apply not_elem_of_nil in Hin.
  - intros c. rewrite Eq. cbn. lia.
  - intros c. rewrite Eq. cbn. lia.
  - intros c _ _. unfold armed. rewrite queue_deadline_min, Eq. unfold TimerQueue_new. cbn [timer_list_ preempt_timer_deadline_ next_timer_deadline_]. lia.
  - by apply Forall_nil.
Qed.

(** *** A whole tick *)

(** The steps of a tick whose callbacks for [ids] set and cancel nothing. *)
Definition tick_ops (c : nat) (ids : list Z) : list TimerOp := flat_map (fun _ => [OpTickStep c; OpCallbackEnd c]) ids ++ [OpTickStep c].

Definition due (s : TimerSys) (now : Z) (l : list Z) : list Z := filter (fun id => sched s id <= now) l.
Definition not_due (s : TimerSys) (now : Z) (l : list Z) : list Z := filter (fun id => now < sched s id) l.

Lemma due_ext s s' now l : (forall id, sched s' id = sched s id) -> due s' now l = due s now l /\ not_due s' now l = not_due s now l.
Proof. intros H. unfold due, not_due. split; apply list_filter_iff; intros x; by rewrite H. Qed.

Lemma due_none s now x l : ascending (sched s) (x :: l) -> now < sched s x -> due s now (x :: l) = [] /\ not_due s now (x :: l) = x :: l.
Proof.
  intros [H _]%ascending_cons Hx. assert (forall y, y ∈ x :: l -> now < sched s y) as Hy by (intros y [->|Hy]%elem_of_cons; [done|]; specialize (H y Hy); lia).
  clear H Hx. unfold due, not_due. induction (x :: l) as [|y k IH]; [done|]. specialize (Hy y (list_elem_of_here y k)) as Hy'.
  destruct IH as [IH1 IH2]; [intros z Hz; apply Hy; by right|]. rewrite filter_cons_False, filter_cons_True by lia. by rewrite IH1, IH2.
Qed.

Lemma Tick_end_rest c s : (c < length (cpus s))%nat -> let s' := Tick_end c s in
  cpus s' !! c = Some CpuThread /\ timer_list_ (queue_at s' c) = timer_list_ (queue_at s c) /\ fired s' = fired s.
Proof.
  intros Hc. unfold Tick_end, UpdatePlatformTimer. destruct (_ <? _); cbn; (split; [by apply list_lookup_insert_eq|]); [|done]. split; [|done].
  unfold queue_at. cbn. destruct (decide (c < length (queues s))%nat) as [Hq|Hq]; [by rewrite list_lookup_insert_eq|]. by rewrite list_insert_ge by lia.
Qed.

Lemma tick_loop c now l s :
  tinv s -> cpus s !! c = Some (CpuTick now) -> timer_list_ (queue_at s c) = l ->
  exists s', timer_run (tick_ops c (due s now l)) s = Some s' /\ cpus s' !! c = Some CpuThread /\ tinv s' /\
    timer_list_ (queue_at s' c) = not_due s now l /\
    exists fs, fired s' = fired s ++ fs /\ map f_id fs = due s now l /\ Forall (fun f => f_now f = now) fs.
Proof.
  revert s. induction l as [|x l IH]; intros s Hi E El; assert (c < length (cpus s))%nat as Hc by (by eapply lookup_lt_Some);
    destruct (Tick_end_rest c s Hc) as (T1 & T2 & T3).
  { exists (Tick_end c s). unfold tick_ops. cbn [due filter list_filter flat_map app timer_run timer_step]. unfold Tick_due. rewrite E, El. split_and!; try done.
    - by eapply Tick_end_inv.
    - by rewrite T2.
    - exists []. rewrite T3, app_nil_r. by split_and!. }
  destruct (decide (sched s x <= now)) as [Hdue|Hdue].
  - assert (Tick_due c now s = true) as Hd by (unfold Tick_due; rewrite El, negb_true_iff, Z.ltb_ge; done).
    destruct (Tick_pop_inv c now s Hi E Hd) as (s1 & Hp & Hi1). unfold Tick_pop in Hp. rewrite El in Hp. destruct (callback_ (timer_at s x)) eqn:Hcb; [|done].
    cbv zeta in Hp. injection Hp as Hp. assert (cpus s1 !! c = Some (CpuCallback now x)) as E1 by (rewrite <-Hp; by apply list_lookup_insert_eq).
    set (s2 := Tick_callback_end c now x s1). assert (tinv s2) as Hi2 by (by apply Tick_callback_end_inv).
    assert (cpus s2 !! c = Some (CpuTick now)) as E2 by (apply list_lookup_insert_eq; rewrite <-Hp; cbn; by rewrite length_insert).
    assert (timer_list_ (queue_at s2 c) = l) as El2.
    { change (queue_at s2 c) with (queue_at s1 c). rewrite <-Hp. change (timer_list_ (queue_at (set_queue c (with_list l (queue_at s c)) s) c) = l).
      rewrite queue_at_set by (by rewrite <-(proj2 (ti_len _ _ Hi))). by rewrite decide_True. }
    assert (forall y, sched s2 y = sched s y) as Es.
    { intros y. unfold s2, Tick_callback_end, sched. change (timer_at (set_cpu c ?st ?u)) with (timer_at u). rewrite timer_at_set, <-Hp.
      change (timer_at (log_fired _ (set_cpu _ _ ?u))) with (timer_at u). rewrite !timer_at_set.
      destruct (decide (y = x)) as [->|]; [by rewrite decide_True|done]. }
    assert (fired s2 = fired s ++ [mkFired x now (scheduled_time_ (timer_at s x)) (default (0, 0) (window s !! x))]) as Ef by (unfold s2; cbn; by rewrite <-Hp).
    destruct (IH s2 Hi2 E2 El2) as (s' & R1 & R2 & R3 & R4 & fs & R5 & R6 & R7). destruct (due_ext s s2 now l Es) as [D1 D2]. rewrite D1, D2 in *.
    assert (due s now (x :: l) = x :: due s now l) as -> by (unfold due; by rewrite filter_cons_True).
    assert (not_due s now (x :: l) = not_due s now l) as -> by (unfold not_due; rewrite filter_cons_False by lia; done).
    exists s'. split_and!; try done.
    + unfold tick_ops. cbn [flat_map app timer_run timer_step]. rewrite E, Hd. unfold Tick_pop. rewrite El, Hcb. cbv zeta. rewrite Hp, E1. exact R1.
    + eexists (_ :: fs). rewrite R5, Ef, <-app_assoc. split_and!; [done|cbn; by rewrite R6|by apply Forall_cons].
  - destruct (due_none s now x l) as [-> ->]; [rewrite <-El; apply Hi|lia|]. exists (Tick_end c s). unfold tick_ops. cbn [flat_map app timer_run timer_step].
    assert (Tick_due c now s = false) as Hd by (unfold Tick_due; rewrite El, negb_false_iff, Z.ltb_lt; fold (sched s x); lia). rewrite E, Hd. split_and!; try done.
    + by eapply Tick_end_inv.
    + by rewrite T2.
    + exists []. rewrite T3, app_nil_r. by split_and!.
Qed.

(** *** Timers that are not set *)

(** [s'] has the timers of [s] on its queues, and perhaps [id]; nothing fired in between. *)
Definition no_more (id : option Z) (s s' : TimerSys) : Prop :=
  (forall x, x ∈ all_timers s' -> x ∈ all_timers s \/ Some x = id) /\ fired s' = fired s.

#[export] Instance no_more_refl id : Reflexive (no_more id).
Proof. intros s. split; [by left|done]. Qed.
#[export] Instance no_more_trans id : Transitive (no_more id).
Proof. intros s1 s2 s3 [H1 F1] [H2 F2]. split; [|congruence]. intros x Hx. destruct (H2 x Hx) as [?|?]; [by apply H1|by right]. Qed.

Lemma no_more_Update id c d s : no_more id s (UpdatePlatformTimer c d s).
Proof.
  destruct (UpdatePlatformTimer_rest c d s) as (_ & _ & _ & H & _). split; [intros x; rewrite H; by left|].
  unfold UpdatePlatformTimer. by destruct (_ <? _).
Qed.

Lemma no_more_set_queue id c q s : timer_list_ q = timer_list_ (queue_at s c) -> no_more id s (set_queue c q s).
Proof. intros H. split; [|done]. intros x. rewrite all_timers_same by done. by left. Qed.

Lemma no_more_Insert c id e l s :
  ascending (sched s) (timer_list_ (queue_at s c)) -> (c < length (queues s))%nat -> (id ∉ all_timers s) -> e <= sched s id <= l ->
  no_more (Some id) s (Insert c id e l s).
Proof.
  intros Ha Hc Hn Hw. pose proof (Insert_spec c id e l s Hc Ha ltac:(intros H; by apply Hn, (queue_at_all c)) Hw) as Hins.
  split; [|by destruct (in_rest _ _ _ _ _ _ Hins) as (_ & _ & _ & _ & ? & _)]. intros x.
  rewrite (inserted_all _ _ _ _ _ _ Hc Hins (Insert_queues c id e l s Hc)). intros [->|?]%elem_of_cons; [by right|by left].
Qed.

Lemma no_more_Set c id d s s' :
  tinv s -> (c < length (queues s))%nat -> set_deadline_ok d = true -> Timer_Set c id d s = Some s' -> no_more (Some id) s s'.
Proof.
  intros Hi Hc Hd%set_deadline_ok_spec. unfold Timer_Set. destruct (InContainer id s) eqn:Ein; [done|].
  assert (id ∉ all_timers s) as Hn by (rewrite <-InContainer_spec; congruence). destruct (window_ok d Hd) as (Hw & _ & _). cbv zeta.
  set (t := mkTimer (when_ d) _ true _ false). set (s0 := set_window id _ _). set (s1 := Insert _ _ _ _ _).
  assert (no_more (Some id) s s1) as H1.
  { apply (no_more_Insert c id (earliest d) (latest d) s0); [|done|done|].
    - eapply ascending_ext; [|apply (ti_sorted _ _ Hi c)]. intros x Hx. unfold sched. change (timer_at s0 x) with (timer_at (set_timer id t s) x).
      rewrite timer_at_set, decide_False; [done|]. intros ->. by apply Hn, (queue_at_all c).
    - unfold sched. change (timer_at s0 id) with (timer_at (set_timer id t s) id). rewrite timer_at_set. by rewrite decide_True. }
  assert (forall s2, Some (match timer_list_ (queue_at s1 c) with head :: _ => if head =? id then UpdatePlatformTimer c (when_ d) s1 else s1 | [] => s1 end) = Some s2 -> no_more (Some id) s s2) as H2.
  { intros s2 [= <-]. etransitivity; [exact H1|]. destruct (timer_list_ (queue_at s1 c)) as [|h ?]; [done|]. destruct (h =? id); [apply no_more_Update|done]. }
  destruct (active_cpu_ (timer_at s id)) as [a|]; [|apply H2]. case_bool_decide; [|done]. destruct (cancel_ (timer_at s id)); [intros [= <-]; done|apply H2].
Qed.

Lemma no_more_shrink id qs s : Forall2 shrinks (queues s) qs -> no_more id s (set_queues qs s).
Proof. intros H%flat_map_shrinks. split; [|done]. intros x Hx. left. by eapply elem_of_sublist. Qed.

Lemma no_more_Cancel x c id s : no_more x s (fst (fst (Timer_Cancel_locked c id s))).
Proof.
  unfold Timer_Cancel_locked. set (s1 := set_timer id _ s). case_bool_decide; [by split; [left|]|]. destruct (InContainer id s1); [|by split; [left|]].
  assert (no_more x s (RemoveFromContainer id s1)) as H2 by apply (no_more_shrink x _ s1 (remove_shrinks id s1)).
  set (s2 := RemoveFromContainer id s1) in *. case_bool_decide; cbn [fst]; [|done]. destruct (timer_list_ (queue_at s2 c)); [by destruct (_ =? _); destruct H2|]. etransitivity; [exact H2|apply no_more_Update].
Qed.

Lemma move_timers_fired c ids s : fired (move_timers c ids s) = fired s.
Proof.
  revert s. induction ids as [|id ids IH]; intros s; [done|]. cbn [move_timers]. rewrite IH. unfold Insert. by destruct (insert_loop _ _ _ _ _ _) as [[? ?] ?].
Qed.

Lemma no_more_Transition x c src s :
  tinv s -> (c < length (queues s))%nat -> (src < length (queues s))%nat -> cpus s !! src = Some CpuThread -> c <> src -> no_more x s (TransitionOffCpu c src s).
Proof.
  intros Hi Hc Hsrc Hcpu Hne. unfold TransitionOffCpu. set (ids := timer_list_ (queue_at s src)). set (s0 := set_queue src _ s).
  assert (length (queues s0) = length (queues s)) as El0 by (cbn; by rewrite length_insert).
  assert (tinv s0) as Hi0 by (apply tinv_shrink; [done|]; apply set_queue_shrinks; split; [apply sublist_nil_l|done]).
  destruct (move_timers_inv c ids s0) as (_ & _ & I3 & I4 & _ & _ & _); [by apply tinv_weaken|lia|by apply NoDup_queue, Hi| |].
  { apply Forall_forall. intros id Hid. by apply queued_movable. }
  assert (no_more x s (move_timers c ids s0)) as H1.
  { split; [|by rewrite move_timers_fired]. intros y. rewrite I4. intros [Hy|Hy]%elem_of_app; left; [by eapply queue_at_all|].
    eapply elem_of_sublist; [exact Hy|]. apply flat_map_shrinks, set_queue_shrinks. split; [apply sublist_nil_l|done]. }
  set (s1 := move_timers c ids s0) in *. etransitivity; [|by apply no_more_set_queue]. etransitivity; [exact H1|].
  destruct (timer_list_ (queue_at s1 c)); [done|]. case_bool_decide; [done|apply no_more_Update].
Qed.

Definition sets (id : Z) (op : TimerOp) : bool := match op with OpSet _ x _ => x =? id | _ => false end.
Definition fired_of (id : Z) (s : TimerSys) : list Fired := filter (fun f => f_id f = id) (fired s).

Lemma off_no_more id x s s' : no_more x s s' -> Some id <> x -> (id ∉ all_timers s) -> (id ∉ all_timers s') /\ fired_of id s' = fired_of id s.
Proof. intros [H Hf] Hne Hn. split; [|unfold fired_of; by rewrite Hf]. intros Hx. by destruct (H id Hx). Qed.

Lemma off_step id op s s' :
  tinv s -> timer_step op s = Some (Some s') -> sets id op = false -> (id ∉ all_timers s) -> (id ∉ all_timers s') /\ fired_of id s' = fired_of id s.
Proof.
  intros Hi. destruct op as [c x d|c x|x|c d|c now|c|c|c src|c]; cbn [timer_step sets]; intros Hs Hne Hn.
  - apply enabled_if_Some in Hs as [[Hr Hd]%andb_true_iff Hs%eq_sym]. apply (off_no_more id (Some x) s s'); [|apply Z.eqb_neq in Hne; congruence|done].
    by apply (no_more_Set c x d); [|apply runs_code_lt| |].
  - apply enabled_if_Some in Hs as [_ Hs]. pose proof (no_more_Cancel None c x s) as Hc. destruct (Timer_Cancel_locked c x s) as [[s1 ?] w].
    injection Hs as ->. apply (off_no_more id None s) in Hc; [|done|done]. by destruct w.
  - apply enabled_if_Some in Hs as [_ [= ->]]. done.
  - apply enabled_if_Some in Hs as [_ [= ->]]. apply (off_no_more id None s); [|done|done]. unfold PreemptReset.
    etransitivity; [|apply no_more_Update]. by apply no_more_set_queue.
  - apply enabled_if_Some in Hs as [_ [= ->]]. apply (off_no_more id None s); [|done|done]. unfold Tick_begin. set (q := if _ : bool then _ else _).
    apply (no_more_set_queue None c q s). unfold q. by destruct (_ <=? _).
  - destruct (cpus s !! c) as [[|now|]|]; try done. injection Hs as Hs. destruct (Tick_due c now s) eqn:Ed.
    + unfold Tick_pop in Hs. destruct (timer_list_ (queue_at s c)) as [|x rest] eqn:El; [done|]. destruct (callback_ _); [|done]. injection Hs as <-.
      assert (x <> id) as Hx by (intros ->; apply Hn, (queue_at_all c); rewrite El; by left). split.
      * apply (off_no_more id None s (set_queue c (with_list rest (queue_at s c)) s)); [|done|done]. apply no_more_shrink, set_queue_shrinks.
        split; [|done]. cbn. rewrite El. by apply sublist_cons.
      * unfold fired_of. cbn. rewrite filter_app, filter_cons_False by done. by rewrite filter_nil, app_nil_r.
    + injection Hs as <-. apply (off_no_more id None s); [|done|done]. unfold Tick_end. apply (no_more_Update None c _ s).
  - destruct (cpus s !! c) as [[|now|now x]|]; try done. injection Hs as <-. done.
  - apply enabled_if_Some in Hs as [[[[H1 H2]%(in_thread_lt c s Hi) [H3 H4]%(in_thread_lt src s Hi)]%andb_true_iff Hcs]%andb_true_iff [= ->]].
    rewrite negb_true_iff, bool_decide_eq_false in Hcs. apply (off_no_more id None s); [|done|done]. by apply no_more_Transition.
  - apply enabled_if_Some in Hs as [_ [= ->]]. apply (off_no_more id None s); [|done|done]. unfold ThawPercpu.
    etransitivity; [|apply no_more_Update]. by apply no_more_set_queue.
Qed.

Lemma off_run id ops s :
  tinv s -> well_used ops s = true -> forallb (fun op => negb (sets id op)) ops = true -> (id ∉ all_timers s) ->
  exists s', timer_run ops s = Some s' /\ (id ∉ all_timers s') /\ fired_of id s' = fired_of id s.
Proof.
  revert s. induction ops as [|op ops IH]; intros s Hi Hw Hs Hn; cbn [timer_run well_used forallb] in *; [by exists s|].
  apply andb_true_iff in Hs as [Hop Hs]. rewrite negb_true_iff in Hop. destruct (timer_step op s) as [r|] eqn:E; [|by apply IH].
  assert (safe_op op s = true) as Hsafe by (destruct r; [by apply andb_true_iff in Hw as [? _]|done]).
  destruct (timer_step_inv op s r Hi E Hsafe) as (s' & -> & Hi'). apply andb_true_iff in Hw as [_ Hw].
  destruct (off_step id op s s' Hi E Hop Hn) as [Hn' Hf]. destruct (IH s' Hi' Hw Hs Hn') as (s2 & R1 & R2 & R3). exists s2. by rewrite R3.
Qed.

(** *** A tick that others disturb *)

(** Timer [id] stays where it is on the queue of cpu [c]. *)
Definition stays (c : nat) (id : Z) (s s' : TimerSys) : Prop :=
  (id ∈ timer_list_ (queue_at s c) -> id ∈ timer_list_ (queue_at s' c)) /\ sched s' id = sched s id.

#[export] Instance stays_refl c id : Reflexive (stays c id).
Proof. intros s. by split. Qed.
#[export] Instance stays_trans c id : Transitive (stays c id).
Proof. intros s1 s2 s3 [H1 E1] [H2 E2]. split; [auto|congruence]. Qed.

Lemma stays_Update c id c' d s : stays c id s (UpdatePlatformTimer c' d s).
Proof.
  unfold UpdatePlatformTimer. destruct (_ <? _); [|done]. split; [|done].
  change (queue_at (set_hw c' _ ?u) c) with (queue_at u c). destruct (decide (c' < length (queues s))%nat) as [Hc|Hc].
  - rewrite queue_at_set by done. by case_decide as H; [rewrite H|].
  - unfold queue_at. cbn. by rewrite list_insert_ge by lia.
Qed.

Lemma stays_set_queue c id c' q s :
  (c' = c -> timer_list_ q = timer_list_ (queue_at s c)) -> stays c id s (set_queue c' q s).
Proof.
  intros Hq. split; [|done]. destruct (decide (c' < length (queues s))%nat) as [Hc|Hc].
  - rewrite queue_at_set by done. case_decide as H; [|done]. by rewrite Hq.
  - unfold queue_at. cbn. by rewrite list_insert_ge by lia.
Qed.

Lemma stays_set_timer c id x t s : (x = id -> scheduled_time_ t = sched s id) -> stays c id s (set_timer x t s).
Proof. intros H. split; [done|]. unfold sched at 1. rewrite timer_at_set. case_decide as E; [by apply H|done]. Qed.

Lemma stays_Insert c id c' x e l s :
  ascending (sched s) (timer_list_ (queue_at s c')) -> (c' < length (queues s))%nat -> x ∉ timer_list_ (queue_at s c') ->
  e <= sched s x <= l -> x <> id -> stays c id s (Insert c' x e l s).
Proof.
  intros Ha Hc Hn Hw Hne. pose proof (Insert_spec c' x e l s Hc Ha Hn Hw) as []. split; [|by apply in_sched0].
  destruct (decide (c = c')) as [->|Hcc]; [rewrite in_perm0; by right|]. destruct (in_queue_rest0 c) as (-> & _); done.
Qed.

Lemma stays_Set c id c' x d s s' :
  tinv s -> (c' < length (queues s))%nat -> set_deadline_ok d = true -> Timer_Set c' x d s = Some s' ->
  id ∈ timer_list_ (queue_at s c) -> stays c id s s'.
Proof.
  intros Hi Hc Hd%set_deadline_ok_spec Hs Hid. unfold Timer_Set in Hs. destruct (InContainer x s) eqn:Ein; [done|].
  assert (x ∉ all_timers s) as Hn by (rewrite <-InContainer_spec; congruence). destruct (window_ok d Hd) as (Hw & _ & _).
  assert (x <> id) as Hne by (intros ->; by apply Hn, (queue_at_all c)). cbv zeta in Hs.
  set (t := mkTimer (when_ d) _ true _ false) in Hs. set (s0 := set_window x _ _) in Hs. set (s1 := Insert _ _ _ _ _) in Hs.
  assert (stays c id s s1) as H1.
  { etransitivity; [apply (stays_set_timer c id x t s); by intros ->|]. apply (stays_Insert c id c' x _ _ s0); [|done| | |done].
    - eapply ascending_ext; [|apply (ti_sorted _ _ Hi c')]. intros y Hy. unfold sched. change (timer_at s0 y) with (timer_at (set_timer x t s) y).
      rewrite timer_at_set, decide_False; [done|]. intros ->. by apply Hn, (queue_at_all c').
    - intros H. by apply Hn, (queue_at_all c').
    - unfold sched. change (timer_at s0 x) with (timer_at (set_timer x t s) x). rewrite timer_at_set. by rewrite decide_True. }
  set (s2 := match timer_list_ (queue_at s1 c') with [] => s1 | head :: _ => _ end) in Hs.
  assert (stays c id s s2) as H2.
  { etransitivity; [exact H1|]. unfold s2. destruct (timer_list_ (queue_at s1 c')) as [|h ?]; [done|]. destruct (h =? x); [apply stays_Update|done]. }
  destruct (active_cpu_ (timer_at s x)) as [a|]; [|by injection Hs as <-].
  destruct (bool_decide (a = c')); [|done]. by destruct (cancel_ (timer_at s x)); injection Hs as <-.
Qed.

Lemma stays_Remove c id x s : x <> id -> stays c id s (RemoveFromContainer x s).
Proof.
  intros Hne. split; [|done]. unfold RemoveFromContainer, queue_at. cbn. rewrite list_lookup_fmap.
  destruct (queues s !! c) as [q|]; [|done]. cbn. intros H. apply list_elem_of_filter. split; [congruence|done].
Qed.

Lemma stays_Cancel c id c' x s : x <> id -> stays c id s (Timer_Cancel_locked c' x s).1.1.
Proof.
  intros Hne. unfold Timer_Cancel_locked. set (s1 := set_timer x _ s).
  assert (stays c id s s1) as H1 by (apply stays_set_timer; by intros ->).
  case_bool_decide; [etransitivity; [exact H1|apply stays_set_timer; by intros ->]|].
  destruct (InContainer x s1); [|done]. cbv zeta. set (s2 := RemoveFromContainer x s1).
  assert (stays c id s s2) as H2 by (etransitivity; [exact H1|by apply stays_Remove]). cbn [fst].
  destruct (bool_decide (head _ = _)); [|done]. destruct (timer_list_ (queue_at s2 c')); [|etransitivity; [exact H2|apply stays_Update]].
  by destruct (_ =? _).
Qed.

Lemma move_timers_other c c' id ids s : c' <> c -> (id ∉ ids) ->
  queue_at (move_timers c' ids s) c = queue_at s c /\ sched (move_timers c' ids s) id = sched s id.
Proof.
  intros Hc. revert s. induction ids as [|x ids IH]; intros s Hn; [done|]. apply not_elem_of_cons in Hn as [Hne Hn]. cbn [move_timers].
  destruct (IH (Insert c' x (scheduled_time_ (timer_at s x)) (scheduled_time_ (timer_at s x)) s) Hn) as [-> ->].
  unfold Insert. destruct (insert_loop _ _ _ _ _ _) as [[l sl] u]. split.
  - unfold queue_at. cbn. by rewrite list_lookup_insert_ne.
  - unfold sched. change (timer_at (set_queue c' ?q ?v) id) with (timer_at v id). rewrite timer_at_set. by rewrite decide_False.
Qed.

Lemma stays_Transition c id c' src s :
  tinv s -> c' <> c -> src <> c -> id ∈ timer_list_ (queue_at s c) -> stays c id s (TransitionOffCpu c' src s).
Proof.
  intros Hi Hc Hsrc Hid. unfold TransitionOffCpu. set (ids := timer_list_ (queue_at s src)). set (s0 := set_queue src _ s).
  assert (id ∉ ids) as Hn by (intros H; apply Hsrc; by eapply queue_at_disjoint; [apply Hi|exact Hid|]).
  destruct (move_timers_other c c' id ids s0 Hc Hn) as [Eq Es]. set (s1 := move_timers c' ids s0) in *.
  assert (stays c id s s1) as H1.
  { split; [|by rewrite Es]. rewrite Eq. apply (stays_set_queue c id src). intros ->. done. }
  etransitivity; [|apply stays_set_queue; congruence]. etransitivity; [exact H1|].
  destruct (timer_list_ (queue_at s1 c')); [done|]. case_bool_decide; [done|apply stays_Update].
Qed.

(** No cpu changes what it does, and nothing fires. *)
Definition calm (s s' : TimerSys) : Prop := cpus s' = cpus s /\ fired s' = fired s.

#[export] Instance calm_refl : Reflexive calm.
Proof. by intros s. Qed.
#[export] Instance calm_trans : Transitive calm.
Proof. intros s1 s2 s3 [H1 E1] [H2 E2]. split; congruence. Qed.

Lemma calm_Update c d s : calm s (UpdatePlatformTimer c d s).
Proof. unfold UpdatePlatformTimer. by destruct (_ <? _). Qed.

Lemma calm_Insert c id e l s : calm s (Insert c id e l s).
Proof. unfold Insert. by destruct (insert_loop _ _ _ _ _ _) as [[? ?] ?]. Qed.

Lemma calm_Set c id d s s' : Timer_Set c id d s = Some s' -> calm s s'.
Proof.
  unfold Timer_Set. destruct (InContainer id s); [done|]. cbv zeta. set (s0 := set_window _ _ _). set (s1 := Insert _ _ _ _ s0).
  set (s2 := match timer_list_ (queue_at s1 c) with [] => s1 | head :: _ => _ end).
  assert (calm s s2) as H.
  { etransitivity; [apply (calm_Insert c id (earliest d) (latest d) s0)|]. fold s1. unfold s2.
    destruct (timer_list_ (queue_at s1 c)) as [|h ?]; [done|]. destruct (h =? id); [apply calm_Update|done]. }
  destruct (active_cpu_ _) as [a|]; [|by intros [= <-]]. destruct (bool_decide _); [|done]. by destruct (cancel_ _); intros [= <-].
Qed.

Lemma calm_Cancel c id s : calm s (Timer_Cancel_locked c id s).1.1.
Proof.
  unfold Timer_Cancel_locked. case_bool_decide; [done|]. set (s1 := set_timer id _ s). destruct (InContainer id s1); [|done]. cbv zeta. cbn [fst].
  destruct (bool_decide (head _ = _)); [|done]. destruct (timer_list_ _); [by destruct (_ =? _)|]. exact (calm_Update _ _ (RemoveFromContainer id s1)).
Qed.

Lemma calm_move c ids s : calm s (move_timers c ids s).
Proof. revert s. induction ids as [|x ids IH]; intros s; [done|]. cbn [move_timers]. etransitivity; [apply calm_Insert|apply IH]. Qed.

Lemma calm_Transition c src s : calm s (TransitionOffCpu c src s).
Proof.
  unfold TransitionOffCpu. set (s1 := move_timers _ _ _). assert (calm s s1) as H1 by apply (calm_move c _ (set_queue src _ s)).
  etransitivity; [exact H1|]. destruct (timer_list_ (queue_at s1 c)) as [|h ?]; [done|]. case_bool_decide; [done|]. exact (calm_Update c _ s1).
Qed.

(** Cpu [c] is inside the tick of time [now]. *)
Definition in_tick (c : nat) (now : Z) (s : TimerSys) : Prop :=
  cpus s !! c = Some (CpuTick now) \/ exists x, cpus s !! c = Some (CpuCallback now x).

(** What one step means for a timer that is due: it stays, or it fires in this tick. *)
Definition tick_keeps (c : nat) (now id : Z) (s s' : TimerSys) : Prop :=
  in_tick c now s' /\ exists fs, fired s' = fired s ++ fs /\
    (id ∈ timer_list_ (queue_at s c) -> sched s id <= now ->
     (id ∈ timer_list_ (queue_at s' c) /\ sched s' id = sched s id) \/ exists f, f ∈ fs /\ f_id f = id /\ f_now f = now).

Lemma calm_keeps c now id s s' :
  in_tick c now s -> calm s s' -> (id ∈ timer_list_ (queue_at s c) -> stays c id s s') -> tick_keeps c now id s s'.
Proof.
  intros Ht [Hc Hf] Hst. split; [unfold in_tick; by rewrite Hc|]. exists []. rewrite Hf, app_nil_r. split; [done|].
  intros Hid _. left. destruct (Hst Hid). auto.
Qed.

(** A step of the tick of another cpu [c'], or of this one, that calls a callback. *)
Lemma Tick_pop_keeps c now id c' now' s s' :
  tinv s -> in_tick c now s -> cpus s !! c' = Some (CpuTick now') -> Tick_pop c' now' s = Some s' -> tick_keeps c now id s s'.
Proof.
  intros Hi Ht E. unfold Tick_pop. destruct (timer_list_ (queue_at s c')) as [|x rest] eqn:El; [done|]. cbv zeta.
  destruct (callback_ _); [|done]. intros [= <-]. assert (c' < length (cpus s))%nat as Hlt by (by eapply lookup_lt_Some).
  assert (c' = c -> now' = now) as Hnow by (intros ->; destruct Ht as [Ht|[y Ht]]; congruence).
  set (s1 := set_queue c' _ s). set (t := mkTimer _ _ _ _ _). split.
  - unfold in_tick. cbn. destruct (decide (c' = c)) as [->|Hne]; [rewrite list_lookup_insert_eq by done; rewrite Hnow by done; by eauto|].
    by rewrite list_lookup_insert_ne.
  - eexists. split; [done|]. intros Hid Hdue. destruct (decide (c' = c)) as [->|Hne].
    + rewrite El in Hid. apply elem_of_cons in Hid as [->|Hid]; [right; eexists; split; [by left|]; rewrite Hnow; done|]. left. split.
      * change (id ∈ timer_list_ (queue_at s1 c)). unfold s1. rewrite queue_at_set by (by rewrite <-(proj2 (ti_len _ _ Hi))). by rewrite decide_True.
      * apply (stays_set_timer c id x t s1). by intros ->.
    + left. destruct (stays_set_queue c id c' (with_list rest (queue_at s c')) s) as [H1 H2]; [done|]. split; [by apply H1|].
      rewrite <-H2. apply (stays_set_timer c id x t s1). by intros ->.
Qed.

Lemma tick_step_keeps c now id op s s' :
  tinv s -> in_tick c now s -> timer_step op s = Some (Some s') -> (forall c', op <> OpCancel c' id) -> in_thread c s' = false ->
  tick_keeps c now id s s'.
Proof.
  intros Hi Ht Hs Hop Hend.
  assert (forall c', in_thread c' s = true -> c' <> c) as Hth.
  { intros c' H ->. unfold in_thread in H. destruct Ht as [Ht|[y Ht]]; by rewrite Ht in H. }
  destruct op as [c' x d|c' x|x|c' d|c' n|c'|c'|c' src|c']; cbn [timer_step] in Hs.
  - apply enabled_if_Some in Hs as [[Hr Hd]%andb_true_iff Hs%eq_sym]. apply calm_keeps; [done|by eapply calm_Set|].
    apply (runs_code_lt c' s Hi) in Hr. by eapply stays_Set.
  - apply enabled_if_Some in Hs as [_ Hs]. assert (x <> id) as Hne by (intros ->; by apply (Hop c')).
    pose proof (stays_Cancel c id c' x s Hne) as H1. pose proof (calm_Cancel c' x s) as H2.
    destruct (Timer_Cancel_locked c' x s) as [[s1 ?] w]. injection Hs as ->. apply calm_keeps; [done|by destruct w|by destruct w].
  - apply enabled_if_Some in Hs as [_ [= ->]]. apply calm_keeps; [done|done|]. intros _.
    destruct (stays_set_timer c id x (mkTimer (scheduled_time_ (timer_at s x)) (slack_ (timer_at s x)) false (active_cpu_ (timer_at s x)) (cancel_ (timer_at s x))) s) as [H1 H2]; [by intros ->|]. by split.
  - apply enabled_if_Some in Hs as [[Hr _]%andb_true_iff [= ->]]. unfold PreemptReset. apply calm_keeps; [done|exact (calm_Update c' d _)|]. intros _.
    etransitivity; [|apply stays_Update]. apply stays_set_queue. by intros ->.
  - apply enabled_if_Some in Hs as [Hr [= ->]]. pose proof (Hth c' Hr) as Hne. split.
    + unfold in_tick, Tick_begin. cbn. by rewrite list_lookup_insert_ne.
    + exists []. rewrite app_nil_r. split; [done|]. intros Hid _. left. unfold Tick_begin. set (q := if _ : bool then _ else _).
      destruct (stays_set_queue c id c' q (set_cpu c' (CpuTick n) s)) as [H1 H2]; [done|]. split; [by apply H1|done].
  - destruct (cpus s !! c') as [[|n|]|] eqn:E; try done. injection Hs as Hs. destruct (Tick_due c' n s) eqn:Ed; [by eapply Tick_pop_keeps|].
    injection Hs as <-. destruct (decide (c' = c)) as [->|Hne].
    { unfold in_thread in Hend. destruct (Tick_end_rest c s) as (E1 & _); [by eapply lookup_lt_Some|]. by rewrite E1 in Hend. }
    destruct (calm_Update c' (queue_deadline c' s) s) as [Hc Hf]. unfold Tick_end. split.
    + unfold in_tick. cbn. rewrite Hc. by rewrite list_lookup_insert_ne.
    + exists []. rewrite app_nil_r. split; [done|]. intros Hid _. left. destruct (stays_Update c id c' (queue_deadline c' s) s) as [H1 H2]. split; [by apply H1|done].
  - destruct (cpus s !! c') as [[|n|n x]|] eqn:E; try done. injection Hs as <-. unfold Tick_callback_end. split.
    + unfold in_tick. cbn. destruct (decide (c' = c)) as [->|Hne]; [|by rewrite list_lookup_insert_ne].
      rewrite list_lookup_insert_eq by (by eapply lookup_lt_Some). left. destruct Ht as [Ht|[y Ht]]; congruence.
    + exists []. rewrite app_nil_r. split; [done|]. intros Hid _. left. split; [done|].
      apply (stays_set_timer c id x (mkTimer (scheduled_time_ (timer_at s x)) (slack_ (timer_at s x)) (callback_ (timer_at s x)) None (cancel_ (timer_at s x))) s). by intros ->.
  - apply enabled_if_Some in Hs as [[[H1%Hth H2%Hth]%andb_true_iff _]%andb_true_iff [= ->]]. apply calm_keeps; [done|apply calm_Transition|].
    intros Hid. by apply stays_Transition.
  - apply enabled_if_Some in Hs as [Hr [= ->]]. unfold ThawPercpu. apply calm_keeps; [done|exact (calm_Update c' _ (set_queue c' _ s))|]. intros _.
    etransitivity; [|apply stays_Update]. apply stays_set_queue. by intros ->.
Qed.

(** The log of callbacks only grows. *)
Lemma timer_step_log op s s' : timer_step op s = Some (Some s') -> exists fs, fired s' = fired s ++ fs.
Proof.
  assert (forall u, calm s u -> exists fs, fired u = fired s ++ fs) as Hcalm by (intros u [_ ->]; exists []; by rewrite app_nil_r).
  destruct op as [c x d|c x|x|c d|c n|c|c|c src|c]; cbn [timer_step]; intros Hs.
  - apply enabled_if_Some in Hs as [_ Hs%eq_sym]. by eapply Hcalm, calm_Set.
  - apply enabled_if_Some in Hs as [_ Hs]. pose proof (calm_Cancel c x s) as H. destruct (Timer_Cancel_locked c x s) as [[s1 ?] w].
    injection Hs as ->. apply Hcalm. by destruct w.
  - apply enabled_if_Some in Hs as [_ [= ->]]. by apply Hcalm.
  - apply enabled_if_Some in Hs as [_ [= ->]]. apply Hcalm. exact (calm_Update c d _).
  - apply enabled_if_Some in Hs as [_ [= ->]]. exists []. by rewrite app_nil_r.
  - destruct (cpus s !! c) as [[|n|]|]; try done. injection Hs as Hs. destruct (Tick_due c n s).
    + unfold Tick_pop in Hs. destruct (timer_list_ _) as [|x rest]; [done|]. destruct (callback_ _); [|done]. injection Hs as <-. by eexists.
    + injection Hs as <-. exists []. rewrite app_nil_r. exact (proj2 (calm_Update c (queue_deadline c s) s)).
  - destruct (cpus s !! c) as [[|n|n x]|]; try done. injection Hs as <-. exists []. by rewrite app_nil_r.
  - apply enabled_if_Some in Hs as [_ [= ->]]. apply Hcalm, calm_Transition.
  - apply enabled_if_Some in Hs as [_ [= ->]]. apply Hcalm. exact (calm_Update c _ (set_queue c _ s)).
Qed.

Lemma timer_run_log ops s s' : timer_run ops s = Some s' -> exists fs, fired s' = fired s ++ fs.
Proof.
  revert s. induction ops as [|op ops IH]; intros s; cbn [timer_run]; [intros [= <-]; exists []; by rewrite app_nil_r|].
  destruct (timer_step op s) as [[s1|]|] eqn:E; [|done|apply IH]. intros Hr. destruct (timer_step_log op s s1 E) as [f1 H1], (IH s1 Hr) as [f2 H2].
  exists (f1 ++ f2). by rewrite H2, H1, app_assoc.
Qed.

(** Cpu [c] runs no thread at any point of the run. *)
Fixpoint ticking (c : nat) (ops : list TimerOp) (s : TimerSys) : bool :=
  negb (in_thread c s) &&
  match ops with
  | [] => true
  | op :: ops => match timer_step op s with Some (Some s') => ticking c ops s' | Some None => true | None => ticking c ops s end
  end.

Lemma tick_run_keeps c now id ops s s' :
  tinv s -> in_tick c now s -> well_used ops s = true -> ticking c ops s = true -> timer_run ops s = Some s' ->
  (forall c', OpCancel c' id ∉ ops) -> tinv s' /\ tick_keeps c now id s s'.
Proof.
  revert s. induction ops as [|op ops IH]; intros s Hi Ht Hw Htk Hr Hno; cbn [timer_run well_used ticking] in *.
  { injection Hr as <-. split; [done|]. split; [done|]. exists []. rewrite app_nil_r. split; [done|]. intros Hid _. by left. }
  apply andb_true_iff in Htk as [_ Htk]. assert (forall c', OpCancel c' id ∉ ops) as Hno' by (intros c' H; apply (Hno c'); by right).
  destruct (timer_step op s) as [[s1|]|] eqn:E; [|done|by apply IH]. apply andb_true_iff in Hw as [Hsafe Hw].
  destruct (timer_step_inv op s _ Hi E Hsafe) as (? & [= <-] & Hi1).
  assert (in_thread c s1 = false) as Hend by (destruct ops; cbn [ticking] in Htk; apply andb_true_iff in Htk as [H _]; by apply negb_true_iff).
  destruct (tick_step_keeps c now id op s s1 Hi Ht E) as (Ht1 & fs1 & F1 & K1); [intros c' ->; apply (Hno c'); by left|done|].
  destruct (IH s1 Hi1 Ht1 Hw Htk Hr Hno') as (Hi2 & Ht2 & fs2 & F2 & K2). split; [done|]. split; [done|].
  exists (fs1 ++ fs2). rewrite F2, F1, app_assoc. split; [done|]. intros Hid Hdue.
  destruct (K1 Hid Hdue) as [[H1 E1]|(f & Hf & ?)]; [|right; exists f; split; [apply elem_of_app; by left|done]].
  rewrite <-E1 in Hdue. destruct (K2 H1 Hdue) as [[H2 E2]|(f & Hf & ?)]; [left; split; congruence|right; exists f; split; [apply elem_of_app; by right|done]].
Qed.

(** ** Properties *)

Lemma OpCancel_dec id (ops : list TimerOp) : (exists c, OpCancel c id ∈ ops) \/ (forall c, OpCancel c id ∉ ops).
Proof.
  induction ops as [|op ops [[c H]|H]]; [right; intros c; apply not_elem_of_nil|left; exists c; by right|].
  assert ((exists c, op = OpCancel c id) \/ forall c, op <> OpCancel c id) as [[c ->]|Hne].
  { destruct op as [| c x| | | | | | |]; try by right. destruct (decide (x = id)) as [->|]; [left; by exists c|right; congruence]. }
  - left. exists c. by left.
  - right. intros c [?|?]%elem_of_cons; [by apply (Hne c)|by apply (H c)].
Qed.

(** The state in which a tick ends. *)
Lemma tick_outcome c now s l ops s' :
  tinv (Tick_begin c now s) -> cpus (Tick_begin c now s) !! c = Some (CpuTick now) -> timer_list_ (queue_at (Tick_begin c now s) c) = l ->
  well_used ops (Tick_begin c now s) = true -> ticking c ops (Tick_begin c now s) = true -> timer_run ops (Tick_begin c now s) = Some s' ->
  cpus s' !! c = Some (CpuTick now) -> timer_step (OpTickStep c) s' = Some (Some (Tick_end c s')) ->
  Forall (fun id => now < sched s' id) (timer_list_ (queue_at s' c)) /\
  exists fs, fired s' = fired s ++ fs /\
    forall id, id ∈ due s now l -> (exists c', OpCancel c' id ∈ ops) \/ exists f, f ∈ fs /\ f_id f = id /\ f_now f = now.
Proof.
  set (s1 := Tick_begin c now s). intros Hi E El Hw Htk Hr E' Hend. destruct (timer_run_inv ops s1 Hi Hw) as (s0 & Hr0 & Hi'). assert (s0 = s') as -> by congruence.
  assert (Tick_due c now s' = false) as Hd.
  { cbn [timer_step] in Hend. rewrite E' in Hend. injection Hend as Hend. destruct (Tick_due c now s') eqn:Ed; [|done].
    assert (cpus (Tick_end c s') !! c = Some CpuThread) as H by (apply Tick_end_rest; by eapply lookup_lt_Some).
    unfold Tick_pop in Hend. destruct (timer_list_ (queue_at s' c)) as [|x rest]; [done|]. destruct (callback_ _); [|done].
    apply (f_equal (fun o => o ≫= fun u => cpus u !! c)) in Hend. cbn [mbind option_bind] in Hend. rewrite H in Hend. cbn in Hend.
    by rewrite list_lookup_insert_eq in Hend by (by eapply lookup_lt_Some). }
  assert (Forall (fun id => now < sched s' id) (timer_list_ (queue_at s' c))) as Hnd.
  { pose proof (ti_sorted _ _ Hi' c) as Hs. unfold Tick_due in Hd. destruct (timer_list_ (queue_at s' c)) as [|x rest]; [done|].
    apply negb_false_iff, Z.ltb_lt in Hd. fold (sched s' x) in Hd. apply ascending_cons in Hs as [Hs _]. apply Forall_forall.
    intros y [->|Hy]%elem_of_cons; [done|]. specialize (Hs y Hy). lia. }
  split; [done|]. destruct (timer_run_log ops s1 s' Hr) as [fs Hfs]. exists fs. split; [done|]. intros id [Hdue Hid]%list_elem_of_filter.
  destruct (OpCancel_dec id ops) as [|Hno]; [by left|]. right.
  destruct (tick_run_keeps c now id ops s1 s' Hi (or_introl E) Hw Htk Hr Hno) as (_ & _ & fs' & Hfs' & K).
  rewrite Hfs in Hfs'. apply app_inv_head in Hfs' as ->. rewrite El in K. destruct (K Hid Hdue) as [[H1 H2]|?]; [|done].
  rewrite Forall_forall in Hnd. specialize (Hnd id H1). change (sched s1 id) with (sched s id) in H2. lia.
Qed.

Lemma Set_panics c id d s :
  runs_code c s && set_deadline_ok d = true ->
  timer_step (OpSet c id d) s = Some None <-> InContainer id s = true \/ exists a, active_cpu_ (timer_at s id) = Some a /\ a <> c.
Proof.
  intros Hen. cbn [timer_step]. rewrite Hen. unfold enabled_if, Timer_Set. destruct (InContainer id s); [split; [by left|done]|].
  cbv zeta. set (s2 := match timer_list_ _ with [] => _ | _ => _ end). clearbody s2.
  destruct (active_cpu_ (timer_at s id)) as [a|]; [|split; [done|by intros [?|(? & ? & _)]]]. destruct (decide (a = c)) as [->|Hne].
  - rewrite bool_decide_true by done. split; [by destruct (cancel_ _)|]. by intros [?|(? & [= <-] & ?)].
  - rewrite bool_decide_false by done. split; [|done]. intros _. right. by exists a.
Qed.

Definition example_deadline (t slack : Z) : Deadline := mkDeadline t slack TIMER_SLACK_CENTER.

(** C8. However cpus set and cancel timers, tick, reset their preemption timers, take over the
    timers of another cpu and thaw, and however callbacks set and cancel timers, as long as owners
    keep the contract of [safe_op], the kernel does not panic or call a null callback; each
    queue is in order of scheduled time and no timer is on two; a queued timer is scheduled
    within the window of its deadline and slack; every callback that ran was called at or
    after its scheduled time; and a cpu that runs threads has its hardware timer set no later
    than the first timer of its queue. The contract: a timer is set only while it is on no queue
    and its callback does not run on another cpu, the two conditions on which [Set] panics and
    the only ones; it is neither set nor cancelled while another thread is inside [Cancel] for
    it; and a callback does not cancel its own timer after setting it again. *)
Theorem timer_queue_sound (n : nat) (ops : list TimerOp) :
  well_used ops (timer_boot n) = true ->
  exists s, timer_run ops (timer_boot n) = Some s /\ NoDup (all_timers s) /\
    (forall c, ascending (sched s) (timer_list_ (queue_at s c))) /\
    (forall id, id ∈ all_timers s -> exists e l, window s !! id = Some (e, l) /\ e <= sched s id <= l) /\
    Forall (fun f => fst (f_window f) <= f_scheduled f <= snd (f_window f) /\ f_scheduled f <= f_now f) (fired s) /\
    (forall c id l, cpus s !! c = Some CpuThread -> timer_list_ (queue_at s c) = id :: l -> sched s id < ZX_TIME_INFINITE ->
       exists h, hw s !! c = Some (Some h) /\ h <= sched s id) /\
    (forall c id d, runs_code c s = true -> set_deadline_ok d = true ->
       timer_step (OpSet c id d) s = Some None <-> InContainer id s = true \/ exists a, active_cpu_ (timer_at s id) = Some a /\ a <> c).
Proof.
  intros Hw. destruct (timer_run_inv ops _ (tinv_boot n) Hw) as (s & Hr & Hi). exists s. split; [done|]. split_and!; try apply Hi.
  - intros id Hid. destruct (ti_queued _ _ Hi id Hid) as (_ & _ & e & l & ? & ? & _). by exists e, l.
  - intros c id l Hcpu El Hinf. pose proof (ti_armed _ _ Hi c ltac:(done) Hcpu) as Ha. unfold armed in Ha. rewrite queue_deadline_min, El in Ha.
    exists (next_timer_deadline_ (queue_at s c)). split; [|lia]. apply (ti_next _ _ Hi c). lia.
  - intros c id d Hc Hd. apply Set_panics; by rewrite Hc, Hd.
Qed.

(** C28. A tick calls the timers that are due. In every state the timers reach, let cpu [c] begin
    a tick at time [now]. Whatever the callbacks of the tick and the other cpus do while it
    lasts, when it is about to end, every timer that was due on the cpu's queue when it began has
    been called in this tick, unless somebody cancelled it; and what is on the queue by then is
    not due. And if the callbacks set and cancel nothing and no other cpu interferes, the tick
    does end: it calls exactly the timers of the queue that are due, each once and in order of
    scheduled time, leaves the others queued in their order, and returns the cpu to its thread. *)
Theorem tick_fires_due (n : nat) (ops : list TimerOp) (s : TimerSys) (c : nat) (now : Z) :
  well_used ops (timer_boot n) = true -> timer_run ops (timer_boot n) = Some s -> in_thread c s = true ->
  let l := timer_list_ (queue_at s c) in
  let s1 := Tick_begin c now s in
  (forall ops' s', well_used ops' s1 = true -> ticking c ops' s1 = true -> timer_run ops' s1 = Some s' -> cpus s' !! c = Some (CpuTick now) ->
     timer_step (OpTickStep c) s' = Some (Some (Tick_end c s')) ->
     Forall (fun id => now < sched s' id) (timer_list_ (queue_at s' c)) /\
     exists fs, fired s' = fired s ++ fs /\
       forall id, id ∈ due s now l -> (exists c', OpCancel c' id ∈ ops') \/ exists f, f ∈ fs /\ f_id f = id /\ f_now f = now) /\
  (exists s' fs, timer_run (OpTickBegin c now :: tick_ops c (due s now l)) s = Some s' /\
     in_thread c s' = true /\ timer_list_ (queue_at s' c) = not_due s now l /\
     fired s' = fired s ++ fs /\ map f_id fs = due s now l /\ Forall (fun f => f_now f = now) fs).
Proof.
  intros Hw Hr Hth l s1. destruct (timer_run_inv ops _ (tinv_boot n) Hw) as (s0 & Hr0 & Hi). assert (s0 = s) as -> by congruence.
  destruct (in_thread_lt c s Hi Hth) as [Hcpu Hc]. assert (tinv s1) as H1 by (by apply Tick_begin_inv).
  assert (cpus s1 !! c = Some (CpuTick now)) as E1 by (apply list_lookup_insert_eq; by eapply lookup_lt_Some).
  assert (timer_list_ (queue_at s1 c) = l) as El.
  { unfold s1, Tick_begin. change (queue_at (set_hw c None ?u)) with (queue_at u). rewrite queue_at_set by done. rewrite decide_True by done. by destruct (_ <=? _). }
  split.
  - intros ops' s' Hw' Htk Hr' Hcpu' Hend. by eapply tick_outcome.
  - destruct (tick_loop c now l s1 H1 E1 El) as (s' & R1 & R2 & R3 & R4 & fs & R5 & R6 & R7). destruct (due_ext s s1 now l) as [D1 D2]; [done|]. rewrite D1, D2 in *.
    exists s', fs. split_and!; try done; [|unfold in_thread; by rewrite R2]. cbn [timer_run timer_step]. rewrite Hth. exact R1.
Qed.

(** Once [Timer::Cancel] has returned, the timer's callback is not running and the timer is
    on no queue, and nothing that happens on any cpu calls its callback until it is set again. *)
Lemma cancelled_timer_stays_off (n : nat) (ops ops' : list TimerOp) (s s1 : TimerSys) (id : Z) :
  well_used ops (timer_boot n) = true -> timer_run ops (timer_boot n) = Some s -> timer_step (OpCancelFinish id) s = Some (Some s1) ->
  well_used ops' s1 = true -> forallb (fun op => negb (sets id op)) ops' = true ->
  active_cpu_ (timer_at s1 id) = None /\ InContainer id s1 = false /\
  exists s2, timer_run ops' s1 = Some s2 /\ InContainer id s2 = false /\ fired_of id s2 = fired_of id s1.
Proof.
  intros Hw Hr Hs Hw' Hset. destruct (timer_run_inv ops _ (tinv_boot n) Hw) as (s0 & Hr0 & Hi). assert (s0 = s) as -> by congruence.
  destruct (timer_step_inv _ _ _ Hi Hs eq_refl) as (? & [= <-] & Hi1).
  apply enabled_if_Some in Hs as [[Hc%bool_decide_eq_true Ha%bool_decide_eq_true]%andb_true_iff [= ->]]. set (s1 := set_cancelling _ _) in *.
  assert (forall u, (id ∉ all_timers u) -> InContainer id u = false) as Hin by (intros u Hu; apply not_true_is_false; by rewrite InContainer_spec).
  assert (id ∉ all_timers s1) as Hn by (intros H; by destruct (ti_queued _ _ Hi id H) as (_ & ? & _)).
  destruct (off_run id ops' s1 Hi1 Hw' Hset Hn) as (s2 & R1 & R2 & R3). split_and!; [|by apply Hin|exists s2; split_and!; try done; by apply Hin].
  change (active_cpu_ (timer_at (Timer_Cancel_finish id s) id) = None). unfold Timer_Cancel_finish. rewrite timer_at_set, decide_True by done. done.
Qed.

(** C39. [Timer::Cancel] from a timer's own callback clears the callback and reports that nothing
    was cancelled, but leaves the timer on the queue if the callback has just set it again. So a
    callback that sets its timer and then cancels it makes a later tick call a null callback. *)
Theorem callback_set_then_cancel_faults :
  (forall c id s, active_on c id s = true -> InContainer id s = true ->
     exists s', Timer_Cancel_locked c id s = (s', false, false) /\ InContainer id s' = true /\ callback_ (timer_at s' id) = false) /\
  exists s, timer_run
      [OpSet 0 1 (example_deadline 10 0); OpTickBegin 0 10; OpTickStep 0; OpSet 0 1 (example_deadline 20 0); OpCancel 0 1; OpCallbackEnd 0; OpTickStep 0]
      (timer_boot 1) = Some s /\ in_thread 0 s = true /\
    timer_run [OpTickBegin 0 20; OpTickStep 0] s = None.
Proof.
  split.
  - intros c id s Ha Hin. unfold Timer_Cancel_locked. unfold active_on in Ha. rewrite Ha. eexists. split; [done|]. split; [exact Hin|].
    rewrite timer_at_set. by rewrite decide_True.
  - eexists. split; [vm_compute; reflexivity|]. split; vm_compute; reflexivity.
Qed.

(** ** Witnesses *)

(** Two timers coalesce on cpu 0, one is set on cpu 1 and moved, a tick runs one callback that
    sets its timer again, and another thread cancels. *)
Definition example_timer_ops : list TimerOp :=
  [OpSet 0 1 (example_deadline 100 10); OpSet 0 2 (example_deadline 105 10); OpSet 1 3 (example_deadline 300 0); OpTransition 0 1;
   OpTickBegin 0 100; OpTickStep 0; OpSet 0 1 (example_deadline 200 0); OpCancel 1 1; OpCallbackEnd 0; OpCancelFinish 1; OpTickStep 0; OpCallbackEnd 0; OpTickStep 0].

Lemma timer_queue_sound_witness :
  exists s, timer_run example_timer_ops (timer_boot 2) = Some s /\ map f_id (fired s) = [1; 2] /\ all_timers s = [3] /\ hw s !! 0%nat = Some (Some 300) /\
    NoDup (all_timers s).
Proof.
  destruct (timer_queue_sound 2 example_timer_ops) as (s & Hr & Hn & _); [vm_compute; reflexivity|]. exists s. split; [exact Hr|].
  assert (timer_run example_timer_ops (timer_boot 2) = Some s) as Hr' by exact Hr. vm_compute in Hr'. injection Hr' as <-. repeat split; assumption.
Defined.

Lemma tick_fires_due_witness :
  exists s s' s2 fs, timer_run (take 4 example_timer_ops) (timer_boot 2) = Some s /\
    timer_run [OpTickBegin 0 150; OpTickStep 0; OpCallbackEnd 0; OpTickStep 0; OpCallbackEnd 0; OpTickStep 0] s = Some s' /\
    timer_run [OpTickStep 0; OpCancel 1 2; OpSet 1 4 (example_deadline 500 0); OpCallbackEnd 0; OpCancelFinish 2] (Tick_begin 0 150 s) = Some s2 /\
    fired s2 = fired s ++ fs /\ exists f, f ∈ fs /\ f_id f = 1 /\ f_now f = 150.
Proof.
  destruct (timer_run (take 4 example_timer_ops) (timer_boot 2)) as [s|] eqn:Hr; [|vm_compute in Hr; discriminate].
  set (ops' := [OpTickStep 0; OpCancel 1 2; OpSet 1 4 (example_deadline 500 0); OpCallbackEnd 0; OpCancelFinish 2]).
  assert (in_thread 0 s = true /\ due s 150 (timer_list_ (queue_at s 0)) = [1; 2] /\ well_used ops' (Tick_begin 0 150 s) = true /\
    ticking 0 ops' (Tick_begin 0 150 s) = true) as (Hth & Hd & Hw' & Htk).
  { assert (timer_run (take 4 example_timer_ops) (timer_boot 2) = Some s) as Hr' by exact Hr. vm_compute in Hr'. injection Hr' as <-. repeat split; vm_compute; reflexivity. }
  destruct (tick_fires_due 2 (take 4 example_timer_ops) s 0 150) as (H1 & s' & fs & H2 & _); [vm_compute; reflexivity|exact Hr|exact Hth|].
  destruct (timer_run ops' (Tick_begin 0 150 s)) as [s2|] eqn:Hr2; [|vm_compute in Hr; injection Hr as <-; vm_compute in Hr2; discriminate].
  rewrite Hd in H2. destruct (H1 ops' s2 Hw' Htk Hr2) as (_ & fs2 & Hf & Hk).
  1, 2: vm_compute in Hr; injection Hr as <-; vm_compute in Hr2; injection Hr2 as <-; vm_compute; reflexivity.
  exists s, s', s2, fs2. split; [reflexivity|]. split; [exact H2|]. split; [exact Hr2|]. split; [exact Hf|].
  destruct (Hk 1) as [[c' H]|H]; [rewrite Hd; left| |exact H]. exfalso. unfold ops' in H. repeat (apply elem_of_cons in H as [H|H]; [discriminate|]).
  by apply elem_of_nil in H.
Defined.

Lemma cancelled_timer_stays_off_witness :
  exists s s1 s2, timer_run (take 9 example_timer_ops) (timer_boot 2) = Some s /\ timer_step (OpCancelFinish 1) s = Some (Some s1) /\
    timer_run [OpTickStep 0; OpCallbackEnd 0; OpTickStep 0; OpTickBegin 0 1000; OpTickStep 0] s1 = Some s2 /\ fired_of 1 s2 = fired_of 1 s1.
Proof.
  destruct (timer_run (take 9 example_timer_ops) (timer_boot 2)) as [s|] eqn:Hr; [|vm_compute in Hr; discriminate].
  destruct (timer_step (OpCancelFinish 1) s) as [[s1|]|] eqn:Hs.
  2,3: exfalso; vm_compute in Hr; injection Hr as <-; vm_compute in Hs; discriminate.
  destruct (cancelled_timer_stays_off 2 (take 9 example_timer_ops) [OpTickStep 0; OpCallbackEnd 0; OpTickStep 0; OpTickBegin 0 1000; OpTickStep 0] s s1 1)
    as (_ & _ & s2 & H1 & _ & H2); [vm_compute; reflexivity|exact Hr|exact Hs| |reflexivity|].
  - vm_compute in Hr. injection Hr as <-. vm_compute in Hs. injection Hs as <-. vm_compute. reflexivity.
  - exists s, s1, s2. repeat split; assumption.
Defined.
