(* ===== verification/TimerSpec.v ===== *)
(** * What a kernel timer promises to its owner

    An abstract timer ([TView]): set or not, its callback running or not, and whether some
    [Cancel] waits for the callback. Every step of the system of cpus and queues of
    [TimerQueue] is, for each timer, one of the steps of this abstract timer or leaves it as
    it was; owners of timers are verified against the abstract timer. *)

From S2P Require Import Prelude Types TimerQueue.

(** ** The abstract timer *)

Record TView := mkTV {
  tv_queued : option (Z * Z);      (* set, to fire within this window *)
  tv_running : bool;               (* its callback runs *)
  tv_waiting : bool;               (* some Cancel waits for the callback *)
}.

Definition tv_new : TView := mkTV None false false.

(** [Timer::Set] from a thread; [None] is a panic. *)
Definition tv_Set (d : Deadline) (v : TView) : option TView :=
  match tv_queued v with
  | Some _ => None
  | None => if tv_running v then None else Some (mkTV (Some (earliest d, latest d)) false (tv_waiting v))
  end.

(** [Timer::Set] from the timer's own callback; it does nothing if the timer was cancelled since. *)
Definition tv_SetOwn (d : Deadline) (cancelled : bool) (v : TView) : TView :=
  if cancelled then v else mkTV (Some (earliest d, latest d)) true (tv_waiting v).

(** [Timer::Cancel] from a thread: up to the wait, and the result it will return. *)
Definition tv_Cancel (v : TView) : TView * bool := (mkTV None (tv_running v) true, bool_decide (is_Some (tv_queued v))).

(** The end of the wait; [None] while the callback runs. *)
Definition tv_Finish (v : TView) : option TView := if tv_running v then None else Some (mkTV (tv_queued v) false false).

(** A tick at time [now] calls the callback: not before the window opens. *)
Definition tv_Fire (now : Z) (v : TView) : option TView :=
  match tv_queued v with
  | Some (e, _) => if e <=? now then Some (mkTV None true (tv_waiting v)) else None
  | None => None
  end.

Definition tv_End (v : TView) : option TView := if tv_running v then Some (mkTV (tv_queued v) false (tv_waiting v)) else None.

(** ** The abstraction *)

Definition view (id : Z) (s : TimerSys) : TView :=
  mkTV (if InContainer id s then window s !! id else None) (bool_decide (is_Some (active_cpu_ (timer_at s id)))) (is_cancelling id s).

(** What an operation is to the timer [id]. [Cancel] from the timer's own callback changes
    nothing of the view and reports that nothing was taken off a queue. A step of a tick at time
    [now] calls the callback of [id], or that of another timer, or ends the tick; it ends only
    when no timer of the queue has its whole window in the past. *)
Definition tv_does (id : Z) (op : TimerOp) (s s' : TimerSys) : Prop :=
  let v := view id s in let v' := view id s' in
  match op with
  | OpSet c x d =>
      if decide (x = id)
      then if active_on c id s then v' = tv_SetOwn d (cancel_ (timer_at s id)) v else tv_Set d v = Some v'
      else v' = v
  | OpCancel c x =>
      if decide (x = id)
      then let result := (Timer_Cancel_locked c id s).1.2 in
           if active_on c id s then v' = v /\ result = false else tv_Cancel v = (v', result)
      else v' = v
  | OpCancelFinish x => if decide (x = id) then tv_Finish v = Some v' else v' = v
  | OpTickStep c =>
      exists now, cpus s !! c = Some (CpuTick now) /\
        match cpus s' !! c with
        | Some (CpuCallback now' x) => now' = now /\ if decide (x = id) then tv_Fire now v = Some v' else v' = v
        | _ => v' = v /\ (id ∈ timer_list_ (queue_at s c) -> exists e l, tv_queued v = Some (e, l) /\ now < l)
        end
  | OpCallbackEnd c =>
      exists now x, cpus s !! c = Some (CpuCallback now x) /\ if decide (x = id) then tv_End v = Some v' else v' = v
  | _ => v' = v
  end.

(** ** Steps that leave a timer alone *)

Record keeps (x : Z) (s s' : TimerSys) : Prop := {
  kp_queued : x ∈ all_timers s' <-> x ∈ all_timers s;
  kp_window : window s' !! x = window s !! x;
  kp_active : active_cpu_ (timer_at s' x) = active_cpu_ (timer_at s x);
  kp_cancelling : x ∈ cancelling s' <-> x ∈ cancelling s;
}.

#[export] Instance keeps_refl x : Reflexive (keeps x).
Proof. intros s. by constructor. Qed.
#[export] Instance keeps_trans x : Transitive (keeps x).
Proof. intros s1 s2 s3 [] []. constructor; [by etransitivity|congruence|congruence|by etransitivity]. Qed.

Lemma bool_decide_iff_eq (P Q : Prop) `{Decision P, Decision Q} : (P <-> Q) -> bool_decide P = bool_decide Q.
Proof. intros H1. by apply bool_decide_ext. Qed.

Lemma InContainer_decide x s : InContainer x s = bool_decide (x ∈ all_timers s).
Proof. apply eq_bool_prop_intro. rewrite bool_decide_spec. split; intros H; [apply InContainer_spec; by apply Is_true_true in H|by apply Is_true_true, InContainer_spec]. Qed.

Lemma keeps_view x s s' : keeps x s s' -> view x s' = view x s.
Proof.
  intros []. unfold view. rewrite !InContainer_decide, (bool_decide_iff_eq _ _ kp_queued0), kp_window0, kp_active0. unfold is_cancelling.
  by rewrite (bool_decide_iff_eq _ _ kp_cancelling0).
Qed.

Lemma keeps_Update x c d s : keeps x s (UpdatePlatformTimer c d s).
Proof.
  destruct (UpdatePlatformTimer_rest c d s) as (H1 & H2 & _ & H4 & _). constructor; [by rewrite H4| |unfold timer_at; by rewrite H2|by rewrite H1].
  unfold UpdatePlatformTimer. by destruct (_ <? _).
Qed.

Lemma keeps_set_queue x c q s : timer_list_ q = timer_list_ (queue_at s c) -> keeps x s (set_queue c q s).
Proof. intros H. constructor; try done. by rewrite all_timers_same. Qed.

Lemma keeps_set_timer x id t s : x <> id -> keeps x s (set_timer id t s).
Proof. intros H. constructor; try done. rewrite timer_at_set. by rewrite decide_False. Qed.

(** Inserting [id] puts it on a queue and leaves the other timers alone. *)
Lemma Insert_effect x c id e l s :
  ascending (sched s) (timer_list_ (queue_at s c)) -> (c < length (queues s))%nat -> (id ∉ all_timers s) -> e <= sched s id <= l ->
  let s' := Insert c id e l s in
  (x ∈ all_timers s' <-> x = id \/ x ∈ all_timers s) /\ window s' !! x = window s !! x /\
  active_cpu_ (timer_at s' x) = active_cpu_ (timer_at s x) /\ (x ∈ cancelling s' <-> x ∈ cancelling s).
Proof.
  intros Ha Hc Hn Hw s'. pose proof (Insert_spec c id e l s Hc Ha ltac:(intros H; by apply Hn, (queue_at_all c)) Hw) as Hins. fold s' in Hins.
  pose proof (inserted_all _ _ _ _ _ _ Hc Hins (Insert_queues c id e l s Hc)) as Hall. destruct Hins. destruct in_rest as (_ & _ & -> & -> & _ & _).
  split_and!; [|done|apply in_timer|done]. rewrite Hall. apply elem_of_cons.
Qed.

Lemma keeps_Insert x c id e l s :
  ascending (sched s) (timer_list_ (queue_at s c)) -> (c < length (queues s))%nat -> (id ∉ all_timers s) -> e <= sched s id <= l -> x <> id ->
  keeps x s (Insert c id e l s).
Proof. intros Ha Hc Hn Hw Hne. destruct (Insert_effect x c id e l s Ha Hc Hn Hw) as (H1 & H2 & H3 & H4). constructor; try done. rewrite H1. naive_solver. Qed.

(** The state of [Set] once it has inserted the timer and updated the hardware timer. *)
Definition armed_state (c : nat) (id : Z) (d : Deadline) (s : TimerSys) : TimerSys :=
  let t := timer_at s id in
  let s1 := Insert c id (earliest d) (latest d)
    (set_window id (earliest d, latest d) (set_timer id (mkTimer (when_ d) (slack_ t) true (active_cpu_ t) false) s)) in
  match timer_list_ (queue_at s1 c) with head :: _ => if head =? id then UpdatePlatformTimer c (when_ d) s1 else s1 | [] => s1 end.

Lemma armed_state_effect x c id d s :
  tinv s -> (c < length (queues s))%nat -> deadline_ok d -> (id ∉ all_timers s) ->
  let s' := armed_state c id d s in
  (x <> id -> keeps x s s') /\ id ∈ all_timers s' /\ window s' !! id = Some (earliest d, latest d) /\
  active_cpu_ (timer_at s' id) = active_cpu_ (timer_at s id) /\ (id ∈ cancelling s' <-> id ∈ cancelling s).
Proof.
  intros Hi Hc Hd Hn s'. destruct (window_ok d Hd) as (Hw & _ & _). unfold armed_state in s'.
  set (t := mkTimer (when_ d) _ true _ false) in s'. set (s0 := set_window id _ _) in s'. set (s1 := Insert _ _ _ _ _) in s'.
  assert (timer_at s0 id = t) as Et by (change (timer_at s0 id) with (timer_at (set_timer id t s) id); rewrite timer_at_set; by rewrite decide_True).
  assert (forall x, x <> id -> timer_at s0 x = timer_at s x) as Eo by (intros y Hy; change (timer_at s0 y) with (timer_at (set_timer id t s) y); rewrite timer_at_set; by rewrite decide_False).
  assert (ascending (sched s0) (timer_list_ (queue_at s0 c))) as Ha.
  { eapply ascending_ext; [|apply (ti_sorted _ _ Hi c)]. intros y Hy. unfold sched. rewrite Eo; [done|]. intros ->. by apply Hn, (queue_at_all c). }
  assert (earliest d <= sched s0 id <= latest d) as Hw0 by (unfold sched; by rewrite Et).
  assert (forall y, keeps y s1 s') as Hk by (intros y; unfold s'; destruct (timer_list_ (queue_at s1 c)) as [|h ?]; [done|]; destruct (h =? id); [apply keeps_Update|done]).
  split.
  - intros Hx. etransitivity; [|apply Hk]. etransitivity; [|by apply keeps_Insert]. constructor; try done; [by apply lookup_insert_ne|by rewrite Eo].
  - destruct (Insert_effect id c id (earliest d) (latest d) s0 Ha Hc Hn Hw0) as (I1 & I2 & I3 & I4). destruct (Hk id). rewrite kp_queued0, kp_window0, kp_active0, kp_cancelling0.
    split_and!; [apply I1; by left| | |exact I4]; [etransitivity; [exact I2|apply lookup_insert_eq]|etransitivity; [exact I3|by rewrite Et]].
Qed.

Lemma Timer_Set_view x c id d s s' :
  tinv s -> (c < length (queues s))%nat -> set_deadline_ok d = true -> Timer_Set c id d s = Some s' -> tv_does x (OpSet c id d) s s'.
Proof.
  intros Hi Hc Hd%set_deadline_ok_spec Hs. unfold Timer_Set in Hs. destruct (InContainer id s) eqn:Ein; [done|].
  assert (id ∉ all_timers s) as Hn by (rewrite <-InContainer_spec; congruence). cbv zeta in Hs. fold (armed_state c id d s) in Hs.
  destruct (armed_state_effect x c id d s Hi Hc Hd Hn) as (K & A1 & A2 & A3 & A4). cbn [tv_does]. destruct (decide (id = x)) as [->|Hne].
  - assert (forall b, bool_decide (is_Some (active_cpu_ (timer_at s x))) = b ->
      view x (armed_state c x d s) = mkTV (Some (earliest d, latest d)) b (tv_waiting (view x s))) as Hv.
    { intros b Hb. unfold view, is_cancelling. cbn [tv_waiting]. by rewrite (proj2 (InContainer_spec x _) A1), A2, A3, (bool_decide_iff_eq _ _ A4), Hb. }
    unfold active_on, tv_SetOwn, tv_Set. destruct (active_cpu_ (timer_at s x)) as [a|] eqn:Ea.
    + destruct (decide (a = c)) as [->|Hne]; [|by rewrite bool_decide_false in Hs]. rewrite !bool_decide_true in * by done.
      destruct (cancel_ (timer_at s x)); injection Hs as <-; [done|]. by apply (Hv true).
    + rewrite bool_decide_false by done. injection Hs as <-. rewrite (Hv false) by (by apply bool_decide_false; intros [? ?]).
      unfold view. rewrite Ein, Ea. cbn [tv_queued tv_running tv_waiting]. by rewrite (bool_decide_false (is_Some None)) by (intros [? ?]; done).
  - apply keeps_view. destruct (active_cpu_ (timer_at s id)) as [a|]; [|by injection Hs as <-; apply K].
    destruct (bool_decide (a = c)); [|done]. destruct (cancel_ (timer_at s id)); injection Hs as <-; [done|by apply K].
Qed.

Lemma all_timers_remove id s x : x ∈ all_timers (RemoveFromContainer id s) <-> x ∈ all_timers s /\ x <> id.
Proof.
  unfold all_timers. cbn. induction (queues s) as [|q qs IH]; cbn; [set_solver|]. rewrite !elem_of_app, IH, list_elem_of_filter. naive_solver.
Qed.

Lemma Timer_Cancel_keeps x c id s : x <> id -> keeps x s (fst (fst (Timer_Cancel_locked c id s))).
Proof.
  intros Hx. unfold Timer_Cancel_locked. set (s1 := set_timer id _ s). assert (keeps x s s1) as H1 by (by apply keeps_set_timer).
  case_bool_decide; [etransitivity; [exact H1|by apply keeps_set_timer]|]. destruct (InContainer id s1); [|done].
  assert (keeps x s (RemoveFromContainer id s1)) as Hk.
  { etransitivity; [exact H1|]. constructor; try done. rewrite all_timers_remove. naive_solver. }
  set (s2 := RemoveFromContainer id s1) in *. cbv zeta. fold s2. cbn [fst].
  destruct (bool_decide (head (timer_list_ (queue_at s1 c)) = Some id)); [|done].
  destruct (timer_list_ (queue_at s2 c)) as [|h l]; [destruct (_ =? _); by destruct Hk|]. etransitivity; [exact Hk|apply keeps_Update].
Qed.

Lemma Timer_Cancel_effect c id s :
  active_on c id s = false ->
  let '(s', r, w) := Timer_Cancel_locked c id s in
  w = true /\ r = InContainer id s /\ (id ∉ all_timers s') /\ active_cpu_ (timer_at s' id) = active_cpu_ (timer_at s id).
Proof.
  intros Ha. unfold Timer_Cancel_locked. unfold active_on in Ha. rewrite Ha. set (s1 := set_timer id _ s).
  change (InContainer id s1) with (InContainer id s).
  assert (active_cpu_ (timer_at s1 id) = active_cpu_ (timer_at s id)) as Ea by (unfold s1; rewrite timer_at_set; by rewrite decide_True).
  destruct (InContainer id s) eqn:Ein.
  2: { split_and!; try done. change (id ∉ all_timers s). rewrite <-InContainer_spec. congruence. }
  set (s2 := RemoveFromContainer id s1) in *. assert (id ∉ all_timers s2) as Hn by (unfold s2; rewrite all_timers_remove; naive_solver).
  assert (forall s3, keeps id s2 s3 -> true = true /\ true = true /\ (id ∉ all_timers s3) /\ active_cpu_ (timer_at s3 id) = active_cpu_ (timer_at s id)) as Hfin.
  { intros s3 []. split_and!; try done; [by rewrite kp_queued0|by rewrite kp_active0]. }
  apply Hfin. destruct (bool_decide (head (timer_list_ (queue_at s1 c)) = Some id)); [|done].
  fold s2. destruct (timer_list_ (queue_at s2 c)) as [|h l]; [destruct (_ =? _); by constructor|]. apply keeps_Update.
Qed.

Lemma move_timers_rest x c ids s : let s' := move_timers c ids s in
  window s' = window s /\ cancelling s' = cancelling s /\ active_cpu_ (timer_at s' x) = active_cpu_ (timer_at s x).
Proof.
  revert s. induction ids as [|id ids IH]; intros s; [done|]. cbn [move_timers]. cbv zeta. set (s1 := Insert _ _ _ _ _).
  destruct (IH s1) as (-> & -> & ->). unfold s1, Insert. destruct (insert_loop _ _ _ _ _ _) as [[l' sl] t']. split_and!; try done.
  change (timer_at (set_queue c ?q ?u) x) with (timer_at u x). rewrite timer_at_set. by case_decide as H; [rewrite H|].
Qed.

Lemma keeps_Transition x c src s :
  tinv s -> (c < length (queues s))%nat -> (src < length (queues s))%nat -> cpus s !! src = Some CpuThread -> c <> src -> keeps x s (TransitionOffCpu c src s).
Proof.
  intros Hi Hc Hsrc Hcpu Hne. unfold TransitionOffCpu. set (ids := timer_list_ (queue_at s src)). set (s0 := set_queue src _ s).
  assert (length (queues s0) = length (queues s)) as El0 by (cbn; by rewrite length_insert).
  assert (tinv s0) as Hi0 by (apply tinv_shrink; [done|]; apply set_queue_shrinks; split; [apply sublist_nil_l|done]).
  destruct (move_timers_inv c ids s0) as (_ & _ & _ & I4 & _ & _ & _); [by apply tinv_weaken|lia|by apply NoDup_queue, Hi| |].
  { apply Forall_forall. intros id Hid. by apply queued_movable. }
  assert (keeps x s (move_timers c ids s0)) as H1.
  { destruct (move_timers_rest x c ids s0) as (R1 & R2 & R3). constructor; [|by rewrite R1|by rewrite R3|by rewrite R2].
    rewrite I4. destruct (all_timers_set src (with_list [] (queue_at s src)) s Hsrc) as (R & P1 & P2). fold s0 in P2. rewrite P1, P2. done. }
  set (s1 := move_timers c ids s0) in *. etransitivity; [|by apply keeps_set_queue]. etransitivity; [exact H1|].
  destruct (timer_list_ (queue_at s1 c)); [done|]. case_bool_decide; [done|apply keeps_Update].
Qed.

Lemma Tick_pop_view x c now s s' :
  tinv s -> cpus s !! c = Some (CpuTick now) -> Tick_due c now s = true -> Tick_pop c now s = Some s' ->
  tv_does x (OpTickStep c) s s'.
Proof.
  intros Hi E Hdue. cbn [tv_does]. rewrite E. unfold Tick_due in Hdue. unfold Tick_pop. destruct (timer_list_ (queue_at s c)) as [|id rest] eqn:El; [done|].
  cbv zeta. destruct (callback_ (timer_at s id)); [|done]. intros [= <-]. set (t := mkTimer _ _ _ _ _). set (s1 := set_queue c _ s). set (s2 := log_fired _ _).
  assert (c < length (queues s))%nat as Hc by (rewrite <-(proj2 (ti_len _ _ Hi)); by eapply lookup_lt_Some).
  assert (id ∈ timer_list_ (queue_at s c)) as Hin by (rewrite El; by left). pose proof (queue_at_all c s id Hin) as Hall.
  assert (all_timers s ≡ₚ id :: all_timers s1) as Hp.
  { destruct (all_timers_set c (with_list rest (queue_at s c)) s Hc) as (R & P1 & P2). fold s1 in P2. rewrite P1, P2, El. done. }
  assert (forall y, timer_at s2 y = if decide (y = id) then t else timer_at s y) as Et by (intros y; exact (timer_at_set id t s1 y)).
  exists now. split; [done|]. assert (cpus s2 !! c = Some (CpuCallback now id)) as -> by (apply list_lookup_insert_eq; by eapply lookup_lt_Some).
  split; [done|]. destruct (decide (id = x)) as [<-|Hne].
  - destruct (ti_queued _ _ Hi id Hall) as (_ & Hcan & e & l & Hw & Hb & _). unfold tv_Fire, view.
    rewrite (proj2 (InContainer_spec id s) Hall), Hw. cbn [tv_queued]. rewrite negb_true_iff, Z.ltb_ge in Hdue. fold (sched s id) in Hdue.
    rewrite (proj2 (Z.leb_le e now)) by lia. f_equal. rewrite Et, decide_True by done. assert (InContainer id s2 = false) as ->; [|done].
    rewrite InContainer_decide. apply bool_decide_false. pose proof (ti_nodup _ _ Hi) as Hnd. rewrite Hp in Hnd. by apply NoDup_cons in Hnd as [? _].
  - apply keeps_view. constructor; try done.
    + change (x ∈ all_timers s1 <-> x ∈ all_timers s). rewrite Hp, elem_of_cons. naive_solver.
    + rewrite Et. by rewrite decide_False.
Qed.

Lemma Tick_callback_end_view x c now id s :
  tinv s -> cpus s !! c = Some (CpuCallback now id) ->
  let s' := Tick_callback_end c now id s in if decide (id = x) then tv_End (view x s) = Some (view x s') else view x s' = view x s.
Proof.
  intros Hi E s'. assert (forall y, active_cpu_ (timer_at s' y) = if decide (y = id) then None else active_cpu_ (timer_at s y)) as Et.
  { intros y. unfold s', Tick_callback_end. change (timer_at (set_cpu ?c0 ?st ?u) y) with (timer_at u y). rewrite timer_at_set. by case_decide. }
  destruct (decide (id = x)) as [<-|Hne].
  - unfold tv_End, view. rewrite (proj2 (ti_active _ _ Hi id c) (ex_intro _ now E)). cbn [tv_running tv_queued tv_waiting]. rewrite bool_decide_true by done.
    rewrite Et, decide_True by done. done.
  - apply keeps_view. constructor; try done. rewrite Et. by rewrite decide_False.
Qed.

(** The end of a tick: the first timer, and so every one, is scheduled later. *)
Lemma Tick_end_view x c now s :
  tinv s -> cpus s !! c = Some (CpuTick now) -> Tick_due c now s = false -> tv_does x (OpTickStep c) s (Tick_end c s).
Proof.
  intros Hi E Hd. cbn [tv_does]. exists now. split; [done|]. destruct (Tick_end_rest c s) as (-> & _); [by eapply lookup_lt_Some|]. split.
  - apply keeps_view. destruct (keeps_Update x c (queue_deadline c s) s). by constructor.
  - intros Hin. pose proof (queue_at_all c s x Hin) as Hall. destruct (ti_queued _ _ Hi x Hall) as (_ & _ & e & l & Hw & Hb & _).
    exists e, l. unfold view. cbn [tv_queued]. rewrite (proj2 (InContainer_spec x s) Hall). split; [done|].
    pose proof (ti_sorted _ _ Hi c) as Hs. unfold Tick_due in Hd. destruct (timer_list_ (queue_at s c)) as [|h rest] eqn:El; [by apply elem_of_nil in Hin|].
    apply negb_false_iff, Z.ltb_lt in Hd. fold (sched s h) in Hd. pose proof (ascending_head _ _ h x Hs eq_refl Hin). lia.
Qed.

Lemma Cancel_own c id s :
  active_on c id s = true -> let '(s', r, w) := Timer_Cancel_locked c id s in r = false /\ w = false /\ view id s' = view id s.
Proof.
  intros Ha. unfold Timer_Cancel_locked. unfold active_on in Ha. rewrite Ha. split; [done|]. split; [done|].
  unfold view. change (InContainer id (set_timer id ?t ?u)) with (InContainer id u). rewrite !timer_at_set, decide_True by done. done.
Qed.

Lemma Cancel_view x c id s s' :
  tinv s -> timer_step (OpCancel c id) s = Some (Some s') -> tv_does x (OpCancel c id) s s'.
Proof.
  intros Hi Hs. apply enabled_if_Some in Hs as [_ Hs]. cbn [tv_does]. destruct (decide (id = x)) as [->|Hne].
  - destruct (active_on c x s) eqn:Ha.
    { pose proof (Cancel_own c x s Ha) as He. destruct (Timer_Cancel_locked c x s) as [[s1 r] w]. destruct He as (-> & -> & He). by injection Hs as ->. }
    pose proof (Timer_Cancel_effect c x s Ha) as He. destruct (Timer_Cancel_locked c x s) as [[s1 r] w].
    destruct He as (-> & -> & He3 & He4). injection Hs as ->. cbn [fst snd]. unfold tv_Cancel. f_equal.
    + unfold view, is_cancelling. cbn [tv_running tv_queued tv_waiting].
      change (InContainer x (set_cancelling _ s1)) with (InContainer x s1). change (timer_at (set_cancelling _ s1)) with (timer_at s1).
      rewrite InContainer_decide, (bool_decide_false (x ∈ all_timers s1)), He4 by done. f_equal. symmetry. apply bool_decide_true. by left.
    + cbn. destruct (InContainer x s) eqn:Ein; [|done]. destruct (ti_queued _ _ Hi x) as (_ & _ & e & l & -> & _); [by apply InContainer_spec|done].
  - apply keeps_view. pose proof (Timer_Cancel_keeps x c id s (not_eq_sym Hne)) as Hk. destruct (Timer_Cancel_locked c id s) as [[s1 r] w].
    injection Hs as ->. cbn [fst] in Hk. destruct w; [|done]. etransitivity; [exact Hk|]. constructor; try done. cbn. rewrite elem_of_cons. naive_solver.
Qed.

Lemma Finish_view x id s s' : timer_step (OpCancelFinish id) s = Some (Some s') -> tv_does x (OpCancelFinish id) s s'.
Proof.
  intros Hs. apply enabled_if_Some in Hs as [[Hc%bool_decide_eq_true Ha%bool_decide_eq_true]%andb_true_iff [= ->]]. cbn [tv_does].
  destruct (decide (id = x)) as [<-|Hne].
  - unfold tv_Finish, view, Timer_Cancel_finish, is_cancelling. rewrite Ha. cbn [tv_running tv_queued].
    change (timer_at (set_cancelling _ ?u)) with (timer_at u). rewrite timer_at_set, decide_True by done. cbn [active_cpu_].
    rewrite (bool_decide_false (is_Some None)) by (intros [? ?]; done). f_equal. f_equal. symmetry. apply bool_decide_false. cbn. rewrite list_elem_of_filter. naive_solver.
  - apply keeps_view. etransitivity; [by apply (keeps_set_timer x id)|]. constructor; try done. cbn. rewrite list_elem_of_filter. naive_solver.
Qed.

Lemma Tick_begin_keeps x c now s : keeps x s (Tick_begin c now s).
Proof.
  unfold Tick_begin. set (q := if _ : bool then _ else _). destruct (keeps_set_queue x c q s); [unfold q; by destruct (_ <=? _)|]. by constructor.
Qed.

(** C19. Kernel timers keep their promise to their owners: in every state that owners who keep the
    contract reach, whatever a cpu does with its timers next, the step is to each single timer
    exactly the one of the abstract timer, whether its owner acts from a thread or from the
    timer's callback. A tick at time [now] calls a timer only if it is set and its window has
    opened by [now], and does not end while its queue holds a timer whose window is over;
    [Cancel] reports whether it took the timer off a queue; its wait ends only when the callback
    has returned; and steps for other timers, ticks on other cpus, preemption resets, migrations
    and thawing change nothing of it. *)
Theorem timer_refines_view (n : nat) (ops : list TimerOp) (s s' : TimerSys) (id : Z) (op : TimerOp) :
  well_used ops (timer_boot n) = true -> timer_run ops (timer_boot n) = Some s ->
  timer_step op s = Some (Some s') -> tv_does id op s s'.
Proof.
  intros Hw Hr Hs. destruct (timer_run_inv ops _ (tinv_boot n) Hw) as (s0 & Hr0 & Hi). assert (s0 = s) as -> by congruence. clear Hr Hr0 Hw.
  destruct op as [c x d|c x|x|c d|c now|c|c|c src|c]; cbn [timer_step] in Hs.
  - apply enabled_if_Some in Hs as [[Hc%(runs_code_lt c s Hi) Hd]%andb_true_iff Hs%eq_sym]. by apply Timer_Set_view.
  - by apply Cancel_view.
  - by apply Finish_view.
  - apply keeps_view. apply enabled_if_Some in Hs as [_ [= ->]]. etransitivity; [|apply keeps_Update]. by apply keeps_set_queue.
  - apply keeps_view. apply enabled_if_Some in Hs as [_ [= ->]]. apply Tick_begin_keeps.
  - destruct (cpus s !! c) as [[|now|]|] eqn:E; try done. injection Hs as Hs.
    destruct (Tick_due c now s) eqn:Ed; [by eapply Tick_pop_view|]. injection Hs as <-. by eapply Tick_end_view.
  - destruct (cpus s !! c) as [[|now|now x]|] eqn:E; try done. injection Hs as <-. exists now, x. split; [done|]. by apply Tick_callback_end_view.
  - apply keeps_view. apply enabled_if_Some in Hs as [[[[H1 H2]%(in_thread_lt c s Hi) [H3 H4]%(in_thread_lt src s Hi)]%andb_true_iff Hcs]%andb_true_iff [= ->]].
    rewrite negb_true_iff, bool_decide_eq_false in Hcs. by apply keeps_Transition.
  - apply keeps_view. apply enabled_if_Some in Hs as [_ [= ->]]. etransitivity; [|apply keeps_Update]. by apply keeps_set_queue.
Qed.

(** ** Witness *)

Lemma timer_refines_view_witness :
  exists s s', timer_run (take 5 example_timer_ops) (timer_boot 2) = Some s /\ timer_step (OpTickStep 0) s = Some (Some s') /\
    view 1 s = mkTV (Some (90, 110)) false false /\ view 1 s' = mkTV None true false /\ tv_does 1 (OpTickStep 0) s s'.
Proof.
  destruct (timer_run (take 5 example_timer_ops) (timer_boot 2)) as [s|] eqn:Hr; [|vm_compute in Hr; discriminate].
  destruct (timer_step (OpTickStep 0) s) as [[s'|]|] eqn:Hs.
  2,3: exfalso; vm_compute in Hr; injection Hr as <-; vm_compute in Hs; discriminate.
  pose proof (timer_refines_view 2 (take 5 example_timer_ops) s s' 1 (OpTickStep 0) ltac:(vm_compute; reflexivity) Hr Hs) as H.
  exists s, s'. split; [reflexivity|]. split; [exact Hs|]. split; [|split; [|exact H]].
  - vm_compute in Hr. injection Hr as <-. vm_compute. reflexivity.
  - vm_compute in Hr. injection Hr as <-. vm_compute in Hs. injection Hs as <-. vm_compute. reflexivity.
Defined.
