(* ===== verification/TimerDispatcher.v ===== *)
(** * Timer objects

    Models [zircon/kernel/object/timer_dispatcher.cc] with its header, the deferred procedure
    call of [zircon/kernel/kernel/dpc.cc] that it queues, and the argument checks of
    [zircon/kernel/lib/syscalls/timer.cc].

    The kernel timer of the object is the abstract timer of [TimerSpec], which [TimerQueue]
    implements. [Timer::Cancel] may wait for the interrupt callback while the object's lock is
    held, so a critical section that cancels stops at that point ([Cont]) and goes on when the
    wait is over. Threads of user processes, the thread that closes the last handle, the
    interrupt callback and the workers that run the deferred call interleave; references are
    counted, and the object is deleted when the count reaches zero. [None] is a failed
    assertion, a panic, or a use of the deleted object. *)

From S2P Require Import Prelude Types Dispatcher TimerQueue TimerSpec.

Definition ZX_TIMER_SIGNALED : Z := ZX_OBJECT_SIGNALED.
Definition ZX_TIMER_SLACK_CENTER : Z := 0.
Definition ZX_TIMER_SLACK_EARLY : Z := 1.
Definition ZX_TIMER_SLACK_LATE : Z := 2.
Definition ZX_DEFAULT_TIMER_RIGHTS : Z := Z.lor (Z.lor ZX_RIGHTS_BASIC ZX_RIGHT_WRITE) ZX_RIGHT_SIGNAL.

(** ** The state *)

(** Where a holder of the lock waits for [Timer::Cancel], with the result it will get. *)
Inductive Cont :=
| KSet (deadline slack : Z) (canceled : bool)   (* CancelTimerLocked in Set *)
| KCancel (canceled : bool)                     (* CancelTimerLocked in Cancel *)
| KClose (canceled : bool)                      (* CancelTimerLocked in on_zero_handles *)
| KCloseTimer                                   (* timer_.Cancel in on_zero_handles *)
| KSetTimer                                     (* SetTimerLocked in Set *)
| KFired.                                       (* SetTimerLocked in OnTimerFired *)

(** The interrupt callback: not running, about to queue the deferred call, about to return. *)
Inductive CallbackPoint := CbNone | CbQueue | CbReturn.

Inductive HandleState := HOpen | HClosing | HClosed.

(** [users] is the number of references held by threads in system calls, [at_lock] and
    [at_release] the number of workers (and closing threads) about to take the lock in
    [OnTimerFired] and about to drop a reference. [last_set] is the request in force, the
    last [Set] that was not cancelled, and [reached] the time at which its deadline was found
    to have passed; [fire_time] is when the callback last ran. *)
Record TimerObj := mkTO {
  options_ : Z;
  base : Dispatcher;
  deadline_ : Z;
  slack_amount_ : Z;
  cancel_pending_ : bool;
  timer_ : TView;
  callback_at : CallbackPoint;
  dpc_queued : bool;
  at_lock : Z;
  at_release : Z;
  holder : option Cont;
  handles : HandleState;
  users : Z;
  refs : Z;
  alive : bool;
  last_set : option (Z * Z);
  reached : option Z;
  fire_time : Z;
}.

Definition set_base f o := mkTO (options_ o) (f (base o)) (deadline_ o) (slack_amount_ o) (cancel_pending_ o) (timer_ o) (callback_at o) (dpc_queued o) (at_lock o) (at_release o) (holder o) (handles o) (users o) (refs o) (alive o) (last_set o) (reached o) (fire_time o).
Definition set_deadline d s o := mkTO (options_ o) (base o) d s (cancel_pending_ o) (timer_ o) (callback_at o) (dpc_queued o) (at_lock o) (at_release o) (holder o) (handles o) (users o) (refs o) (alive o) (last_set o) (reached o) (fire_time o).
Definition set_pending p o := mkTO (options_ o) (base o) (deadline_ o) (slack_amount_ o) p (timer_ o) (callback_at o) (dpc_queued o) (at_lock o) (at_release o) (holder o) (handles o) (users o) (refs o) (alive o) (last_set o) (reached o) (fire_time o).
Definition set_view v o := mkTO (options_ o) (base o) (deadline_ o) (slack_amount_ o) (cancel_pending_ o) v (callback_at o) (dpc_queued o) (at_lock o) (at_release o) (holder o) (handles o) (users o) (refs o) (alive o) (last_set o) (reached o) (fire_time o).
Definition set_callback c o := mkTO (options_ o) (base o) (deadline_ o) (slack_amount_ o) (cancel_pending_ o) (timer_ o) c (dpc_queued o) (at_lock o) (at_release o) (holder o) (handles o) (users o) (refs o) (alive o) (last_set o) (reached o) (fire_time o).
Definition set_dpc q l o := mkTO (options_ o) (base o) (deadline_ o) (slack_amount_ o) (cancel_pending_ o) (timer_ o) (callback_at o) q l (at_release o) (holder o) (handles o) (users o) (refs o) (alive o) (last_set o) (reached o) (fire_time o).
Definition add_release n o := mkTO (options_ o) (base o) (deadline_ o) (slack_amount_ o) (cancel_pending_ o) (timer_ o) (callback_at o) (dpc_queued o) (at_lock o) (at_release o + n) (holder o) (handles o) (users o) (refs o) (alive o) (last_set o) (reached o) (fire_time o).
Definition set_holder h o := mkTO (options_ o) (base o) (deadline_ o) (slack_amount_ o) (cancel_pending_ o) (timer_ o) (callback_at o) (dpc_queued o) (at_lock o) (at_release o) h (handles o) (users o) (refs o) (alive o) (last_set o) (reached o) (fire_time o).
Definition set_handles h o := mkTO (options_ o) (base o) (deadline_ o) (slack_amount_ o) (cancel_pending_ o) (timer_ o) (callback_at o) (dpc_queued o) (at_lock o) (at_release o) (holder o) h (users o) (refs o) (alive o) (last_set o) (reached o) (fire_time o).
Definition add_users n o := mkTO (options_ o) (base o) (deadline_ o) (slack_amount_ o) (cancel_pending_ o) (timer_ o) (callback_at o) (dpc_queued o) (at_lock o) (at_release o) (holder o) (handles o) (users o + n) (refs o) (alive o) (last_set o) (reached o) (fire_time o).
Definition set_refs n a o := mkTO (options_ o) (base o) (deadline_ o) (slack_amount_ o) (cancel_pending_ o) (timer_ o) (callback_at o) (dpc_queued o) (at_lock o) (at_release o) (holder o) (handles o) (users o) n a (last_set o) (reached o) (fire_time o).
Definition set_goal l r o := mkTO (options_ o) (base o) (deadline_ o) (slack_amount_ o) (cancel_pending_ o) (timer_ o) (callback_at o) (dpc_queued o) (at_lock o) (at_release o) (holder o) (handles o) (users o) (refs o) (alive o) l r (fire_time o).
Definition set_fire_time t o := mkTO (options_ o) (base o) (deadline_ o) (slack_amount_ o) (cancel_pending_ o) (timer_ o) (callback_at o) (dpc_queued o) (at_lock o) (at_release o) (holder o) (handles o) (users o) (refs o) (alive o) (last_set o) (reached o) t.

(** ** The code *)

Definition timer_slack_mode (options : Z) : option slack_mode :=
  if options =? ZX_TIMER_SLACK_CENTER then Some TIMER_SLACK_CENTER
  else if options =? ZX_TIMER_SLACK_EARLY then Some TIMER_SLACK_EARLY
  else if options =? ZX_TIMER_SLACK_LATE then Some TIMER_SLACK_LATE
  else None.

(** [Create]: the new object, with one handle. *)
Definition timer_Create (koid options : Z) (ac : bool) : zx_status_t * option TimerObj :=
  if ZX_TIMER_SLACK_LATE <? options then (ZX_ERR_INVALID_ARGS, None) else
  match timer_slack_mode options with
  | None => (ZX_ERR_INVALID_ARGS, None)
  | Some _ =>
      if negb ac then (ZX_ERR_NO_MEMORY, None)
      else (ZX_OK, Some (mkTO options (mkDispatcher koid 0 0 [] []) 0 0 false tv_new CbNone false 0 0 None HOpen 0 1 true None None 0))
  end.

Definition UpdateState (clear set : Z) (o : TimerObj) : TimerObj := set_base (fun d => UpdateStateLocked d clear set) o.

(** [timer_.Cancel()] up to its wait; the holder of the lock stops at [k]. *)
Definition timer_Cancel (k : bool -> Cont) (o : TimerObj) : TimerObj :=
  let '(v, r) := tv_Cancel (timer_ o) in set_holder (Some (k r)) (set_view v o).

(** The second half of [SetTimerLocked], after the cancellation if any. *)
Definition SetTimerLocked_set (o : TimerObj) : option TimerObj :=
  match timer_slack_mode (options_ o) with
  | None => None
  | Some mode =>
      match tv_Set (mkDeadline (deadline_ o) (slack_amount_ o) mode) (timer_ o) with
      | None => None
      | Some v => Some (set_view v o)
      end
  end.

(** [CancelTimerLocked] up to [timer_.Cancel()]: whether it gets there. *)
Definition CancelTimerLocked_begin (o : TimerObj) : TimerObj * bool :=
  let o := set_goal None None (UpdateState ZX_TIMER_SIGNALED 0 o) in
  if deadline_ o =? 0 then (o, false) else
  let o := set_deadline 0 0 o in
  (o, negb (cancel_pending_ o)).

(** The rest of it, with the result of [timer_.Cancel()]; [None] when [ASSERT(!Release())] fails. *)
Definition CancelTimerLocked_end (canceled : bool) (o : TimerObj) : option TimerObj :=
  if canceled then (if refs o - 1 =? 0 then None else Some (set_refs (refs o - 1) (alive o) o)) else Some (set_pending true o).

(** [Release()], and the deletion with the assertions of the destructors. *)
Definition Release (o : TimerObj) : option TimerObj :=
  let o := set_refs (refs o - 1) (alive o) o in
  if negb (refs o =? 0) then Some o
  else if (deadline_ o =? 0) && (slack_amount_ o =? 0) && negb (tv_running (timer_ o)) && bool_decide (tv_queued (timer_ o) = None)
  then Some (set_refs 0 false o) else None.

(** [Set] after [CancelTimerLocked], which returned [did_cancel]. *)
Definition Set_rest (deadline slack now : Z) (did_cancel : bool) (o : TimerObj) : option TimerObj :=
  if (deadline =? 0) || (deadline <=? now) then
    Some (set_goal (Some (deadline, slack)) (Some now) (UpdateState 0 ZX_TIMER_SIGNALED o))
  else
    let o := set_goal (Some (deadline, slack)) None (set_deadline deadline slack o) in
    if cancel_pending_ o then Some o else
    let o := set_refs (refs o + 1) (alive o) o in
    if did_cancel then SetTimerLocked_set o else Some (timer_Cancel (fun _ => KSetTimer) o).

Definition timer_Set (deadline slack now : Z) (o : TimerObj) : option TimerObj :=
  let '(o, cancels) := CancelTimerLocked_begin o in
  if cancels then Some (timer_Cancel (KSet deadline slack) o) else Set_rest deadline slack now false o.

Definition timer_CancelOp (o : TimerObj) : option TimerObj :=
  let '(o, cancels) := CancelTimerLocked_begin o in
  if cancels then Some (timer_Cancel KCancel o) else Some o.

(** The closing thread holds the last handle's reference until it is done. *)
Definition on_zero_handles (o : TimerObj) : option TimerObj :=
  let '(o, cancels) := CancelTimerLocked_begin (set_handles HClosing o) in
  if cancels then Some (timer_Cancel KClose o) else Some (timer_Cancel (fun _ => KCloseTimer) o).

Definition closed (o : TimerObj) : TimerObj := add_release 1 (set_handles HClosed o).

(** [OnTimerFired] up to the end of the critical section. *)
Definition OnTimerFired (o : TimerObj) : option TimerObj :=
  if cancel_pending_ o then
    let o := set_pending false o in
    if negb (deadline_ o =? 0) then Some (timer_Cancel (fun _ => KFired) o) else Some (add_release 1 o)
  else
    Some (add_release 1 (set_deadline 0 0 (set_goal (last_set o) (Some (fire_time o)) (UpdateState 0 ZX_TIMER_SIGNALED o)))).

(** A holder of the lock goes on after the wait of [Timer::Cancel]. *)
Definition resume (k : Cont) (now : Z) (o : TimerObj) : option TimerObj :=
  match k with
  | KSet d s r => match CancelTimerLocked_end r o with Some o => Set_rest d s now true o | None => None end
  | KCancel r => CancelTimerLocked_end r o
  | KClose r => match CancelTimerLocked_end r o with Some o => Some (closed o) | None => None end
  | KCloseTimer => Some (closed o)
  | KSetTimer | KFired => SetTimerLocked_set o
  end.

(** [timer_irq_callback]: [Dpc::Queue]. *)
Definition timer_irq_callback (o : TimerObj) : TimerObj := set_callback CbReturn (set_dpc true (at_lock o) o).

(** [sys_timer_set] before the object is called: the slack passed on. *)
Definition effective_slack (slack policySlack : Z) : zx_status_t * Z :=
  if slack <? 0 then (ZX_ERR_OUT_OF_RANGE, 0) else (ZX_OK, Z.max slack policySlack).

(** [GetInfo]. *)
Definition timer_GetInfo (o : TimerObj) : Z * Z * Z := (options_ o, deadline_ o, slack_amount_ o).

(** ** Runs *)

Inductive TimerObjOp :=
| ToGet                              (* a system call looks the handle up *)
| ToPut                              (* and drops its reference *)
| ToSet (deadline slack now : Z)
| ToCancel
| ToSignal (clear set : Z)           (* object_signal *)
| ToObserve (observer : Z) (port_key : option (Z * Z)) (handle signals : Z)
| ToClose                            (* the last handle is closed *)
| ToResume (now : Z)                 (* the wait of the holder of the lock is over *)
| ToFire (now : Z)                   (* a tick calls timer_irq_callback *)
| ToQueue                            (* which queues the deferred call *)
| ToReturn                           (* and returns *)
| ToPop                              (* a worker takes the deferred call *)
| ToFired                            (* and runs OnTimerFired *)
| ToRelease.

Definition user_holds (o : TimerObj) : bool :=
  match holder o with Some (KSet _ _ _) | Some (KCancel _) | Some KSetTimer => true | _ => false end.

(** References a user thread can give up or use: one is in use by the user that holds the lock. *)
Definition idle_users (o : TimerObj) : Z := users o - (if user_holds o then 1 else 0).

Definition lock_free (o : TimerObj) : bool := match holder o with None => true | Some _ => false end.
Definition callback_idle (o : TimerObj) : bool := match callback_at o with CbNone => true | _ => false end.

(** A step by a thread with a reference, under the lock. *)
Definition user_locked (o : TimerObj) : bool := (0 <? users o) && lock_free o.

Definition when_alive (o : TimerObj) (r : option TimerObj) : option (option TimerObj) := Some (if alive o then r else None).

(** [None] when the step is not enabled, [Some None] when it goes wrong. A worker runs on the cpu
    whose interrupt queued the deferred call, so it takes it once the callback has returned. *)
Definition to_step (op : TimerObjOp) (o : TimerObj) : option (option TimerObj) :=
  match op with
  | ToGet => match handles o with HOpen => when_alive o (Some (add_users 1 (set_refs (refs o + 1) (alive o) o))) | _ => None end
  | ToPut => if 0 <? idle_users o then when_alive o (Release (add_users (-1) o)) else None
  | ToSet d s now => if user_locked o then when_alive o (timer_Set d s now o) else None
  | ToCancel => if user_locked o then when_alive o (timer_CancelOp o) else None
  | ToSignal c s => if user_locked o then when_alive o (Some (set_base (fun d => fst (solo_user_signal_self ZX_DEFAULT_TIMER_RIGHTS 0 d c s)) o)) else None
  | ToObserve ob pk h sg => if user_locked o then when_alive o (Some (set_base (fun d => fst (AddObserver true d ob pk h sg)) o)) else None
  | ToClose => match handles o with HOpen => if lock_free o then when_alive o (on_zero_handles o) else None | _ => None end
  | ToResume now =>
      match holder o with
      | Some k => match tv_Finish (timer_ o) with Some v => when_alive o (resume k now (set_holder None (set_view v o))) | None => None end
      | None => None
      end
  | ToFire now => match tv_Fire now (timer_ o) with Some v => when_alive o (Some (set_fire_time now (set_callback CbQueue (set_view v o)))) | None => None end
  | ToQueue => match callback_at o with CbQueue => when_alive o (Some (timer_irq_callback o)) | _ => None end
  | ToReturn => match callback_at o with CbReturn => when_alive o (match tv_End (timer_ o) with Some v => Some (set_callback CbNone (set_view v o)) | None => None end) | _ => None end
  | ToPop => if dpc_queued o && callback_idle o then when_alive o (Some (set_dpc false (at_lock o + 1) o)) else None
  | ToFired => if (0 <? at_lock o) && lock_free o then when_alive o (OnTimerFired (set_dpc (dpc_queued o) (at_lock o - 1) o)) else None
  | ToRelease => if 0 <? at_release o then when_alive o (Release (add_release (-1) o)) else None
  end.

Fixpoint to_run (ops : list TimerObjOp) (o : TimerObj) : option TimerObj :=
  match ops with
  | [] => Some o
  | op :: ops => match to_step op o with Some (Some o) => to_run ops o | Some None => None | None => to_run ops o end
  end.

(** ** The invariant *)

Definition b2z (b : bool) : Z := if b then 1 else 0.

(** The lock is held by a critical section that carries the pending reference. *)
Definition holder_token (o : TimerObj) : bool :=
  match holder o with Some (KSet _ _ r) | Some (KCancel r) | Some (KClose r) => r | Some KSetTimer | Some KFired => true | _ => false end.

Definition at_queue (o : TimerObj) : bool := match callback_at o with CbQueue => true | _ => false end.

(** The reference added by [Set] is pending on its way from the timer to [OnTimerFired]. *)
Definition fired_tokens (o : TimerObj) : Z := b2z (at_queue o) + b2z (dpc_queued o) + at_lock o.
Definition tokens (o : TimerObj) : Z := b2z (bool_decide (is_Some (tv_queued (timer_ o)))) + fired_tokens o + b2z (holder_token o).

Definition handle_ref (o : TimerObj) : Z := match handles o with HClosed => 0 | _ => 1 end.

(** A critical section that waits in [CancelTimerLocked]. *)
Definition cancels (k : Cont) : bool := match k with KSet _ _ _ | KCancel _ | KClose _ => true | _ => false end.

Definition signaled (o : TimerObj) : bool := Z.testbit (signals_ (base o)) 3.

Definition window_of (o : TimerObj) (d s : Z) : Z * Z :=
  match timer_slack_mode (options_ o) with Some m => (earliest (mkDeadline d s m), latest (mkDeadline d s m)) | None => (0, 0) end.

(** The deadline in force was reached at the time [t]. *)
Definition reached_by (o : TimerObj) (d s t : Z) : Prop := d = 0 \/ d <= t \/ fst (window_of o d s) <= t.

(** [ex] references are about to be dropped by the thread that is running. *)
Record to_inv_but (ex : Z) (o : TimerObj) : Prop := {
  to_alive : alive o = true -> refs o = handle_ref o + users o + tokens o + at_release o + ex /\ 0 < refs o;
  to_dead : alive o = false -> refs o = 0 /\ handle_ref o = 0 /\ users o = 0 /\ tokens o = 0 /\ at_release o = 0 /\ holder o = None /\
    callback_at o = CbNone;
  to_nonneg : 0 <= users o /\ 0 <= at_lock o /\ 0 <= at_release o /\ (user_holds o = true -> 0 < users o);
  to_one : tokens o <= 1;
  to_mode : is_Some (timer_slack_mode (options_ o));
  to_running : tv_running (timer_ o) = true <-> callback_at o <> CbNone;
  to_returning : callback_at o = CbReturn -> dpc_queued o = true;
  to_waiting : tv_queued (timer_ o) = None \/ holder o = None;
  to_closing : handles o = HClosing <-> match holder o with Some (KClose _) | Some KCloseTimer => True | _ => False end;
  (** the two fields agree with the pending reference *)
  to_slack : deadline_ o = 0 -> slack_amount_ o = 0;
  to_queued : forall w, tv_queued (timer_ o) = Some w -> deadline_ o <> 0 /\ cancel_pending_ o = false /\ w = window_of o (deadline_ o) (slack_amount_ o);
  to_pending : cancel_pending_ o = true -> fired_tokens o = 1;
  to_holding : match holder o with
    | Some k => if cancels k then deadline_ o = 0 /\ cancel_pending_ o = false /\ tokens o = 1 /\ last_set o = None /\ reached o = None
                else match k with KCloseTimer => deadline_ o = 0 | _ => deadline_ o <> 0 /\ cancel_pending_ o = false end
    | None => True
    end;
  to_idle : (forall k, holder o = Some k -> cancels k = false) -> cancel_pending_ o = false -> (tokens o = 1 <-> deadline_ o <> 0);
  (** what is signalled *)
  to_goal : deadline_ o <> 0 -> last_set o = Some (deadline_ o, slack_amount_ o) /\ reached o = None;
  to_signal : signaled o = true <-> is_Some (reached o);
  to_reached : forall t, reached o = Some t -> exists d s, last_set o = Some (d, s) /\ reached_by o d s t;
  to_lost : last_set o <> None -> reached o = None -> deadline_ o <> 0;
  to_time : cancel_pending_ o = false -> deadline_ o <> 0 -> fired_tokens o = 1 -> fst (window_of o (deadline_ o) (slack_amount_ o)) <= fire_time o;
}.

Abbreviation to_inv := (to_inv_but 0).

(** ** Preservation *)

(** A run never acts on a deleted object. *)
Lemma busy_alive o :
  to_inv o -> handle_ref o = 1 \/ 0 < users o \/ 0 < tokens o \/ 0 < at_release o \/ holder o <> None \/ callback_at o <> CbNone -> alive o = true.
Proof. intros [] H. destruct (alive o); [done|]. destruct (to_dead0 eq_refl) as (_ & ? & ? & ? & ? & ? & ?). exfalso. destruct H as [?|[?|[?|[?|[?|?]]]]]; congruence || lia. Qed.

Lemma to_parts ex o : to_inv_but ex o -> 0 <= fired_tokens o /\ 0 <= tokens o /\ 0 <= handle_ref o.
Proof.
  intros []. destruct to_nonneg0 as (_ & ? & _). unfold tokens, fired_tokens, b2z, handle_ref.
  destruct (at_queue o), (dpc_queued o), (holder_token o), (bool_decide _), (handles o); lia.
Qed.

(** Without a pending reference nothing is armed, running or queued. *)
Lemma no_token ex o :
  to_inv_but ex o -> tokens o = 0 ->
  tv_queued (timer_ o) = None /\ callback_at o = CbNone /\ dpc_queued o = false /\ at_lock o = 0 /\ holder_token o = false /\ cancel_pending_ o = false.
Proof.
  intros Hi Ht. pose proof (to_parts ex o Hi) as (Hf & _ & _). pose proof Hi as []. destruct to_nonneg0 as (_ & Hl & _).
  assert (fired_tokens o = 0 /\ holder_token o = false /\ tv_queued (timer_ o) = None) as (H1 & H2 & H3).
  { unfold tokens, b2z in Ht. destruct (holder_token o), (tv_queued (timer_ o)) as [w|] eqn:Eq.
    - rewrite bool_decide_true in Ht by done. lia.
    - destruct (bool_decide _); lia.
    - rewrite bool_decide_true in Ht by done. lia.
    - destruct (bool_decide _); split_and!; done || lia. }
  assert (at_queue o = false /\ dpc_queued o = false /\ at_lock o = 0) as (H4 & H5 & H6).
  { unfold fired_tokens, b2z in H1. destruct (at_queue o), (dpc_queued o); split_and!; done || lia. }
  split_and!; try done.
  - unfold at_queue in H4. destruct (callback_at o); try done. rewrite to_returning0 in H5; done.
  - destruct (cancel_pending_ o); [|done]. specialize (to_pending0 eq_refl). lia.
Qed.

Lemma last_reference o :
  to_inv_but 1 o -> alive o = true -> refs o = 1 ->
  handle_ref o = 0 /\ users o = 0 /\ tokens o = 0 /\ at_release o = 0 /\ holder o = None /\ callback_at o = CbNone /\
  deadline_ o = 0 /\ slack_amount_ o = 0 /\ tv_queued (timer_ o) = None /\ tv_running (timer_ o) = false.
Proof.
  intros Hi Ha Hr. pose proof (to_parts 1 o Hi) as (_ & Ht & Hh). pose proof Hi as []. destruct (to_alive0 Ha) as [He _]. destruct to_nonneg0 as (Hu & _ & Hrel & Huh).
  assert (tokens o = 0) as Ht0 by lia. destruct (no_token 1 o Hi Ht0) as (Q1 & Q2 & Q3 & Q4 & Q5 & Q6).
  assert (holder o = None) as Hh0.
  { unfold user_holds in Huh. unfold holder_token in Q5. destruct (holder o) as [k|] eqn:E; [|done]. exfalso.
    destruct k; try (specialize (Huh eq_refl); lia); try done; assert (handles o = HClosing) as Hcl by (by apply to_closing0); unfold handle_ref in He; rewrite Hcl in He; lia. }
  assert (deadline_ o = 0) as Hd0.
  { destruct (decide (deadline_ o = 0)); [done|]. exfalso. assert (tokens o = 1); [|lia]. apply to_idle0; [by rewrite Hh0|done|done]. }
  specialize (to_slack0 Hd0). split_and!; try done; try lia. apply not_true_is_false. intros Hrun%to_running0. by apply Hrun.
Qed.

Lemma Release_inv o : to_inv_but 1 o -> alive o = true -> exists o', Release o = Some o' /\ to_inv o'.
Proof.
  intros Hi Ha. unfold Release. change (refs (set_refs (refs o - 1) (alive o) o)) with (refs o - 1).
  destruct (Z.eqb_spec (refs o - 1) 0) as [Hz|Hz]; cbn [negb].
  - destruct (last_reference o Hi Ha ltac:(lia)) as (L1 & L2 & L3 & L4 & L5 & L6 & L7 & L8 & L9 & L10). cbn.
    rewrite L7, L8, L9, L10. eexists. split; [done|]. pose proof Hi as []. by constructor.
  - eexists. split; [done|]. pose proof (to_parts 1 o Hi) as (_ & ? & ?). pose proof Hi as []. destruct (to_alive0 Ha) as [Hr Hp]. constructor; try done.
    + intros _. change (refs (set_refs (refs o - 1) (alive o) o)) with (refs o - 1). change (handle_ref (set_refs ?n ?a o)) with (handle_ref o).
      change (users (set_refs ?n ?a o)) with (users o). change (tokens (set_refs ?n ?a o)) with (tokens o). change (at_release (set_refs ?n ?a o)) with (at_release o). lia.
    + cbn. congruence.
Qed.

(** A change of the other fields that keeps the tokens and what they say. *)
Lemma to_inv_get o : to_inv o -> alive o = true -> handles o = HOpen -> to_inv (add_users 1 (set_refs (refs o + 1) (alive o) o)).
Proof.
  intros Hi Ha Hh. pose proof Hi as []. destruct (to_alive0 Ha) as [Hr Hp]. destruct to_nonneg0 as (? & ? & ? & ?). constructor; try done.
  - intros _. cbn [refs add_users set_refs]. change (handle_ref _) with (handle_ref o). change (tokens _) with (tokens o). cbn [users at_release add_users set_refs]. lia.
  - cbn. congruence.
  - cbn. change (user_holds _) with (user_holds o). split_and!; try done; lia.
Qed.

Lemma to_inv_put o : to_inv o -> 0 < idle_users o -> to_inv_but 1 (add_users (-1) o).
Proof.
  intros Hi Hu. pose proof Hi as []. destruct to_nonneg0 as (? & ? & ? & ?). unfold idle_users in Hu.
  assert (alive o = true) as Ha by (apply busy_alive; [done|]; right; left; destruct (user_holds o); lia). destruct (to_alive0 Ha) as [Hr Hp]. constructor; try done.
  - intros _. cbn [refs add_users]. change (handle_ref _) with (handle_ref o). change (tokens _) with (tokens o). cbn [users at_release add_users]. lia.
  - cbn. congruence.
  - cbn. change (user_holds _) with (user_holds o). split_and!; try done; [destruct (user_holds o); lia|]. intros E. rewrite E in Hu. lia.
Qed.

Lemma to_inv_release o : to_inv o -> 0 < at_release o -> to_inv_but 1 (add_release (-1) o).
Proof.
  intros Hi Hu. pose proof Hi as []. destruct to_nonneg0 as (? & ? & ? & ?).
  assert (alive o = true) as Ha by (apply busy_alive; [done|]; do 3 right; by left). destruct (to_alive0 Ha) as [Hr Hp]. constructor; try done.
  - intros _. cbn [refs add_release]. change (handle_ref _) with (handle_ref o). change (tokens _) with (tokens o). cbn [users at_release add_release]. lia.
  - cbn. congruence.
  - cbn. split_and!; try done; lia.
Qed.

(** Changing the signals other than [ZX_TIMER_SIGNALED]. *)
Lemma to_inv_base f o : to_inv o -> Z.testbit (signals_ (f (base o))) 3 = Z.testbit (signals_ (base o)) 3 -> to_inv (set_base f o).
Proof. intros [] Hf. constructor; try done. unfold signaled in *. cbn [base set_base reached]. by rewrite Hf. Qed.

Lemma AddObserver_signals d ob pk h sg : signals_ (fst (AddObserver true d ob pk h sg)) = signals_ d.
Proof. unfold AddObserver. cbn [negb]. by destruct (negb _). Qed.

(** The interrupt callback and the deferred call. *)
Lemma to_inv_fire now v o :
  to_inv o -> tv_Fire now (timer_ o) = Some v -> to_inv (set_fire_time now (set_callback CbQueue (set_view v o))) /\ alive o = true.
Proof.
  intros Hi. unfold tv_Fire. destruct (tv_queued (timer_ o)) as [[e l]|] eqn:Eq; [|done]. destruct (Z.leb_spec e now) as [Hle|]; [|done]. intros [= <-].
  pose proof (to_parts 0 o Hi) as (Hf & _ & _). pose proof Hi as []. destruct (to_queued0 _ Eq) as (Q1 & Q2 & Q3). destruct to_nonneg0 as (? & ? & ? & ?).
  assert (b2z (bool_decide (is_Some (tv_queued (timer_ o)))) = 1) as Eb by (rewrite Eq; done).
  assert (fired_tokens o = 0 /\ tokens o = 1 /\ holder_token o = false) as (F0 & T1 & HT0).
  { unfold tokens in *. rewrite Eb in *. destruct (holder_token o); cbn [b2z] in *; [lia|]. split_and!; [lia|lia|done]. }
  assert (at_queue o = false /\ dpc_queued o = false /\ at_lock o = 0) as (A1 & A2 & A3).
  { unfold fired_tokens, b2z in F0. destruct (at_queue o), (dpc_queued o); split_and!; done || lia. }
  set (o' := set_fire_time _ _). assert (fired_tokens o' = 1) as F1 by (unfold fired_tokens, b2z, o'; cbn; rewrite A2, A3; lia).
  assert (tokens o' = tokens o) as T1'.
  { unfold tokens. rewrite F1, F0, Eb. change (holder_token o') with (holder_token o). cbn. lia. }
  assert (alive o = true) as Ha by (apply busy_alive; [done|]; do 2 right; left; lia).
  split; [|done]. constructor; rewrite ?T1', ?F1; try done.
  - cbn. congruence.
  - by left.
  - intros _ _ _. change (fst (window_of o (deadline_ o) (slack_amount_ o)) <= now). by rewrite <-Q3.
Qed.

Lemma to_inv_queue o : to_inv o -> callback_at o = CbQueue -> to_inv (timer_irq_callback o) /\ alive o = true.
Proof.
  intros Hi Hcb. assert (alive o = true) as Ha by (apply busy_alive; [done|]; do 5 right; congruence).
  pose proof (to_parts 0 o Hi) as (Hf & Ht & _). pose proof Hi as []. destruct to_nonneg0 as (? & ? & ? & ?).
  assert (at_queue o = true) as Eq by (unfold at_queue; by rewrite Hcb).
  assert (dpc_queued o = false) as Ed.
  { destruct (dpc_queued o) eqn:E; [|done]. unfold tokens, fired_tokens in to_one0. rewrite Eq, E in to_one0. cbn [b2z] in to_one0.
    destruct (bool_decide _), (holder_token o); cbn [b2z] in to_one0; lia. }
  assert (fired_tokens (timer_irq_callback o) = fired_tokens o) as Ef by (unfold fired_tokens; rewrite Eq, Ed; cbn; lia).
  assert (tokens (timer_irq_callback o) = tokens o) as Et by (unfold tokens; by rewrite Ef).
  split; [|done]. constructor; rewrite ?Et, ?Ef; try done; [cbn; congruence|]. cbn. rewrite to_running0, Hcb. done.
Qed.

Lemma to_inv_return v o : to_inv o -> callback_at o = CbReturn -> tv_End (timer_ o) = Some v -> to_inv (set_callback CbNone (set_view v o)).
Proof.
  intros Hi Hcb. unfold tv_End. destruct (tv_running (timer_ o)) eqn:Er; [|done]. intros [= <-]. pose proof Hi as [].
  assert (alive o = true) as Ha by (apply busy_alive; [done|]; do 5 right; congruence).
  set (o' := set_callback _ _). assert (fired_tokens o' = fired_tokens o) as Ef by (unfold fired_tokens, at_queue; by rewrite Hcb).
  assert (tokens o' = tokens o) as Et by (unfold tokens; by rewrite Ef). constructor; rewrite ?Et, ?Ef; try done. cbn. congruence.
Qed.

Lemma to_inv_pop o : to_inv o -> dpc_queued o = true -> callback_idle o = true -> to_inv (set_dpc false (at_lock o + 1) o) /\ alive o = true.
Proof.
  intros Hi Hd Hc. pose proof Hi as []. set (o' := set_dpc _ _ _).
  assert (fired_tokens o' = fired_tokens o) as Ef.
  { unfold fired_tokens. change (at_queue o') with (at_queue o). rewrite Hd. unfold o'. cbn [dpc_queued at_lock set_dpc b2z]. lia. }
  assert (tokens o' = tokens o) as Et by (unfold tokens; by rewrite Ef).
  assert (callback_at o = CbNone) as Hcb by (unfold callback_idle in Hc; by destruct (callback_at o)).
  assert (0 < tokens o) as Ht. { unfold tokens, fired_tokens. rewrite Hd. cbn [b2z]. destruct to_nonneg0 as (_ & ? & _). destruct (bool_decide _), (at_queue o), (holder_token o); cbn [b2z]; lia. }
  split; [|apply busy_alive; [done|]; do 2 right; by left]. constructor; rewrite ?Et, ?Ef; try done; cbn; [|congruence]. change (user_holds o') with (user_holds o).
  destruct to_nonneg0 as (? & ? & ? & ?). split_and!; try done; lia.
Qed.


(** *** Critical sections that begin with [CancelTimerLocked] *)

(** What [CancelTimerLocked] leaves before it calls [timer_.Cancel()]. *)
Definition clear_all (o : TimerObj) : TimerObj := set_deadline 0 0 (set_goal None None (UpdateState ZX_TIMER_SIGNALED 0 o)).
Definition must_cancel (o : TimerObj) : bool := negb (deadline_ o =? 0) && negb (cancel_pending_ o).

Lemma begin_eq o : (deadline_ o = 0 -> slack_amount_ o = 0) -> CancelTimerLocked_begin o = (clear_all o, must_cancel o).
Proof.
  intros Hs. unfold CancelTimerLocked_begin, clear_all, must_cancel. change (deadline_ (set_goal None None (UpdateState ZX_TIMER_SIGNALED 0 o))) with (deadline_ o).
  destruct (Z.eqb_spec (deadline_ o) 0) as [E|]; [|done]. specialize (Hs E). destruct o; cbn in *. by subst.
Qed.

Lemma signaled_clear o : signaled (clear_all o) = false.
Proof. unfold signaled, clear_all. cbn [base set_deadline set_goal UpdateState set_base]. rewrite UpdateStateLocked_bit by lia. change (Z.testbit ZX_TIMER_SIGNALED 3) with true. cbn. by rewrite andb_false_r. Qed.

Lemma signaled_set o : signaled (UpdateState 0 ZX_TIMER_SIGNALED o) = true.
Proof. unfold signaled. cbn [base UpdateState set_base]. rewrite UpdateStateLocked_bit by lia. change (Z.testbit ZX_TIMER_SIGNALED 3) with true. by rewrite orb_true_r. Qed.

Lemma clear_all_inv o : to_inv o -> holder o = None -> must_cancel o = false -> to_inv (clear_all o).
Proof.
  intros Hi Hh Hm. pose proof Hi as []. unfold must_cancel in Hm.
  assert (cancel_pending_ o = false -> deadline_ o = 0) as Hz by (intros E; rewrite E, andb_true_r, negb_false_iff, Z.eqb_eq in Hm; done).
  constructor; try done.
  - intros w Hw. destruct (to_queued0 w Hw) as (H1 & H2 & _). by specialize (Hz H2).
  - cbn. by rewrite Hh.
  - intros _ Hp. change (tokens _) with (tokens o). change (deadline_ (clear_all o)) with 0. specialize (to_idle0 ltac:(by rewrite Hh) Hp). rewrite (Hz Hp) in to_idle0. done.
  - rewrite signaled_clear. cbn. split; [done|]. by intros [? ?].
Qed.

Definition cont_flag (k : Cont) : bool := match k with KSet _ _ r | KCancel r | KClose r => r | KSetTimer | KFired => true | KCloseTimer => false end.

(** Who may hold the lock at [k]. *)
Definition holder_ok (k : Cont) (hs : HandleState) (o : TimerObj) : Prop :=
  match k with
  | KClose _ | KCloseTimer => hs = HClosing /\ handles o = HOpen
  | KFired => hs = handles o /\ hs <> HClosing
  | _ => hs = handles o /\ hs <> HClosing /\ 0 < users o
  end.

(** Starting to wait in [timer_.Cancel()], with the deadline cleared or (for [SetTimerLocked] and
    the extra call of [on_zero_handles]) with nothing armed. *)
Lemma wait_inv k hs o :
  to_inv o -> holder o = None -> must_cancel o = true -> (forall r, cancels (k r) = true /\ cont_flag (k r) = r) -> (forall r, holder_ok (k r) hs o) ->
  to_inv (timer_Cancel k (set_handles hs (clear_all o))).
Proof.
  intros Hi Hh [Hd Hp]%andb_true_iff Hk Hok. rewrite negb_true_iff in Hd, Hp. apply Z.eqb_neq in Hd. pose proof Hi as [].
  set (o1 := set_handles hs (clear_all o)). unfold timer_Cancel, tv_Cancel. cbn [timer_]. set (r := bool_decide (is_Some (tv_queued (timer_ o1)))). set (o' := set_holder _ _).
  destruct (Hk r) as [Hk1 Hk2]. specialize (Hok r).
  assert (tokens o = 1) as Ht1 by (apply to_idle0; [by rewrite Hh|done|done]).
  assert (holder_token o' = r) as Eht by (rewrite <-Hk2; unfold holder_token; cbn; by destruct (k r)).
  assert (tokens o' = 1) as Et.
  { rewrite <-Ht1. unfold tokens. rewrite Eht. change (fired_tokens o') with (fired_tokens o).
    change (b2z (bool_decide (is_Some (tv_queued (timer_ o'))))) with 0. change (bool_decide (is_Some (tv_queued (timer_ o)))) with r.
    assert (holder_token o = false) as -> by (unfold holder_token; by rewrite Hh). cbn [b2z]. lia. }
  assert (alive o = true) as Ha by (apply busy_alive; [done|]; do 2 right; left; lia).
  assert (handle_ref o' = handle_ref o) as Er by (unfold handle_ref; cbn; destruct (k r); cbn in Hok; destruct Hok as [-> Hok]; try done; by rewrite Hok).
  constructor; rewrite ?Et, ?Er; try done.
  - intros _. destruct (to_alive0 Ha) as [Hr Hpos]. rewrite Ht1 in Hr. done.
  - cbn. congruence.
  - destruct to_nonneg0 as (? & ? & ? & _). split_and!; try done. unfold user_holds. cbn. intros Hu. destruct (k r); try done; by destruct Hok as (_ & _ & ?).
  - by left.
  - cbn. destruct (k r); cbn in Hk1, Hok; try done; destruct Hok as [Ho1 Ho2]; subst hs; split; try done; by destruct Ho2.
  - cbn. rewrite Hk1. done.
  - intros Hc. specialize (Hc (k r) eq_refl). congruence.
  - change (signaled o') with (signaled (clear_all o)). rewrite signaled_clear. cbn. split; [done|by intros [? ?]].
Qed.

(** Nothing is armed while the deadline is zero and no cancellation is pending. *)
Lemma unarmed o : to_inv o -> holder o = None -> deadline_ o = 0 -> cancel_pending_ o = false -> tokens o = 0.
Proof.
  intros Hi Hh Hd Hp. pose proof (to_parts 0 o Hi) as (_ & ? & _). pose proof Hi as []. specialize (to_idle0 ltac:(by rewrite Hh) Hp).
  destruct (decide (tokens o = 1)) as [E|]; [by apply to_idle0 in E|lia].
Qed.

Lemma not_queued o : to_inv o -> deadline_ o = 0 -> tv_queued (timer_ o) = None.
Proof. intros [] Hd. destruct (tv_queued (timer_ o)) as [w|]; [|done]. by destruct (to_queued0 w eq_refl) as (? & _ & _). Qed.

(** The state of [Set] and [OnTimerFired] when they arm the timer: the reference is counted, the
    deadline recorded, and nothing is armed yet. *)
Record arming (o : TimerObj) : Prop := {
  ar_alive : alive o = true /\ refs o = handle_ref o + users o + at_release o + 1 /\ 0 <= at_release o;
  ar_users : 0 <= users o;
  ar_idle : holder o = None /\ tv_queued (timer_ o) = None /\ at_queue o = false /\ dpc_queued o = false /\ at_lock o = 0;
  ar_running : (tv_running (timer_ o) = true <-> callback_at o <> CbNone) /\ callback_at o <> CbReturn;
  ar_mode : is_Some (timer_slack_mode (options_ o));
  ar_handles : handles o <> HClosing;
  ar_deadline : deadline_ o <> 0 /\ cancel_pending_ o = false /\ last_set o = Some (deadline_ o, slack_amount_ o) /\ reached o = None /\ signaled o = false;
}.

Lemma arming_tokens o : arming o -> fired_tokens o = 0 /\ callback_at o = CbNone /\ tv_running (timer_ o) = false.
Proof.
  intros []. destruct ar_idle0 as (_ & _ & Hq & Hd & Hl), ar_running0 as [Hr Hc]. unfold fired_tokens. rewrite Hq, Hd, Hl. split; [done|].
  assert (callback_at o = CbNone) as Hcb by (unfold at_queue in Hq; by destruct (callback_at o)). split; [done|].
  apply not_true_is_false. rewrite Hr. by intros ?.
Qed.

(** It arms the timer at once, *)
Lemma arm_now_inv o : arming o -> exists o', SetTimerLocked_set o = Some o' /\ to_inv o'.
Proof.
  intros Ha. destruct (arming_tokens o Ha) as (Hf & Hcb & Hrun). destruct Ha as [(A1 & A2 & A3) A4 (B1 & B2 & B3 & B4 & B5) [C1 C2] [m Hm] E (D1 & D2 & D3 & D4 & D5)].
  unfold SetTimerLocked_set, tv_Set. rewrite Hm, B2, Hrun. eexists. split; [done|]. set (o' := set_view _ o).
  assert (tokens o' = 1) as Et by (unfold tokens; change (fired_tokens o') with (fired_tokens o); rewrite Hf; unfold holder_token; cbn; by rewrite B1).
  assert (0 <= handle_ref o) as Hhr by (unfold handle_ref; destruct (handles o); lia).
  constructor; rewrite ?Et; try change (fired_tokens o') with (fired_tokens o); rewrite ?Hf; try done.
  - intros _. change (refs o = handle_ref o + users o + 1 + at_release o + 0 /\ 0 < refs o). lia.
  - cbn. congruence.
  - change (user_holds o') with (user_holds o). unfold user_holds. rewrite B1. split_and!; try done; cbn; lia.
  - by right.
  - cbn. by rewrite B1.
  - intros w Hw. cbn in Hw. injection Hw as <-. split_and!; try done. unfold window_of. cbn. by rewrite Hm.
  - cbn. congruence.
  - cbn. by rewrite B1.
  - change (signaled o = true <-> is_Some (reached o)). rewrite D5, D4. split; [done|by intros [? ?]].
  - cbn. congruence.
Qed.

(** or first waits for the callback, holding the lock. *)
Lemma arm_wait_inv k o :
  arming o -> (k = KSetTimer /\ 0 < users o) \/ k = KFired -> to_inv (timer_Cancel (fun _ => k) o).
Proof.
  intros Ha Hk. destruct (arming_tokens o Ha) as (Hf & Hcb & Hrun). destruct Ha as [(A1 & A2 & A3) A4 (B1 & B2 & B3 & B4 & B5) [C1 C2] [m Hm] E (D1 & D2 & D3 & D4 & D5)].
  unfold timer_Cancel, tv_Cancel. set (o' := set_holder _ _). assert (holder_token o' = true) as Eht by (by destruct Hk as [[-> _]| ->]).
  assert (tokens o' = 1) as Et by (unfold tokens; rewrite Eht; change (fired_tokens o') with (fired_tokens o); by rewrite Hf).
  assert (0 <= handle_ref o) as Hhr by (unfold handle_ref; destruct (handles o); lia).
  constructor; rewrite ?Et; try change (fired_tokens o') with (fired_tokens o); rewrite ?Hf; try done.
  - intros _. change (refs o = handle_ref o + users o + 1 + at_release o + 0 /\ 0 < refs o). lia.
  - cbn. congruence.
  - split_and!; [done|cbn; lia|done|]. unfold user_holds. cbn. by destruct Hk as [[-> ?]| ->].
  - by left.
  - cbn. destruct Hk as [[-> _]| ->]; naive_solver.
  - cbn. congruence.
  - cbn. by destruct Hk as [[-> _]| ->].
  - change (signaled o = true <-> is_Some (reached o)). rewrite D5, D4. split; [done|by intros [? ?]].
  - cbn. congruence.
Qed.

Lemma Set_rest_inv d s now did o :
  to_inv o -> holder o = None -> deadline_ o = 0 -> last_set o = None -> reached o = None -> 0 < users o ->
  exists o', Set_rest d s now did o = Some o' /\ to_inv o'.
Proof.
  intros Hi Hh Hd Hl Hre Hu. assert (alive o = true) as Ha by (apply busy_alive; [done|]; right; by left).
  assert (signaled o = false) as Hs. { destruct (signaled o) eqn:E; [|done]. apply (to_signal _ _ Hi) in E. rewrite Hre in E. by destruct E. }
  pose proof (not_queued o Hi Hd) as Hq. unfold Set_rest. destruct ((d =? 0) || (d <=? now)) eqn:Edue.
  - eexists. split; [done|]. pose proof Hi as []. constructor; try done.
    + cbn. by rewrite Hh.
    + change (signaled (UpdateState 0 ZX_TIMER_SIGNALED o) = true <-> is_Some (Some now)). by rewrite signaled_set.
    + intros t Ht. cbn in Ht. injection Ht as <-. exists d, s. split; [done|]. unfold reached_by. apply orb_true_iff in Edue as [?%Z.eqb_eq|?%Z.leb_le]; [by left|by right; left].
  - apply orb_false_iff in Edue as [Hd0%Z.eqb_neq _]. change (cancel_pending_ (set_goal (Some (d, s)) None (set_deadline d s o))) with (cancel_pending_ o).
    destruct (cancel_pending_ o) eqn:Ep.
    + eexists. split; [done|]. pose proof Hi as []. specialize (to_pending0 Ep). constructor; try done.
      * intros w Hw. change (tv_queued (timer_ o) = Some w) in Hw. congruence.
      * cbn. by rewrite Hh.
      * intros _ Hp. change (cancel_pending_ o = false) in Hp. congruence.
      * change (signaled o = true <-> is_Some (@None Z)). rewrite Hs. split; [done|by intros [? ?]].
      * intros Hp. change (cancel_pending_ o = false) in Hp. congruence.
    + pose proof (unarmed o Hi Hh Hd Ep) as Ht0. destruct (no_token 0 o Hi Ht0) as (N1 & N2 & N3 & N4 & N5 & N6).
      set (o1 := set_refs _ _ _). assert (arming o1) as Har.
      { pose proof Hi as []. destruct (to_alive0 Ha) as [Hr _], to_nonneg0 as (? & ? & ? & ?). constructor; try done.
        - split_and!; try done. change (refs o + 1 = handle_ref o + users o + at_release o + 1). lia.
        - split_and!; try done. unfold at_queue. change (callback_at o1) with (callback_at o). by rewrite N2.
        - split; [done|]. change (callback_at o <> CbReturn). by rewrite N2.
        - change (handles o <> HClosing). rewrite to_closing0, Hh. by intros []. }
      destruct did; [by apply arm_now_inv|]. eexists. split; [done|]. apply arm_wait_inv; [done|left; split; [done|exact Hu]].
Qed.

(** The extra [timer_.Cancel()] of [on_zero_handles]. *)
Lemma close_wait_inv o :
  to_inv o -> holder o = None -> deadline_ o = 0 -> handles o = HOpen -> to_inv (timer_Cancel (fun _ => KCloseTimer) (set_handles HClosing o)).
Proof.
  intros Hi Hh Hd Ho. pose proof (not_queued o Hi Hd) as Hq. pose proof Hi as []. unfold timer_Cancel, tv_Cancel. set (o' := set_holder _ _).
  assert (tokens o' = tokens o) as Et by (unfold tokens, holder_token; rewrite Hh, Hq; done).
  assert (alive o = true) as Ha by (apply busy_alive; [done|]; left; unfold handle_ref; by rewrite Ho).
  assert (handle_ref o' = handle_ref o) as Er by (unfold handle_ref; cbn; by rewrite Ho).
  constructor; rewrite ?Et, ?Er; try done.
  - cbn. congruence.
  - destruct to_nonneg0 as (? & ? & ? & _). split_and!; done.
  - by left.
  - intros _ Hp. apply to_idle0; [by rewrite Hh|done].
Qed.

(** A state in which nothing is armed or pending. *)
Lemma idle_inv o :
  alive o = true -> refs o = handle_ref o + users o + at_release o -> 0 < refs o -> 0 <= users o -> 0 <= at_release o -> is_Some (timer_slack_mode (options_ o)) ->
  holder o = None -> handles o <> HClosing -> tv_queued (timer_ o) = None -> tv_running (timer_ o) = false -> callback_at o = CbNone -> dpc_queued o = false -> at_lock o = 0 ->
  deadline_ o = 0 -> slack_amount_ o = 0 -> cancel_pending_ o = false ->
  (signaled o = true <-> is_Some (reached o)) -> (forall t, reached o = Some t -> exists d s, last_set o = Some (d, s) /\ reached_by o d s t) ->
  (last_set o <> None -> reached o <> None) -> to_inv o.
Proof.
  intros Ha Hr Hp Hu Hrel Hm Hh Hcl Hq Hrun Hcb Hdq Hl Hd Hs Hpen Hsig Hre Hlost.
  assert (fired_tokens o = 0) as F0 by (unfold fired_tokens, at_queue; by rewrite Hcb, Hdq, Hl).
  assert (tokens o = 0) as T0 by (unfold tokens, holder_token; by rewrite F0, Hq, Hh).
  constructor; rewrite ?T0, ?F0, ?Hh, ?Hcb, ?Hq, ?Hrun, ?Hpen, ?Hd, ?Hl; try done.
  - intros _. lia.
  - congruence.
  - unfold user_holds. rewrite Hh. split_and!; done || lia.
  - by left.
  - intros H1 H2. by destruct (Hlost H1).
Qed.

(** [OnTimerFired]. *)
Lemma OnTimerFired_inv o :
  to_inv o -> 0 < at_lock o -> holder o = None ->
  alive o = true /\ exists o', OnTimerFired (set_dpc (dpc_queued o) (at_lock o - 1) o) = Some o' /\ to_inv o'.
Proof.
  intros Hi Hl Hh. pose proof Hi as []. destruct to_nonneg0 as (U1 & U2 & U3 & _).
  assert (fired_tokens o = 1 /\ at_lock o = 1 /\ at_queue o = false /\ dpc_queued o = false /\ holder_token o = false /\ tv_queued (timer_ o) = None /\ tokens o = 1) as (F1 & F2 & F3 & F4 & F5 & F6 & T1).
  { unfold tokens, fired_tokens in *. destruct (tv_queued (timer_ o)) as [w|]; [rewrite bool_decide_true in * by done|rewrite (bool_decide_false (is_Some None)) in * by (by intros [? ?])];
      destruct (at_queue o), (dpc_queued o), (holder_token o); cbn [b2z] in *; split_and!; try done; lia. }
  assert (alive o = true) as Ha by (apply busy_alive; [done|]; do 2 right; left; lia). split; [done|]. destruct (to_alive0 Ha) as [Hr Hpos].
  assert (callback_at o = CbNone) as Hcb by (unfold at_queue in F3; destruct (callback_at o); try done; rewrite to_returning0 in F4; done).
  set (o0 := set_dpc _ _ o). assert (fired_tokens o0 = 0) as F0 by (unfold fired_tokens; change (at_queue o0) with (at_queue o); rewrite F3; cbn [dpc_queued at_lock o0 set_dpc]; rewrite F4, F2; done).
  assert (tokens o0 = 0) as T0 by (unfold tokens; rewrite F0; change (holder_token o0) with (holder_token o); rewrite F5; change (timer_ o0) with (timer_ o); rewrite F6; done).
  assert (handles o <> HClosing) as Hclo by (rewrite to_closing0, Hh; by intros []).
  assert (tv_running (timer_ o) = false) as Hrunf by (apply not_true_is_false; rewrite to_running0; by intros ?).
  unfold OnTimerFired. change (cancel_pending_ o0) with (cancel_pending_ o). destruct (cancel_pending_ o) eqn:Ep.
  - change (deadline_ (set_pending false o0)) with (deadline_ o). destruct (Z.eqb_spec (deadline_ o) 0) as [Hd|Hd]; cbn [negb].
    + eexists. split; [done|]. apply idle_inv; try done; [change (refs o = handle_ref o + users o + (at_release o + 1)); lia|cbn; lia|cbn; lia|exact (to_slack0 Hd)|].
      intros H1 H2. by apply to_lost0.
    + eexists. split; [done|]. apply arm_wait_inv; [|by right]. destruct (to_goal0 Hd) as [G1 G2]. constructor; try done.
      * split_and!; try done. change (refs o = handle_ref o + users o + at_release o + 1). lia.
      * split_and!; try done. change (at_lock o - 1 = 0). lia.
      * split; [done|]. change (callback_at o <> CbReturn). congruence.
      * split_and!; try done. change (signaled o = false). apply not_true_is_false. rewrite to_signal0, G2. by intros [? ?].
  - assert (deadline_ o <> 0) as Hd by (apply to_idle0; [by rewrite Hh|done|done]). destruct (to_goal0 Hd) as [G1 G2].
    eexists. split; [done|]. apply idle_inv; try done; [change (refs o = handle_ref o + users o + (at_release o + 1)); lia|cbn; lia|cbn; lia| |].
    + change (signaled (UpdateState 0 ZX_TIMER_SIGNALED o0) = true <-> is_Some (Some (fire_time o0))). by rewrite signaled_set.
    + intros t Ht. cbn in Ht. injection Ht as <-. exists (deadline_ o), (slack_amount_ o). split; [exact G1|]. right. right. by apply to_time0.
Qed.

(** *** Going on after the wait *)

(** [CancelTimerLocked] once [timer_.Cancel()] has returned [r]. *)
Record ending (r : bool) (o : TimerObj) : Prop := {
  en_alive : alive o = true /\ refs o = handle_ref o + users o + at_release o + 1 /\ 1 < refs o;
  en_nonneg : 0 <= users o /\ 0 <= at_lock o /\ 0 <= at_release o;
  en_mode : is_Some (timer_slack_mode (options_ o));
  en_idle : holder o = None /\ handles o <> HClosing /\ tv_queued (timer_ o) = None /\ tv_running (timer_ o) = false /\ callback_at o = CbNone;
  en_clear : deadline_ o = 0 /\ slack_amount_ o = 0 /\ cancel_pending_ o = false /\ last_set o = None /\ reached o = None /\ signaled o = false;
  en_token : if r then dpc_queued o = false /\ at_lock o = 0 else b2z (dpc_queued o) + at_lock o = 1;
}.

Lemma end_inv r o :
  ending r o -> exists o', CancelTimerLocked_end r o = Some o' /\ to_inv o' /\ holder o' = None /\ deadline_ o' = 0 /\ last_set o' = None /\ reached o' = None /\ users o' = users o.
Proof.
  intros [(A1 & A2 & A3) (U1 & U2 & U3) M (I1 & I2 & I3 & I4 & I5) (C1 & C2 & C3 & C4 & C5 & C6) T]. unfold CancelTimerLocked_end. destruct r.
  - destruct T as [T1 T2]. rewrite (proj2 (Z.eqb_neq (refs o - 1) 0)) by lia. eexists. split; [done|]. split; [|done]. apply idle_inv; try done.
    + change (refs o - 1 = handle_ref o + users o + at_release o). lia.
    + cbn. lia.
    + change (signaled o = true <-> is_Some (reached o)). rewrite C5, C6. split; [done|by intros [? ?]].
    + cbn. congruence.
  - eexists. split; [done|]. split; [|done]. set (o' := set_pending true o).
    assert (fired_tokens o' = 1) as F1 by (unfold fired_tokens, at_queue; change (callback_at o') with (callback_at o); rewrite I5; exact T).
    assert (tokens o' = 1) as T1 by (unfold tokens, holder_token; rewrite F1; change (holder o') with (holder o); rewrite I1; change (timer_ o') with (timer_ o); by rewrite I3).
    constructor; rewrite ?T1, ?F1; try done.
    + intros _. change (refs o = handle_ref o + users o + 1 + at_release o + 0 /\ 0 < refs o). lia.
    + cbn. congruence.
    + change (0 <= users o /\ 0 <= at_lock o /\ 0 <= at_release o /\ (user_holds o = true -> 0 < users o)). unfold user_holds. by rewrite I1.
    + change (tv_running (timer_ o) = true <-> callback_at o <> CbNone). by rewrite I4, I5.
    + intros Hcb. change (callback_at o = CbReturn) in Hcb. congruence.
    + by left.
    + change (handles o = HClosing <-> match holder o with Some (KClose _) | Some KCloseTimer => True | _ => False end). by rewrite I1.
    + intros w Hw. change (tv_queued (timer_ o) = Some w) in Hw. congruence.
    + change (match holder o with Some k => if cancels k then deadline_ o = 0 /\ cancel_pending_ o' = false /\ 1 = 1 /\ last_set o = None /\ reached o = None
                else match k with KCloseTimer => deadline_ o = 0 | _ => deadline_ o <> 0 /\ cancel_pending_ o' = false end | None => True end). by rewrite I1.
    + change (signaled o = true <-> is_Some (reached o)). rewrite C5, C6. split; [done|by intros [? ?]].
    + change (forall t, reached o = Some t -> exists d s, last_set o = Some (d, s) /\ reached_by o d s t). congruence.
Qed.

(** The state in which the holder of the lock goes on. *)
Definition resumed (o : TimerObj) : TimerObj := set_holder None (set_view (mkTV None false false) o).

Lemma resumed_facts k o :
  to_inv o -> holder o = Some k -> tv_running (timer_ o) = false ->
  alive o = true /\ tv_Finish (timer_ o) = Some (mkTV None false false) /\ callback_at o = CbNone /\
  tokens o = b2z (dpc_queued o) + at_lock o + b2z (cont_flag k) /\ (cancels k = true -> 1 < refs o).
Proof.
  intros Hi Hk Hr. pose proof (to_parts 0 o Hi) as (_ & ? & ?). pose proof Hi as []. assert (alive o = true) as Ha by (apply busy_alive; [done|]; do 4 right; left; congruence).
  assert (tv_queued (timer_ o) = None) as Hq by (destruct to_waiting0; congruence). destruct to_nonneg0 as (U1 & U2 & U3 & U4).
  assert (callback_at o = CbNone) as Hcb by (destruct (callback_at o) eqn:E; try done; exfalso; apply (eq_true_false_abs (tv_running (timer_ o))); try done; by apply to_running0).
  split_and!; try done.
  - unfold tv_Finish. by rewrite Hr, Hq.
  - unfold tokens, fired_tokens, at_queue, holder_token. rewrite Hq, Hcb, Hk. cbn [b2z]. rewrite (bool_decide_false (is_Some None)) by (by intros [? ?]).
    destruct k; cbn [b2z cont_flag]; lia.
  - intros Hc. destruct (to_alive0 Ha) as [Hrefs _]. rewrite Hk, Hc in to_holding0. destruct to_holding0 as (_ & _ & Ht & _ & _).
    assert (1 <= handle_ref o + users o); [|lia]. unfold user_holds in U4. rewrite Hk in U4.
    destruct k; try done; try (specialize (U4 eq_refl); lia). assert (handles o = HClosing) as Hcl by (apply to_closing0; by rewrite Hk).
    unfold handle_ref. rewrite Hcl. lia.
Qed.

Lemma resumed_ending k o :
  to_inv o -> holder o = Some k -> tv_running (timer_ o) = false -> cancels k = true ->
  ending (cont_flag k) (match k with KClose _ => closed (resumed o) | _ => resumed o end).
Proof.
  intros Hi Hk Hr Hc. destruct (resumed_facts k o Hi Hk Hr) as (Ha & _ & Hcb & Ht & Href). specialize (Href Hc). pose proof Hi as [].
  rewrite Hk, Hc in to_holding0. destruct to_holding0 as (D1 & D2 & D3 & D4 & D5). destruct (to_alive0 Ha) as [Hrefs _], to_nonneg0 as (U1 & U2 & U3 & U4).
  assert (signaled o = false) as Hs by (apply not_true_is_false; rewrite to_signal0, D5; by intros [? ?]).
  assert (if cont_flag k then dpc_queued o = false /\ at_lock o = 0 else b2z (dpc_queued o) + at_lock o = 1) as Htok.
  { rewrite D3 in Ht. destruct (cont_flag k), (dpc_queued o); cbn [b2z] in Ht |- *; try split; done || lia. }
  specialize (to_slack0 D1). rewrite Hk in to_closing0.
  destruct k; try done; constructor; try done; cbn [cont_flag] in *; try (by split_and!).
  - split_and!; try done. change (refs o = handle_ref o + users o + at_release o + 1). lia.
  - split_and!; try done. change (handles o <> HClosing). rewrite to_closing0. by intros [].
  - split_and!; try done. change (refs o = handle_ref o + users o + at_release o + 1). lia.
  - split_and!; try done. change (handles o <> HClosing). rewrite to_closing0. by intros [].
  - assert (handle_ref o = 1) as E by (unfold handle_ref; by rewrite (proj2 to_closing0 I)). split_and!; try done. change (refs o = 0 + users o + (at_release o + 1) + 1). lia.
  - change (0 <= users o /\ 0 <= at_lock o /\ 0 <= at_release o + 1). lia.
Qed.

Lemma resumed_arming k o :
  to_inv o -> holder o = Some k -> tv_running (timer_ o) = false -> k = KSetTimer \/ k = KFired -> arming (resumed o).
Proof.
  intros Hi Hk Hr Hor. destruct (resumed_facts k o Hi Hk Hr) as (Ha & _ & Hcb & Ht & _). pose proof Hi as [].
  destruct (to_alive0 Ha) as [Hrefs _], to_nonneg0 as (U1 & U2 & U3 & _). rewrite Hk in to_holding0, to_closing0.
  assert (cont_flag k = true /\ deadline_ o <> 0 /\ cancel_pending_ o = false) as (Hf & D1 & D2) by (by destruct Hor as [-> | ->]).
  rewrite Hf in Ht. destruct (to_goal0 D1) as [G1 G2].
  assert (dpc_queued o = false /\ at_lock o = 0) as [T1 T2] by (destruct (dpc_queued o); cbn [b2z] in Ht; split; done || lia).
  constructor; try done.
  - split_and!; try done. change (refs o = handle_ref o + users o + at_release o + 1). rewrite T1, T2 in Ht. cbn in Ht. lia.
  - split_and!; try done. unfold at_queue. change (callback_at (resumed o)) with (callback_at o). by rewrite Hcb.
  - change ((false = true <-> callback_at o <> CbNone) /\ callback_at o <> CbReturn). rewrite Hcb. split; [|done]. split; [done|]. by intros [].
  - change (handles o <> HClosing). rewrite to_closing0. by destruct Hor as [-> | ->]; intros [].
  - split_and!; try done. change (signaled o = false). apply not_true_is_false. rewrite to_signal0, G2. by intros [? ?].
Qed.

(** [on_zero_handles] is done. *)
Lemma resumed_closed o : to_inv o -> holder o = Some KCloseTimer -> tv_running (timer_ o) = false -> to_inv (closed (resumed o)).
Proof.
  intros Hi Hk Hr. destruct (resumed_facts _ o Hi Hk Hr) as (Ha & _ & Hcb & Ht & _). pose proof Hi as []. rewrite Hk in to_holding0, to_closing0.
  destruct (to_alive0 Ha) as [Hrefs Hpos], to_nonneg0 as (U1 & U2 & U3 & _). assert (handle_ref o = 1) as E by (unfold handle_ref; by rewrite (proj2 to_closing0 I)).
  set (o' := closed (resumed o)). assert (fired_tokens o' = fired_tokens o) as Ef by done.
  assert (tokens o' = tokens o) as Et.
  { unfold tokens. rewrite Ef. unfold holder_token. rewrite Hk. change (holder o') with (@None Cont). assert (tv_queued (timer_ o) = None) as -> by (destruct to_waiting0; congruence). done. }
  constructor; rewrite ?Et, ?Ef; try done.
  - intros _. change (refs o = 0 + users o + tokens o + (at_release o + 1) + 0 /\ 0 < refs o). lia.
  - cbn. congruence.
  - split_and!; try done. cbn. lia.
  - by left.
  - intros _ Hp. apply to_idle0; [|done]. intros k' Hk'. rewrite Hk in Hk'. by injection Hk' as <-.
Qed.

Lemma resume_inv k now o :
  to_inv o -> holder o = Some k -> tv_running (timer_ o) = false -> exists o', resume k now (resumed o) = Some o' /\ to_inv o'.
Proof.
  intros Hi Hk Hr. destruct (resumed_facts k o Hi Hk Hr) as (Ha & _ & Hcb & Ht & _). pose proof (resumed_ending k o Hi Hk Hr) as Hend.
  pose proof Hi as []. destruct to_nonneg0 as (U1 & U2 & U3 & U4). unfold user_holds in U4. rewrite Hk in U4, to_holding0. destruct k as [d s r|r|r| | |]; cbn [resume cancels cont_flag] in *.
  - destruct (end_inv r (resumed o) (Hend eq_refl)) as (o1 & -> & E1 & E2 & E3 & E4 & E5 & E6). apply Set_rest_inv; try done. rewrite E6. by apply U4.
  - destruct (end_inv r (resumed o) (Hend eq_refl)) as (o1 & -> & E1 & _). by eexists.
  - assert (match CancelTimerLocked_end r (resumed o) with Some o1 => Some (closed o1) | None => None end = CancelTimerLocked_end r (closed (resumed o))) as ->.
    { unfold CancelTimerLocked_end. destruct r; [|done]. change (refs (closed (resumed o))) with (refs (resumed o)). by destruct (_ =? 0). }
    destruct (end_inv r _ (Hend eq_refl)) as (o1 & -> & E1 & _). by eexists.
  - eexists. split; [done|]. by apply resumed_closed.
  - apply arm_now_inv. eapply resumed_arming; [done|exact Hk|done|by left].
  - apply arm_now_inv. eapply resumed_arming; [done|exact Hk|done|by right].
Qed.

(** ** Runs *)

Lemma user_op_inv o :
  to_inv o -> user_locked o = true -> alive o = true /\ holder o = None /\ 0 < users o /\ handles o <> HClosing.
Proof.
  intros Hi [Hu%Z.ltb_lt Hl]%andb_true_iff. unfold lock_free in Hl. destruct (holder o) as [|] eqn:Hh; [done|]. split_and!; try done.
  - apply busy_alive; [done|]. right. by left.
  - rewrite (to_closing _ _ Hi), Hh. by intros [].
Qed.

Lemma timer_Set_inv d s now o : to_inv o -> user_locked o = true -> exists o', timer_Set d s now o = Some o' /\ to_inv o'.
Proof.
  intros Hi Hu. destruct (user_op_inv o Hi Hu) as (Ha & Hh & Hus & Hcl). unfold timer_Set. rewrite begin_eq by apply Hi. destruct (must_cancel o) eqn:Em.
  - eexists. split; [done|]. apply (wait_inv (KSet d s) (handles o)); try done.
  - apply Set_rest_inv; try done. by apply clear_all_inv.
Qed.

Lemma timer_CancelOp_inv o : to_inv o -> user_locked o = true -> exists o', timer_CancelOp o = Some o' /\ to_inv o'.
Proof.
  intros Hi Hu. destruct (user_op_inv o Hi Hu) as (Ha & Hh & Hus & Hcl). unfold timer_CancelOp. rewrite begin_eq by apply Hi. destruct (must_cancel o) eqn:Em.
  - eexists. split; [done|]. apply (wait_inv KCancel (handles o)); try done.
  - eexists. split; [done|]. by apply clear_all_inv.
Qed.

Lemma on_zero_handles_inv o : to_inv o -> holder o = None -> handles o = HOpen -> exists o', on_zero_handles o = Some o' /\ to_inv o'.
Proof.
  intros Hi Hh Ho. unfold on_zero_handles. rewrite begin_eq by apply Hi. change (must_cancel (set_handles HClosing o)) with (must_cancel o).
  change (clear_all (set_handles HClosing o)) with (set_handles HClosing (clear_all o)). destruct (must_cancel o) eqn:Em.
  - eexists. split; [done|]. by apply wait_inv.
  - eexists. split; [done|]. apply close_wait_inv; try done. by apply clear_all_inv.
Qed.

Lemma to_step_inv op o r : to_inv o -> to_step op o = Some r -> exists o', r = Some o' /\ to_inv o'.
Proof.
  intros Hi. assert (forall r0, alive o = true -> (exists o', r0 = Some o' /\ to_inv o') -> when_alive o r0 = Some r -> exists o', r = Some o' /\ to_inv o') as Hw.
  { intros r0 Ha Hr [= <-]. by rewrite Ha. }
  destruct op; cbn [to_step].
  - destruct (handles o) eqn:Ho; try done. assert (alive o = true) as Ha by (apply busy_alive; [done|]; left; unfold handle_ref; by rewrite Ho).
    apply Hw; [done|]. eexists. split; [done|]. by apply to_inv_get.
  - destruct (Z.ltb_spec 0 (idle_users o)) as [Hu|]; [|done]. pose proof (to_inv_put o Hi Hu) as Hp.
    assert (alive o = true) as Ha by (apply busy_alive; [done|]; right; left; unfold idle_users in Hu; destruct (user_holds o); lia). apply Hw; [done|]. by apply Release_inv.
  - destruct (user_locked o) eqn:Eu; [|done]. apply Hw; [by apply user_op_inv|]. by apply timer_Set_inv.
  - destruct (user_locked o) eqn:Eu; [|done]. apply Hw; [by apply user_op_inv|]. by apply timer_CancelOp_inv.
  - destruct (user_locked o) eqn:Eu; [|done]. apply Hw; [by apply user_op_inv|]. eexists. split; [done|]. apply to_inv_base; [done|]. by apply solo_user_signal_bit.
  - destruct (user_locked o) eqn:Eu; [|done]. apply Hw; [by apply user_op_inv|]. eexists. split; [done|]. apply to_inv_base; [done|]. by rewrite AddObserver_signals.
  - destruct (handles o) eqn:Ho; try done. unfold lock_free. destruct (holder o) eqn:Hh; [done|].
    apply Hw; [apply busy_alive; [done|]; left; unfold handle_ref; by rewrite Ho|]. by apply on_zero_handles_inv.
  - destruct (holder o) as [k|] eqn:Hk; [|done]. destruct (tv_running (timer_ o)) eqn:Hr; [unfold tv_Finish; by rewrite Hr|].
    destruct (resumed_facts k o Hi Hk Hr) as (Ha & -> & _). apply Hw; [done|]. by apply resume_inv.
  - destruct (tv_Fire now (timer_ o)) as [v|] eqn:Ef; [|done]. destruct (to_inv_fire now v o Hi Ef) as [Hi' Ha]. apply Hw; [done|]. by eexists.
  - destruct (callback_at o) eqn:Hc; try done. destruct (to_inv_queue o Hi Hc) as [Hi' Ha]. apply Hw; [done|]. by eexists.
  - destruct (callback_at o) eqn:Hc; try done. assert (alive o = true) as Ha by (apply busy_alive; [done|]; do 5 right; congruence). apply Hw; [done|].
    destruct (tv_End (timer_ o)) as [v|] eqn:Ev; [eexists; split; [done|]; by apply to_inv_return|]. unfold tv_End in Ev.
    assert (tv_running (timer_ o) = true) as Hrun by (apply (to_running _ _ Hi); congruence). by rewrite Hrun in Ev.
  - destruct (dpc_queued o && callback_idle o) eqn:E; [|done]. apply andb_true_iff in E as [E1 E2]. destruct (to_inv_pop o Hi E1 E2) as [Hi' Ha]. apply Hw; [done|]. by eexists.
  - destruct ((0 <? at_lock o) && lock_free o) eqn:E; [|done]. apply andb_true_iff in E as [E1%Z.ltb_lt E2]. unfold lock_free in E2. destruct (holder o) eqn:Hh; [done|].
    destruct (OnTimerFired_inv o Hi E1 Hh) as [Ha Hx]. by apply Hw.
  - destruct (Z.ltb_spec 0 (at_release o)) as [Hu|]; [|done]. pose proof (to_inv_release o Hi Hu) as Hp.
    assert (alive o = true) as Ha by (apply busy_alive; [done|]; do 3 right; by left). apply Hw; [done|]. by apply Release_inv.
Qed.

Lemma to_run_inv ops o : to_inv o -> exists o', to_run ops o = Some o' /\ to_inv o'.
Proof.
  revert o. induction ops as [|op ops IH]; intros o Hi; cbn [to_run]; [by exists o|]. destruct (to_step op o) as [r|] eqn:E; [|by apply IH].
  destruct (to_step_inv op o r Hi E) as (o' & -> & Hi'). by apply IH.
Qed.

Lemma timer_Create_inv koid options ac o : timer_Create koid options ac = (ZX_OK, Some o) -> to_inv o.
Proof.
  unfold timer_Create. destruct (_ <? _); [done|]. destruct (timer_slack_mode options) as [m|] eqn:Em; [|done]. destruct ac; [|done]. intros [= <-].
  apply idle_inv; try done. split; [done|by intros [? ?]].
Qed.

(** *** From a pending deadline to the signal *)

Lemma run_skip op ops o : to_step op o = None -> to_run (op :: ops) o = to_run ops o.
Proof. intros E. cbn [to_run]. by rewrite E. Qed.

Lemma run_step op ops o o' : to_step op o = Some (Some o') -> to_run (op :: ops) o = to_run ops o'.
Proof. intros E. cbn [to_run]. by rewrite E. Qed.

(** The callback queues the deferred call and returns, and a worker takes the call. *)
Lemma deliver o :
  to_inv o -> fired_tokens o = 1 ->
  exists o', (forall ops, to_run (ToQueue :: ToReturn :: ToPop :: ops) o = to_run ops o') /\ to_inv o' /\ at_lock o' = 1 /\ holder o' = holder o /\
    deadline_ o' = deadline_ o /\ slack_amount_ o' = slack_amount_ o /\ cancel_pending_ o' = cancel_pending_ o /\ options_ o' = options_ o /\ fire_time o' = fire_time o.
Proof.
  intros Hi Hf. pose proof Hi as []. destruct to_nonneg0 as (U1 & U2 & U3 & U4). assert (0 < tokens o) as Hpos.
  { unfold tokens, b2z. destruct (bool_decide _), (holder_token o); lia. }
  assert (alive o = true) as Ha by (apply busy_alive; [done|]; do 2 right; by left).
  assert (forall u, callback_at u = CbNone -> dpc_queued u = true -> alive u = true -> forall ops, to_run (ToPop :: ops) u = to_run ops (set_dpc false (at_lock u + 1) u)) as Hpop.
  { intros u Hc Hd Hau ops. apply run_step. cbn [to_step]. unfold callback_idle, when_alive. by rewrite Hc, Hd, Hau. }
  assert (forall u, to_inv u -> callback_at u = CbReturn -> alive u = true -> forall ops,
    to_run (ToReturn :: ops) u = to_run ops (set_callback CbNone (set_view (mkTV (tv_queued (timer_ u)) false (tv_waiting (timer_ u))) u))) as Hret.
  { intros u Hiu Hc Hau ops. apply run_step. cbn [to_step]. unfold when_alive, tv_End. assert (tv_running (timer_ u) = true) as Hru by (apply (to_running _ _ Hiu); congruence). by rewrite Hc, Hau, Hru. }
  assert (forall u, to_inv u -> callback_at u = CbReturn -> alive u = true -> to_inv (set_callback CbNone (set_view (mkTV (tv_queued (timer_ u)) false (tv_waiting (timer_ u))) u))) as Hreti.
  { intros u Hiu Hc Hau. apply to_inv_return; try done. unfold tv_End. by rewrite (proj2 (to_running _ _ Hiu)) by congruence. }
  unfold fired_tokens in Hf. destruct (callback_at o) eqn:Hc.
  - assert (at_queue o = false) as Hq by (unfold at_queue; by rewrite Hc). rewrite Hq in Hf. destruct (dpc_queued o) eqn:Hd; cbn [b2z] in Hf.
    + destruct (to_inv_pop o Hi Hd) as [Hi' _]; [unfold callback_idle; by rewrite Hc|]. eexists. split; [|split; [exact Hi'|split_and!; try done; cbn; lia]].
      intros ops. rewrite !run_skip by (cbn [to_step]; by rewrite Hc). by apply Hpop.
    + exists o. split_and!; try done; try lia. intros ops. by rewrite !run_skip by (cbn [to_step]; rewrite ?Hc, ?Hd; done).
  - destruct (to_inv_queue o Hi Hc) as [Hi1 _]. set (o1 := timer_irq_callback o) in *. pose proof (Hreti o1 Hi1 eq_refl Ha) as Hi2.
    set (o2 := set_callback CbNone _) in Hi2. destruct (to_inv_pop o2 Hi2 eq_refl eq_refl) as [Hi3 _]. eexists. split; [|split; [exact Hi3|]].
    + intros ops. rewrite (run_step ToQueue _ o o1) by (cbn [to_step]; unfold when_alive; by rewrite Hc, Ha). rewrite Hret by done. by apply Hpop.
    + assert (at_queue o = true) as Hq by (unfold at_queue; by rewrite Hc). rewrite Hq in Hf. split_and!; try done. cbn. destruct (dpc_queued o); cbn [b2z] in Hf; lia.
  - pose proof (Hreti o Hi Hc Ha) as Hi2. set (o2 := set_callback CbNone _) in Hi2. specialize (to_returning0 eq_refl). destruct (to_inv_pop o2 Hi2 to_returning0 eq_refl) as [Hi3 _].
    eexists. split; [|split; [exact Hi3|]].
    + intros ops. rewrite run_skip by (cbn [to_step]; by rewrite Hc). rewrite Hret by done. by apply Hpop.
    + rewrite to_returning0 in Hf. split_and!; try done. cbn. destruct (at_queue o); cbn [b2z] in Hf; lia.
Qed.

(** Steps of the timer and the workers, none of a user. *)
Definition system_op (op : TimerObjOp) : bool :=
  match op with ToResume _ | ToFire _ | ToQueue | ToReturn | ToPop | ToFired => true | _ => false end.

Definition drives_to (o : TimerObj) (P : TimerObj -> Prop) : Prop :=
  exists ops o', forallb system_op ops = true /\ to_run ops o = Some o' /\ P o'.

Lemma drive op ops o o' P :
  system_op op = true -> forallb system_op ops = true -> (forall rest, to_run ((op :: ops) ++ rest) o = to_run rest o') -> drives_to o' P -> drives_to o P.
Proof.
  intros H1 H2 Hr (ops' & o'' & Hs & Hrun & HP). exists ((op :: ops) ++ ops'), o''. split_and!; try done.
  - rewrite forallb_app. cbn. by rewrite H1, H2, Hs.
  - by rewrite Hr.
Qed.

Lemma locked_quiet o : to_inv o -> at_lock o = 1 -> tv_running (timer_ o) = false.
Proof.
  intros [] Hl. assert (at_queue o = false /\ dpc_queued o = false) as [H1 H2].
  { unfold tokens, fired_tokens, b2z in to_one0. destruct (bool_decide _), (holder_token o), (at_queue o), (dpc_queued o); split; done || lia. }
  apply not_true_is_false. rewrite to_running0. intros Hc. unfold at_queue in H1. destruct (callback_at o); try done. rewrite to_returning0 in H2; done.
Qed.

Lemma fired_signals o :
  to_inv o -> at_lock o = 1 -> holder o = None -> cancel_pending_ o = false -> drives_to o (fun o' => signaled o' = true).
Proof.
  intros Hi Hl Hh Hp. destruct (OnTimerFired_inv o Hi ltac:(lia) Hh) as (Ha & o' & Ho & Hi'). apply (drive ToFired [] o o'); try done.
  - intros rest. apply run_step. cbn [to_step]. unfold lock_free, when_alive. rewrite Hh, Ha, (proj2 (Z.ltb_lt 0 (at_lock o))) by lia. cbn [andb]. by rewrite Ho.
  - exists [], o'. split_and!; try done. unfold OnTimerFired in Ho. change (cancel_pending_ (set_dpc _ _ o)) with (cancel_pending_ o) in Ho. rewrite Hp in Ho. injection Ho as <-.
    apply (signaled_set (set_dpc (dpc_queued o) (at_lock o - 1) o)).
Qed.

Lemma delivered_signals o :
  to_inv o -> fired_tokens o = 1 -> holder o = None -> cancel_pending_ o = false -> drives_to o (fun o' => signaled o' = true).
Proof.
  intros Hi Hf Hh Hp. destruct (deliver o Hi Hf) as (o1 & Hrun & Hi1 & H1 & H2 & H3 & H4 & H5 & _). apply (drive ToQueue [ToReturn; ToPop] o o1); try done.
  apply fired_signals; congruence.
Qed.

Lemma queued_signals o w :
  to_inv o -> tv_queued (timer_ o) = Some w -> drives_to o (fun o' => signaled o' = true).
Proof.
  intros Hi Hq. destruct w as [e l]. destruct (to_queued _ _ Hi _ Hq) as (_ & Q2 & _).
  assert (tv_Fire e (timer_ o) = Some (mkTV None true (tv_waiting (timer_ o)))) as Hf by (unfold tv_Fire; rewrite Hq; by rewrite Z.leb_refl).
  destruct (to_inv_fire _ _ _ Hi Hf) as [Hi1 Ha]. eapply (drive (ToFire e) []); try done.
  - intros rest. apply run_step. cbn [to_step]. unfold when_alive. rewrite Hf, Ha. done.
  - assert (holder o = None) as Hh by (destruct (to_waiting _ _ Hi); congruence). apply delivered_signals; try done.
    pose proof (to_parts 0 _ Hi1) as (F1 & _ & _). destruct Hi1. unfold tokens in to_one0. change (at_queue (set_fire_time e (set_callback CbQueue _))) with true in *.
    unfold fired_tokens in *. cbn [b2z at_queue callback_at set_fire_time set_callback dpc_queued at_lock set_view] in *. destruct to_nonneg0 as (_ & ? & _).
    change (0 <= at_lock o) in H. destruct (bool_decide _), (dpc_queued o), (holder_token _); cbn [b2z] in *; lia.
Qed.

Lemma pending_signals o :
  to_inv o -> holder o = None -> deadline_ o <> 0 -> drives_to o (fun o' => signaled o' = true).
Proof.
  intros Hi Hh Hd. destruct (tv_queued (timer_ o)) as [w|] eqn:Hq; [by eapply queued_signals|].
  destruct (cancel_pending_ o) eqn:Hp.
  - pose proof (to_pending _ _ Hi Hp) as Hf. destruct (deliver o Hi Hf) as (o1 & Hrun & Hi1 & H1 & H2 & H3 & H4 & H5 & _). apply (drive ToQueue [ToReturn; ToPop] o o1); try done.
    destruct (OnTimerFired_inv o1 Hi1 ltac:(lia) ltac:(congruence)) as (Ha1 & o2 & Ho & Hi2). apply (drive ToFired [] o1 o2); try done.
    { intros rest. apply run_step. cbn [to_step]. unfold lock_free, when_alive. rewrite H2, Hh, Ha1, (proj2 (Z.ltb_lt 0 (at_lock o1))) by lia. cbn [andb]. by rewrite Ho. }
    assert (o2 = timer_Cancel (fun _ => KFired) (set_pending false (set_dpc (dpc_queued o1) (at_lock o1 - 1) o1))) as Eo2.
    { unfold OnTimerFired in Ho. change (cancel_pending_ (set_dpc _ _ o1)) with (cancel_pending_ o1) in Ho. rewrite H5, Hp in Ho.
      change (deadline_ (set_pending false (set_dpc (dpc_queued o1) (at_lock o1 - 1) o1))) with (deadline_ o1) in Ho. rewrite H3, (proj2 (Z.eqb_neq (deadline_ o) 0) Hd) in Ho. by injection Ho as <-. }
    assert (holder o2 = Some KFired) as Hk by (by rewrite Eo2).
    assert (tv_running (timer_ o2) = false) as Hr2 by (rewrite Eo2; exact (locked_quiet o1 Hi1 H1)).
    destruct (resumed_facts _ o2 Hi2 Hk Hr2) as (Ha2 & Hfin & _). pose proof (resumed_arming _ o2 Hi2 Hk Hr2 ltac:(by right)) as Har.
    destruct (resume_inv KFired 0 o2 Hi2 Hk Hr2) as (o3 & Ho3 & Hi3). apply (drive (ToResume 0) [] o2 o3); try done.
    { intros rest. apply run_step. cbn [to_step]. rewrite Hk, Hfin. unfold when_alive. rewrite Ha2. fold (resumed o2). by rewrite Ho3. }
    cbn [resume] in Ho3. unfold SetTimerLocked_set in Ho3. destruct (timer_slack_mode (options_ (resumed o2))) as [m|]; [|done].
    change (timer_ (resumed o2)) with (mkTV None false false) in Ho3. cbn [tv_Set tv_queued tv_running tv_waiting] in Ho3. injection Ho3 as <-. by eapply queued_signals.
  - apply delivered_signals; try done. pose proof Hi as []. assert (tokens o = 1) as Ht by (apply to_idle0; [by rewrite Hh|done|done]).
    unfold tokens, holder_token in Ht. rewrite Hh, Hq in Ht. rewrite (bool_decide_false (is_Some None)) in Ht by (by intros [? ?]). cbn [b2z] in Ht. lia.
Qed.

(** ** Properties *)

(** C6. However threads set, cancel, observe, signal and close a timer object, and however that
    interleaves with the timer interrupt and the workers that run the deferred call, nothing
    goes wrong: the kernel timer is never set while it is set or its callback runs, no assertion
    fails, the reference count is exactly the references that exist, and the object is deleted
    exactly when the last of them is dropped, with its timer idle, and never used afterwards. *)
Theorem timer_object_safe (koid options : Z) (o : TimerObj) (ops : list TimerObjOp) :
  timer_Create koid options true = (ZX_OK, Some o) ->
  exists o', to_run ops o = Some o' /\
    (alive o' = true -> refs o' = handle_ref o' + users o' + tokens o' + at_release o' /\ tokens o' <= 1) /\
    (alive o' = false <-> handle_ref o' = 0 /\ users o' = 0 /\ tokens o' = 0 /\ at_release o' = 0) /\
    (alive o' = false -> tv_queued (timer_ o') = None /\ tv_running (timer_ o') = false).
Proof.
  intros Hc. destruct (to_run_inv ops o (timer_Create_inv koid options true o Hc)) as (o' & Hr & Hi). exists o'. split; [done|]. pose proof Hi as []. split_and!.
  - intros Ha. destruct (to_alive0 Ha). split; [lia|done].
  - split; [intros Ha; by destruct (to_dead0 Ha) as (_ & ? & ? & ? & ? & _)|]. intros (H1 & H2 & H3 & H4). destruct (alive o'); [|done]. destruct (to_alive0 eq_refl). lia.
  - intros Ha. destruct (to_dead0 Ha) as (_ & _ & _ & Ht & _ & _ & Hcb). destruct (no_token 0 o' Hi Ht) as (Hq & _). split; [done|].
    apply not_true_is_false. rewrite to_running0. by intros ?.
Qed.

(** C20. The signal of a timer object tells the truth. Between critical sections
    [ZX_TIMER_SIGNALED] is asserted exactly when the deadline of the request in force (the last
    [Set] not cancelled since) was found reached: it was zero or in the past when it was set, or
    the kernel timer fired within the window of that very request; no earlier or cancelled
    request can cause it. And while the request has not been reached it is not lost: the
    steps of the timer and the workers alone lead to the signal. *)
Theorem timer_signal_exact (koid options : Z) (o o' : TimerObj) (ops : list TimerObjOp) :
  timer_Create koid options true = (ZX_OK, Some o) -> to_run ops o = Some o' -> holder o' = None ->
  (signaled o' = true <-> is_Some (reached o')) /\
  (forall t, reached o' = Some t -> exists d s, last_set o' = Some (d, s) /\ (d = 0 \/ d <= t \/ fst (window_of o' d s) <= t)) /\
  (forall d s, last_set o' = Some (d, s) -> reached o' = None ->
     timer_GetInfo o' = (options_ o', d, s) /\ drives_to o' (fun o'' => signaled o'' = true)).
Proof.
  intros Hc Hr Hh. destruct (to_run_inv ops o (timer_Create_inv koid options true o Hc)) as (o1 & Hr1 & Hi). assert (o1 = o') as -> by congruence.
  pose proof Hi as []. split_and!; try done. intros d s Hl Hre. assert (deadline_ o' <> 0) as Hd by (apply to_lost0; congruence).
  destruct (to_goal0 Hd) as [Hg _]. rewrite Hl in Hg. injection Hg as -> ->. split; [done|]. by apply pending_signals.
Qed.

(** [Set] to a later time on an object with nothing pending. *)
Lemma set_later d s now o : now < d -> d <> 0 -> deadline_ o = 0 -> cancel_pending_ o = false ->
  timer_Set d s now o = Some (timer_Cancel (fun _ => KSetTimer)
    (let o := set_goal (Some (d, s)) None (set_deadline d s (set_goal None None (UpdateState ZX_TIMER_SIGNALED 0 o))) in set_refs (refs o + 1) (alive o) o)).
Proof.
  intros Hlt Hd H0 Hp. unfold timer_Set, CancelTimerLocked_begin. change (deadline_ (set_goal None None (UpdateState ZX_TIMER_SIGNALED 0 o))) with (deadline_ o). rewrite H0. cbn [Z.eqb].
  unfold Set_rest. rewrite (proj2 (Z.eqb_neq d 0) Hd), (proj2 (Z.leb_gt d now)) by lia. cbn [orb]. cbv zeta.
  change (cancel_pending_ (set_goal (Some (d, s)) None _)) with (cancel_pending_ o). by rewrite Hp.
Qed.

(** [on_zero_handles] cancels the timer so that callbacks cannot keep the object alive, but a
    thread that looked the handle up before can still set it. Then no handle and no thread is
    left and the object stays, armed, until its deadline: the only step it can take is to fire. *)
Lemma timer_set_after_close_leaks (koid d s now : Z) :
  now < d -> d <> 0 ->
  exists o o', timer_Create koid ZX_TIMER_SLACK_LATE true = (ZX_OK, Some o) /\
    to_run [ToGet; ToClose; ToResume now; ToRelease; ToSet d s now; ToResume now; ToPut] o = Some o' /\
    handles o' = HClosed /\ users o' = 0 /\ alive o' = true /\ tv_queued (timer_ o') = Some (d, zx_time_add_duration d s) /\
    (forall op r, to_step op o' = Some r -> exists t, op = ToFire t /\ d <= t).
Proof.
  intros Hlt Hd. set (o := mkTO ZX_TIMER_SLACK_LATE (mkDispatcher koid 0 0 [] []) 0 0 false tv_new CbNone false 0 0 None HOpen 0 1 true None None 0).
  exists o. set (o4 := mkTO ZX_TIMER_SLACK_LATE (mkDispatcher koid 0 0 [] []) 0 0 false tv_new CbNone false 0 0 None HClosed 1 1 true None None 0).
  set (o7 := mkTO ZX_TIMER_SLACK_LATE (mkDispatcher koid 0 0 [] []) d s false (mkTV (Some (d, zx_time_add_duration d s)) false false) CbNone false 0 0 None HClosed 0 1 true (Some (d, s)) None 0).
  exists o7. split; [done|]. split.
  { transitivity (to_run [ToSet d s now; ToResume now; ToPut] o4); [reflexivity|].
    rewrite (run_step (ToSet d s now) _ o4 (timer_Cancel (fun _ => KSetTimer) (set_goal (Some (d, s)) None (set_deadline d s (set_refs 2 true o4))))); [reflexivity|].
    cbn [to_step]. change (user_locked o4) with true. unfold when_alive. cbn [alive o4]. by rewrite set_later. }
  split_and!; try done. intros op r Hs. destruct op; try done.
  cbn [to_step] in Hs. unfold tv_Fire in Hs. cbn [o7 timer_ tv_queued] in Hs. destruct (Z.leb_spec d now0); [|done]. by exists now0.
Qed.

(** ** Witnesses *)

(** A timer fires while it is set again, is restarted by the deferred call, and signals. *)
Definition example_to_ops : list TimerObjOp :=
  [ToGet; ToSet 100 10 5; ToResume 5; ToFire 100; ToSet 200 0 50; ToQueue; ToReturn; ToResume 60; ToPop; ToFired; ToResume 70].

Definition example_to_end : list TimerObjOp :=
  [ToFire 200; ToQueue; ToReturn; ToPop; ToFired; ToRelease; ToPut; ToClose; ToResume 300; ToRelease].

Definition example_to : TimerObj := mkTO 0 (mkDispatcher 1 0 0 [] []) 0 0 false tv_new CbNone false 0 0 None HOpen 0 1 true None None 0.

Lemma timer_object_safe_witness :
  exists o', to_run (example_to_ops ++ example_to_end) example_to = Some o' /\ alive o' = false /\ tv_queued (timer_ o') = None.
Proof.
  destruct (timer_object_safe 1 0 example_to (example_to_ops ++ example_to_end)) as (o' & Hr & _ & _ & H3); [reflexivity|]. exists o'. split; [exact Hr|].
  assert (alive o' = false) as Ha by (vm_compute in Hr; injection Hr as <-; reflexivity). split; [exact Ha|]. apply (H3 Ha).
Defined.

Lemma timer_signal_exact_witness :
  exists o', to_run example_to_ops example_to = Some o' /\ signaled o' = false /\ last_set o' = Some (200, 0) /\ drives_to o' (fun o'' => signaled o'' = true).
Proof.
  destruct (to_run example_to_ops example_to) as [o'|] eqn:Hr; [|vm_compute in Hr; discriminate].
  assert (holder o' = None /\ last_set o' = Some (200, 0) /\ reached o' = None /\ signaled o' = false) as (Hh & Hl & Hre & Hs).
  { vm_compute in Hr. injection Hr as <-. repeat split. }
  destruct (timer_signal_exact 1 0 example_to o' example_to_ops) as (_ & _ & H3); [reflexivity|exact Hr|exact Hh|].
  exists o'. split; [reflexivity|]. split; [exact Hs|]. split; [exact Hl|]. apply (H3 200 0 Hl Hre).
Defined.

Lemma timer_set_after_close_leaks_witness :
  exists o o', timer_Create 1 ZX_TIMER_SLACK_LATE true = (ZX_OK, Some o) /\
    to_run [ToGet; ToClose; ToResume 0; ToRelease; ToSet ZX_TIME_INFINITE 0 0; ToResume 0; ToPut] o = Some o' /\ users o' = 0 /\ alive o' = true.
Proof.
  destruct (timer_set_after_close_leaks 1 ZX_TIME_INFINITE 0 0) as (o & o' & H1 & H2 & _ & H4 & H5 & _); [reflexivity|discriminate|].
  exists o, o'. repeat split; assumption.
Defined.
