(* ===== verification/JobTree.v ===== *)
(** * The tree of jobs and processes

    Models the life cycle of [zircon/kernel/object/job_dispatcher.cc] and
    [zircon/kernel/object/process_dispatcher.cc] with their headers, and the suspension of
    processes through [suspend_token_dispatcher.cc].

    Every function of the source that takes a lock is a definition on the object it locks; what
    a thread does after it has released the lock (the calls to other objects) is a list of
    [Task]s that it still has to run, a stack, so that any number of threads interleave between
    critical sections. Objects live in two maps by koid; a destroyed object leaves its map, and
    reaching for it there is a fault, like a failed assertion or a panic. An object whose last
    reference is gone is [dying] until its destructor has run: it is still in the list of its
    parent, whose walks have to skip it. Memory exhaustion is an input. *)

From stdpp Require Import gmap.
From S2P Require Import Prelude Types Dispatcher JobPolicy TimerDispatcher.

Definition ZX_JOB_TERMINATED : Z := ZX_OBJECT_SIGNALED.
Definition ZX_JOB_NO_JOBS : Z := ZX_OBJECT_SIGNAL_4.
Definition ZX_JOB_NO_PROCESSES : Z := ZX_OBJECT_SIGNAL_5.
Definition ZX_JOB_NO_CHILDREN : Z := ZX_OBJECT_SIGNAL_6.
Definition ZX_TASK_TERMINATED : Z := ZX_OBJECT_SIGNALED.
Definition ZX_TASK_RETCODE_CRITICAL_PROCESS_KILL : Z := -1029.
Definition kRootJobMaxHeight : Z := 32.
Definition ZX_DEFAULT_JOB_RIGHTS : Z :=
  Z.lor (Z.lor (Z.lor (Z.lor ZX_RIGHTS_BASIC ZX_RIGHTS_IO) (Z.lor ZX_RIGHTS_PROPERTY ZX_RIGHTS_POLICY))
    (Z.lor ZX_RIGHT_ENUMERATE (Z.lor ZX_RIGHT_DESTROY ZX_RIGHT_SIGNAL)))
    (Z.lor ZX_RIGHT_MANAGE_JOB (Z.lor ZX_RIGHT_MANAGE_PROCESS ZX_RIGHT_MANAGE_THREAD)).
Definition ZX_DEFAULT_PROCESS_RIGHTS : Z :=
  Z.lor (Z.lor (Z.lor ZX_RIGHTS_BASIC ZX_RIGHTS_IO) ZX_RIGHTS_PROPERTY)
    (Z.lor (Z.lor ZX_RIGHT_ENUMERATE (Z.lor ZX_RIGHT_DESTROY ZX_RIGHT_SIGNAL))
      (Z.lor ZX_RIGHT_MANAGE_PROCESS ZX_RIGHT_MANAGE_THREAD)).

(** ** Jobs *)

Inductive JobState := READY | KILLING | JDEAD.

#[export] Instance JobState_eq_dec : EqDecision JobState.
Proof. solve_decision. Defined.

(** [j_added] records that the job has entered the list of its parent, and [j_nomem] that
    [Kill] could not allocate the array for its children. *)
Record Job := mkJob {
  parent_ : option Z;
  max_height_ : Z;
  j_state_ : JobState;
  return_code_ : Z;
  kill_on_oom_ : bool;
  jobs_ : list Z;
  procs_ : list Z;
  j_policy_ : JobPolicy;
  j_base : Dispatcher;
  j_added : bool;
  j_dying : bool;
  j_nomem : bool;
}.

Definition set_jstate st code nomem J := mkJob (parent_ J) (max_height_ J) st code (kill_on_oom_ J) (jobs_ J) (procs_ J) (j_policy_ J) (j_base J) (j_added J) (j_dying J) nomem.
Definition set_oom b J := mkJob (parent_ J) (max_height_ J) (j_state_ J) (return_code_ J) b (jobs_ J) (procs_ J) (j_policy_ J) (j_base J) (j_added J) (j_dying J) (j_nomem J).
Definition set_children js ps J := mkJob (parent_ J) (max_height_ J) (j_state_ J) (return_code_ J) (kill_on_oom_ J) js ps (j_policy_ J) (j_base J) (j_added J) (j_dying J) (j_nomem J).
Definition set_jpolicy p J := mkJob (parent_ J) (max_height_ J) (j_state_ J) (return_code_ J) (kill_on_oom_ J) (jobs_ J) (procs_ J) p (j_base J) (j_added J) (j_dying J) (j_nomem J).
Definition set_jbase d J := mkJob (parent_ J) (max_height_ J) (j_state_ J) (return_code_ J) (kill_on_oom_ J) (jobs_ J) (procs_ J) (j_policy_ J) d (j_added J) (j_dying J) (j_nomem J).
Definition set_jlife added dying J := mkJob (parent_ J) (max_height_ J) (j_state_ J) (return_code_ J) (kill_on_oom_ J) (jobs_ J) (procs_ J) (j_policy_ J) (j_base J) added dying (j_nomem J).

Definition is_nil {A} (l : list A) : bool := match l with [] => true | _ => false end.

Definition JobDispatcher_new (d : Dispatcher) (parent : option (Z * Job)) (policy : JobPolicy) : Job :=
  mkJob (fst <$> parent) (match parent with Some (_, Q) => wrap32 (max_height_ Q - 1) | None => kRootJobMaxHeight end)
    READY 0 false [] [] policy d false false false.

Definition new_job_signals : Z := Z.lor (Z.lor ZX_JOB_NO_PROCESSES ZX_JOB_NO_JOBS) ZX_JOB_NO_CHILDREN.

Definition UpdateSignalsLocked (J : Job) : Job :=
  let clear := Z.lor (Z.lor ZX_JOB_NO_JOBS ZX_JOB_NO_PROCESSES) ZX_JOB_NO_CHILDREN in
  let set := 0 in
  let set := if is_nil (procs_ J) then Z.lor set ZX_JOB_NO_PROCESSES else set in
  let set := if is_nil (jobs_ J) then Z.lor set ZX_JOB_NO_JOBS else set in
  let set := if is_nil (jobs_ J) && is_nil (procs_ J) then Z.lor set ZX_JOB_NO_CHILDREN else set in
  set_jbase (UpdateStateLocked (j_base J) clear set) J.

Definition IsReadyForDeadTransitionLocked (J : Job) : bool :=
  bool_decide (j_state_ J = KILLING) && is_nil (jobs_ J) && is_nil (procs_ J).

Definition AddChildProcess (p : Z) (J : Job) : option Job :=
  if bool_decide (j_state_ J = READY) then Some (UpdateSignalsLocked (set_children (jobs_ J) (procs_ J ++ [p]) J)) else None.

Definition AddChildJob (c : Z) (J : Job) : option Job :=
  if bool_decide (j_state_ J = READY) then Some (UpdateSignalsLocked (set_children (jobs_ J ++ [c]) (procs_ J) J)) else None.

Definition erase (x : Z) (l : list Z) : list Z := filter (fun y => y <> x) l.

(** The critical sections of [RemoveChildProcess] and [RemoveChildJob]: the job after it, and
    whether it has to finish dying. *)
Definition RemoveChildProcess (p : Z) (J : Job) : Job * bool :=
  if negb (bool_decide (p ∈ procs_ J)) then (J, false) else
  let J := UpdateSignalsLocked (set_children (jobs_ J) (erase p (procs_ J)) J) in
  (J, IsReadyForDeadTransitionLocked J).

Definition RemoveChildJob (c : Z) (J : Job) : Job * bool :=
  if negb (bool_decide (c ∈ jobs_ J)) then (J, false) else
  let J := UpdateSignalsLocked (set_children (erase c (jobs_ J)) (procs_ J) J) in
  (J, IsReadyForDeadTransitionLocked J).

(** The critical section of [FinishDeadTransitionUnlocked]. *)
Definition FinishDead_locked (J : Job) : Job :=
  let J := set_jstate JDEAD (return_code_ J) (j_nomem J) J in
  set_jbase (UpdateStateLocked (j_base J) 0 ZX_JOB_TERMINATED) J.

Definition CanSetPolicy (J : Job) : bool := is_nil (procs_ J) && is_nil (jobs_ J).

Definition SetBasicPolicy (mode : Z) (in_policy : list zx_policy_basic_v2_t) (J : Job) : Job * zx_status_t :=
  if negb (CanSetPolicy J) then (J, ZX_ERR_BAD_STATE) else
  let '(st, policy) := policy_AddBasicPolicy mode in_policy (j_policy_ J) in (set_jpolicy policy J, st).

(** The overload for version 1 of the input, a list of conditions and actions. *)
Definition SetBasicPolicy_v1 (mode : Z) (in_policy : list (Z * Z)) (ac : bool) (J : Job) : Job * zx_status_t :=
  if negb ac then (J, ZX_ERR_NO_MEMORY) else
  SetBasicPolicy mode (map (fun '(condition, policy) => mkPolicyV2 condition policy ZX_POL_OVERRIDE_DENY) in_policy) J.

Definition SetTimerSlackPolicy (min_slack default_mode : Z) (J : Job) : Job * zx_status_t :=
  if negb (CanSetPolicy J) then (J, ZX_ERR_BAD_STATE) else
  if min_slack <? 0 then (J, ZX_ERR_INVALID_ARGS) else
  match timer_slack_mode default_mode with
  | None => (J, ZX_ERR_INVALID_ARGS)
  | Some _ =>
      let old_slack := GetTimerSlack (j_policy_ J) in
      let new_amount := Z.max (slack_amount old_slack) min_slack in
      (set_jpolicy (SetTimerSlack (mkSlack new_amount default_mode) (j_policy_ J)) J, ZX_OK)
  end.

(** [GetInfo]: return code, exited, kill_on_oom. *)
Definition job_GetInfo (J : Job) : Z * bool * bool := (return_code_ J, bool_decide (j_state_ J = JDEAD), kill_on_oom_ J).

(** ** Processes *)

Inductive ProcState := INITIAL | RUNNING | DYING | PDEAD.

#[export] Instance ProcState_eq_dec : EqDecision ProcState.
Proof. solve_decision. Defined.

(** [kill_sent] are the threads a kill was sent to, [p_tokens] the suspend tokens that exist, and
    [p_handle] is cleared when the last handle is closed. *)
Record Proc := mkProc {
  job_ : Z;
  p_state_ : ProcState;
  thread_list_ : list Z;
  retcode_ : Z;
  completely_dead_ : bool;
  critical_to_job_ : option Z;
  retcode_nonzero_ : bool;
  suspend_count_ : Z;
  p_policy_ : JobPolicy;
  p_base : Dispatcher;
  kill_sent : list Z;
  p_tokens : Z;
  p_handle : bool;
  p_added : bool;
  p_dying : bool;
}.

Definition set_pstate st ks P := mkProc (job_ P) st (thread_list_ P) (retcode_ P) (completely_dead_ P) (critical_to_job_ P) (retcode_nonzero_ P) (suspend_count_ P) (p_policy_ P) (p_base P) ks (p_tokens P) (p_handle P) (p_added P) (p_dying P).
Definition set_threads l P := mkProc (job_ P) (p_state_ P) l (retcode_ P) (completely_dead_ P) (critical_to_job_ P) (retcode_nonzero_ P) (suspend_count_ P) (p_policy_ P) (p_base P) (kill_sent P) (p_tokens P) (p_handle P) (p_added P) (p_dying P).
Definition set_retcode c P := mkProc (job_ P) (p_state_ P) (thread_list_ P) c (completely_dead_ P) (critical_to_job_ P) (retcode_nonzero_ P) (suspend_count_ P) (p_policy_ P) (p_base P) (kill_sent P) (p_tokens P) (p_handle P) (p_added P) (p_dying P).
Definition set_completely_dead d P := mkProc (job_ P) (p_state_ P) (thread_list_ P) (retcode_ P) true (critical_to_job_ P) (retcode_nonzero_ P) (suspend_count_ P) (p_policy_ P) d (kill_sent P) (p_tokens P) (p_handle P) (p_added P) (p_dying P).
Definition set_critical k nz P := mkProc (job_ P) (p_state_ P) (thread_list_ P) (retcode_ P) (completely_dead_ P) k nz (suspend_count_ P) (p_policy_ P) (p_base P) (kill_sent P) (p_tokens P) (p_handle P) (p_added P) (p_dying P).
Definition set_suspend n tk P := mkProc (job_ P) (p_state_ P) (thread_list_ P) (retcode_ P) (completely_dead_ P) (critical_to_job_ P) (retcode_nonzero_ P) n (p_policy_ P) (p_base P) (kill_sent P) tk (p_handle P) (p_added P) (p_dying P).
Definition set_pbase d P := mkProc (job_ P) (p_state_ P) (thread_list_ P) (retcode_ P) (completely_dead_ P) (critical_to_job_ P) (retcode_nonzero_ P) (suspend_count_ P) (p_policy_ P) d (kill_sent P) (p_tokens P) (p_handle P) (p_added P) (p_dying P).
Definition set_plife handle added dying P := mkProc (job_ P) (p_state_ P) (thread_list_ P) (retcode_ P) (completely_dead_ P) (critical_to_job_ P) (retcode_nonzero_ P) (suspend_count_ P) (p_policy_ P) (p_base P) (kill_sent P) (p_tokens P) handle added dying.

Definition ProcessDispatcher_new (d : Dispatcher) (job : Z) (J : Job) : Proc :=
  mkProc job INITIAL [] 0 false None false 0 (j_policy_ J) d [] 0 true false false.

(** [SetStateLocked]; [None] is the panic. Dying kills the threads. *)
Definition SetStateLocked (s : ProcState) (P : Proc) : option Proc :=
  if bool_decide (p_state_ P = PDEAD) && negb (bool_decide (s = PDEAD)) then None else
  if bool_decide (s = p_state_ P) then Some P else
  Some (set_pstate s (if bool_decide (s = DYING) then thread_list_ P else kill_sent P) P).

(** The critical sections; a [bool] says that the process became dead, [None] that an assertion
    failed. *)
Definition Exit (retcode : Z) (P : Proc) : option Proc :=
  if negb (bool_decide (p_state_ P = RUNNING) || bool_decide (p_state_ P = DYING)) then None else
  if negb (bool_decide (p_state_ P = DYING)) then
    if retcode_ P =? 0 then SetStateLocked DYING (set_retcode retcode P) else None
  else SetStateLocked DYING P.

Definition proc_Kill (retcode : Z) (P : Proc) : option (Proc * bool) :=
  if bool_decide (p_state_ P = PDEAD) then Some (P, false) else
  P ← (if negb (bool_decide (p_state_ P = DYING)) then (if retcode_ P =? 0 then Some (set_retcode retcode P) else None) else Some P);
  if is_nil (thread_list_ P) then P ← SetStateLocked PDEAD P; Some (P, true)
  else P ← SetStateLocked DYING P; Some (P, false).

Definition proc_on_zero_handles (P : Proc) : option (Proc * bool) :=
  if negb (bool_decide (p_state_ P = INITIAL)) then Some (P, false) else P ← SetStateLocked PDEAD P; Some (P, true).

(** [run] is the result of [MakeRunnable]. *)
Definition AddInitializedThread (t : Z) (initial_thread : bool) (run : zx_status_t) (P : Proc) : option (Proc * zx_status_t) :=
  if negb (bool_decide (p_state_ P = if initial_thread then INITIAL else RUNNING)) then Some (P, ZX_ERR_BAD_STATE) else
  if negb (bool_decide (run = ZX_OK)) then Some (P, run) else
  if negb (Bool.eqb (is_nil (thread_list_ P)) initial_thread) then None else
  let P := set_threads (thread_list_ P ++ [t]) P in
  if initial_thread then P ← SetStateLocked RUNNING P; Some (P, ZX_OK) else Some (P, ZX_OK).

Definition RemoveThread (t : Z) (P : Proc) : option (Proc * bool) :=
  if negb (bool_decide (t ∈ thread_list_ P)) then None else
  let P := set_threads (erase t (thread_list_ P)) P in
  if is_nil (thread_list_ P) then P ← SetStateLocked PDEAD P; Some (P, true) else Some (P, false).

(** [suspend_count_], an [int], counts the tokens that exist, each of them an allocated object; it is
    not wrapped. *)
Definition Suspend (P : Proc) : option (Proc * zx_status_t) :=
  if bool_decide (p_state_ P = DYING) || bool_decide (p_state_ P = PDEAD) then Some (P, ZX_ERR_BAD_STATE) else
  if suspend_count_ P <? 0 then None else
  Some (set_suspend (suspend_count_ P + 1) (p_tokens P) P, ZX_OK).

Definition Resume (P : Proc) : option Proc :=
  if bool_decide (p_state_ P = DYING) || bool_decide (p_state_ P = PDEAD) then Some P else
  if suspend_count_ P <=? 0 then None else
  Some (set_suspend (suspend_count_ P - 1) (p_tokens P) P).

(** A suspend token: its creation, and the closing of its last handle. *)
Definition token_Create (P : Proc) : option (Proc * zx_status_t) :=
  '(P, st) ← Suspend P;
  Some (if bool_decide (st = ZX_OK) then set_suspend (suspend_count_ P) (p_tokens P + 1) P else P, st).

Definition token_on_zero_handles (P : Proc) : option Proc :=
  P ← Resume P; Some (set_suspend (suspend_count_ P) (p_tokens P - 1) P).

(** [FinishDeadTransition] up to the signal. *)
Definition FinishDeadTransition (P : Proc) : option Proc :=
  if completely_dead_ P then None else Some (set_completely_dead (UpdateStateLocked (p_base P) 0 ZX_TASK_TERMINATED) P).

(** The job it kills at its end. *)
Definition kill_job (P : Proc) : option Z :=
  match critical_to_job_ P with
  | Some k => if negb (retcode_nonzero_ P) || negb (retcode_ P =? 0) then Some k else None
  | None => None
  end.

(** [GetInfo]: return code, started, exited. *)
Definition proc_GetInfo (P : Proc) : Z * bool * bool :=
  (retcode_ P, negb (bool_decide (p_state_ P = INITIAL)), bool_decide (p_state_ P = DYING) || bool_decide (p_state_ P = PDEAD)).

(** ** Threads and steps *)

(** What a thread has left to do after a critical section. *)
Inductive Task :=
| TAddJob (j : Z)                  (* Create: parent->AddChildJob *)
| TKillJob (j code : Z)            (* Kill of a job *)
| TFinishDead (j : Z)              (* FinishDeadTransitionUnlocked: its assertion *)
| TDead (j : Z)                    (* its critical section *)
| TRemoveJob (j : Z)               (* RemoveFromJobTreesUnlocked *)
| TDestroyJob (j : Z)              (* ~JobDispatcher *)
| TFreeJob (j : Z)                 (* its memory is released *)
| TAddProc (p : Z)                 (* Create: job->AddChildProcess *)
| TKillProc (p code : Z)           (* Kill of a process *)
| TCloseProc (p : Z)               (* on_zero_handles *)
| TFinishProc (p : Z)              (* FinishDeadTransition *)
| TRemoveProc (p : Z)              (* its call of RemoveChildProcess *)
| TCritical (p : Z)                (* its end *)
| TDestroyProc (p : Z)             (* ~ProcessDispatcher *)
| TFreeProc (p : Z).

#[export] Instance Task_eq_dec : EqDecision Task.
Proof. solve_decision. Defined.

Record Sys := mkSys { jobs : gmap Z Job; procs : gmap Z Proc; stacks : list (list Task); next_koid : Z }.

Definition put_job j J s := mkSys (<[j := J]> (jobs s)) (procs s) (stacks s) (next_koid s).
Definition put_proc p P s := mkSys (jobs s) (<[p := P]> (procs s)) (stacks s) (next_koid s).
Definition del_job j s := mkSys (delete j (jobs s)) (procs s) (stacks s) (next_koid s).
Definition del_proc p s := mkSys (jobs s) (delete p (procs s)) (stacks s) (next_koid s).
Definition set_stacks st s := mkSys (jobs s) (procs s) st (next_koid s).
Definition set_next n s := mkSys (jobs s) (procs s) (stacks s) n.

(** [ForEachChildInLocked] as [Kill] uses it: the children that still have references, and
    whether the array could not be allocated. [None] is the use of a freed child. *)
Fixpoint upgrade {A} (dying : A -> bool) (m : gmap Z A) (children : list Z) : option (list Z) :=
  match children with
  | [] => Some []
  | c :: rest =>
      C ← m !! c; live ← upgrade dying m rest;
      Some (if dying C then live else c :: live)
  end.

Definition ForEachChildInLocked {A} (dying : A -> bool) (m : gmap Z A) (ac : bool) (children : list Z) : option (list Z * bool) :=
  if is_nil children then Some ([], false) else
  if negb ac then Some ([], true) else live ← upgrade dying m children; Some (live, false).

(** [Kill] of a job. The lists are built by [push_front]. *)
Definition Kill (j code : Z) (ac1 ac2 : bool) (s : Sys) : option (Sys * list Task) :=
  J ← jobs s !! j;
  if negb (bool_decide (j_state_ J = READY)) then Some (s, []) else
  '(jobs_to_kill, n1) ← ForEachChildInLocked j_dying (jobs s) ac1 (jobs_ J);
  '(procs_to_kill, n2) ← ForEachChildInLocked p_dying (procs s) ac2 (procs_ J);
  let J := set_jstate KILLING code (n1 || n2) J in
  Some (put_job j J s,
    (if IsReadyForDeadTransitionLocked J then [TFinishDead j] else []) ++
    map (fun c => TKillJob c code) (reverse jobs_to_kill) ++ map (fun p => TKillProc p code) (reverse procs_to_kill)).

Definition finish_dead (j : Z) (should_die : bool) : list Task := if should_die then [TFinishDead j] else [].
Definition finish_proc (p : Z) (became_dead : bool) : list Task := if became_dead then [TFinishProc p] else [].

(** [RemoveFromJobTreesUnlocked] of job [j]. *)
Definition leave_parent (j : Z) (s : Sys) : option (Sys * list Task) :=
  J ← jobs s !! j;
  match parent_ J with
  | None => Some (s, [])
  | Some q => Q ← jobs s !! q; let '(Q, should_die) := RemoveChildJob j Q in Some (put_job q Q s, finish_dead q should_die)
  end.

(** [job_->RemoveChildProcess(this)] of process [p]. *)
Definition leave_job (p : Z) (s : Sys) : option (Sys * list Task) :=
  P ← procs s !! p; J ← jobs s !! job_ P;
  let '(J, should_die) := RemoveChildProcess p J in Some (put_job (job_ P) J s, finish_dead (job_ P) should_die).

(** One task of a thread: the new state and what the thread does first from then on. *)
Definition task_step (ac1 ac2 : bool) (t : Task) (s : Sys) : option (Sys * list Task) :=
  match t with
  | TAddJob j =>
      J ← jobs s !! j; q ← parent_ J; Q ← jobs s !! q;
      match AddChildJob j Q with
      | None => Some (s, [])
      | Some Q' =>
          let neighbor := default q (last (jobs_ Q)) in
          if bool_decide (j ∈ jobs_ Q) || bool_decide (neighbor = j) then None
          else Some (put_job j (set_jlife true (j_dying J) J) (put_job q Q' s), [])
      end
  | TKillJob j code => Kill j code ac1 ac2 s
  | TFinishDead j =>
      J ← jobs s !! j;
      match parent_ J with
      | None => Some (s, [TDead j])
      | Some q => Q ← jobs s !! q; if bool_decide (j_state_ Q = JDEAD) then None else Some (s, [TDead j])
      end
  | TDead j => J ← jobs s !! j; Some (put_job j (FinishDead_locked J) s, [TRemoveJob j])
  | TRemoveJob j => leave_parent j s
  | TDestroyJob j => '(s, new) ← leave_parent j s; Some (s, new ++ [TFreeJob j])
  | TFreeJob j => Some (del_job j s, [])
  | TAddProc p =>
      P ← procs s !! p; J ← jobs s !! job_ P;
      match AddChildProcess p J with
      | None => Some (put_proc p (set_plife false (p_added P) (p_dying P) P) s, [TCloseProc p])
      | Some J => Some (put_proc p (set_plife (p_handle P) true (p_dying P) P) (put_job (job_ P) J s), [])
      end
  | TKillProc p code => P ← procs s !! p; '(P, dead) ← proc_Kill code P; Some (put_proc p P s, finish_proc p dead)
  | TCloseProc p => P ← procs s !! p; '(P, dead) ← proc_on_zero_handles P; Some (put_proc p P s, finish_proc p dead)
  | TFinishProc p => P ← procs s !! p; P ← FinishDeadTransition P; Some (put_proc p P s, [TRemoveProc p; TCritical p])
  | TRemoveProc p => leave_job p s
  | TCritical p => P ← procs s !! p; Some (s, match kill_job P with Some k => [TKillJob k ZX_TASK_RETCODE_CRITICAL_PROCESS_KILL] | None => [] end)
  | TDestroyProc p =>
      P ← procs s !! p;
      if bool_decide (p_state_ P = INITIAL) || bool_decide (p_state_ P = PDEAD) then '(s, new) ← leave_job p s; Some (s, new ++ [TFreeProc p]) else None
  | TFreeProc p => Some (del_proc p s, [])
  end.

(** ** References *)

(** The job, or the process, that a thread with the task holds. *)
Definition task_job (t : Task) : option Z :=
  match t with
  | TAddJob j | TKillJob j _ | TFinishDead j | TDead j | TRemoveJob j | TDestroyJob j | TFreeJob j => Some j
  | _ => None
  end.

Definition task_proc (t : Task) : option Z :=
  match t with
  | TAddProc p | TKillProc p _ | TCloseProc p | TFinishProc p | TRemoveProc p | TCritical p | TDestroyProc p | TFreeProc p => Some p
  | _ => None
  end.

Definition pending (s : Sys) : list Task := concat (stacks s).

(** References to a job: of its children, of its processes, of the processes critical to it and
    of threads in the middle of an operation on it. *)
Definition job_referenced (j : Z) (s : Sys) : bool :=
  existsb (fun '(_, C) => bool_decide (parent_ C = Some j)) (map_to_list (jobs s)) ||
  existsb (fun '(_, P) => bool_decide (job_ P = j) || bool_decide (critical_to_job_ P = Some j)) (map_to_list (procs s)) ||
  existsb (fun t => bool_decide (task_job t = Some j)) (pending s).

(** References to a process: of its handles, its threads, its suspend tokens and of threads in the
    middle of an operation on it. *)
Definition proc_referenced (p : Z) (P : Proc) (s : Sys) : bool :=
  p_handle P || negb (is_nil (thread_list_ P)) || (0 <? p_tokens P) || existsb (fun t => bool_decide (task_proc t = Some p)) (pending s).

(** A job or process that a user can name. *)
Definition usable_job (j : Z) (s : Sys) : option Job := J ← jobs s !! j; if j_added J && negb (j_dying J) then Some J else None.
Definition usable_proc (p : Z) (s : Sys) : option Proc := P ← procs s !! p; if p_added P && negb (p_dying P) then Some P else None.

(** ** Operations *)

(** [t] is the thread that runs an operation. *)
Inductive JtOp :=
| JtNewJob (t : nat) (parent : Z)
| JtNewProc (t : nat) (job : Z) (init : bool)
| JtKillJob (t : nat) (j code : Z)
| JtKillProc (t : nat) (p code : Z)
| JtStart (p thread : Z) (initial_thread : bool) (run : zx_status_t)
| JtExit (p thread code : Z)
| JtThreadExit (t : nat) (p thread : Z)
| JtCloseProc (t : nat) (p : Z)
| JtSuspend (p : Z)
| JtResume (p : Z)
| JtSetPolicy (j mode : Z) (policy : list zx_policy_basic_v2_t)
| JtSetPolicyV1 (j mode : Z) (policy : list (Z * Z)) (ac : bool)
| JtSetSlack (j min_slack default_mode : Z)
| JtSetOom (j : Z) (value : bool)
| JtSetCritical (p j : Z) (retcode_nonzero : bool)
| JtSignalJob (j clear set : Z)
| JtSignalProc (p clear set : Z)
| JtDropJob (t : nat) (j : Z)
| JtDropProc (t : nat) (p : Z)
| JtRun (t : nat) (ac1 ac2 : bool).

(** [SetCriticalToJob] walks to the root; the fuel is the number of jobs on the longest path. *)
Fixpoint is_ancestor (fuel : nat) (target : Z) (job : option Z) (s : Sys) : option bool :=
  match fuel, job with
  | _, None => Some false
  | O, _ => None
  | S fuel, Some j => if bool_decide (j = target) then Some true else J ← jobs s !! j; is_ancestor fuel target (parent_ J) s
  end.

Definition SetCriticalToJob (critical_to_job : Z) (retcode_nonzero : bool) (P : Proc) (s : Sys) : option (Proc * zx_status_t) :=
  match critical_to_job_ P with
  | Some _ => Some (P, ZX_ERR_ALREADY_BOUND)
  | None =>
      found ← is_ancestor 33 critical_to_job (Some (job_ P)) s;
      Some (if found : bool then (set_critical (Some critical_to_job) retcode_nonzero P, ZX_OK) else (P, ZX_ERR_INVALID_ARGS))
  end.

(** The thread goes on with [new] first. *)
Definition push (t : nat) (new : list Task) (s : Sys) : option Sys :=
  stack ← stacks s !! t; Some (set_stacks (<[t := new ++ stack]> (stacks s)) s).

(** A new operation of thread [t], which is in none. *)
Definition begin (t : nat) (new : list Task) (s : Sys) : option Sys :=
  stack ← stacks s !! t; if is_nil stack then push t new s else None.

Definition with_job (j : Z) (f : Job -> Job) (s : Sys) : option (option Sys) := J ← usable_job j s; Some (Some (put_job j (f J) s)).
Definition with_proc (p : Z) (f : Proc -> option Proc) (s : Sys) : option (option Sys) :=
  P ← usable_proc p s; Some (P ← f P; Some (put_proc p P s)).

Definition new_job_step (t : nat) (q : Z) (s : Sys) : option (option Sys) :=
  Q ← usable_job q s;
  if max_height_ Q =? 0 then Some (Some s) else
  let '(d, next) := Dispatcher_new (next_koid s) new_job_signals in
  if bool_decide (is_Some (jobs s !! koid_ d)) || bool_decide (is_Some (procs s !! koid_ d)) then None else
  s ← begin t [TAddJob (koid_ d)] s;
  Some (Some (set_next next (put_job (koid_ d) (JobDispatcher_new d (Some (q, Q)) (j_policy_ Q)) s))).

Definition new_proc_step (t : nat) (j : Z) (init : bool) (s : Sys) : option (option Sys) :=
  J ← usable_job j s;
  let '(d, next) := Dispatcher_new (next_koid s) 0 in
  if bool_decide (is_Some (jobs s !! koid_ d)) || bool_decide (is_Some (procs s !! koid_ d)) then None else
  s ← begin t [if init then TAddProc (koid_ d) else TCloseProc (koid_ d)] s;
  let P := ProcessDispatcher_new d j J in
  Some (Some (set_next next (put_proc (koid_ d) (set_plife init (p_added P) (p_dying P) P) s))).

(** [None] when the step is not enabled, [Some None] when it goes wrong. *)
Definition jt_step (op : JtOp) (s : Sys) : option (option Sys) :=
  match op with
  | JtNewJob t q => new_job_step t q s
  | JtNewProc t j init => new_proc_step t j init s
  | JtKillJob t j code => _ ← usable_job j s; s ← begin t [TKillJob j code] s; Some (Some s)
  | JtKillProc t p code => _ ← usable_proc p s; s ← begin t [TKillProc p code] s; Some (Some s)
  | JtStart p th initial run =>
      P ← usable_proc p s; if bool_decide (th ∈ thread_list_ P) then None else
      with_proc p (fun P => '(P, _) ← AddInitializedThread th initial run P; Some P) s
  | JtExit p th code => P ← usable_proc p s; if bool_decide (th ∈ thread_list_ P) then with_proc p (Exit code) s else None
  | JtThreadExit t p th =>
      P ← usable_proc p s; if negb (bool_decide (th ∈ thread_list_ P)) then None else
      match RemoveThread th P with
      | Some (P, dead) => s ← begin t (finish_proc p dead) (put_proc p P s); Some (Some s)
      | None => Some None
      end
  | JtCloseProc t p =>
      P ← usable_proc p s; if negb (p_handle P) then None else
      s ← begin t [TCloseProc p] (put_proc p (set_plife false (p_added P) (p_dying P) P) s); Some (Some s)
  | JtSuspend p => with_proc p (fun P => '(P, _) ← token_Create P; Some P) s
  | JtResume p => P ← usable_proc p s; if 0 <? p_tokens P then with_proc p token_on_zero_handles s else None
  | JtSetPolicy j mode policy => with_job j (fun J => fst (SetBasicPolicy mode policy J)) s
  | JtSetPolicyV1 j mode policy ac => with_job j (fun J => fst (SetBasicPolicy_v1 mode policy ac J)) s
  | JtSetSlack j min_slack mode => with_job j (fun J => fst (SetTimerSlackPolicy min_slack mode J)) s
  | JtSetOom j value => with_job j (set_oom value) s
  | JtSetCritical p j nz => _ ← usable_job j s; with_proc p (fun P => '(P, _) ← SetCriticalToJob j nz P s; Some P) s
  | JtSignalJob j c sg => with_job j (fun J => set_jbase (fst (solo_user_signal_self ZX_DEFAULT_JOB_RIGHTS 0 (j_base J) c sg)) J) s
  | JtSignalProc p c sg => with_proc p (fun P => Some (set_pbase (fst (solo_user_signal_self ZX_DEFAULT_PROCESS_RIGHTS 0 (p_base P) c sg)) P)) s
  | JtDropJob t j =>
      J ← jobs s !! j; if j_dying J || bool_decide (parent_ J = None) || job_referenced j s then None else
      s ← push t [TDestroyJob j] (put_job j (set_jlife (j_added J) true J) s); Some (Some s)
  | JtDropProc t p =>
      P ← procs s !! p; if p_dying P || proc_referenced p P s then None else
      s ← push t [TDestroyProc p] (put_proc p (set_plife (p_handle P) (p_added P) true P) s); Some (Some s)
  | JtRun t ac1 ac2 =>
      match stacks s !! t with
      | Some (task :: rest) =>
          match task_step ac1 ac2 task (set_stacks (<[t := rest]> (stacks s)) s) with
          | Some (s, new) => s ← push t new s; Some (Some s)
          | None => Some None
          end
      | _ => None
      end
  end.

Fixpoint jt_run (ops : list JtOp) (s : Sys) : option Sys :=
  match ops with
  | [] => Some s
  | op :: ops => match jt_step op s with Some (Some s) => jt_run ops s | Some None => None | None => jt_run ops s end
  end.

(** The kernel after boot: the root job, and [n] threads. *)
Definition jt_boot (koid : Z) (n : nat) (slack : TimerSlack) : Sys :=
  mkSys {[ koid := set_jlife true false (JobDispatcher_new (mkDispatcher koid 0 new_job_signals [] []) None (CreateRootPolicy slack)) ]}
    ∅ (replicate n []) (wrap64 (koid + 1)).
