(* ===== verification/JobTreeSafety.v ===== *)
(** * Soundness of the tree of jobs and processes

    The invariant of the system of [JobTree], that every step of every thread preserves it, and
    what follows: no assertion fails and no destroyed object is reached, the tree and its
    signals are what they should be, and a killed job dies with everything below it. *)

From stdpp Require Import gmap.
From S2P Require Import Prelude Types Dispatcher JobPolicy JobTree.

(** ** The invariant *)

Definition jbit (i : Z) (J : Job) : bool := Z.testbit (signals_ (j_base J)) i.
Definition pbit (i : Z) (P : Proc) : bool := Z.testbit (signals_ (p_base P)) i.

(** A job by itself. *)
Record job_ok (J : Job) : Prop := {
  jo_height : 0 <= max_height_ J <= kRootJobMaxHeight;
  jo_nodup : NoDup (jobs_ J) /\ NoDup (procs_ J);
  jo_terminated : jbit 3 J = bool_decide (j_state_ J = JDEAD);
  jo_signals : jbit 4 J = is_nil (jobs_ J) /\ jbit 5 J = is_nil (procs_ J) /\ jbit 6 J = is_nil (jobs_ J) && is_nil (procs_ J);
  jo_dead : j_state_ J = JDEAD -> jobs_ J = [] /\ procs_ J = [];
  jo_new : j_added J = false -> j_state_ J = READY /\ jobs_ J = [] /\ procs_ J = [];
  jo_root : parent_ J = None -> j_added J = true /\ j_dying J = false;
}.

(** A process by itself. *)
Record proc_ok (P : Proc) : Prop := {
  po_threads : thread_list_ P = [] <-> p_state_ P = INITIAL \/ p_state_ P = PDEAD;
  po_retcode : p_state_ P = INITIAL \/ p_state_ P = RUNNING -> retcode_ P = 0;
  po_complete : completely_dead_ P = true -> p_state_ P = PDEAD;
  po_terminated : pbit 3 P = completely_dead_ P;
  po_new : p_added P = false -> p_state_ P = INITIAL \/ p_state_ P = PDEAD;
  po_killed : p_state_ P = DYING -> Forall (fun t => t ∈ kill_sent P) (thread_list_ P);
  po_tokens : 0 <= p_tokens P;
  po_suspend : p_state_ P = INITIAL \/ p_state_ P = RUNNING -> suspend_count_ P = p_tokens P;
  po_dying : p_dying P = true -> thread_list_ P = [];
}.

(** A job [C] and its parent [Q], with the tasks [T] of all threads. *)
Record link_ok (T : list Task) (Q : Job) (c : Z) (C : Job) : Prop := {
  lk_height : max_height_ Q = max_height_ C + 1;
  lk_parent : j_added Q = true /\ j_dying Q = false;
  lk_added : c ∈ jobs_ Q -> j_added C = true;
  lk_listed : j_added C = true -> j_dying C = false -> j_state_ C <> JDEAD -> c ∈ jobs_ Q;
  lk_dead : c ∈ jobs_ Q -> j_dying C = false -> j_state_ C = JDEAD -> TRemoveJob c ∈ T;
  lk_dying : c ∈ jobs_ Q -> j_dying C = true -> TDestroyJob c ∈ T;
  lk_killed : j_state_ Q = KILLING -> j_nomem Q = false -> c ∈ jobs_ Q ->
    j_dying C = true \/ j_state_ C <> READY \/ exists code, TKillJob c code ∈ T;
}.

(** A process [P] and its job [J]. *)
Record plink_ok (T : list Task) (J : Job) (p : Z) (P : Proc) : Prop := {
  pl_job : j_added J = true /\ j_dying J = false;
  pl_added : p ∈ procs_ J -> p_added P = true;
  pl_listed : p_added P = true -> p_dying P = false -> p_state_ P <> PDEAD -> p ∈ procs_ J;
  pl_dead : p ∈ procs_ J -> p_dying P = false -> p_state_ P = PDEAD -> TFinishProc p ∈ T \/ TRemoveProc p ∈ T;
  pl_dying : p ∈ procs_ J -> p_dying P = true -> TDestroyProc p ∈ T;
  pl_killed : j_state_ J = KILLING -> j_nomem J = false -> p ∈ procs_ J ->
    p_dying P = true \/ p_state_ P = DYING \/ p_state_ P = PDEAD \/ exists code, TKillProc p code ∈ T;
}.

(** What a thread may rely on when it runs a task. *)
Definition job_task_ok (t : Task) (j : Z) (J : Job) (s : Sys) : Prop :=
  match t with
  | TAddJob _ => j_added J = false /\ j_dying J = false
  | TKillJob _ _ => j_added J = true /\ j_dying J = false
  | TFinishDead _ | TDead _ => j_state_ J = KILLING /\ jobs_ J = [] /\ procs_ J = [] /\ j_dying J = false
  | TRemoveJob _ => j_state_ J = JDEAD /\ j_dying J = false
  | TDestroyJob _ => j_dying J = true
  | TFreeJob _ => j_dying J = true /\ forall q Q, jobs s !! q = Some Q -> j ∉ jobs_ Q
  | _ => True
  end.

Definition proc_task_ok (t : Task) (p : Z) (P : Proc) (s : Sys) : Prop :=
  match t with
  | TAddProc _ => p_added P = false /\ p_dying P = false /\ p_state_ P = INITIAL /\ p_handle P = true
  | TKillProc _ _ => p_added P = true /\ p_dying P = false
  | TCloseProc _ => p_dying P = false /\ p_handle P = false
  | TFinishProc _ => p_state_ P = PDEAD /\ p_dying P = false /\ completely_dead_ P = false
  | TRemoveProc _ | TCritical _ => p_dying P = false /\ p_state_ P = PDEAD
  | TDestroyProc _ => p_dying P = true
  | TFreeProc _ => p_dying P = true /\ forall j J, jobs s !! j = Some J -> p ∉ procs_ J
  | _ => True
  end.

Definition task_ok (s : Sys) (t : Task) : Prop :=
  (forall j, task_job t = Some j -> exists J, jobs s !! j = Some J /\ job_task_ok t j J s) /\
  (forall p, task_proc t = Some p -> exists P, procs s !! p = Some P /\ proc_task_ok t p P s).

(** The tasks of which there is at most one for an object. *)
Definition once (t : Task) : option (nat * Z) :=
  match t with
  | TAddJob j => Some (0%nat, j)
  | TFinishDead j | TDead j => Some (1%nat, j)
  | TDestroyJob j | TFreeJob j => Some (2%nat, j)
  | TAddProc p => Some (3%nat, p)
  | TFinishProc p => Some (4%nat, p)
  | TDestroyProc p | TFreeProc p => Some (5%nat, p)
  | _ => None
  end.

Record jt_inv_with (s : Sys) (T : list Task) : Prop := {
  ji_job : forall j J, jobs s !! j = Some J -> job_ok J;
  ji_proc : forall p P, procs s !! p = Some P -> proc_ok P;
  ji_link : forall c C q, jobs s !! c = Some C -> parent_ C = Some q -> exists Q, jobs s !! q = Some Q /\ link_ok T Q c C;
  ji_plink : forall p P, procs s !! p = Some P -> exists J, jobs s !! job_ P = Some J /\ plink_ok T J p P;
  ji_children : forall q Q c, jobs s !! q = Some Q -> c ∈ jobs_ Q -> exists C, jobs s !! c = Some C /\ parent_ C = Some q;
  ji_pchildren : forall j J p, jobs s !! j = Some J -> p ∈ procs_ J -> exists P, procs s !! p = Some P /\ job_ P = j;
  ji_critical : forall p P k, procs s !! p = Some P -> critical_to_job_ P = Some k -> exists K, jobs s !! k = Some K /\ j_added K = true /\ j_dying K = false;
  ji_tasks : Forall (task_ok s) T;
  ji_once : NoDup (omap once T);
  ji_finish : forall j J, jobs s !! j = Some J -> j_state_ J = KILLING -> jobs_ J = [] -> procs_ J = [] -> TFinishDead j ∈ T \/ TDead j ∈ T;
}.

Definition jt_inv (s : Sys) : Prop := jt_inv_with s (pending s).

(** ** Tasks are a multiset *)

Lemma link_ok_mono T T' Q c C : (forall t, t ∈ T -> task_job t = Some c -> t ∈ T') -> link_ok T Q c C -> link_ok T' Q c C.
Proof.
  intros HT []. constructor; try done; intros; [apply HT; auto..|]. destruct lk_killed0 as [?|[?|[code ?]]]; auto. do 2 right. exists code. auto.
Qed.

Lemma plink_ok_mono T T' J p P : (forall t, t ∈ T -> task_proc t = Some p -> t ∈ T') -> plink_ok T J p P -> plink_ok T' J p P.
Proof.
  intros HT []. constructor; try done; intros.
  - destruct pl_dead0; auto.
  - apply HT; auto.
  - destruct pl_killed0 as [?|[?|[?|[code ?]]]]; auto. do 3 right. exists code. auto.
Qed.

Lemma jt_inv_perm s T T' : T ≡ₚ T' -> jt_inv_with s T -> jt_inv_with s T'.
Proof.
  intros HT []. constructor; try done.
  - intros c C q Hc Hq. destruct (ji_link0 c C q Hc Hq) as (Q & ? & ?). exists Q. split; [done|]. eapply link_ok_mono; [|done]. intros t ? _. by rewrite <-HT.
  - intros p P Hp. destruct (ji_plink0 p P Hp) as (J & ? & ?). exists J. split; [done|]. eapply plink_ok_mono; [|done]. intros t ? _. by rewrite <-HT.
  - by rewrite <-HT.
  - by rewrite <-HT.
  - intros j J ? ? ? ?. rewrite <-!HT. eauto.
Qed.

(** ** Changing one object *)

(** A task that is not about job [j] stays in order when that job changes. *)
Lemma task_ok_put_job s j J J' t :
  jobs s !! j = Some J -> jobs_ J' ⊆ jobs_ J -> procs_ J' ⊆ procs_ J -> task_job t <> Some j -> task_ok s t -> task_ok (put_job j J' s) t.
Proof.
  intros Hj Hl Hp Ht [H1 H2]. split.
  - intros k Hk. destruct (H1 k Hk) as (K & HK & Ho). exists K. cbn [jobs put_job]. rewrite lookup_insert_ne by congruence. split; [done|].
    destruct t; try done. destruct Ho as [? Ho]. split; [done|]. intros q Q. cbn [jobs put_job]. rewrite lookup_insert_Some. intros [[<- <-]|[_ HQ]]; [|by eapply Ho].
    intros Hin. by apply (Ho j J Hj), Hl.
  - intros p Hk. destruct (H2 p Hk) as (P & HP & Ho). exists P. split; [done|].
    destruct t; try done. destruct Ho as [? Ho]. split; [done|]. intros q Q. cbn [jobs put_job]. rewrite lookup_insert_Some. intros [[<- <-]|[_ HQ]]; [|by eapply Ho].
    intros Hin. by apply (Ho j J Hj), Hp.
Qed.

Lemma inv_put_job s T T' j J J' :
  jt_inv_with s T -> jobs s !! j = Some J -> parent_ J' = parent_ J -> job_ok J' -> jobs_ J' ⊆ jobs_ J -> procs_ J' ⊆ procs_ J ->
  (forall t, t ∈ T -> task_job t <> Some j -> t ∈ T') ->
  (forall t, t ∈ T' -> (t ∈ T /\ task_job t <> Some j) \/ task_ok (put_job j J' s) t) -> NoDup (omap once T') ->
  (forall q Q, parent_ J = Some q -> q <> j -> jobs s !! q = Some Q -> link_ok T Q j J -> link_ok T' Q j J') ->
  (forall c C, parent_ C = Some j -> c <> j -> jobs s !! c = Some C -> link_ok T J c C -> link_ok T' J' c C) ->
  (forall p P, job_ P = j -> procs s !! p = Some P -> plink_ok T J p P -> plink_ok T' J' p P) ->
  (forall p P, procs s !! p = Some P -> critical_to_job_ P = Some j -> j_added J' = true /\ j_dying J' = false) ->
  (j_state_ J' = KILLING -> jobs_ J' = [] -> procs_ J' = [] -> TFinishDead j ∈ T' \/ TDead j ∈ T') ->
  jt_inv_with (put_job j J' s) T'.
Proof.
  intros Hi Hj Hpar Hok Hl Hp Hkeep Hnew Hnd Hup Hdown Hproc Hcrit Hfin. pose proof Hi as []. constructor; cbn [jobs procs put_job]; try done.
  - intros k K. rewrite lookup_insert_Some. intros [[_ <-]|[_ HK]]; eauto.
  - intros c C q Hc Hq. rewrite lookup_insert_Some in Hc. destruct Hc as [[<- <-]|[Hne Hc]].
    + rewrite Hpar in Hq. destruct (ji_link0 j J q Hj Hq) as (Q & HQ & Hlk). assert (q <> j) as Hqj.
      { intros ->. rewrite Hj in HQ. injection HQ as <-. destruct Hlk. lia. }
      exists Q. rewrite lookup_insert_ne by done. split; [done|]. by eapply Hup.
    + destruct (ji_link0 c C q Hc Hq) as (Q & HQ & Hlk). destruct (decide (q = j)) as [->|Hqj].
      * rewrite Hj in HQ. injection HQ as <-. exists J'. rewrite lookup_insert_eq. split; [done|]. by eapply Hdown.
      * exists Q. rewrite lookup_insert_ne by done. split; [done|]. eapply link_ok_mono; [|done]. intros t Ht Htc. apply Hkeep; congruence.
  - intros p P HP. destruct (ji_plink0 p P HP) as (K & HK & Hlk). destruct (decide (job_ P = j)) as [E|Hne].
    + exists J'. rewrite E, lookup_insert_eq. split; [done|]. eapply Hproc; [done..|]. rewrite E, Hj in HK. by injection HK as <-.
    + exists K. rewrite lookup_insert_ne by done. split; [done|]. eapply plink_ok_mono; [|done]. intros t Ht Htc. apply Hkeep; [done|]. by destruct t.
  - intros q Q c. rewrite lookup_insert_Some. intros HQ Hin. assert (exists C, jobs s !! c = Some C /\ parent_ C = Some q) as (C & HC & HCp).
    { destruct HQ as [[<- <-]|[_ HQ]]; eauto. }
    destruct (decide (c = j)) as [->|Hne].
    + rewrite Hj in HC. injection HC as <-. exists J'. rewrite lookup_insert_eq. by rewrite Hpar.
    + exists C. by rewrite lookup_insert_ne.
  - intros q Q p. rewrite lookup_insert_Some. intros [[<- <-]|[_ HQ]] Hin; eauto.
  - intros p P k HP Hk. destruct (ji_critical0 p P k HP Hk) as (K & HK & ?). destruct (decide (k = j)) as [->|].
    + exists J'. rewrite lookup_insert_eq. split; [done|]. eauto.
    + exists K. by rewrite lookup_insert_ne.
  - apply Forall_forall. intros t Ht. destruct (Hnew t Ht) as [[? ?]|?]; [|done]. eapply task_ok_put_job; [done..|]. by eapply Forall_forall in ji_tasks0.
  - intros k K. rewrite lookup_insert_Some. intros [[<- <-]|[Hne HK]] ? ? ?; [by apply Hfin|].
    destruct (ji_finish0 k K) as [?|?]; [done..| |]; [left|right]; apply Hkeep; cbn; congruence.
Qed.

Lemma task_ok_put_proc s p P' t : task_proc t <> Some p -> task_ok s t -> task_ok (put_proc p P' s) t.
Proof.
  intros Ht [H1 H2]. split.
  - intros k Hk. destruct (H1 k Hk) as (K & HK & Ho). exists K. split; [done|]. by destruct t.
  - intros k Hk. destruct (H2 k Hk) as (K & HK & Ho). exists K. cbn [procs put_proc]. rewrite lookup_insert_ne by congruence. split; [done|]. by destruct t.
Qed.

Lemma inv_put_proc s T T' p P P' :
  jt_inv_with s T -> procs s !! p = Some P -> job_ P' = job_ P -> proc_ok P' ->
  (forall t, t ∈ T -> task_proc t <> Some p -> t ∈ T') ->
  (forall t, t ∈ T' -> (t ∈ T /\ task_proc t <> Some p) \/ task_ok (put_proc p P' s) t) -> NoDup (omap once T') ->
  (forall J, jobs s !! job_ P = Some J -> plink_ok T J p P -> plink_ok T' J p P') ->
  (forall k, critical_to_job_ P' = Some k -> exists K, jobs s !! k = Some K /\ j_added K = true /\ j_dying K = false) ->
  jt_inv_with (put_proc p P' s) T'.
Proof.
  intros Hi Hp Hjob Hok Hkeep Hnew Hnd Hlink Hcrit. pose proof Hi as []. constructor; cbn [jobs procs put_proc]; try done.
  - intros k K. rewrite lookup_insert_Some. intros [[_ <-]|[_ HK]]; eauto.
  - intros c C q Hc Hq. destruct (ji_link0 c C q Hc Hq) as (Q & HQ & Hlk). exists Q. split; [done|].
    eapply link_ok_mono; [|done]. intros t Ht Htc. apply Hkeep; [done|]. by destruct t.
  - intros k K. rewrite lookup_insert_Some. intros [[<- <-]|[Hne HK]].
    + destruct (ji_plink0 p P Hp) as (J & HJ & Hlk). exists J. rewrite Hjob. eauto.
    + destruct (ji_plink0 k K HK) as (J & HJ & Hlk). exists J. split; [done|]. eapply plink_ok_mono; [|done]. intros t Ht Htc. apply Hkeep; congruence.
  - intros j J k HJ Hin. destruct (ji_pchildren0 j J k HJ Hin) as (K & HK & HKj). destruct (decide (k = p)) as [->|].
    + rewrite Hp in HK. injection HK as <-. exists P'. rewrite lookup_insert_eq. by rewrite Hjob.
    + exists K. by rewrite lookup_insert_ne.
  - intros k K n. rewrite lookup_insert_Some. intros [[<- <-]|[_ HK]] Hn; eauto.
  - apply Forall_forall. intros t Ht. destruct (Hnew t Ht) as [[? ?]|?]; [|done]. apply task_ok_put_proc; [done|]. by eapply Forall_forall in ji_tasks0.
  - intros j J ? ? ? ?. destruct (ji_finish0 j J) as [?|?]; [done..| |]; [left|right]; by apply Hkeep.
Qed.

(** Membership in a list of tasks built from others. *)
Ltac in_tasks :=
  repeat match goal with
    | H : _ ∈ _ :: _ |- _ => apply elem_of_cons in H as [H|H]; [try discriminate H|]
    | H : _ ∈ [] |- _ => by apply elem_of_nil in H
    end;
  rewrite ?elem_of_app, ?elem_of_cons, ?elem_of_nil; tauto.

(** ** Tasks come and go *)

Lemma inv_push s new T : jt_inv_with s T -> Forall (task_ok s) new -> NoDup (omap once (new ++ T)) -> jt_inv_with s (new ++ T).
Proof.
  intros [] Hn Hnd. constructor; try done.
  - intros c C q Hc Hq. destruct (ji_link0 c C q Hc Hq) as (Q & HQ & Hlk). exists Q. split; [done|]. eapply link_ok_mono; [|done]. set_solver.
  - intros p P Hp. destruct (ji_plink0 p P Hp) as (J & HJ & Hlk). exists J. split; [done|]. eapply plink_ok_mono; [|done]. set_solver.
  - by apply Forall_app.
  - intros j J ? ? ? ?. destruct (ji_finish0 j J) as [?|?]; [done..| |]; [left|right]; set_solver.
Qed.

(** What a pending task is needed for. *)
Definition needed (s : Sys) (t : Task) : Prop :=
  match t with
  | TKillJob c _ => exists C, jobs s !! c = Some C /\ j_state_ C = READY
  | TRemoveJob c | TDestroyJob c => exists q Q, jobs s !! q = Some Q /\ c ∈ jobs_ Q
  | TKillProc p _ => exists P, procs s !! p = Some P /\ p_state_ P <> DYING /\ p_state_ P <> PDEAD
  | TFinishProc p | TRemoveProc p | TDestroyProc p => exists j J, jobs s !! j = Some J /\ p ∈ procs_ J
  | TFinishDead j | TDead j => exists J, jobs s !! j = Some J /\ j_state_ J = KILLING /\ jobs_ J = [] /\ procs_ J = []
  | _ => False
  end.

Lemma inv_pop s t T : jt_inv_with s (t :: T) -> ~ needed s t -> jt_inv_with s T.
Proof.
  intros [] Hn. constructor; try done.
  - intros c C q Hc Hq. destruct (ji_link0 c C q Hc Hq) as (Q & HQ & []). exists Q. split; [done|]. constructor; try done; intros.
    + specialize (lk_dead0 ltac:(done) ltac:(done) ltac:(done)). apply elem_of_cons in lk_dead0 as [<-|?]; [|done]. destruct Hn. cbn. eauto.
    + specialize (lk_dying0 ltac:(done) ltac:(done)). apply elem_of_cons in lk_dying0 as [<-|?]; [|done]. destruct Hn. cbn. eauto.
    + destruct lk_killed0 as [?|[?|[code [<-|?]%elem_of_cons]]]; eauto. destruct (decide (j_state_ C = READY)); [|eauto]. destruct Hn. cbn. eauto.
  - intros p P Hp. destruct (ji_plink0 p P Hp) as (J & HJ & []). exists J. split; [done|]. constructor; try done; intros.
    + destruct pl_dead0 as [[<-|?]%elem_of_cons|[<-|?]%elem_of_cons]; auto; destruct Hn; cbn; eauto.
    + specialize (pl_dying0 ltac:(done) ltac:(done)). apply elem_of_cons in pl_dying0 as [<-|?]; [|done]. destruct Hn. cbn. eauto.
    + destruct pl_killed0 as [?|[?|[?|[code [<-|?]%elem_of_cons]]]]; eauto 6.
      destruct (decide (p_state_ P = DYING)), (decide (p_state_ P = PDEAD)); auto. destruct Hn. cbn. eauto.
  - by apply Forall_inv_tail in ji_tasks0.
  - cbn in ji_once0. destruct (once t); [by apply NoDup_cons_1_2 in ji_once0|done].
  - intros j J ? ? ? ?. destruct (ji_finish0 j J) as [[<-|?]%elem_of_cons|[<-|?]%elem_of_cons]; auto; destruct Hn; cbn; eauto.
Qed.

(** ** The critical sections of a job *)

Lemma is_nil_spec {A} (l : list A) : is_nil l = true <-> l = [].
Proof. by destruct l. Qed.

Lemma elem_of_erase x y l : y ∈ erase x l <-> y <> x /\ y ∈ l.
Proof. unfold erase. by rewrite list_elem_of_filter. Qed.

Lemma erase_sub x l : erase x l ⊆ l.
Proof. intros y. rewrite elem_of_erase. tauto. Qed.

Lemma UpdateSignals_bit i J :
  0 <= i -> jbit i (UpdateSignalsLocked J) =
    if decide (i = 4) then is_nil (jobs_ J) else if decide (i = 5) then is_nil (procs_ J)
    else if decide (i = 6) then is_nil (jobs_ J) && is_nil (procs_ J) else jbit i J.
Proof.
  intros Hi. unfold jbit, UpdateSignalsLocked. cbn [set_jbase j_base]. rewrite UpdateStateLocked_bit by done.
  assert (forall k, 0 <= k -> Z.testbit (Z.shiftl 1 k) i = bool_decide (i = k)) as Hb.
  { intros k Hk. rewrite Z.shiftl_1_l, Z.pow2_bits_eqb by done. rewrite Z.eqb_sym. by destruct (Z.eqb_spec i k); case_bool_decide. }
  unfold ZX_JOB_NO_JOBS, ZX_JOB_NO_PROCESSES, ZX_JOB_NO_CHILDREN, ZX_OBJECT_SIGNAL_4, ZX_OBJECT_SIGNAL_5, ZX_OBJECT_SIGNAL_6.
  destruct (is_nil (jobs_ J)), (is_nil (procs_ J)); cbn [andb]; rewrite ?Z.lor_spec, ?Z.bits_0, ?Hb by lia;
    destruct (decide (i = 4)), (decide (i = 5)), (decide (i = 6)); subst; cbn; rewrite ?andb_false_r, ?andb_true_r, ?orb_false_r; try done; try lia;
    rewrite !bool_decide_false by lia; cbn; by rewrite ?andb_true_r, ?orb_false_r.
Qed.

(** A job whose lists have changed, once its signals are updated. *)
Lemma job_ok_children J js ps :
  job_ok J -> NoDup js -> NoDup ps -> (j_added J = true) -> (j_state_ J = JDEAD -> js = [] /\ ps = []) ->
  job_ok (UpdateSignalsLocked (set_children js ps J)).
Proof.
  intros [] H1 H2 Ha Hd. constructor; try done.
  - rewrite UpdateSignals_bit by lia. done.
  - rewrite !UpdateSignals_bit by lia. done.
  - cbn. congruence.
Qed.

Lemma FinishDead_ok J : job_ok J -> jobs_ J = [] -> procs_ J = [] -> j_added J = true -> job_ok (FinishDead_locked J).
Proof.
  intros [] Hj Hp Ha. assert (forall i, 0 <= i -> jbit i (FinishDead_locked J) = jbit i J || bool_decide (i = 3)) as Hb.
  { intros i Hi. unfold jbit, FinishDead_locked. cbn [set_jbase j_base set_jstate]. rewrite UpdateStateLocked_bit, Z.bits_0 by done. cbn [negb]. rewrite andb_true_r. f_equal.
    unfold ZX_JOB_TERMINATED, ZX_OBJECT_SIGNALED. rewrite Z.shiftl_1_l, Z.pow2_bits_eqb by lia. destruct (Z.eqb_spec 3 i); [by subst|by rewrite bool_decide_false by lia]. }
  constructor; try done.
  - rewrite Hb by lia. cbn. by rewrite orb_true_r.
  - rewrite !Hb by lia. cbn. by rewrite !orb_false_r.
  - cbn. congruence.
Qed.

(** ** Pending tasks *)

Lemma once_in (T : list Task) k x : (k, x) ∈ omap once T -> exists t, t ∈ T /\ once t = Some (k, x).
Proof. rewrite list_elem_of_omap. done. Qed.

Lemma task_ok_job s t T j : jt_inv_with s T -> t ∈ T -> task_job t = Some j -> exists J, jobs s !! j = Some J /\ job_task_ok t j J s /\ job_ok J.
Proof. intros [] Ht Hj. eapply Forall_forall in ji_tasks0 as [H _]; [|done]. destruct (H j Hj) as (J & ? & ?). eauto 6. Qed.

Lemma task_ok_proc s t T p : jt_inv_with s T -> t ∈ T -> task_proc t = Some p -> exists P, procs s !! p = Some P /\ proc_task_ok t p P s /\ proc_ok P.
Proof. intros [] Ht Hj. eapply Forall_forall in ji_tasks0 as [_ H]; [|done]. destruct (H p Hj) as (J & ? & ?). eauto 6. Qed.

(** The destructive tasks are not pending for a job in another state. *)
Lemma no_finish s T j J : jt_inv_with s T -> jobs s !! j = Some J -> ~ (j_state_ J = KILLING /\ jobs_ J = [] /\ procs_ J = []) -> (1%nat, j) ∉ omap once T.
Proof.
  intros Hi Hj Hn (t & Ht & Ho)%once_in. destruct t; try done; injection Ho as ->;
    (destruct (task_ok_job s _ T j Hi Ht eq_refl) as (J' & HJ' & Hk & _); rewrite Hj in HJ'; injection HJ' as <-; cbn in Hk; tauto).
Qed.

Lemma no_finish_proc s T p P : jt_inv_with s T -> procs s !! p = Some P -> ~ (p_state_ P = PDEAD /\ completely_dead_ P = false) -> (4%nat, p) ∉ omap once T.
Proof.
  intros Hi Hj Hn (t & Ht & Ho)%once_in. destruct t; try done; injection Ho as ->.
  destruct (task_ok_proc s _ T p Hi Ht eq_refl) as (J' & HJ' & Hk & _). rewrite Hj in HJ'. injection HJ' as <-. cbn in Hk. tauto.
Qed.

Lemma once_cons_inv s t T k x : jt_inv_with s (t :: T) -> once t = Some (k, x) -> (k, x) ∉ omap once T.
Proof. intros [] Ho. cbn in ji_once0. rewrite Ho in ji_once0. by apply NoDup_cons in ji_once0 as [? _]. Qed.

Lemma once_tail s t T : jt_inv_with s (t :: T) -> NoDup (omap once T).
Proof. intros []. cbn in ji_once0. destruct (once t); [by apply NoDup_cons in ji_once0 as [_ ?]|done]. Qed.

(** ** Killing a job *)

Lemma upgrade_spec {A} (dying : A -> bool) (m : gmap Z A) l :
  (forall c, c ∈ l -> is_Some (m !! c)) ->
  exists live, upgrade dying m l = Some live /\ forall c, c ∈ live <-> c ∈ l /\ exists C, m !! c = Some C /\ dying C = false.
Proof.
  induction l as [|c l IH]; intros Hl; cbn [upgrade].
  { exists []. split; [done|]. intros c. rewrite elem_of_nil. tauto. }
  destruct IH as (live & -> & Hlive); [intros; apply Hl; in_tasks|]. destruct (Hl c) as [C HC]; [in_tasks|]. rewrite HC. cbn [mbind option_bind].
  eexists. split; [done|]. intros x. destruct (dying C) eqn:E; rewrite ?elem_of_cons, Hlive; split.
  - intros [? ?]. tauto.
  - intros [[->|?] (X & HX & ?)]; [congruence|eauto].
  - intros [->|[? ?]]; eauto.
  - intros [[->|?] ?]; auto.
Qed.

Lemma ForEachChild_spec {A} (dying : A -> bool) (m : gmap Z A) ac l :
  (forall c, c ∈ l -> is_Some (m !! c)) ->
  exists live nomem, ForEachChildInLocked dying m ac l = Some (live, nomem) /\
    (forall c, c ∈ live -> c ∈ l /\ exists C, m !! c = Some C /\ dying C = false) /\
    (nomem = false -> forall c C, c ∈ l -> m !! c = Some C -> dying C = false -> c ∈ live).
Proof.
  intros Hl. unfold ForEachChildInLocked. destruct (is_nil l) eqn:E.
  { apply is_nil_spec in E as ->. exists [], false. split; [done|]. split; [intros c Hc|intros _ c C Hc]; by apply elem_of_nil in Hc. }
  destruct ac; cbn [negb].
  - destruct (upgrade_spec dying m l Hl) as (live & -> & Hlive). exists live, false. split; [done|]. split; [by intros c ?%Hlive|]. intros _ c C ? ? ?. apply Hlive. eauto.
  - exists [], true. split; [done|]. split; [|done]. intros c Hc. by apply elem_of_nil in Hc.
Qed.

(** A child that a walk over the list has found alive can be killed. *)
Lemma child_kill_ok s T j J c code : jt_inv_with s T -> jobs s !! j = Some J -> c ∈ jobs_ J -> (exists C, jobs s !! c = Some C /\ j_dying C = false) -> task_ok s (TKillJob c code).
Proof.
  intros [] Hj Hin (C & HC & Hd). split; [|done]. intros k [= <-]. exists C. split; [done|]. split; [|done].
  destruct (ji_children0 j J c Hj Hin) as (C' & HC' & Hpar). rewrite HC in HC'. injection HC' as <-.
  destruct (ji_link0 c C j HC Hpar) as (Q & HQ & []). rewrite Hj in HQ. injection HQ as <-. auto.
Qed.

Lemma child_kill_proc_ok s T j J p code : jt_inv_with s T -> jobs s !! j = Some J -> p ∈ procs_ J -> (exists P, procs s !! p = Some P /\ p_dying P = false) -> task_ok s (TKillProc p code).
Proof.
  intros [] Hj Hin (P & HP & Hd). split; [done|]. intros k [= <-]. exists P. split; [done|]. split; [|done].
  destruct (ji_pchildren0 j J p Hj Hin) as (P' & HP' & Hpar). rewrite HP in HP'. injection HP' as <-.
  destruct (ji_plink0 p P HP) as (Q & HQ & []). rewrite Hpar, Hj in HQ. injection HQ as <-. auto.
Qed.

(** Tasks about other objects do not notice the new state of a job. *)
Lemma kill_task_keeps s j J J' t code :
  jobs s !! j = Some J -> j_added J' = j_added J -> j_dying J' = j_dying J -> (exists c, t = TKillJob c code) \/ (exists p, t = TKillProc p code) ->
  task_ok s t -> task_ok (put_job j J' s) t.
Proof.
  intros Hj Ha Hd Ht [H1 H2]. split.
  - intros k Hk. destruct (H1 k Hk) as (K & HK & Ho). destruct Ht as [[c ->]|[p ->]]; [|done]. injection Hk as ->. cbn [jobs put_job].
    destruct (decide (k = j)) as [->|]; [|exists K; by rewrite lookup_insert_ne]. exists J'. rewrite lookup_insert_eq. split; [done|]. rewrite Hj in HK. injection HK as <-. cbn in *. by rewrite Ha, Hd.
  - intros p Hp. destruct (H2 p Hp) as (P & HP & Ho). exists P. split; [done|]. by destruct Ht as [[c ->]|[p' ->]].
Qed.

Lemma omap_none (new : list Task) : Forall (fun t => once t = None) new -> omap once new = [].
Proof. induction 1 as [|t new Ht _ IH]; [done|]. cbn. by rewrite Ht. Qed.

Lemma omap_once_app (T1 T2 : list Task) : omap once (T1 ++ T2) = omap once T1 ++ omap once T2.
Proof. induction T1 as [|t T1 IH]; [done|]. cbn. destruct (once t); cbn; by rewrite IH. Qed.

Lemma Kill_inv j code ac1 ac2 s T :
  jt_inv_with s (TKillJob j code :: T) ->
  exists s' new, Kill j code ac1 ac2 s = Some (s', new) /\ jt_inv_with s' (new ++ T) /\ stacks s' = stacks s.
Proof.
  intros Hi. destruct (task_ok_job s (TKillJob j code) _ j Hi) as (J & HJ & [Ha Hd] & Hok); [in_tasks|done|]. unfold Kill. rewrite HJ. cbn [mbind option_bind].
  case_bool_decide as Hst; cbn [negb].
  2: { exists s, []. split; [done|]. split; [|done]. apply inv_pop in Hi; [done|]. intros (C & HC & ?). congruence. }
  destruct (ForEachChild_spec j_dying (jobs s) ac1 (jobs_ J)) as (js & n1 & -> & Hjs & Hn1). { intros c Hc. destruct (ji_children _ _ Hi j J c HJ Hc) as (C & -> & _). done. }
  destruct (ForEachChild_spec p_dying (procs s) ac2 (procs_ J)) as (ps & n2 & -> & Hps & Hn2). { intros c Hc. destruct (ji_pchildren _ _ Hi j J c HJ Hc) as (C & -> & _). done. }
  cbn [mbind option_bind]. set (J' := set_jstate KILLING code (n1 || n2) J). eexists _, _. split; [done|]. split; [|done]. rewrite <-app_assoc.
  set (fin := if IsReadyForDeadTransitionLocked J' then [TFinishDead j] else []). set (kids := map _ _ ++ map _ _).
  assert (Forall (fun t => task_ok s t /\ once t = None /\ ((exists c, t = TKillJob c code) \/ (exists p, t = TKillProc p code))) kids) as Hkids.
  { apply Forall_app. split; apply Forall_map, Forall_forall; intros c Hc; cbn.
    - apply elem_of_reverse, Hjs in Hc as [? ?]. split; [by eapply child_kill_ok|]. eauto.
    - apply elem_of_reverse, Hps in Hc as [? ?]. split; [by eapply child_kill_proc_ok|]. eauto. }
  assert (forall t, t ∈ fin -> t = TFinishDead j /\ jobs_ J = [] /\ procs_ J = []) as Hfin.
  { intros t. unfold fin, IsReadyForDeadTransitionLocked. cbn [jobs_ procs_ J' set_jstate j_state_]. rewrite bool_decide_true by done. cbn [andb].
    destruct (is_nil (jobs_ J)) eqn:E1, (is_nil (procs_ J)) eqn:E2; cbn; intros Ht; try (by apply elem_of_nil in Ht). apply is_nil_spec in E1, E2. by apply list_elem_of_singleton in Ht. }
  eapply (inv_put_job s (TKillJob j code :: T) _ j J J'); try done.
  - destruct Hok. constructor; try done; [|cbn; congruence]. change (jbit 3 J = bool_decide (KILLING = JDEAD)). by rewrite jo_terminated0, Hst.
  - intros t [->|?]%elem_of_cons Hne; [done|]. in_tasks.
  - intros t [Ht|[Ht|Ht]%elem_of_app]%elem_of_app.
    + right. destruct (Hfin t Ht) as (-> & ? & ?). split; [|done]. intros k [= <-]. exists J'. cbn [jobs put_job]. rewrite lookup_insert_eq. done.
    + right. rewrite Forall_forall in Hkids. destruct (Hkids t Ht) as (? & _ & ?). by eapply kill_task_keeps.
    + destruct (decide (task_job t = Some j)) as [Htj|]; [|left; in_tasks]. right. split; [|by destruct t]. intros k Hk. assert (k = j) as -> by congruence.
      destruct (task_ok_job s t _ j Hi) as (K & HK & Hto & _); [in_tasks|done|]. rewrite HJ in HK. injection HK as <-. exists J'. cbn [jobs put_job]. rewrite lookup_insert_eq. split; [done|].
      destruct t; try done; cbn in *; try (destruct Hto; congruence); congruence.
  - rewrite !omap_once_app, (omap_none kids) by (eapply Forall_impl; [done|]; naive_solver). cbn [app]. unfold fin. case_if; [|by eapply once_tail]. cbn. constructor; [|by eapply once_tail].
    intros Hin. eapply (no_finish s _ j J); [done|done|intros [? _]; congruence|]. cbn. done.
  - intros q Q _ _ _ []. constructor; try done; cbn; try congruence; [intros ? ? _; by apply lk_listed0; [..|congruence]|intros _ _ _; right; by left].
  - intros c C Hc _ HC []. constructor; try done; cbn.
    + intros ? ? ?. specialize (lk_dead0 ltac:(done) ltac:(done) ltac:(done)). in_tasks.
    + intros ? ?. specialize (lk_dying0 ltac:(done) ltac:(done)). in_tasks.
    + intros _ [Hm _]%orb_false_iff Hin. destruct (j_dying C) eqn:Ed; [by left|]. right. right. exists code. unfold kids. rewrite !elem_of_app. right. left. left.
      apply list_elem_of_fmap. exists c. split; [done|]. apply elem_of_reverse. eauto.
  - intros p P Hc HC []. constructor; try done; cbn.
    + intros ? ? ?. destruct pl_dead0; [done..| |]; in_tasks.
    + intros ? ?. specialize (pl_dying0 ltac:(done) ltac:(done)). in_tasks.
    + intros _ [_ Hm]%orb_false_iff Hin. destruct (p_dying P) eqn:Ed; [by left|]. do 3 right. exists code. unfold kids. rewrite !elem_of_app. right. left. right.
      apply list_elem_of_fmap. exists p. split; [done|]. apply elem_of_reverse. eauto.
  - intros _ E1 E2. left. unfold fin, IsReadyForDeadTransitionLocked. cbn [J' set_jstate jobs_ procs_ j_state_] in *. rewrite E1, E2. rewrite bool_decide_true by done. cbn [andb is_nil app]. in_tasks.
Qed.

(** ** Dying *)

(** The assertion of [FinishDeadTransitionUnlocked]: the parent is not dead yet. *)
Lemma parent_not_dead s T j J q Q :
  jt_inv_with s T -> jobs s !! j = Some J -> j_state_ J = KILLING -> j_dying J = false -> parent_ J = Some q -> jobs s !! q = Some Q -> j_state_ Q <> JDEAD.
Proof.
  intros Hi HJ Hst Hd Hq HQ Hdead. destruct (ji_link _ _ Hi j J q HJ Hq) as (Q' & HQ' & []). rewrite HQ in HQ'. injection HQ' as <-.
  destruct (ji_job _ _ Hi j J HJ), (ji_job _ _ Hi q Q HQ). destruct (j_added J) eqn:Ea; [|destruct jo_new0; congruence].
  destruct (jo_dead1 Hdead) as [E _]. rewrite E in lk_listed0. eapply elem_of_nil, lk_listed0; congruence.
Qed.

Lemma finish_dead_inv s j T : jt_inv_with s (TFinishDead j :: T) -> jt_inv_with s (TDead j :: T).
Proof.
  intros Hi. pose proof Hi as []. constructor; try done.
  - intros c C q Hc Hq. destruct (ji_link0 c C q Hc Hq) as (Q & HQ & []). exists Q. split; [done|]. constructor; try done; intros.
    + specialize (lk_dead0 ltac:(done) ltac:(done) ltac:(done)). in_tasks.
    + specialize (lk_dying0 ltac:(done) ltac:(done)). in_tasks.
    + destruct lk_killed0 as [?|[?|[code ?]]]; auto. do 2 right. exists code. in_tasks.
  - intros p P Hp. destruct (ji_plink0 p P Hp) as (J & HJ & Hlk). exists J. split; [done|]. eapply plink_ok_mono; [|done]. intros t Ht Htp. apply elem_of_cons in Ht as [->|Ht]; [done|]. in_tasks.
  - apply Forall_cons in ji_tasks0 as [? ?]. by constructor.
  - intros k K ? ? ? ?. destruct (ji_finish0 k K) as [[[= ->]|?]%elem_of_cons|[?|?]%elem_of_cons]; try done; in_tasks.
Qed.

Lemma dead_inv s j T J : jt_inv_with s (TDead j :: T) -> jobs s !! j = Some J -> jt_inv_with (put_job j (FinishDead_locked J) s) (TRemoveJob j :: T).
Proof.
  intros Hi HJ. destruct (task_ok_job s (TDead j) _ j Hi) as (J0 & HJ0 & (Hst & Hj & Hp & Hd) & Hok); [by left|done|]. rewrite HJ in HJ0. injection HJ0 as <-.
  assert (j_added J = true) as Ha. { destruct (j_added J) eqn:E; [done|]. destruct Hok. destruct jo_new0; congruence. }
  eapply (inv_put_job s (TDead j :: T) _ j J); try done.
  - by apply FinishDead_ok.
  - intros t [->|?]%elem_of_cons Hne; [done|]. by right.
  - intros t [->|Ht]%elem_of_cons.
    + right. split; [|done]. intros k [= <-]. eexists. cbn [jobs put_job]. rewrite lookup_insert_eq. done.
    + destruct (decide (task_job t = Some j)) as [Htj|]; [|left; split; [by right|done]]. right. split; [|by destruct t]. intros k Hk. assert (k = j) as -> by congruence.
      destruct (task_ok_job s t _ j Hi) as (K & HK & Hto & _); [by right|done|]. rewrite HJ in HK. injection HK as <-. eexists. cbn [jobs put_job]. rewrite lookup_insert_eq. split; [done|].
      pose proof (once_cons_inv s _ T 1%nat j Hi eq_refl) as Hone. rewrite list_elem_of_omap in Hone.
      destruct t; try done; cbn in *; injection Hk as ->; try (destruct Hto; congruence); try congruence; destruct Hone; eauto.
  - exact (once_tail s _ T Hi).
  - intros q Q _ _ _ []. constructor; try done; cbn.
    + intros _ _ _. by left.
    + congruence.
    + intros _ _ _. right. by left.
  - intros c C Hc _ HC []. constructor; try done; cbn; rewrite ?Hj; intros Hin; by apply elem_of_nil in Hin || rewrite Hj in *.
  - intros p P Hc HC []. constructor; try done; cbn; rewrite ?Hp; intros Hin; by apply elem_of_nil in Hin || rewrite Hp in *.
Qed.

(** ** Leaving the tree *)

(** Children that are dead or being destroyed leave the lists of a job, which finishes dying when
    they were the last. *)
Lemma inv_shrink s T q Q js ps :
  jt_inv_with s T -> jobs s !! q = Some Q -> j_added Q = true -> j_dying Q = false ->
  jobs_ Q ++ procs_ Q <> [] -> NoDup js -> NoDup ps -> js ⊆ jobs_ Q -> ps ⊆ procs_ Q ->
  (forall c C, c ∈ jobs_ Q -> c ∉ js -> jobs s !! c = Some C -> j_dying C = true \/ j_state_ C = JDEAD) ->
  (forall p P, p ∈ procs_ Q -> p ∉ ps -> procs s !! p = Some P -> p_dying P = true \/ p_state_ P = PDEAD) ->
  let Q' := UpdateSignalsLocked (set_children js ps Q) in
  jt_inv_with (put_job q Q' s) (finish_dead q (IsReadyForDeadTransitionLocked Q') ++ T).
Proof.
  intros Hi HQ Ha Hd Hne Hjs Hps Hsj Hsp Hcj Hcp Q'. pose proof (ji_job _ _ Hi q Q HQ) as Hok.
  assert (j_state_ Q <> JDEAD) as Hnd. { intros E. destruct Hok. destruct (jo_dead0 E) as [E1 E2]. by rewrite E1, E2 in Hne. }
  assert (forall t, t ∈ finish_dead q (IsReadyForDeadTransitionLocked Q') -> t = TFinishDead q /\ j_state_ Q = KILLING /\ js = [] /\ ps = []) as Hfin.
  { intros t. unfold IsReadyForDeadTransitionLocked. change (j_state_ Q') with (j_state_ Q). change (jobs_ Q') with js. change (procs_ Q') with ps.
    destruct (bool_decide (j_state_ Q = KILLING)) eqn:E0, (is_nil js) eqn:E1, (is_nil ps) eqn:E2; cbn [andb finish_dead]; intros Ht; try (by apply elem_of_nil in Ht).
    apply bool_decide_eq_true in E0. apply is_nil_spec in E1, E2. by apply list_elem_of_singleton in Ht. }
  eapply (inv_put_job s T _ q Q Q'); try done.
  - by apply job_ok_children.
  - intros t ? _. apply elem_of_app. by right.
  - intros t [Ht|Ht]%elem_of_app.
    + right. destruct (Hfin t Ht) as (-> & ? & ? & ?). split; [|done]. intros k [= <-]. exists Q'. cbn [jobs put_job]. rewrite lookup_insert_eq. done.
    + destruct (decide (task_job t = Some q)) as [Htj|]; [|by left]. right. split; [|by destruct t]. intros k Hk. assert (k = q) as -> by congruence.
      destruct (task_ok_job s t _ q Hi) as (K & HK & Hto & _); [done..|]. rewrite HQ in HK. injection HK as <-. exists Q'. cbn [jobs put_job]. rewrite lookup_insert_eq. split; [done|].
      destruct t; try done; cbn in Hto |- *; try (destruct Hto; congruence); try congruence; destruct Hto as (_ & E1 & E2 & _); by rewrite E1, E2 in Hne.
  - rewrite omap_once_app. destruct (IsReadyForDeadTransitionLocked Q'); [|apply Hi]. cbn. constructor; [|apply Hi]. eapply no_finish; [done..|]. intros (_ & E1 & E2). by rewrite E1, E2 in Hne.
  - intros p P _ _ _ Hlk. eapply link_ok_mono in Hlk; [destruct Hlk; by constructor|]. intros t ? _. apply elem_of_app. by right.
  - intros c C Hc _ HC Hlk. eapply (link_ok_mono _ (finish_dead q (IsReadyForDeadTransitionLocked Q') ++ T)) in Hlk; [|intros t ? _; apply elem_of_app; by right].
    destruct Hlk. constructor; try done; cbn; auto. intros. destruct (decide (c ∈ js)); [done|]. destruct (Hcj c C); auto; congruence.
  - intros p P Hc HC Hlk. eapply (plink_ok_mono _ (finish_dead q (IsReadyForDeadTransitionLocked Q') ++ T)) in Hlk; [|intros t ? _; apply elem_of_app; by right].
    destruct Hlk. constructor; try done; cbn; auto. intros. destruct (decide (p ∈ ps)); [done|]. destruct (Hcp p P); auto; congruence.
  - intros E1 E2 E3. change (jobs_ Q') with js in E2. change (procs_ Q') with ps in E3. left. unfold IsReadyForDeadTransitionLocked. change (j_state_ Q') with (j_state_ Q) in *. change (jobs_ Q') with js. change (procs_ Q') with ps.
    rewrite E1, E2, E3, bool_decide_true by done. by left.
Qed.

Lemma put_job_same s j J : jobs s !! j = Some J -> put_job j J s = s.
Proof. intros Hj. unfold put_job. rewrite insert_id by done. by destruct s. Qed.

(** A job that is dead or being destroyed leaves the list of its parent. *)
Lemma leave_parent_inv s T c C :
  jt_inv_with s T -> jobs s !! c = Some C -> j_dying C = true \/ j_state_ C = JDEAD ->
  exists s' new, leave_parent c s = Some (s', new) /\ jt_inv_with s' (new ++ T) /\ stacks s' = stacks s /\
    (forall q Q, jobs s' !! q = Some Q -> c ∉ jobs_ Q) /\ jobs s' !! c = Some C.
Proof.
  intros Hi HC Hgone. unfold leave_parent. rewrite HC. cbn [mbind option_bind]. pose proof Hi as [].
  destruct (parent_ C) as [q|] eqn:Hpar.
  2: { exists s, []. split_and!; try done. intros q Q HQ Hin. destruct (ji_children0 q Q c HQ Hin) as (C' & HC' & ?). congruence. }
  destruct (ji_link0 c C q HC Hpar) as (Q & HQ & []). rewrite HQ. cbn [mbind option_bind]. destruct lk_parent0 as [Ha Hd].
  assert (q <> c) as Hqc. { intros ->. rewrite HC in HQ. injection HQ as <-. lia. }
  unfold RemoveChildJob. case_bool_decide as Hin; cbn [negb].
  2: { rewrite (put_job_same s q Q HQ). exists s, []. split_and!; try done. intros q' Q' HQ' Hin'. destruct (ji_children0 q' Q' c HQ' Hin') as (C' & HC' & Hpar'). assert (q' = q) by congruence. subst. congruence. }
  eexists _, _. split; [done|]. split_and!; try done.
  - apply (inv_shrink s T q Q); try done.
    + intros E. apply app_eq_nil in E as [E _]. rewrite E in Hin. by apply elem_of_nil in Hin.
    + by apply NoDup_filter, (ji_job0 q Q HQ).
    + by apply (ji_job0 q Q HQ).
    + apply erase_sub.
    + intros x X Hx Hnx HX. rewrite elem_of_erase in Hnx. destruct (decide (x = c)) as [->|]; [congruence|tauto].
  - intros q' Q'. cbn [jobs put_job]. rewrite lookup_insert_Some. intros [[<- <-]|[Hne HQ']] Hin'; [apply elem_of_erase in Hin'; tauto|].
    destruct (ji_children0 q' Q' c HQ' Hin') as (C' & HC' & Hpar'). congruence.
  - cbn [jobs put_job]. by rewrite lookup_insert_ne.
Qed.

(** A process that is dead or being destroyed leaves the list of its job. *)
Lemma leave_job_inv s T p P :
  jt_inv_with s T -> procs s !! p = Some P -> p_dying P = true \/ p_state_ P = PDEAD ->
  exists s' new, leave_job p s = Some (s', new) /\ jt_inv_with s' (new ++ T) /\ stacks s' = stacks s /\
    (forall q Q, jobs s' !! q = Some Q -> p ∉ procs_ Q) /\ procs s' = procs s.
Proof.
  intros Hi HP Hgone. unfold leave_job. rewrite HP. cbn [mbind option_bind]. pose proof Hi as [].
  destruct (ji_plink0 p P HP) as (Q & HQ & []). rewrite HQ. cbn [mbind option_bind]. destruct pl_job0 as [Ha Hd].
  unfold RemoveChildProcess. case_bool_decide as Hin; cbn [negb].
  2: { rewrite (put_job_same s _ Q HQ). exists s, []. split_and!; try done. intros q' Q' HQ' Hin'. destruct (ji_pchildren0 q' Q' p HQ' Hin') as (C' & HC' & Hpar'). congruence. }
  eexists _, _. split; [done|]. split_and!; try done.
  - apply (inv_shrink s T (job_ P) Q); try done.
    + intros E. apply app_eq_nil in E as [_ E]. rewrite E in Hin. by apply elem_of_nil in Hin.
    + by apply (ji_job0 _ Q HQ).
    + by apply NoDup_filter, (ji_job0 _ Q HQ).
    + apply erase_sub.
    + intros x X Hx Hnx HX. rewrite elem_of_erase in Hnx. destruct (decide (x = p)) as [->|]; [congruence|tauto].
  - intros q' Q'. cbn [jobs put_job]. rewrite lookup_insert_Some. intros [[<- <-]|[Hne HQ']] Hin'; [apply elem_of_erase in Hin'; tauto|].
    destruct (ji_pchildren0 q' Q' p HQ' Hin') as (C' & HC' & Hpar'). congruence.
Qed.

(** ** Destruction *)

Lemma free_job_inv s j T : jt_inv_with s (TFreeJob j :: T) -> jt_inv_with (del_job j s) T.
Proof.
  intros Hi. destruct (task_ok_job s (TFreeJob j) _ j Hi) as (J & HJ & (Hd & Hno) & Hok); [by left|done|].
  assert (forall t, t ∈ T -> task_job t <> Some j) as Hnone.
  { intros t Ht Htj. destruct (task_ok_job s t _ j Hi) as (K & HK & Hto & _); [by right|done|]. rewrite HJ in HK. injection HK as <-.
    pose proof (once_cons_inv s _ T 2%nat j Hi eq_refl) as Hone. rewrite list_elem_of_omap in Hone.
    destruct t; try done; cbn in Hto, Htj; injection Htj as ->; try (destruct Hto; congruence); try (destruct Hto as (_ & _ & _ & ?); congruence); destruct Hone; eauto. }
  apply inv_pop in Hi; [|by intros ?]. destruct Hi. constructor; cbn [jobs procs del_job]; try done.
  - intros k K [_ HK]%lookup_delete_Some. eauto.
  - intros c C q [Hne Hc]%lookup_delete_Some Hq. destruct (ji_link0 c C q Hc Hq) as (Q & HQ & Hlk). exists Q. split; [|done]. apply lookup_delete_Some. split; [|done].
    intros ->. rewrite HJ in HQ. injection HQ as <-. destruct Hlk. destruct lk_parent0. congruence.
  - intros p P HP. destruct (ji_plink0 p P HP) as (Q & HQ & Hlk). exists Q. split; [|done]. apply lookup_delete_Some. split; [|done].
    intros E. rewrite <-E, HJ in HQ. injection HQ as <-. destruct Hlk. destruct pl_job0. congruence.
  - intros q Q c [Hne HQ]%lookup_delete_Some Hin. destruct (ji_children0 q Q c HQ Hin) as (C & HC & ?). exists C. split; [|done]. apply lookup_delete_Some. split; [|done].
    intros <-. exact (Hno q Q HQ Hin).
  - intros q Q c [Hne HQ]%lookup_delete_Some Hin. eauto.
  - intros p P k HP Hk. destruct (ji_critical0 p P k HP Hk) as (K & HK & ? & ?). exists K. split; [|done]. apply lookup_delete_Some. split; [|done]. intros <-. congruence.
  - apply Forall_forall. intros t Ht. pose proof (Hnone t Ht) as Hne. eapply Forall_forall in ji_tasks0 as [H1 H2]; [|done]. split.
    + intros k Hk. destruct (H1 k Hk) as (K & HK & Hto). exists K. split; [apply lookup_delete_Some; split; [congruence|done]|]. destruct t; try done. destruct Hto as [? Hto]. split; [done|]. intros q Q HQ. cbn [jobs del_job] in HQ. apply lookup_delete_Some in HQ as [_ HQ]. eauto.
    + intros k Hk. destruct (H2 k Hk) as (K & HK & Hto). exists K. split; [done|]. destruct t; try done. destruct Hto as [? Hto]. split; [done|]. intros q Q HQ. cbn [jobs del_job] in HQ. apply lookup_delete_Some in HQ as [_ HQ]. eauto.
  - intros k K [_ HK]%lookup_delete_Some. eauto.
Qed.

Lemma free_proc_inv s p T : jt_inv_with s (TFreeProc p :: T) -> jt_inv_with (del_proc p s) T.
Proof.
  intros Hi. destruct (task_ok_proc s (TFreeProc p) _ p Hi) as (P & HP & (Hd & Hno) & Hok); [by left|done|].
  assert (forall t, t ∈ T -> task_proc t <> Some p) as Hnone.
  { intros t Ht Htj. destruct (task_ok_proc s t _ p Hi) as (K & HK & Hto & _); [by right|done|]. rewrite HP in HK. injection HK as <-.
    pose proof (once_cons_inv s _ T 5%nat p Hi eq_refl) as Hone. rewrite list_elem_of_omap in Hone.
    destruct t; try done; cbn in Hto, Htj; injection Htj as ->; try (destruct Hto; congruence); try (destruct Hto as (_ & ? & _); congruence); destruct Hone; eauto. }
  apply inv_pop in Hi; [|by intros ?]. destruct Hi. constructor; cbn [jobs procs del_proc]; try done.
  - intros k K [_ HK]%lookup_delete_Some. eauto.
  - intros k K [_ HK]%lookup_delete_Some. eauto.
  - intros q Q c HQ Hin. destruct (ji_pchildren0 q Q c HQ Hin) as (C & HC & ?). exists C. split; [|done]. apply lookup_delete_Some. split; [|done]. intros <-. exact (Hno q Q HQ Hin).
  - intros k K n [_ HK]%lookup_delete_Some. eauto.
  - apply Forall_forall. intros t Ht. pose proof (Hnone t Ht) as Hne. eapply Forall_forall in ji_tasks0 as [H1 H2]; [|done]. split; [done|].
    intros k Hk. destruct (H2 k Hk) as (K & HK & Hto). exists K. split; [apply lookup_delete_Some; split; [congruence|done]|]. by destruct t.
Qed.

(** ** The critical sections of a process *)

(** What a critical section of a process may change; [dead] says that it has to finish dying. *)
Record evolves (P P' : Proc) (dead : bool) : Prop := {
  ev_job : job_ P' = job_ P;
  ev_life : p_added P' = p_added P /\ p_dying P' = p_dying P /\ p_handle P' = p_handle P;
  ev_complete : completely_dead_ P' = completely_dead_ P;
  ev_stays : p_state_ P = PDEAD -> p_state_ P' = PDEAD;
  ev_dying : p_state_ P = DYING -> p_state_ P' = DYING \/ p_state_ P' = PDEAD;
  ev_dead : dead = bool_decide (p_state_ P <> PDEAD /\ p_state_ P' = PDEAD);
}.

Lemma evolves_refl P : evolves P P false.
Proof. constructor; try done; [auto|]. rewrite bool_decide_false; tauto. Qed.

(** Evaluates the tests of a state that is known. *)
Ltac bd := repeat first [rewrite bool_decide_true by (cbn in *; congruence) | rewrite bool_decide_false by (cbn in *; congruence)]; cbn [negb andb orb is_nil mbind option_bind].

Lemma SetState_same P : SetStateLocked (p_state_ P) P = Some P.
Proof. unfold SetStateLocked. rewrite andb_negb_r. by bd. Qed.

Lemma SetState_new st P : p_state_ P <> PDEAD -> st <> p_state_ P ->
  SetStateLocked st P = Some (set_pstate st (if bool_decide (st = DYING) then thread_list_ P else kill_sent P) P).
Proof. intros. unfold SetStateLocked. rewrite (bool_decide_false (p_state_ P = PDEAD)) by done. cbn [andb]. by rewrite (bool_decide_false (st = p_state_ P)) by done. Qed.

Lemma proc_ok_dead P : proc_ok P -> thread_list_ P = [] -> p_state_ P <> PDEAD -> forall code, proc_ok (set_pstate PDEAD (kill_sent P) (set_retcode code P)).
Proof. intros [] Ht Hs code. constructor; cbn; try done; rewrite ?Ht; try tauto; try (intros [?|?]; congruence). Qed.

Lemma evolves_dead P code : p_state_ P <> PDEAD -> evolves P (set_pstate PDEAD (kill_sent P) (set_retcode code P)) true.
Proof. intros Hs. constructor; cbn; try done; [auto|]. by rewrite bool_decide_true. Qed.

Lemma proc_ok_dying P : proc_ok P -> p_state_ P = RUNNING -> forall code, proc_ok (set_pstate DYING (thread_list_ P) (set_retcode code P)).
Proof.
  intros [] Hs code. assert (thread_list_ P <> []) by (intros E; apply po_threads0 in E as []; congruence).
  constructor; cbn; try done; try (intros [?|?]; congruence).
  - split; [done|]. intros [?|?]; congruence.
  - intros E. apply po_complete0 in E. congruence.
  - intros E. apply po_new0 in E as []; congruence.
  - intros _. apply Forall_forall. auto.
Qed.

Lemma evolves_dying P code : p_state_ P = RUNNING -> evolves P (set_pstate DYING (thread_list_ P) (set_retcode code P)) false.
Proof. intros Hs. constructor; cbn; try done; try congruence. rewrite bool_decide_false; [done|]. by intros [_ ?]. Qed.

Lemma proc_Kill_spec code P : proc_ok P -> exists P' dead, proc_Kill code P = Some (P', dead) /\ proc_ok P' /\ evolves P P' dead /\
  critical_to_job_ P' = critical_to_job_ P /\ (p_state_ P' = DYING \/ p_state_ P' = PDEAD).
Proof.
  intros Hok. pose proof Hok as []. unfold proc_Kill. destruct (p_state_ P) eqn:Est.
  - assert (thread_list_ P = []) as Et by tauto. bd. rewrite po_retcode0 by auto. bd. cbn [Z.eqb mbind option_bind thread_list_ set_retcode]. rewrite Et. bd. rewrite SetState_new by (cbn; congruence). bd.
    eexists _, _. split; [done|]. split_and!; [apply (proc_ok_dead P); congruence|apply (evolves_dead P); congruence|done|by right].
  - assert (thread_list_ P <> []) as Et by (intros E; apply po_threads0 in E as []; congruence). bd. rewrite po_retcode0 by auto. bd. cbn [Z.eqb mbind option_bind thread_list_ set_retcode].
    destruct (is_nil (thread_list_ P)) eqn:En; [by apply is_nil_spec in En|]. rewrite SetState_new by (cbn; congruence). bd.
    eexists _, _. split; [done|]. split_and!; [by apply (proc_ok_dying P)|by apply (evolves_dying P)|done|by left].
  - assert (thread_list_ P <> []) as Et by (intros E; apply po_threads0 in E as []; congruence). bd. destruct (is_nil (thread_list_ P)) eqn:En; [by apply is_nil_spec in En|].
    rewrite <-Est, SetState_same. bd. eexists _, _. split; [done|]. split_and!; [done|apply evolves_refl|done|by left].
  - bd. eexists _, _. split; [done|]. split_and!; try done; [apply evolves_refl|by right].
Qed.

Lemma Exit_spec code P : proc_ok P -> thread_list_ P <> [] -> exists P', Exit code P = Some P' /\ proc_ok P' /\ evolves P P' false /\ critical_to_job_ P' = critical_to_job_ P.
Proof.
  intros Hok Ht. pose proof Hok as []. unfold Exit. destruct (p_state_ P) eqn:Est; [tauto| | |tauto].
  - bd. rewrite po_retcode0 by auto. cbn [Z.eqb]. rewrite SetState_new by (cbn; congruence). bd. eexists. split; [done|]. split_and!; [by apply (proc_ok_dying P)|by apply (evolves_dying P)|done].
  - bd. rewrite <-Est, SetState_same. eexists. split; [done|]. split_and!; [done|apply evolves_refl|done].
Qed.

Lemma on_zero_handles_spec P : proc_ok P -> exists P' dead, proc_on_zero_handles P = Some (P', dead) /\ proc_ok P' /\ evolves P P' dead /\ critical_to_job_ P' = critical_to_job_ P.
Proof.
  intros Hok. pose proof Hok as []. unfold proc_on_zero_handles. case_bool_decide as Est; cbn [negb].
  - rewrite SetState_new by congruence. bd. eexists _, _. split; [done|].
    replace (set_pstate PDEAD (kill_sent P) P) with (set_pstate PDEAD (kill_sent P) (set_retcode (retcode_ P) P)) by (by destruct P).
    split_and!; [apply (proc_ok_dead P); [done|tauto|congruence]|apply (evolves_dead P); congruence|done].
  - eexists _, _. split; [done|]. split_and!; [done|apply evolves_refl|done].
Qed.

Lemma AddInitializedThread_spec t initial run P : proc_ok P -> p_dying P = false -> p_added P = true ->
  exists P' st, AddInitializedThread t initial run P = Some (P', st) /\ proc_ok P' /\ evolves P P' false /\ critical_to_job_ P' = critical_to_job_ P.
Proof.
  intros Hok Hd Ha. pose proof Hok as []. assert (evolves P P false) as Hrefl by apply evolves_refl. unfold AddInitializedThread. case_bool_decide as Est; cbn [negb]; [|eauto 10]. case_bool_decide; cbn [negb]; [|eauto 10].
  destruct initial.
  - assert (thread_list_ P = []) as Et by tauto. rewrite Et. cbn [is_nil Bool.eqb negb app]. rewrite SetState_new by (cbn; congruence). bd. eexists _, _. split; [done|]. split_and!; [|constructor; cbn; try done; try congruence|done].
    + constructor; cbn; try done; try congruence; try (intros _; tauto); [split; [done|]; intros [?|?]; congruence|]. intros E. apply po_complete0 in E. congruence.
    + rewrite bool_decide_false; [done|]. intros [_ ?]. congruence.
  - destruct (is_nil (thread_list_ P)) eqn:En; cbn [Bool.eqb negb]. { apply is_nil_spec, po_threads0 in En as []; congruence. }
    eexists _, _. split; [done|]. split_and!; [|constructor; cbn; try done; try tauto|done].
    + constructor; cbn; try done; try congruence. rewrite Est. split; [intros E; by apply app_eq_nil in E as [_ ?]|]. intros [?|?]; congruence.
    + rewrite bool_decide_false; [done|]. intros [? ?]. congruence.
Qed.

Lemma RemoveThread_spec t P : proc_ok P -> t ∈ thread_list_ P -> completely_dead_ P = false ->
  exists P' dead, RemoveThread t P = Some (P', dead) /\ proc_ok P' /\ evolves P P' dead /\ critical_to_job_ P' = critical_to_job_ P.
Proof.
  intros Hok Ht Hc. pose proof Hok as []. unfold RemoveThread. rewrite bool_decide_true by done. cbn [negb thread_list_ set_threads].
  assert (p_state_ P = RUNNING \/ p_state_ P = DYING) as Hst.
  { destruct (p_state_ P); auto; (assert (thread_list_ P = []) as E by tauto); rewrite E in Ht; by apply elem_of_nil in Ht. }
  destruct (is_nil (erase t (thread_list_ P))) eqn:En.
  - apply is_nil_spec in En. rewrite SetState_new by (cbn; destruct Hst; congruence). bd. eexists _, _. split; [done|]. split_and!; [|constructor; cbn; try done; auto|done].
    + constructor; cbn; try done; rewrite ?En; try tauto; try (intros [?|?]; congruence).
    + rewrite bool_decide_true; [done|]. destruct Hst; split; congruence.
  - assert (erase t (thread_list_ P) <> []) as Hne by (intros E; rewrite E in En; done).
    eexists _, _. split; [done|]. split_and!; [|constructor; cbn; try done; auto|done].
    + constructor; cbn; try done.
      * split; [done|]. intros [?|?]; destruct Hst; congruence.
      * intros E. specialize (po_killed0 E). rewrite Forall_forall in *. intros x [_ Hx]%elem_of_erase. auto.
      * intros E. specialize (po_dying0 E). rewrite po_dying0 in Ht. by apply elem_of_nil in Ht.
    + rewrite bool_decide_false; [done|]. intros [? ?]. tauto.
Qed.

Lemma token_Create_spec P : proc_ok P -> exists P' st, token_Create P = Some (P', st) /\ proc_ok P' /\ evolves P P' false /\ critical_to_job_ P' = critical_to_job_ P.
Proof.
  intros Hok. pose proof Hok as []. unfold token_Create, Suspend. destruct (bool_decide (p_state_ P = DYING) || bool_decide (p_state_ P = PDEAD)) eqn:E; cbn [mbind option_bind].
  - eexists _, _. split; [done|]. rewrite bool_decide_false by done. split_and!; [done|apply evolves_refl|done].
  - apply orb_false_iff in E as [E1%bool_decide_eq_false E2%bool_decide_eq_false]. assert (p_state_ P = INITIAL \/ p_state_ P = RUNNING) as Hst by (destruct (p_state_ P); auto; done).
    rewrite po_suspend0 by done. destruct (Z.ltb_spec (p_tokens P) 0); [lia|]. cbn [mbind option_bind]. rewrite bool_decide_true by done. eexists _, _. split; [done|].
    split_and!; [|constructor; cbn; try done; try tauto|done]; [constructor; cbn; try done; lia|]. rewrite bool_decide_false; [done|]. tauto.
Qed.

Lemma token_close_spec P : proc_ok P -> 0 < p_tokens P -> exists P', token_on_zero_handles P = Some P' /\ proc_ok P' /\ evolves P P' false /\ critical_to_job_ P' = critical_to_job_ P.
Proof.
  intros Hok Hp. pose proof Hok as []. unfold token_on_zero_handles, Resume.
  assert (forall n, (p_state_ P = INITIAL \/ p_state_ P = RUNNING -> n = p_tokens P - 1) -> proc_ok (set_suspend n (p_tokens P - 1) P) /\ evolves P (set_suspend n (p_tokens P - 1) P) false) as Hgen.
  { intros n Hn. split; constructor; cbn; try done; try tauto; [lia|]. rewrite bool_decide_false; [done|]. tauto. }
  destruct (bool_decide (p_state_ P = DYING) || bool_decide (p_state_ P = PDEAD)) eqn:E; cbn [mbind option_bind].
  - eexists. split; [done|]. apply orb_true_iff in E as [E%bool_decide_eq_true|E%bool_decide_eq_true]; (destruct (Hgen (suspend_count_ P)); [intros [?|?]; congruence|done]).
  - apply orb_false_iff in E as [E1%bool_decide_eq_false E2%bool_decide_eq_false]. assert (p_state_ P = INITIAL \/ p_state_ P = RUNNING) as Hst by (destruct (p_state_ P); auto; done).
    rewrite po_suspend0 by done. destruct (Z.leb_spec (p_tokens P) 0); [lia|]. cbn [mbind option_bind]. eexists. split; [done|].
    destruct (Hgen (p_tokens P - 1)) as [? ?]; [done|]. split_and!; [done..|]. done.
Qed.

(** A critical section of a process. *)
Lemma inv_proc_step s T p P P' dead :
  jt_inv_with s T -> procs s !! p = Some P -> proc_ok P' -> evolves P P' dead -> p_dying P = false -> p_added P = true \/ p_handle P = false ->
  (forall k, critical_to_job_ P' = Some k -> exists K, jobs s !! k = Some K /\ j_added K = true /\ j_dying K = false) ->
  jt_inv_with (put_proc p P' s) (finish_proc p dead ++ T).
Proof.
  intros Hi HP Hok Hev Hd Hvis Hcrit. pose proof (ji_proc _ _ Hi p P HP) as HokP. destruct Hev as [? (Ha & Hd' & Hh) ? ? ? Hdead].
  assert (forall t, t ∈ finish_proc p dead -> t = TFinishProc p /\ p_state_ P <> PDEAD /\ p_state_ P' = PDEAD) as Hfin.
  { intros t. rewrite Hdead. case_bool_decide as E; cbn; intros Ht; [|by apply elem_of_nil in Ht]. apply list_elem_of_singleton in Ht. tauto. }
  assert (forall t, t ∈ T -> t ∈ finish_proc p dead ++ T) as Hkeep by (intros; apply elem_of_app; by right).
  eapply (inv_put_proc s T _ p P P'); try done.
  - auto.
  - intros t [Ht|Ht]%elem_of_app.
    + right. destruct (Hfin t Ht) as (-> & ? & ?). split; [done|]. intros k [= <-]. exists P'. cbn [procs put_proc]. rewrite lookup_insert_eq. split; [done|]. split_and!; [done|congruence|].
      rewrite ev_complete0. destruct (completely_dead_ P) eqn:E; [|done]. destruct HokP. by apply po_complete0 in E.
    + destruct (decide (task_proc t = Some p)) as [Htp|]; [|by left]. right. split; [by destruct t|]. intros k Hk. assert (k = p) as -> by congruence.
      destruct (task_ok_proc s t _ p Hi) as (K & HK & Hto & _); [done..|]. rewrite HP in HK. injection HK as <-. exists P'. cbn [procs put_proc]. rewrite lookup_insert_eq. split; [done|].
      destruct t; try done; cbn in Hto |- *; rewrite ?Ha, ?Hd', ?Hh, ?ev_complete0; try tauto; try (destruct Hto; congruence).
      destruct Hto as (? & _ & _ & ?). destruct Hvis; congruence.
  - rewrite omap_once_app. destruct dead; [|apply Hi]. symmetry in Hdead. apply bool_decide_eq_true in Hdead as [? ?]. cbn. constructor; [|apply Hi]. eapply no_finish_proc; [done..|]. by intros [? _].
  - intros J HJ Hlk. eapply plink_ok_mono in Hlk; [|intros t ? _; by apply Hkeep]. destruct Hlk. constructor; rewrite ?Ha, ?Hd'; try done.
    + intros ? ? ?. apply pl_listed0; auto.
    + intros ? ? ?. destruct (decide (p_state_ P = PDEAD)); [auto|]. left. rewrite Hdead, bool_decide_true by done. by left.
    + intros. destruct pl_killed0 as [?|[?|[?|?]]]; auto; destruct ev_dying0; auto.
Qed.

Lemma FinishDeadTransition_spec P : proc_ok P -> p_state_ P = PDEAD -> completely_dead_ P = false ->
  exists P', FinishDeadTransition P = Some P' /\ proc_ok P' /\ completely_dead_ P' = true /\
    job_ P' = job_ P /\ p_state_ P' = PDEAD /\ p_added P' = p_added P /\ p_dying P' = p_dying P /\ p_handle P' = p_handle P /\ critical_to_job_ P' = critical_to_job_ P.
Proof.
  intros [] Hs Hc. unfold FinishDeadTransition. rewrite Hc. eexists. split; [done|]. split_and!; try done. constructor; try done.
  unfold pbit. cbn [p_base set_completely_dead completely_dead_]. rewrite UpdateStateLocked_bit by lia. by rewrite orb_true_r.
Qed.

Lemma finish_proc_inv s p T P P' :
  jt_inv_with s (TFinishProc p :: T) -> procs s !! p = Some P -> proc_ok P' -> completely_dead_ P' = true ->
  job_ P' = job_ P -> p_state_ P' = PDEAD -> p_added P' = p_added P -> p_dying P' = p_dying P -> p_handle P' = p_handle P -> critical_to_job_ P' = critical_to_job_ P ->
  jt_inv_with (put_proc p P' s) (TRemoveProc p :: TCritical p :: T).
Proof.
  intros Hi HP Hok' Hc Hj Hs' Ha Hd' Hh Hcr. destruct (task_ok_proc s (TFinishProc p) _ p Hi) as (P0 & HP0 & (Hst & Hd & Hc0) & Hok); [by left|done|]. rewrite HP in HP0. injection HP0 as <-.
  eapply (inv_put_proc s (TFinishProc p :: T) _ p P P'); try done.
  - intros t [->|?]%elem_of_cons Hne; [done|]. by do 2 right.
  - intros t Ht. destruct (decide (t ∈ T)) as [HtT|Hn].
    + destruct (decide (task_proc t = Some p)) as [Htp|]; [|left; split; [by right|done]]. right. split; [by destruct t|]. intros k Hk. assert (k = p) as -> by congruence.
      destruct (task_ok_proc s t _ p Hi) as (K & HK & Hto & _); [by right|done|]. rewrite HP in HK. injection HK as <-. exists P'. cbn [procs put_proc]. rewrite lookup_insert_eq. split; [done|].
      pose proof (once_cons_inv s _ T 4%nat p Hi eq_refl) as Hone. rewrite list_elem_of_omap in Hone.
      destruct t; try done; cbn in Hto, Hk |- *; injection Hk as ->; rewrite ?Ha, ?Hd', ?Hh; try tauto; try (destruct Hto; congruence); [destruct Hto as (_ & _ & ? & _); congruence|destruct Hone; eauto].
    + right. assert (t = TRemoveProc p \/ t = TCritical p) as [-> | ->] by (apply elem_of_cons in Ht as [->|Ht]; [by left|]; apply elem_of_cons in Ht as [->|?]; [by right|done]);
        (split; [done|]; intros k [= <-]; exists P'; cbn [procs put_proc]; rewrite lookup_insert_eq; split; [done|]; cbn; by rewrite Hd').
  - exact (once_tail s _ T Hi).
  - intros J HJ []. constructor; rewrite ?Ha, ?Hd'; try done.
    + intros. right. by left.
    + congruence.
    + intros. right. right. by left.
  - intros k. rewrite Hcr. apply (ji_critical _ _ Hi p P k HP).
Qed.

(** ** Entering the tree *)

Lemma job_add_new J : job_ok J -> job_ok (set_jlife true (j_dying J) J).
Proof. intros []. constructor; try done. cbn. intros E. by destruct (jo_root0 E). Qed.

(** The other tasks when a new job [j] enters the list of [q]. *)
Lemma attach_job_tasks s T j J J' q Q Q' :
  jt_inv_with s T -> jobs s !! j = Some J -> jobs s !! q = Some Q -> j_added J = false -> j_dying J = false -> j_state_ J = READY ->
  (forall t, t ∈ T -> t <> TAddJob j) -> j_added Q = true -> j_dying Q = false -> j_state_ Q = READY ->
  jobs_ J' = [] -> procs_ J' = [] -> jobs_ Q' = jobs_ Q ++ [j] -> procs_ Q' = procs_ Q -> j_added Q' = true -> j_dying Q' = false ->
  Forall (task_ok (put_job j J' (put_job q Q' s))) T.
Proof.
  intros Hi HJ HQ Ha Hd Hst Hno HaQ HdQ HsQ Hj' Hp' HjQ HpQ HaQ' HdQ'. apply Forall_forall. intros t Ht.
  assert (task_job t <> Some j) as Hnj.
  { intros Htj. destruct (task_ok_job s t T j Hi Ht Htj) as (K & HK & Hto & _). rewrite HJ in HK. injection HK as <-. pose proof (Hno t Ht).
    destruct t; try done; cbn in Hto, Htj; injection Htj as ->; try done; try (destruct Hto; congruence); congruence. }
  assert (forall k K, jobs (put_job j J' (put_job q Q' s)) !! k = Some K -> (forall x, x ∈ jobs_ K -> x = j \/ exists R, jobs s !! k = Some R /\ x ∈ jobs_ R) /\ (forall x, x ∈ procs_ K -> exists R, jobs s !! k = Some R /\ x ∈ procs_ R)) as Hlists.
  { intros k K. cbn [jobs put_job]. rewrite !lookup_insert_Some. intros [[<- <-]|[_ [[<- <-]|[_ HK]]]].
    - rewrite Hj', Hp'. split; intros x Hx; by apply elem_of_nil in Hx.
    - rewrite HjQ, HpQ. split; intros x Hx; [apply elem_of_app in Hx as [Hx| ->%list_elem_of_singleton]; [|by left]; right|]; eauto.
    - split; intros x Hx; eauto. }
  pose proof (ji_tasks _ _ Hi) as Hall. rewrite Forall_forall in Hall. destruct (Hall t Ht) as [H1 H2]. split.
  - intros k Hk. destruct (H1 k Hk) as (K & HK & Hto). cbn [jobs put_job]. rewrite lookup_insert_ne by congruence. destruct (decide (k = q)) as [->|Hkq].
    + exists Q'. rewrite lookup_insert_eq. split; [done|]. rewrite HQ in HK. injection HK as <-. destruct t; try done; cbn in Hto |- *; try (destruct Hto; congruence); congruence.
    + exists K. rewrite lookup_insert_ne by done. split; [done|]. destruct t; try done. destruct Hto as [? Hto]. split; [done|]. intros r R HR Hin.
      destruct (proj1 (Hlists r R HR) _ Hin) as [->|(R0 & HR0 & Hin0)]; [by destruct (Hnj Hk)|]. by eapply Hto.
  - intros k Hk. destruct (H2 k Hk) as (K & HK & Hto). exists K. split; [done|]. destruct t; try done. destruct Hto as [? Hto]. split; [done|]. intros r R HR Hin.
    destruct (proj2 (Hlists r R HR) _ Hin) as (R0 & HR0 & Hin0). by eapply Hto.
Qed.

Lemma attach_job_inv s j T J q Q :
  jt_inv_with s (TAddJob j :: T) -> jobs s !! j = Some J -> parent_ J = Some q -> jobs s !! q = Some Q -> j_state_ Q = READY ->
  jt_inv_with (put_job j (set_jlife true (j_dying J) J) (put_job q (UpdateSignalsLocked (set_children (jobs_ Q ++ [j]) (procs_ Q) Q)) s)) T.
Proof.
  intros Hi HJ Hpar HQ Hst. destruct (task_ok_job s (TAddJob j) _ j Hi) as (J0 & HJ0 & (Ha & Hd) & HokJ); [by left|done|]. rewrite HJ in HJ0. injection HJ0 as <-.
  pose proof (once_cons_inv s _ T 0%nat j Hi eq_refl) as Hone. rewrite list_elem_of_omap in Hone.
  apply inv_pop in Hi; [|by intros ?]. pose proof Hi as []. pose proof (ji_job0 q Q HQ) as HokQ.
  destruct (ji_link0 j J q HJ Hpar) as (Q0 & HQ0 & Hlk). rewrite HQ in HQ0. injection HQ0 as <-. pose proof Hlk as []. destruct lk_parent0 as [HaQ HdQ].
  assert (q <> j) as Hqj by (intros ->; congruence). assert (j ∉ jobs_ Q) as Hnin by (intros ?%lk_added0; congruence).
  set (J' := set_jlife true (j_dying J) J). set (Q' := UpdateSignalsLocked (set_children (jobs_ Q ++ [j]) (procs_ Q) Q)).
  assert (job_ok Q') as HokQ'. { apply job_ok_children; try done; [|apply HokQ|congruence]. apply NoDup_app. split_and!; [apply HokQ| |apply NoDup_singleton]. intros x Hx ->%list_elem_of_singleton. done. }
  destruct HokJ. destruct (jo_new0 Ha) as (HsJ & HjJ & HpJ).
  constructor; cbn [jobs procs put_job]; try done.
  - intros k K. rewrite !lookup_insert_Some. intros [[_ <-]|[_ [[_ <-]|[_ HK]]]]; [by apply job_add_new|done|eauto].
  - intros c C q' Hc Hq. rewrite lookup_insert_Some in Hc. destruct Hc as [[<- <-]|[Hcj Hc]].
    + assert (q' = q) as -> by (cbn in Hq; congruence). exists Q'. rewrite lookup_insert_ne, lookup_insert_eq by done. split; [done|]. constructor; try done; cbn; try congruence. intros _ _ _. apply elem_of_app. right. by left.
    + assert (exists C0, jobs s !! c = Some C0 /\ parent_ C0 = Some q' /\ (c = q /\ C0 = Q /\ C = Q' \/ c <> q /\ C = C0)) as (C0 & HC0 & Hq0 & HCC).
      { rewrite lookup_insert_Some in Hc. destruct Hc as [[<- <-]|[? ?]]; [exists Q; split_and!; [done|exact Hq|by left]|exists C; split_and!; [done|done|right; done]]. }
      destruct (ji_link0 c C0 q' HC0 Hq0) as (R & HR & HlkR). assert (link_ok T R c C) as HlkRC. { destruct HCC as [(_ & -> & ->)|[_ ->]]; [|done]. by destruct HlkR. }
      destruct (decide (q' = q)) as [->|Hq'].
      * rewrite HQ in HR. injection HR as <-. exists Q'. rewrite lookup_insert_ne, lookup_insert_eq by done. split; [done|]. destruct HlkRC. constructor; try done; cbn.
        -- intros [?| ->%list_elem_of_singleton]%elem_of_app; [auto|done].
        -- intros. apply elem_of_app. left. auto.
        -- intros [?| ->%list_elem_of_singleton]%elem_of_app; [auto|done].
        -- intros [?| ->%list_elem_of_singleton]%elem_of_app; [auto|done].
        -- congruence.
      * destruct (decide (q' = j)) as [->|Hqj']; [rewrite HJ in HR; injection HR as <-; destruct HlkR; destruct lk_parent0; congruence|]. exists R. by rewrite !lookup_insert_ne.
  - intros p P HP. destruct (ji_plink0 p P HP) as (R & HR & Hpl). destruct (decide (job_ P = j)) as [E|Hj]; [rewrite E, HJ in HR; injection HR as <-; destruct Hpl; destruct pl_job0; congruence|]. rewrite lookup_insert_ne by done.
    destruct (decide (job_ P = q)) as [E|Hq']; [|exists R; by rewrite lookup_insert_ne]. rewrite E, HQ in HR. injection HR as <-. exists Q'. rewrite E, lookup_insert_eq. split; [done|]. destruct Hpl. constructor; try done; cbn; congruence.
  - intros q' R c HR Hin. assert (c = j /\ q' = q \/ exists C0, jobs s !! c = Some C0 /\ parent_ C0 = Some q') as [[-> ->]|(C0 & HC0 & Hp0)].
    { rewrite !lookup_insert_Some in HR. destruct HR as [[<- <-]|[_ [[<- <-]|[_ HR]]]]; [cbn in Hin; rewrite HjJ in Hin; by apply elem_of_nil in Hin| |eauto].
      cbn in Hin. apply elem_of_app in Hin as [Hin| ->%list_elem_of_singleton]; [right; eauto|by left]. }
    + exists J'. by rewrite lookup_insert_eq.
    + destruct (decide (c = j)) as [->|]; [exists J'; rewrite lookup_insert_eq; split; [done|]; cbn; congruence|]. rewrite lookup_insert_ne by done.
      destruct (decide (c = q)) as [->|]; [exists Q'; rewrite lookup_insert_eq; split; [done|]; cbn; congruence|]. rewrite lookup_insert_ne by done. eauto.
  - intros q' R p. rewrite !lookup_insert_Some. intros [[<- <-]|[_ [[<- <-]|[_ HR]]]] Hin; cbn in Hin; eauto.
  - intros p P k HP Hk. destruct (ji_critical0 p P k HP Hk) as (K & HK & ? & ?). destruct (decide (k = j)) as [->|]; [congruence|]. rewrite lookup_insert_ne by done.
    destruct (decide (k = q)) as [->|]; [exists Q'; by rewrite lookup_insert_eq|]. rewrite lookup_insert_ne by done. eauto.
  - apply (attach_job_tasks s T j J J' q Q Q'); try done. intros t Ht ->. apply Hone. eauto.
  - intros k K. rewrite !lookup_insert_Some. intros [[<- <-]|[Hkj [[<- <-]|[_ HK]]]] ? ? ?; cbn in *; try congruence; eauto.
Qed.

(** A new process has no other task. *)
Lemma new_proc_tasks s p T : jt_inv_with s (TAddProc p :: T) -> forall t, t ∈ T -> task_proc t <> Some p.
Proof.
  intros Hi t Ht Htp. destruct (task_ok_proc s (TAddProc p) _ p Hi) as (P & HP & (Ha & Hd & Hst & Hh) & _); [by left|done|].
  destruct (task_ok_proc s t _ p Hi) as (K & HK & Hto & _); [by right|done|]. rewrite HP in HK. injection HK as <-.
  pose proof (once_cons_inv s _ T 3%nat p Hi eq_refl) as Hone. rewrite list_elem_of_omap in Hone.
  destruct t; try done; cbn in Hto, Htp; injection Htp as ->; try (destruct Hto; congruence); try congruence; destruct Hone; eauto.
Qed.

Lemma refuse_proc_inv s p T P :
  jt_inv_with s (TAddProc p :: T) -> procs s !! p = Some P -> jt_inv_with (put_proc p (set_plife false (p_added P) (p_dying P) P) s) (TCloseProc p :: T).
Proof.
  intros Hi HP. destruct (task_ok_proc s (TAddProc p) _ p Hi) as (P0 & HP0 & (Ha & Hd & Hst & Hh) & Hok); [by left|done|]. rewrite HP in HP0. injection HP0 as <-.
  pose proof (new_proc_tasks s p T Hi) as Hnone. eapply (inv_put_proc s (TAddProc p :: T) _ p P); try done.
  - by destruct Hok.
  - intros t [->|?]%elem_of_cons Hne; [done|]. by right.
  - intros t [->|Ht]%elem_of_cons; [|left; split; [by right|auto]]. right. split; [done|]. intros k [= <-]. eexists. cbn [procs put_proc]. rewrite lookup_insert_eq. done.
  - exact (once_tail s _ T Hi).
  - intros J HJ []. assert (p ∉ procs_ J) by (intros ?%pl_added0; congruence). by constructor.
  - intros k. apply (ji_critical _ _ Hi p P k HP).
Qed.

(** The other tasks when a new process [p] enters the list of its job. *)
Lemma attach_proc_tasks s T p P P' J J' :
  Forall (task_ok s) T -> (forall t, t ∈ T -> task_proc t <> Some p) -> jobs s !! job_ P = Some J -> j_state_ J = READY -> j_dying J = false -> j_added J = true ->
  jobs_ J' = jobs_ J -> procs_ J' = procs_ J ++ [p] -> j_added J' = true -> j_dying J' = false -> Forall (task_ok (put_proc p P' (put_job (job_ P) J' s))) T.
Proof.
  intros Hall Hnone HJ HsJ HdJ HaJ HjJ' HpJ' HaJ' HdJ'. apply Forall_forall. intros t Ht. apply task_ok_put_proc; [auto|]. pose proof (Hnone t Ht) as Hnp. rewrite Forall_forall in Hall. destruct (Hall t Ht) as [H1 H2]. split.
  - intros k Hk. destruct (H1 k Hk) as (K & HK & Hto). cbn [jobs put_job]. destruct (decide (k = job_ P)) as [->|].
    + exists J'. rewrite lookup_insert_eq. split; [done|]. rewrite HJ in HK. injection HK as <-. destruct t; try done; cbn in Hto |- *; try (destruct Hto; congruence); congruence.
    + exists K. rewrite lookup_insert_ne by done. split; [done|]. destruct t; try done. destruct Hto as [? Hto]. split; [done|]. intros r R. cbn [jobs put_job]. rewrite lookup_insert_Some.
      intros [[<- <-]|[_ HR]]; [rewrite HjJ'; by apply (Hto (job_ P) J)|by apply (Hto r)].
  - intros k Hk. destruct (H2 k Hk) as (K & HK & Hto). exists K. split; [done|]. destruct t; try done. destruct Hto as [? Hto]. split; [done|]. intros r R. cbn [jobs put_job]. rewrite lookup_insert_Some.
    intros [[<- <-]|[_ HR]]; [|by apply (Hto r)]. rewrite HpJ'. intros [?| ->%list_elem_of_singleton]%elem_of_app; [by apply (Hto (job_ P) J)|done].
Qed.

Lemma attach_proc_inv s p T P J :
  jt_inv_with s (TAddProc p :: T) -> procs s !! p = Some P -> jobs s !! job_ P = Some J -> j_state_ J = READY ->
  jt_inv_with (put_proc p (set_plife (p_handle P) true (p_dying P) P) (put_job (job_ P) (UpdateSignalsLocked (set_children (jobs_ J) (procs_ J ++ [p]) J)) s)) T.
Proof.
  intros Hi HP HJ HsJ. destruct (task_ok_proc s (TAddProc p) _ p Hi) as (P0 & HP0 & (Ha & Hd & Hst & Hh) & Hok); [by left|done|]. rewrite HP in HP0. injection HP0 as <-.
  pose proof (new_proc_tasks s p T Hi) as Hnone. apply inv_pop in Hi; [|by intros ?]. pose proof Hi as []. pose proof (ji_job0 _ J HJ) as HokJ.
  destruct (ji_plink0 p P HP) as (J0 & HJ0 & Hpl). rewrite HJ in HJ0. injection HJ0 as <-. pose proof Hpl as []. destruct pl_job0 as [HaJ HdJ].
  assert (p ∉ procs_ J) as Hnin by (intros ?%pl_added0; congruence).
  set (P' := set_plife (p_handle P) true (p_dying P) P). set (J' := UpdateSignalsLocked (set_children (jobs_ J) (procs_ J ++ [p]) J)).
  assert (job_ok J') as HokJ'. { apply job_ok_children; try done; [apply HokJ| |congruence]. apply NoDup_app. split_and!; [apply HokJ| |apply NoDup_singleton]. intros x Hx ->%list_elem_of_singleton. done. }
  constructor; cbn [jobs procs put_job put_proc]; try done.
  - intros k K. rewrite lookup_insert_Some. intros [[_ <-]|[_ HK]]; eauto.
  - intros k K. rewrite lookup_insert_Some. intros [[_ <-]|[_ HK]]; [by destruct Hok|eauto].
  - intros c C q Hc Hq. assert (exists C0, jobs s !! c = Some C0 /\ parent_ C0 = Some q /\ forall R, link_ok T R c C0 -> link_ok T R c C) as (C0 & HC0 & Hq0 & HCC).
    { rewrite lookup_insert_Some in Hc. destruct Hc as [[<- <-]|[_ Hc]]; [exists J|exists C; by auto]. split_and!; [done|exact Hq|]. intros R []. by constructor. }
    destruct (ji_link0 c C0 q HC0 Hq0) as (R & HR & HlkR). apply HCC in HlkR. destruct (decide (q = job_ P)) as [->|]; [|exists R; by rewrite lookup_insert_ne].
    rewrite HJ in HR. injection HR as <-. exists J'. rewrite lookup_insert_eq. split; [done|]. destruct HlkR. constructor; try done; cbn; congruence.
  - intros k K HK. rewrite lookup_insert_Some in HK. destruct HK as [[<- <-]|[Hk HK]].
    + exists J'. cbn [P' set_plife job_]. rewrite lookup_insert_eq. split; [done|]. constructor; try done; cbn; try congruence. intros _ _ _. apply elem_of_app. right. by left.
    + destruct (ji_plink0 k K HK) as (R & HR & HplR). destruct (decide (job_ K = job_ P)) as [E|]; [|exists R; by rewrite lookup_insert_ne]. rewrite E, HJ in HR. injection HR as <-. exists J'. rewrite E, lookup_insert_eq. split; [done|].
      destruct HplR. constructor; try done; cbn; try congruence; [intros [?| ->%list_elem_of_singleton]%elem_of_app; by auto|intros; apply elem_of_app; by auto|..]; intros [?| ->%list_elem_of_singleton]%elem_of_app; by auto.
  - intros q Q c. rewrite lookup_insert_Some. intros HQ Hin. assert (exists C, jobs s !! c = Some C /\ parent_ C = Some q) as (C & HC & HCp) by (destruct HQ as [[<- <-]|[_ HQ]]; eauto).
    destruct (decide (c = job_ P)) as [->|]; [exists J'; rewrite lookup_insert_eq; split; [done|]; cbn; congruence|]. exists C. by rewrite lookup_insert_ne.
  - intros q Q k. rewrite lookup_insert_Some. intros HQ Hin. destruct (decide (k = p)) as [->|Hk].
    + exists P'. rewrite lookup_insert_eq. split; [done|]. destruct HQ as [[<- <-]|[_ HQ]]; [done|]. destruct (ji_pchildren0 q Q p HQ Hin) as (K & HK & <-). congruence.
    + rewrite lookup_insert_ne by done. destruct HQ as [[<- <-]|[_ HQ]]; [|eauto]. cbn in Hin. apply elem_of_app in Hin as [?| ->%list_elem_of_singleton]; [eauto|done].
  - intros k K n. rewrite lookup_insert_Some. intros HK Hn. assert (exists R, jobs s !! n = Some R /\ j_added R = true /\ j_dying R = false) as (R & HR & ? & ?) by (destruct HK as [[<- <-]|[_ HK]]; eauto).
    destruct (decide (n = job_ P)) as [->|]; [exists J'; by rewrite lookup_insert_eq|]. exists R. by rewrite lookup_insert_ne.
  - by apply (attach_proc_tasks s T p P P' J J').
  - intros k K. rewrite lookup_insert_Some. intros [[<- <-]|[Hkj HK]] ? ? ?; cbn in *; [congruence|eauto].
Qed.

(** ** Every task *)

Lemma inv_pop_after s t new T : jt_inv_with s (new ++ t :: T) -> ~ needed s t -> jt_inv_with s (new ++ T).
Proof. intros Hi Hn. apply (inv_pop s t); [|done]. eapply jt_inv_perm; [|done]. symmetry. apply Permutation_middle. Qed.

Lemma jt_inv_stacks s st T : jt_inv_with s T -> jt_inv_with (set_stacks st s) T.
Proof. intros []. by constructor. Qed.

Lemma not_listed s T q Q j J : jt_inv_with s T -> jobs s !! q = Some Q -> jobs s !! j = Some J -> parent_ J = Some q -> j_added J = false -> (j ∉ jobs_ Q) /\ default q (last (jobs_ Q)) <> j.
Proof.
  intros Hi HQ HJ Hp Ha. destruct (ji_link _ _ Hi j J q HJ Hp) as (Q' & HQ' & []). rewrite HQ in HQ'. injection HQ' as <-.
  assert (j ∉ jobs_ Q) as Hn by (intros ?%lk_added0; congruence). split; [done|]. destruct (last (jobs_ Q)) as [b|] eqn:E; cbn.
  - apply last_Some_elem_of in E. congruence.
  - intros ->. rewrite HQ in HJ. injection HJ as <-. lia.
Qed.

Lemma add_job_inv s j T : jt_inv_with s (TAddJob j :: T) -> exists s', task_step true true (TAddJob j) s = Some (s', []) /\ jt_inv_with s' T /\ stacks s' = stacks s.
Proof.
  intros Hi. destruct (task_ok_job s (TAddJob j) _ j Hi) as (J & HJ & (Ha & Hd) & Hok); [by left|done|]. cbn [task_step]. rewrite HJ. cbn [mbind option_bind].
  destruct (parent_ J) as [q|] eqn:Hq; [|destruct (jo_root _ Hok Hq); congruence]. cbn [mbind option_bind]. destruct (ji_link _ _ Hi j J q HJ Hq) as (Q & HQ & _). rewrite HQ. cbn [mbind option_bind].
  destruct (not_listed _ _ q Q j J Hi HQ HJ Hq Ha) as [H1 H2]. unfold AddChildJob. case_bool_decide as Hst.
  - rewrite !bool_decide_false by done. cbn [orb]. eexists. split; [done|]. split; [|done]. by apply (attach_job_inv s j T J q Q).
  - eexists. split; [done|]. split; [|done]. apply inv_pop in Hi; [done|by intros ?].
Qed.

Lemma add_proc_inv s p T : jt_inv_with s (TAddProc p :: T) -> exists s' new, task_step true true (TAddProc p) s = Some (s', new) /\ jt_inv_with s' (new ++ T) /\ stacks s' = stacks s.
Proof.
  intros Hi. destruct (task_ok_proc s (TAddProc p) _ p Hi) as (P & HP & _ & _); [by left|done|]. cbn [task_step]. rewrite HP. cbn [mbind option_bind].
  destruct (ji_plink _ _ Hi p P HP) as (J & HJ & _). rewrite HJ. cbn [mbind option_bind]. unfold AddChildProcess. case_bool_decide as Hst.
  - eexists _, _. split; [done|]. split; [|done]. by apply attach_proc_inv.
  - eexists _, _. split; [done|]. split; [|done]. by apply refuse_proc_inv.
Qed.

Lemma destroy_job_inv s j T : jt_inv_with s (TDestroyJob j :: T) -> exists s' new, task_step true true (TDestroyJob j) s = Some (s', new) /\ jt_inv_with s' (new ++ T) /\ stacks s' = stacks s.
Proof.
  intros Hi. destruct (task_ok_job s (TDestroyJob j) _ j Hi) as (J & HJ & Hd & _); [by left|done|]. cbn in Hd. cbn [task_step].
  destruct (leave_parent_inv s _ j J Hi HJ (or_introl Hd)) as (s' & new & -> & Hi' & Hst & Hno & HJ'). cbn [mbind option_bind]. eexists _, _. split; [done|]. split; [|done].
  eapply (jt_inv_perm _ ([TFreeJob j] ++ new ++ T)); [solve_Permutation|]. eapply jt_inv_perm in Hi'; [|symmetry; apply Permutation_middle].
  pose proof (once_cons_inv s' _ _ 2%nat j Hi' eq_refl). pose proof (once_tail s' _ _ Hi'). apply inv_pop in Hi'; [|by intros (q & Q & HQ & ?); eapply Hno]. apply inv_push; [done| |].
  - constructor; [|done]. split; [|done]. intros k [= <-]. exists J. done.
  - cbn. by constructor.
Qed.

Lemma destroy_proc_inv s p T : jt_inv_with s (TDestroyProc p :: T) -> exists s' new, task_step true true (TDestroyProc p) s = Some (s', new) /\ jt_inv_with s' (new ++ T) /\ stacks s' = stacks s.
Proof.
  intros Hi. destruct (task_ok_proc s (TDestroyProc p) _ p Hi) as (P & HP & Hd & Hok); [by left|done|]. cbn in Hd. cbn [task_step]. rewrite HP. cbn [mbind option_bind].
  assert (p_state_ P = INITIAL \/ p_state_ P = PDEAD) as Hst by (destruct Hok; tauto).
  replace (bool_decide (p_state_ P = INITIAL) || bool_decide (p_state_ P = PDEAD)) with true by (symmetry; apply orb_true_iff; rewrite !bool_decide_eq_true; done).
  destruct (leave_job_inv s _ p P Hi HP (or_introl Hd)) as (s' & new & -> & Hi' & Hst' & Hno & HJ'). cbn [mbind option_bind]. eexists _, _. split; [done|]. split; [|done].
  eapply (jt_inv_perm _ ([TFreeProc p] ++ new ++ T)); [solve_Permutation|]. eapply jt_inv_perm in Hi'; [|symmetry; apply Permutation_middle].
  pose proof (once_cons_inv s' _ _ 5%nat p Hi' eq_refl). pose proof (once_tail s' _ _ Hi'). apply inv_pop in Hi'; [|by intros (q & Q & HQ & ?); eapply Hno]. apply inv_push; [done| |].
  - constructor; [|done]. split; [done|]. intros k [= <-]. exists P. rewrite HJ'. done.
  - cbn. by constructor.
Qed.

Lemma kill_proc_inv s p code T : jt_inv_with s (TKillProc p code :: T) -> exists s' new, task_step true true (TKillProc p code) s = Some (s', new) /\ jt_inv_with s' (new ++ T) /\ stacks s' = stacks s.
Proof.
  intros Hi. destruct (task_ok_proc s (TKillProc p code) _ p Hi) as (P & HP & [Ha Hd] & Hok); [by left|done|]. cbn [task_step]. rewrite HP. cbn [mbind option_bind].
  destruct (proc_Kill_spec code P Hok) as (P' & dead & -> & Hok' & Hev & Hcr & Hst). cbn [mbind option_bind]. eexists _, _. split; [done|]. split; [|done].
  apply (inv_pop_after _ (TKillProc p code)).
  - apply (inv_proc_step s _ p P); try done; [by left|]. intros k. rewrite Hcr. apply (ji_critical _ _ Hi p P k HP).
  - intros (R & HR & ? & ?). cbn [procs put_proc] in HR. rewrite lookup_insert_eq in HR. injection HR as <-. by destruct Hst.
Qed.

Lemma close_proc_inv s p T : jt_inv_with s (TCloseProc p :: T) -> exists s' new, task_step true true (TCloseProc p) s = Some (s', new) /\ jt_inv_with s' (new ++ T) /\ stacks s' = stacks s.
Proof.
  intros Hi. destruct (task_ok_proc s (TCloseProc p) _ p Hi) as (P & HP & [Hd Hh] & Hok); [by left|done|]. cbn [task_step]. rewrite HP. cbn [mbind option_bind].
  destruct (on_zero_handles_spec P Hok) as (P' & dead & -> & Hok' & Hev & Hcr). cbn [mbind option_bind]. eexists _, _. split; [done|]. split; [|done].
  apply (inv_pop_after _ (TCloseProc p)); [|by intros ?]. apply (inv_proc_step s _ p P); try done; [by right|]. intros k. rewrite Hcr. apply (ji_critical _ _ Hi p P k HP).
Qed.

Lemma critical_inv s p T : jt_inv_with s (TCritical p :: T) -> exists s' new, task_step true true (TCritical p) s = Some (s', new) /\ jt_inv_with s' (new ++ T) /\ stacks s' = stacks s.
Proof.
  intros Hi. destruct (task_ok_proc s (TCritical p) _ p Hi) as (P & HP & _ & _); [by left|done|]. cbn [task_step]. rewrite HP. cbn [mbind option_bind]. eexists _, _. split; [done|]. split; [|done].
  apply inv_pop in Hi; [|by intros ?]. unfold kill_job. destruct (critical_to_job_ P) as [k|] eqn:Hk; [|done]. destruct (_ || _); [|done].
  destruct (ji_critical _ _ Hi p P k HP Hk) as (K & HK & ? & ?). apply inv_push; [done| |apply Hi]. constructor; [|done]. split; [|done]. intros j [= <-]. exists K. done.
Qed.

(** No task goes wrong, and each preserves the invariant. *)
Lemma task_step_inv ac1 ac2 t s T : jt_inv_with s (t :: T) -> exists s' new, task_step ac1 ac2 t s = Some (s', new) /\ jt_inv_with s' (new ++ T) /\ stacks s' = stacks s.
Proof.
  intros Hi. destruct t as [j|j code|j|j|j|j|j|p|p code|p|p|p|p|p|p].
  - destruct (add_job_inv s j T Hi) as (s' & H1 & H2 & H3). exists s', []. split_and!; done.
  - by apply Kill_inv.
  - destruct (task_ok_job s (TFinishDead j) _ j Hi) as (J & HJ & (Hst & _ & _ & Hd) & _); [by left|done|]. cbn [task_step]. rewrite HJ. cbn [mbind option_bind].
    exists s, [TDead j]. split; [|split; [by apply finish_dead_inv|done]]. destruct (parent_ J) as [q|] eqn:Hq; [|done].
    destruct (ji_link _ _ Hi j J q HJ Hq) as (Q & HQ & _). rewrite HQ. cbn [mbind option_bind]. rewrite bool_decide_false; [done|]. by apply (parent_not_dead s _ j J q Q Hi).
  - destruct (task_ok_job s (TDead j) _ j Hi) as (J & HJ & _ & _); [by left|done|]. cbn [task_step]. rewrite HJ. eexists _, _. split; [done|]. split; [|done]. by apply dead_inv.
  - destruct (task_ok_job s (TRemoveJob j) _ j Hi) as (J & HJ & (Hst & _) & _); [by left|done|].
    destruct (leave_parent_inv s _ j J Hi HJ (or_intror Hst)) as (s' & new & H1 & H2 & H3 & H4 & _). exists s', new. split; [done|]. split; [|done].
    apply (inv_pop_after _ (TRemoveJob j)); [done|]. intros (q & Q & HQ & ?). by eapply H4.
  - by apply destroy_job_inv.
  - eexists _, []. split; [done|]. split; [|done]. by apply free_job_inv.
  - by apply add_proc_inv.
  - by apply kill_proc_inv.
  - by apply close_proc_inv.
  - destruct (task_ok_proc s (TFinishProc p) _ p Hi) as (P & HP & (Hst & _ & Hc) & Hok); [by left|done|]. cbn [task_step]. rewrite HP. cbn [mbind option_bind].
    destruct (FinishDeadTransition_spec P Hok Hst Hc) as (P' & -> & ? & ? & ? & ? & ? & ? & ? & ?). eexists _, _. split; [done|]. split; [|done]. by apply (finish_proc_inv s p T P P').
  - destruct (task_ok_proc s (TRemoveProc p) _ p Hi) as (P & HP & (_ & Hst) & _); [by left|done|].
    destruct (leave_job_inv s _ p P Hi HP (or_intror Hst)) as (s' & new & H1 & H2 & H3 & H4 & _). exists s', new. split; [done|]. split; [|done].
    apply (inv_pop_after _ (TRemoveProc p)); [done|]. intros (q & Q & HQ & ?). by eapply H4.
  - by apply critical_inv.
  - by apply destroy_proc_inv.
  - eexists _, []. split; [done|]. split; [|done]. by apply free_proc_inv.
Qed.

(** ** Every operation *)

Lemma pending_push t new s s' : push t new s = Some s' -> pending s' ≡ₚ new ++ pending s /\ jobs s' = jobs s /\ procs s' = procs s.
Proof.
  unfold push. destruct (stacks s !! t) as [stack|] eqn:E; [|done]. intros [= <-]. split; [|done]. unfold pending. cbn [stacks set_stacks].
  destruct (flat_map_insert id _ _ _ E) as (R & H1 & H2). specialize (H2 (new ++ stack)). rewrite flat_map_concat_map, map_id in H1, H2. rewrite H1, H2. unfold id. solve_Permutation.
Qed.

Lemma jt_inv_push t new s s' : push t new s = Some s' -> jt_inv_with s (new ++ pending s) -> jt_inv s'.
Proof.
  intros Hp Hi. destruct (pending_push t new s s' Hp) as (HT & Hj & Hpr). unfold jt_inv. eapply jt_inv_perm; [symmetry; exact HT|].
  destruct s, s'; cbn in *; subst. by destruct Hi.
Qed.

Lemma begin_push t new s s' : begin t new s = Some s' -> push t new s = Some s'.
Proof. unfold begin. destruct (stacks s !! t); [|done]. cbn [mbind option_bind]. by destruct (is_nil _). Qed.

Lemma usable_job_spec j s J : usable_job j s = Some J -> jobs s !! j = Some J /\ j_added J = true /\ j_dying J = false.
Proof. unfold usable_job. destruct (jobs s !! j) as [K|]; [|done]. cbn [mbind option_bind]. destruct (j_added K) eqn:E1, (j_dying K) eqn:E2; try done. by intros [= <-]. Qed.

Lemma usable_proc_spec p s P : usable_proc p s = Some P -> procs s !! p = Some P /\ p_added P = true /\ p_dying P = false.
Proof. unfold usable_proc. destruct (procs s !! p) as [K|]; [|done]. cbn [mbind option_bind]. destruct (p_added K) eqn:E1, (p_dying K) eqn:E2; try done. by intros [= <-]. Qed.

(** A change of a job that the tree does not see. *)
Lemma inv_same_job s T j J J' :
  jt_inv_with s T -> jobs s !! j = Some J -> job_ok J' -> parent_ J' = parent_ J -> max_height_ J' = max_height_ J -> j_state_ J' = j_state_ J ->
  jobs_ J' = jobs_ J -> procs_ J' = procs_ J -> j_added J' = j_added J -> j_dying J' = j_dying J -> j_nomem J' = j_nomem J -> jt_inv_with (put_job j J' s) T.
Proof.
  intros Hi HJ Hok Hp Hh Hs Hj Hpr Ha Hd Hn. eapply (inv_put_job s T T j J J'); try done.
  - by rewrite Hj.
  - by rewrite Hpr.
  - intros t Ht. destruct (decide (task_job t = Some j)) as [Htj|]; [|by left]. right. split; [|by destruct t]. intros k Hk. assert (k = j) as -> by congruence.
    destruct (task_ok_job s t T j Hi Ht Htj) as (K & HK & Hto & _). rewrite HJ in HK. injection HK as <-. exists J'. cbn [jobs put_job]. rewrite lookup_insert_eq. split; [done|].
    destruct t; try done; cbn in Hto |- *; rewrite ?Ha, ?Hd, ?Hs, ?Hj, ?Hpr; try done. destruct Hto as [? Hto]. split; [done|]. intros q Q. cbn [jobs put_job]. rewrite lookup_insert_Some.
    intros [[<- <-]|[_ HQ]]; [rewrite Hj; by apply (Hto j J)|by apply (Hto q)].
  - apply Hi.
  - intros q Q _ _ _ []. constructor; rewrite ?Ha, ?Hd, ?Hs; try done. lia.
  - intros c C _ _ _ []. constructor; rewrite ?Ha, ?Hd, ?Hs, ?Hj, ?Hn; try done. lia.
  - intros p P _ _ []. constructor; rewrite ?Ha, ?Hd, ?Hs, ?Hpr, ?Hn; done.
  - intros p P HP Hk. destruct (ji_critical _ _ Hi p P j HP Hk) as (K & HK & ? & ?). rewrite Ha, Hd. by assert (K = J) as -> by congruence.
  - rewrite Hs, Hj, Hpr. by apply (ji_finish _ _ Hi j J).
Qed.

Lemma new_job_inv s T k d q Q policy :
  jt_inv_with s T -> jobs s !! k = None -> jobs s !! q = Some Q -> j_added Q = true -> j_dying Q = false -> max_height_ Q <> 0 -> signals_ d = new_job_signals ->
  jt_inv_with (put_job k (JobDispatcher_new d (Some (q, Q)) policy) s) (TAddJob k :: T).
Proof.
  intros Hi Hk HQ Ha Hd Hh Hsig. pose proof Hi as []. pose proof (jo_height _ (ji_job0 q Q HQ)) as HhQ. unfold kRootJobMaxHeight in HhQ. set (J := JobDispatcher_new d (Some (q, Q)) policy).
  assert (max_height_ J = max_height_ Q - 1) as HhJ by (cbn; apply wrap_small; lia).
  assert (job_ok J) as HokJ. { constructor; try done; [unfold kRootJobMaxHeight; lia|split; constructor|..]; unfold jbit; cbn [J JobDispatcher_new j_base]; by rewrite Hsig. }
  assert (forall x X, jobs s !! x = Some X -> x <> k) as Hne by congruence.
  constructor; cbn [jobs procs put_job]; try done.
  - intros x X. rewrite lookup_insert_Some. intros [[_ <-]|[_ ?]]; eauto.
  - intros c C r. rewrite lookup_insert_Some. intros [[<- <-]|[Hck Hc]] Hr.
    + assert (r = q) as -> by (cbn in Hr; congruence). exists Q. rewrite lookup_insert_ne by (symmetry; eauto). split; [done|]. assert (k ∉ jobs_ Q) as Hno by (intros Hin; destruct (ji_children0 q Q k HQ Hin) as (? & ? & _); congruence).
      constructor; try done. lia.
    + destruct (ji_link0 c C r Hc Hr) as (R & HR & Hlk). exists R. rewrite lookup_insert_ne by (symmetry; eauto). split; [done|]. eapply link_ok_mono; [|done]. intros; by right.
  - intros p P HP. destruct (ji_plink0 p P HP) as (R & HR & Hlk). exists R. rewrite lookup_insert_ne by (symmetry; eauto). split; [done|]. eapply plink_ok_mono; [|done]. intros; by right.
  - intros r R c. rewrite lookup_insert_Some. intros [[<- <-]|[Hrk HR]] Hin; [by apply elem_of_nil in Hin|]. destruct (ji_children0 r R c HR Hin) as (C & HC & ?). exists C. rewrite lookup_insert_ne by (symmetry; eauto). done.
  - intros r R p. rewrite lookup_insert_Some. intros [[<- <-]|[Hrk HR]] Hin; [by apply elem_of_nil in Hin|eauto].
  - intros p P n HP Hn. destruct (ji_critical0 p P n HP Hn) as (K & HK & ?). exists K. rewrite lookup_insert_ne by (symmetry; eauto). done.
  - constructor.
    { split; [|done]. intros x [= <-]. exists J. cbn [jobs put_job]. by rewrite lookup_insert_eq. }
    eapply Forall_impl; [exact ji_tasks0|]. intros t [H1 H2]. split.
    + intros x Hx. destruct (H1 x Hx) as (X & HX & Hto). exists X. cbn [jobs put_job]. rewrite lookup_insert_ne by (symmetry; eauto). split; [done|]. destruct t; try done. destruct Hto as [? Hto]. split; [done|].
      intros r R. cbn [jobs put_job]. rewrite lookup_insert_Some. intros [[<- <-]|[_ HR]]; [apply not_elem_of_nil|by apply (Hto r)].
    + intros x Hx. destruct (H2 x Hx) as (X & HX & Hto). exists X. split; [done|]. destruct t; try done. destruct Hto as [? Hto]. split; [done|].
      intros r R. cbn [jobs put_job]. rewrite lookup_insert_Some. intros [[<- <-]|[_ HR]]; [apply not_elem_of_nil|by apply (Hto r)].
  - cbn. constructor; [|done]. intros (t & Ht & Ho)%once_in. destruct t; try done. injection Ho as ->. destruct (task_ok_job s _ T k Hi Ht eq_refl) as (X & HX & _). congruence.
  - intros x X. rewrite lookup_insert_Some. intros [[<- <-]|[_ HX]] ? ? ?; [done|]. destruct (ji_finish0 x X) as [?|?]; try done; [left|right]; by right.
Qed.

Lemma new_proc_inv s T k d j J init :
  jt_inv_with s T -> procs s !! k = None -> jobs s !! j = Some J -> j_added J = true -> j_dying J = false -> signals_ d = 0 ->
  jt_inv_with (put_proc k (set_plife init false false (ProcessDispatcher_new d j J)) s) ((if init then TAddProc k else TCloseProc k) :: T).
Proof.
  intros Hi Hk HJ Ha Hd Hsig. pose proof Hi as []. set (P := set_plife init false false (ProcessDispatcher_new d j J)). set (t0 := if init then TAddProc k else TCloseProc k).
  assert (proc_ok P) as HokP. { constructor; try done; try (cbn; by auto); [cbn; tauto|]. change (Z.testbit (signals_ d) 3 = false). by rewrite Hsig. }
  assert (forall x X, procs s !! x = Some X -> x <> k) as Hne by congruence.
  constructor; cbn [jobs procs put_proc]; try done.
  - intros x X. rewrite lookup_insert_Some. intros [[_ <-]|[_ ?]]; eauto.
  - intros c C r Hc Hr. destruct (ji_link0 c C r Hc Hr) as (R & HR & Hlk). exists R. split; [done|]. eapply link_ok_mono; [|done]. intros; by right.
  - intros p X. rewrite lookup_insert_Some. intros [[<- <-]|[Hpk HP]].
    + exists J. split; [done|]. assert (k ∉ procs_ J) as Hno by (intros Hin; destruct (ji_pchildren0 j J k HJ Hin) as (? & ? & _); congruence). by constructor.
    + destruct (ji_plink0 p X HP) as (R & HR & Hlk). exists R. split; [done|]. eapply plink_ok_mono; [|done]. intros; by right.
  - intros r R p HR Hin. destruct (ji_pchildren0 r R p HR Hin) as (X & HX & ?). exists X. rewrite lookup_insert_ne by (symmetry; eauto). done.
  - intros p X n. rewrite lookup_insert_Some. intros [[<- <-]|[_ HX]] Hn; [done|eauto].
  - constructor.
    { split; [by destruct init|]. intros x Hx. assert (x = k) as -> by (destruct init; cbn in Hx; congruence). exists P. cbn [procs put_proc]. rewrite lookup_insert_eq. split; [done|]. by destruct init. }
    eapply Forall_impl; [exact ji_tasks0|]. intros t Ht. apply task_ok_put_proc; [|done]. intros E. destruct (proj2 Ht k E) as (X & HX & _). congruence.
  - unfold t0. destruct init; [|done]. cbn. constructor; [|done]. intros (t & Ht & Ho)%once_in. destruct t; try done. injection Ho as ->. destruct (task_ok_proc s _ T k Hi Ht eq_refl) as (X & HX & _). congruence.
  - intros x X HX ? ? ?. destruct (ji_finish0 x X) as [?|?]; try done; [left|right]; by right.
Qed.

(** An object without references is in nobody's hands. *)
Lemma job_referenced_spec j s : job_referenced j s = false ->
  (forall c C, jobs s !! c = Some C -> parent_ C <> Some j) /\ (forall p P, procs s !! p = Some P -> job_ P <> j /\ critical_to_job_ P <> Some j) /\ (forall t, t ∈ pending s -> task_job t <> Some j).
Proof.
  unfold job_referenced. intros [[H1 H2]%orb_false_iff H3]%orb_false_iff. split_and!.
  - intros c C Hc E. enough (existsb (fun '(_, C) => bool_decide (parent_ C = Some j)) (map_to_list (jobs s)) = true) by congruence.
    apply existsb_exists. exists (c, C). split; [by apply list_elem_of_In, elem_of_map_to_list|by apply bool_decide_eq_true].
  - intros p P Hp. rewrite <-not_true_iff_false, existsb_exists in H2. split; intros E; apply H2; exists (p, P); (split; [by apply list_elem_of_In, elem_of_map_to_list|]); apply orb_true_iff; rewrite !bool_decide_eq_true; auto.
  - intros t Ht E. rewrite <-not_true_iff_false, existsb_exists in H3. apply H3. exists t. split; [by apply list_elem_of_In|by apply bool_decide_eq_true].
Qed.

Lemma proc_referenced_spec p P s : proc_referenced p P s = false ->
  p_handle P = false /\ thread_list_ P = [] /\ (forall t, t ∈ pending s -> task_proc t <> Some p).
Proof.
  unfold proc_referenced. intros [[[H1 H2]%orb_false_iff H3]%orb_false_iff H4]%orb_false_iff. split_and!; [done| |].
  - apply negb_false_iff in H2. by apply is_nil_spec.
  - intros t Ht E. rewrite <-not_true_iff_false, existsb_exists in H4. apply H4. exists t. split; [by apply list_elem_of_In|by apply bool_decide_eq_true].
Qed.

Lemma drop_job_inv s j J :
  jt_inv s -> jobs s !! j = Some J -> j_dying J = false -> parent_ J <> None -> job_referenced j s = false ->
  jt_inv_with (put_job j (set_jlife (j_added J) true J) s) (TDestroyJob j :: pending s).
Proof.
  intros Hi HJ Hd Hp (H1 & H2 & H3)%job_referenced_spec. pose proof (ji_job _ _ Hi j J HJ) as Hok. eapply (inv_put_job s (pending s) _ j J); try done.
  - destruct Hok. by constructor.
  - intros t ? _. by right.
  - intros t [->|Ht]%elem_of_cons; [|left; split; [done|auto]]. right. split; [|done]. intros k [= <-]. eexists. cbn [jobs put_job]. by rewrite lookup_insert_eq.
  - cbn. constructor; [|apply Hi]. intros (t & Ht & Ho)%once_in. apply (H3 t Ht). destruct t; try done; cbn in *; congruence.
  - intros q Q _ _ _ Hlk. eapply (link_ok_mono _ (TDestroyJob j :: pending s)) in Hlk; [|intros; by right]. destruct Hlk. constructor; try done; cbn; auto. intros _ _. by left.
  - intros c C Hc _ HC. by destruct (H1 c C HC).
  - intros p P Hj HP. by destruct (H2 p P HP).
  - intros p P HP Hk. by destruct (H2 p P HP).
  - cbn. intros Hs E1 E2. destruct (ji_finish _ _ Hi j J HJ Hs E1 E2); [left|right]; by right.
Qed.

Lemma drop_proc_inv s p P :
  jt_inv s -> procs s !! p = Some P -> p_dying P = false -> proc_referenced p P s = false ->
  jt_inv_with (put_proc p (set_plife (p_handle P) (p_added P) true P) s) (TDestroyProc p :: pending s).
Proof.
  intros Hi HP Hd (Hh & Ht0 & H3)%proc_referenced_spec. pose proof (ji_proc _ _ Hi p P HP) as Hok. eapply (inv_put_proc s (pending s) _ p P); try done.
  - destruct Hok. by constructor.
  - intros t ? _. by right.
  - intros t [->|Ht]%elem_of_cons; [|left; split; [done|auto]]. right. split; [done|]. intros k [= <-]. eexists. cbn [procs put_proc]. by rewrite lookup_insert_eq.
  - cbn. constructor; [|apply Hi]. intros (t & Ht & Ho)%once_in. apply (H3 t Ht). destruct t; try done; cbn in *; congruence.
  - intros J HJ []. constructor; try done; cbn; auto. intros _ _. by left.
  - intros k. apply (ji_critical _ _ Hi p P k HP).
Qed.

Lemma is_ancestor_total s T target fuel j J : jt_inv_with s T -> jobs s !! j = Some J -> kRootJobMaxHeight - max_height_ J < Z.of_nat fuel -> exists b, is_ancestor fuel target (Some j) s = Some b.
Proof.
  intros Hi. revert j J. induction fuel as [|fuel IH]; intros j J HJ Hf; pose proof (jo_height _ (ji_job _ _ Hi j J HJ)); [lia|]. cbn [is_ancestor]. case_bool_decide; [eauto|].
  rewrite HJ. cbn [mbind option_bind]. destruct (parent_ J) as [q|] eqn:Hq; [|destruct fuel; eauto]. destruct (ji_link _ _ Hi j J q HJ Hq) as (Q & HQ & []). apply (IH q Q HQ). lia.
Qed.

(** A step that is not enabled, or that ends in a state that satisfies the invariant. *)
Definition safe_step (r : option (option Sys)) : Prop := r = None \/ exists s', r = Some (Some s') /\ jt_inv s'.

Lemma safe_some s' : jt_inv s' -> safe_step (Some (Some s')).
Proof. right. eauto. Qed.

Lemma safe_push t new s : jt_inv_with s (new ++ pending s) -> safe_step (s ← push t new s; Some (Some s)).
Proof. intros Hi. destruct (push t new s) as [s'|] eqn:E; cbn [mbind option_bind]; [|by left]. apply safe_some. by eapply jt_inv_push. Qed.

Lemma safe_begin t new s : jt_inv_with s (new ++ pending s) -> safe_step (s ← begin t new s; Some (Some s)).
Proof. intros Hi. destruct (begin t new s) as [s'|] eqn:E; cbn [mbind option_bind]; [|by left]. apply safe_some. apply begin_push in E. by eapply jt_inv_push. Qed.

Lemma safe_with_job j f s :
  jt_inv s -> (forall J, job_ok J -> job_ok (f J) /\ parent_ (f J) = parent_ J /\ max_height_ (f J) = max_height_ J /\ j_state_ (f J) = j_state_ J /\ jobs_ (f J) = jobs_ J /\
    procs_ (f J) = procs_ J /\ j_added (f J) = j_added J /\ j_dying (f J) = j_dying J /\ j_nomem (f J) = j_nomem J) -> safe_step (with_job j f s).
Proof.
  intros Hi Hf. unfold with_job. destruct (usable_job j s) as [J|] eqn:E; [|by left]. apply usable_job_spec in E as (HJ & _ & _). cbn [mbind option_bind]. apply safe_some.
  destruct (Hf J (ji_job _ _ Hi j J HJ)) as (? & ? & ? & ? & ? & ? & ? & ? & ?). by eapply (inv_same_job s (pending s) j J).
Qed.

Lemma safe_with_proc p f s :
  jt_inv s -> (forall P, procs s !! p = Some P -> p_added P = true -> p_dying P = false -> proc_ok P -> exists P', f P = Some P' /\ proc_ok P' /\ evolves P P' false /\
    (critical_to_job_ P' = critical_to_job_ P \/ exists k K, critical_to_job_ P' = Some k /\ jobs s !! k = Some K /\ j_added K = true /\ j_dying K = false)) -> safe_step (with_proc p f s).
Proof.
  intros Hi Hf. unfold with_proc. destruct (usable_proc p s) as [P|] eqn:E; [|by left]. apply usable_proc_spec in E as (HP & Ha & Hd). cbn [mbind option_bind].
  destruct (Hf P HP Ha Hd (ji_proc _ _ Hi p P HP)) as (P' & -> & Hok & Hev & Hcr). cbn [mbind option_bind]. apply safe_some.
  apply (inv_proc_step s (pending s) p P P' false); try done; [by left|]. intros k Hk. destruct Hcr as [Hcr|(k' & K & Hk' & HK & ? & ?)].
  - rewrite Hcr in Hk. apply (ji_critical _ _ Hi p P k HP Hk).
  - assert (k' = k) as -> by congruence. eauto.
Qed.

Lemma same_policy_ok p J : job_ok J -> job_ok (set_jpolicy p J).
Proof. intros []. by constructor. Qed.

Lemma SetBasicPolicy_same mode policy J : exists p, fst (SetBasicPolicy mode policy J) = set_jpolicy p J.
Proof. unfold SetBasicPolicy. destruct (negb _); [exists (j_policy_ J); by destruct J|]. destruct (policy_AddBasicPolicy _ _ _). by eexists. Qed.

Lemma SetTimerSlack_same m d J : exists p, fst (SetTimerSlackPolicy m d J) = set_jpolicy p J.
Proof.
  unfold SetTimerSlackPolicy. destruct (negb _); [exists (j_policy_ J); by destruct J|]. destruct (_ <? _); [exists (j_policy_ J); by destruct J|].
  destruct (TimerDispatcher.timer_slack_mode d); [by eexists|exists (j_policy_ J); by destruct J].
Qed.

Lemma job_signal_ok d J : job_ok J -> (forall i, 3 <= i <= 6 -> Z.testbit (signals_ d) i = jbit i J) -> job_ok (set_jbase d J).
Proof.
  intros [] Hb. assert (forall i, 3 <= i <= 6 -> jbit i (set_jbase d J) = jbit i J) as Hb' by exact Hb. constructor; try done; [by rewrite Hb' by lia|]. by rewrite !Hb' by lia.
Qed.

Lemma user_bits_free i : 3 <= i <= 6 -> Z.testbit (Z.lor ZX_USER_SIGNAL_ALL 0) i = false.
Proof. intros. assert (i = 3 \/ i = 4 \/ i = 5 \/ i = 6) as [-> |[-> |[-> | ->]]] by lia; done. Qed.

Lemma run_inv t ac1 ac2 s : jt_inv s -> safe_step (jt_step (JtRun t ac1 ac2) s).
Proof.
  intros Hi. cbn [jt_step]. destruct (stacks s !! t) as [[|task rest]|] eqn:E; [by left| |by left].
  set (s0 := set_stacks (<[t := rest]> (stacks s)) s). destruct (flat_map_insert id _ _ _ E) as (R & H1 & H2). specialize (H2 rest). rewrite flat_map_concat_map, map_id in H1, H2. unfold id in H1, H2.
  assert (pending s ≡ₚ task :: pending s0) as HT by (unfold pending, s0; cbn [stacks set_stacks]; rewrite H1, H2; done).
  assert (jt_inv_with s0 (task :: pending s0)) as Hi0 by (apply jt_inv_stacks; by eapply jt_inv_perm).
  destruct (task_step_inv ac1 ac2 task s0 (pending s0) Hi0) as (s' & new & -> & Hi' & Hst). apply safe_push. unfold pending at 1. by rewrite Hst.
Qed.

Lemma new_job_step_inv t q s : jt_inv s -> safe_step (new_job_step t q s).
Proof.
  intros Hi. unfold new_job_step. destruct (usable_job q s) as [Q|] eqn:E; [|by left]. apply usable_job_spec in E as (HQ & Ha & Hd). cbn [mbind option_bind].
  destruct (Z.eqb_spec (max_height_ Q) 0); [by apply safe_some|]. cbn [Dispatcher_new GenerateKernelObjectId]. cbn [koid_]. set (k := next_koid s). set (d := mkDispatcher k 0 new_job_signals [] []).
  destruct (bool_decide (is_Some (jobs s !! k)) || _) eqn:Ef; [by left|]. apply orb_false_iff in Ef as [Ef%bool_decide_eq_false _]. apply eq_None_not_Some in Ef.
  destruct (begin t [TAddJob k] s) as [s'|] eqn:Eb; cbn [mbind option_bind]; [|by left]. apply begin_push, pending_push in Eb as (HT & Hj & Hp). apply safe_some.
  pose proof (new_job_inv s (pending s) k d q Q (j_policy_ Q) Hi Ef HQ Ha Hd ltac:(done) eq_refl) as Hi'. unfold jt_inv. eapply (jt_inv_perm _ _ (pending s')) in Hi'; [|by rewrite HT].
  destruct s, s'; cbn in *; subst. by destruct Hi'.
Qed.

Lemma new_proc_step_inv t j init s : jt_inv s -> safe_step (new_proc_step t j init s).
Proof.
  intros Hi. unfold new_proc_step. destruct (usable_job j s) as [J|] eqn:E; [|by left]. apply usable_job_spec in E as (HJ & Ha & Hd). cbn [mbind option_bind].
  cbn [Dispatcher_new GenerateKernelObjectId]. cbn [koid_]. set (k := next_koid s). set (d := mkDispatcher k 0 0 [] []).
  destruct (_ || bool_decide (is_Some (procs s !! k))) eqn:Ef; [by left|]. apply orb_false_iff in Ef as [_ Ef%bool_decide_eq_false]. apply eq_None_not_Some in Ef.
  destruct (begin t [if init then TAddProc k else TCloseProc k] s) as [s'|] eqn:Eb; cbn [mbind option_bind]; [|by left]. apply begin_push, pending_push in Eb as (HT & Hj & Hp). apply safe_some.
  pose proof (new_proc_inv s (pending s) k d j J init Hi Ef HJ Ha Hd eq_refl) as Hi'. unfold jt_inv. eapply (jt_inv_perm _ _ (pending s')) in Hi'; [|by rewrite HT].
  destruct s, s'; cbn in *; subst. by destruct Hi'.
Qed.

Lemma close_handle_inv s p P : jt_inv s -> procs s !! p = Some P -> p_added P = true -> p_dying P = false ->
  jt_inv_with (put_proc p (set_plife false (p_added P) (p_dying P) P) s) (TCloseProc p :: pending s).
Proof.
  intros Hi HP Ha Hd. pose proof (ji_proc _ _ Hi p P HP) as Hok. eapply (inv_put_proc s (pending s) _ p P); try done.
  - by destruct Hok.
  - intros t ? _. by right.
  - intros t [->|Ht]%elem_of_cons; [right; split; [done|]; intros k [= <-]; eexists; cbn [procs put_proc]; by rewrite lookup_insert_eq|].
    destruct (decide (task_proc t = Some p)) as [Htp|]; [|by left]. right. split; [by destruct t|]. intros k Hk. assert (k = p) as -> by congruence.
    destruct (task_ok_proc s t _ p Hi Ht Htp) as (K & HK & Hto & _). rewrite HP in HK. injection HK as <-. eexists. cbn [procs put_proc]. rewrite lookup_insert_eq. split; [done|].
    destruct t; try done; cbn in Hto |- *; destruct Hto; congruence.
  - apply Hi.
  - intros J HJ Hlk. eapply plink_ok_mono in Hlk; [by destruct Hlk|]. intros; by right.
  - intros k. apply (ji_critical _ _ Hi p P k HP).
Qed.

Lemma thread_exit_inv t p th s : jt_inv s -> safe_step (jt_step (JtThreadExit t p th) s).
Proof.
  intros Hi. cbn [jt_step]. destruct (usable_proc p s) as [P|] eqn:E; [|by left]. apply usable_proc_spec in E as (HP & Ha & Hd). cbn [mbind option_bind].
  case_bool_decide as Hth; cbn [negb]; [|by left]. pose proof (ji_proc _ _ Hi p P HP) as Hok.
  destruct (RemoveThread_spec th P Hok Hth) as (P' & dead & -> & Hok' & Hev & Hcr).
  { destruct (completely_dead_ P) eqn:Ec; [|done]. destruct Hok. assert (thread_list_ P = []) as El by (apply po_threads0; auto). rewrite El in Hth. by apply elem_of_nil in Hth. }
  apply safe_begin. change (pending (put_proc p P' s)) with (pending s). apply (inv_proc_step s _ p P); try done; [by left|]. intros k. rewrite Hcr. apply (ji_critical _ _ Hi p P k HP).
Qed.

(** Every operation of every thread, from a state that satisfies the invariant. *)
Lemma jt_step_inv op s : jt_inv s -> safe_step (jt_step op s).
Proof.
  intros Hi.
  destruct op as [t q|t j init|t j code|t p code|p th ini run|p th code|t p th|t p|p|p|j mode pol|j mode pol ac|j m d|j b|p j nz|j c sg|p c sg|t j|t p|t ac1 ac2].
  - by apply new_job_step_inv.
  - by apply new_proc_step_inv.
  - cbn [jt_step]. destruct (usable_job j s) as [J|] eqn:E; [|by left]. apply usable_job_spec in E as (HJ & Ha & Hd). cbn [mbind option_bind]. apply safe_begin. apply inv_push; [done| |apply Hi].
    constructor; [|done]. split; [|done]. intros k [= <-]. exists J. done.
  - cbn [jt_step]. destruct (usable_proc p s) as [P|] eqn:E; [|by left]. apply usable_proc_spec in E as (HJ & Ha & Hd). cbn [mbind option_bind]. apply safe_begin. apply inv_push; [done| |apply Hi].
    constructor; [|done]. split; [done|]. intros k [= <-]. exists P. done.
  - cbn [jt_step]. destruct (usable_proc p s) as [P|]; [|by left]. cbn [mbind option_bind]. case_bool_decide; [by left|]. apply safe_with_proc; [done|]. intros R HR Ha Hd Hok.
    destruct (AddInitializedThread_spec th ini run R Hok Hd Ha) as (R' & st & -> & ? & ? & ?). exists R'. auto.
  - cbn [jt_step]. destruct (usable_proc p s) as [P|] eqn:E; [|by left]. apply usable_proc_spec in E as (HP & _). cbn [mbind option_bind]. case_bool_decide as Hth; [|by left]. apply safe_with_proc; [done|]. intros R HR Ha Hd Hok.
    destruct (Exit_spec code R Hok) as (R' & -> & ? & ? & ?); [|exists R'; auto]. assert (R = P) as -> by congruence. intros El. rewrite El in Hth. by apply elem_of_nil in Hth.
  - by apply thread_exit_inv.
  - cbn [jt_step]. destruct (usable_proc p s) as [P|] eqn:E; [|by left]. apply usable_proc_spec in E as (HP & Ha & Hd). cbn [mbind option_bind]. destruct (negb (p_handle P)); [by left|]. apply safe_begin. by apply close_handle_inv.
  - apply safe_with_proc; [done|]. intros R HR Ha Hd Hok. destruct (token_Create_spec R Hok) as (R' & st & -> & ? & ? & ?). exists R'. auto.
  - cbn [jt_step]. destruct (usable_proc p s) as [P|] eqn:E; [|by left]. apply usable_proc_spec in E as (HP & _). cbn [mbind option_bind]. destruct (Z.ltb_spec 0 (p_tokens P)); [|by left]. apply safe_with_proc; [done|]. intros R HR Ha Hd Hok.
    destruct (token_close_spec R Hok) as (R' & -> & ? & ? & ?); [|exists R'; auto]. by assert (R = P) as -> by congruence.
  - apply safe_with_job; [done|]. intros J Hok. destruct (SetBasicPolicy_same mode pol J) as [p ->]. split_and!; [by apply same_policy_ok|done..].
  - apply safe_with_job; [done|]. intros J Hok. unfold SetBasicPolicy_v1. destruct ac; cbn [negb]; [|done]. destruct (SetBasicPolicy_same mode (map (fun '(condition, policy) => mkPolicyV2 condition policy ZX_POL_OVERRIDE_DENY) pol) J) as [p ->]. split_and!; [by apply same_policy_ok|done..].
  - apply safe_with_job; [done|]. intros J Hok. destruct (SetTimerSlack_same m d J) as [p ->]. split_and!; [by apply same_policy_ok|done..].
  - apply safe_with_job; [done|]. intros J []. split_and!; [by constructor|done..].
  - cbn [jt_step]. destruct (usable_job j s) as [K|] eqn:E; [|by left]. apply usable_job_spec in E as (HK & HaK & HdK). cbn [mbind option_bind]. apply safe_with_proc; [done|]. intros R HR Ha Hd Hok.
    unfold SetCriticalToJob. destruct (critical_to_job_ R) as [x|] eqn:Ex; cbn [mbind option_bind]; [exists R; split_and!; [done..|apply evolves_refl|by left]|].
    destruct (ji_plink _ _ Hi p R HR) as (J & HJ & _). destruct (is_ancestor_total s _ j 33 (job_ R) J Hi HJ) as [b ->]; [pose proof (jo_height _ (ji_job _ _ Hi _ J HJ)); unfold kRootJobMaxHeight in *; lia|].
    destruct b; cbn [mbind option_bind]; [|exists R; split_and!; [done..|apply evolves_refl|by left]]. eexists. split; [done|]. split_and!; [by destruct Hok| |right; exists j, K; by split_and!].
    destruct (evolves_refl R). by constructor.
  - apply safe_with_job; [done|]. intros J Hok. split_and!; [|done..]. apply job_signal_ok; [done|]. intros i Hb. apply solo_user_signal_bit; [lia|by apply user_bits_free].
  - apply safe_with_proc; [done|]. intros R HR Ha Hd Hok. eexists. split; [done|]. split_and!; [| |by left]; [|destruct (evolves_refl R); by constructor].
    destruct Hok. constructor; try done. change (Z.testbit (signals_ (fst (solo_user_signal_self ZX_DEFAULT_PROCESS_RIGHTS 0 (p_base R) c sg))) 3 = completely_dead_ R). rewrite solo_user_signal_bit; [done|lia|done].
  - cbn [jt_step]. destruct (jobs s !! j) as [J|] eqn:HJ; [|by left]. cbn [mbind option_bind]. destruct (_ || _) eqn:E; [by left|]. apply orb_false_iff in E as [[E1 E2%bool_decide_eq_false]%orb_false_iff E3].
    apply safe_push. by apply drop_job_inv.
  - cbn [jt_step]. destruct (procs s !! p) as [P|] eqn:HP; [|by left]. cbn [mbind option_bind]. destruct (_ || _) eqn:E; [by left|]. apply orb_false_iff in E as [E1 E3]. apply safe_push. by apply drop_proc_inv.
  - by apply run_inv.
Qed.

(** ** Runs *)

Lemma jt_boot_inv koid n slack : jt_inv (jt_boot koid n slack).
Proof.
  unfold jt_inv. assert (pending (jt_boot koid n slack) = []) as -> by (unfold pending; cbn; by induction n).
  set (J := set_jlife true false (JobDispatcher_new (mkDispatcher koid 0 new_job_signals [] []) None (CreateRootPolicy slack))).
  assert (forall j K, jobs (jt_boot koid n slack) !! j = Some K -> j = koid /\ K = J) as HJ. { intros j K. cbn [jobs jt_boot]. rewrite lookup_singleton_Some. by intros [-> <-]. }
  constructor; try done.
  - intros j K [-> ->]%HJ. constructor; try done. split; constructor.
  - intros c C q [-> ->]%HJ. done.
  - intros q Q c [-> ->]%HJ Hin. by apply elem_of_nil in Hin.
  - intros q Q c [-> ->]%HJ Hin. by apply elem_of_nil in Hin.
  - constructor.
  - intros j K [-> ->]%HJ. done.
Qed.

Lemma jt_run_inv ops s : jt_inv s -> exists s', jt_run ops s = Some s' /\ jt_inv s'.
Proof.
  revert s. induction ops as [|op ops IH]; intros s Hi; cbn [jt_run]; [eauto|]. destruct (jt_step_inv op s Hi) as [-> |(s' & -> & Hi')]; auto.
Qed.

(** What a user sees of a job: its signals tell its state and whether it has children. *)
Definition job_signals_ok (J : Job) : Prop :=
  let has sig := negb (Z.land (signals_ (j_base J)) sig =? 0) in
  has ZX_JOB_TERMINATED = bool_decide (j_state_ J = JDEAD) /\ has ZX_JOB_NO_JOBS = bool_decide (jobs_ J = []) /\
  has ZX_JOB_NO_PROCESSES = bool_decide (procs_ J = []) /\ has ZX_JOB_NO_CHILDREN = bool_decide (jobs_ J = [] /\ procs_ J = []).

Lemma job_ok_signals J : job_ok J -> job_signals_ok J.
Proof.
  intros []. cbv beta delta [job_signals_ok]. intros has. destruct jo_signals0 as (H4 & H5 & H6).
  assert (has ZX_JOB_TERMINATED = jbit 3 J) as -> by (apply (land_bit _ 3); lia). assert (has ZX_JOB_NO_JOBS = jbit 4 J) as -> by (apply (land_bit _ 4); lia).
  assert (has ZX_JOB_NO_PROCESSES = jbit 5 J) as -> by (apply (land_bit _ 5); lia). assert (has ZX_JOB_NO_CHILDREN = jbit 6 J) as -> by (apply (land_bit _ 6); lia).
  rewrite jo_terminated0, H4, H5, H6. split_and!; try done.
  - by destruct (jobs_ J).
  - by destruct (procs_ J).
  - destruct (jobs_ J), (procs_ J); [done|symmetry; apply bool_decide_eq_false; by intros [? ?]..].
Qed.

(** The shape of the tree: parents are taller and alive, lists hold each child once and every
    child that lives, and nothing is left below a dead job. *)
Definition tree_ok (s : Sys) : Prop :=
  (forall j J, jobs s !! j = Some J ->
     0 <= max_height_ J <= kRootJobMaxHeight /\ NoDup (jobs_ J) /\ NoDup (procs_ J) /\ (j_state_ J = JDEAD -> jobs_ J = [] /\ procs_ J = []) /\
     (forall c, c ∈ jobs_ J -> exists C, jobs s !! c = Some C /\ parent_ C = Some j) /\ (forall p, p ∈ procs_ J -> exists P, procs s !! p = Some P /\ job_ P = j)) /\
  (forall c C q, jobs s !! c = Some C -> parent_ C = Some q ->
     exists Q, jobs s !! q = Some Q /\ max_height_ Q = max_height_ C + 1 /\ j_dying Q = false /\ (j_added C = true -> j_dying C = false -> j_state_ C <> JDEAD -> c ∈ jobs_ Q)) /\
  (forall p P, procs s !! p = Some P ->
     exists J, jobs s !! job_ P = Some J /\ j_dying J = false /\ (p_added P = true -> p_dying P = false -> p_state_ P <> PDEAD -> p ∈ procs_ J)).

Lemma jt_inv_tree s T : jt_inv_with s T -> tree_ok s.
Proof.
  intros []. split_and!.
  - intros j J HJ. destruct (ji_job0 j J HJ) as [? [? ?] ? ? ? ? ?]. do 4 (split; [done|]). split; intros; eauto.
  - intros c C q HC Hq. destruct (ji_link0 c C q HC Hq) as (Q & HQ & [? [? ?] ? ? ? ? ?]). exists Q. done.
  - intros p P HP. destruct (ji_plink0 p P HP) as (J & HJ & [[? ?] ? ? ? ? ?]). exists J. done.
Qed.

(** C3. However threads create, kill, start, suspend, exit, close and destroy jobs and processes,
    with any interleaving of their critical sections and with any memory exhaustion, nothing
    goes wrong: no assertion of the two classes fails, no illegal change of state panics, and no
    raw pointer in a list of children is followed after its object is gone. The jobs stay a tree
    whose lists hold exactly the children they should, a dead job has nothing below it, and the
    signals of every job, and the termination signal of every process, are exact. *)
Theorem job_tree_sound (koid : Z) (n : nat) (slack : TimerSlack) (ops : list JtOp) :
  exists s, jt_run ops (jt_boot koid n slack) = Some s /\ tree_ok s /\
    (forall j J, jobs s !! j = Some J -> job_signals_ok J) /\
    (forall p P, procs s !! p = Some P -> negb (Z.land (signals_ (p_base P)) ZX_TASK_TERMINATED =? 0) = completely_dead_ P /\ (completely_dead_ P = true -> p_state_ P = PDEAD /\ thread_list_ P = [])).
Proof.
  destruct (jt_run_inv ops _ (jt_boot_inv koid n slack)) as (s & Hr & Hi). exists s. split; [done|]. split; [by eapply jt_inv_tree|]. split.
  - intros j J HJ. apply job_ok_signals, (ji_job _ _ Hi j J HJ).
  - intros p P HP. destruct (ji_proc _ _ Hi p P HP). split; [rewrite <-po_terminated0; apply (land_bit _ 3); lia|]. intros E. split; [auto|]. apply po_threads0. auto.
Qed.
