(* ===== verification/JobTreeLive.v ===== *)
(** * Killing a job comes to an end

    The steps that the kernel takes by itself after a kill, the tasks of its threads and the exit
    of the threads a kill was sent to, are finitely many whatever their order ([measure]), and
    when none is left everything below a killed job is dead. The two ways in which the code falls
    short of its comments, memory exhaustion and a policy set during a creation, are runs. *)

From stdpp Require Import gmap relations.
From S2P Require Import Prelude Types Dispatcher JobPolicy JobTree JobTreeSafety.

(** ** A measure of the work left *)

Definition task_weight (t : Task) : Z :=
  match t with
  | TFinishProc _ => 4
  | TFinishDead _ => 3
  | TDead _ | TCritical _ | TAddJob _ | TAddProc _ | TDestroyJob _ | TDestroyProc _ => 2
  | _ => 1
  end.

Definition tasks_weight (T : list Task) : Z := foldr (fun t n => task_weight t + n) 0 T.

(** A job can still be killed, which kills its children, and can still finish dying. *)
Definition job_weight (J : Job) : Z :=
  match j_state_ J with
  | READY => 3 + zlen (jobs_ J) + zlen (procs_ J)
  | KILLING => if is_nil (jobs_ J) && is_nil (procs_ J) then 0 else 3
  | JDEAD => 0
  end.

Definition proc_weight (P : Proc) : Z := (if bool_decide (p_state_ P = PDEAD) then 0 else 4) + zlen (thread_list_ P).

Definition msum {A} (f : A -> Z) (m : gmap Z A) : Z := map_fold (fun _ x n => f x + n) 0 m.

Definition measure (s : Sys) (T : list Task) : Z := tasks_weight T + msum job_weight (jobs s) + msum proc_weight (procs s).

Lemma msum_delete {A} (f : A -> Z) m i x : m !! i = Some x -> msum f m = f x + msum f (delete i m).
Proof. intros Hi. unfold msum. apply (map_fold_delete_L (fun _ x n => f x + n)); [|done]. intros. lia. Qed.

Lemma msum_insert {A} (f : A -> Z) m i x y : m !! i = Some x -> msum f (<[i := y]> m) = msum f m - f x + f y.
Proof.
  intros Hi. rewrite (msum_delete f m i x Hi), (msum_delete f (<[i := y]> m) i y) by (by rewrite lookup_insert_eq). rewrite delete_insert_eq. lia.
Qed.

Lemma tasks_weight_app T1 T2 : tasks_weight (T1 ++ T2) = tasks_weight T1 + tasks_weight T2.
Proof. induction T1 as [|t T1 IH]; cbn; [done|]. unfold tasks_weight in *. rewrite IH. lia. Qed.

Lemma tasks_weight_pos T : 0 <= tasks_weight T.
Proof. induction T as [|t T IH]; cbn; [done|]. unfold tasks_weight in *. destruct t; cbn; lia. Qed.

Lemma tasks_weight_perm T T' : T ≡ₚ T' -> tasks_weight T = tasks_weight T'.
Proof. induction 1; cbn; unfold tasks_weight in *; lia. Qed.

Lemma job_weight_pos J : 0 <= job_weight J.
Proof. unfold job_weight. pose proof (zlen_nonneg (jobs_ J)). pose proof (zlen_nonneg (procs_ J)). destruct (j_state_ J); [lia| |lia]. case_if; lia. Qed.

Lemma proc_weight_pos P : 0 <= proc_weight P.
Proof. unfold proc_weight. pose proof (zlen_nonneg (thread_list_ P)). case_bool_decide; lia. Qed.

Lemma msum_pos {A} (f : A -> Z) m : (forall x, 0 <= f x) -> 0 <= msum f m.
Proof. intros Hf. unfold msum. apply (map_fold_weak_ind (fun n _ => 0 <= n)); [done|]. intros i x m' n _ ?. specialize (Hf x). lia. Qed.

Lemma measure_pos s T : 0 <= measure s T.
Proof. unfold measure. pose proof (tasks_weight_pos T). pose proof (msum_pos job_weight (jobs s) job_weight_pos). pose proof (msum_pos proc_weight (procs s) proc_weight_pos). lia. Qed.

Lemma zlen_erase x l : zlen (erase x l) <= zlen l /\ (x ∈ l -> zlen (erase x l) < zlen l).
Proof.
  induction l as [|y l [IH1 IH2]]; unfold erase in *; [split; [done|]; intros Hx; by apply elem_of_nil in Hx|]. rewrite filter_cons. case_decide; rewrite !zlen_cons.
  - split; [lia|]. intros [?|?]%elem_of_cons; [congruence|]. specialize (IH2 ltac:(done)). lia.
  - split; [lia|]. intros _. lia.
Qed.

(** A child that leaves a job pays for the end of the job, if it comes to that. *)
Lemma shrink_weight Q q js ps : jobs_ Q ++ procs_ Q <> [] -> zlen js <= zlen (jobs_ Q) -> zlen ps <= zlen (procs_ Q) ->
  let Q' := UpdateSignalsLocked (set_children js ps Q) in
  job_weight Q' + tasks_weight (finish_dead q (IsReadyForDeadTransitionLocked Q')) <= job_weight Q.
Proof.
  intros Hne Hj Hp Q'. unfold job_weight, IsReadyForDeadTransitionLocked. change (j_state_ Q') with (j_state_ Q). change (jobs_ Q') with js. change (procs_ Q') with ps.
  destruct (j_state_ Q); cbn [tasks_weight foldr finish_dead andb]; [rewrite bool_decide_false by done; cbn; lia| |rewrite bool_decide_false by done; cbn; lia]. rewrite bool_decide_true by done.
  assert (is_nil (jobs_ Q) && is_nil (procs_ Q) = false) as -> by (by destruct (jobs_ Q), (procs_ Q)). cbn [andb]. destruct (is_nil js && is_nil ps); cbn; lia.
Qed.

Lemma leave_parent_measure s T c s' new : jt_inv_with s T -> leave_parent c s = Some (s', new) -> measure s' (new ++ T) <= measure s T.
Proof.
  intros Hi. unfold leave_parent. destruct (jobs s !! c) as [C|] eqn:HC; [|done]. cbn [mbind option_bind]. destruct (parent_ C) as [q|] eqn:Hq; [|by intros [= <- <-]].
  destruct (jobs s !! q) as [Q|] eqn:HQ; [|done]. cbn [mbind option_bind]. unfold RemoveChildJob. case_bool_decide as Hin; cbn [negb]; intros [= <- <-].
  - unfold measure. cbn [jobs procs put_job]. rewrite tasks_weight_app, (msum_insert _ _ _ Q) by done.
    assert (jobs_ Q ++ procs_ Q <> []) as Hne by (intros [E _]%app_eq_nil; rewrite E in Hin; by apply elem_of_nil in Hin).
    pose proof (shrink_weight Q q (erase c (jobs_ Q)) (procs_ Q) Hne (proj1 (zlen_erase _ _)) ltac:(done)) as Hw. cbn zeta in Hw. lia.
  - by rewrite put_job_same.
Qed.

Lemma leave_job_measure s T p s' new : jt_inv_with s T -> leave_job p s = Some (s', new) -> measure s' (new ++ T) <= measure s T.
Proof.
  intros Hi. unfold leave_job. destruct (procs s !! p) as [P|] eqn:HP; [|done]. cbn [mbind option_bind].
  destruct (jobs s !! job_ P) as [Q|] eqn:HQ; [|done]. cbn [mbind option_bind]. unfold RemoveChildProcess. case_bool_decide as Hin; cbn [negb]; intros [= <- <-].
  - unfold measure. cbn [jobs procs put_job]. rewrite tasks_weight_app, (msum_insert _ _ _ Q) by done.
    assert (jobs_ Q ++ procs_ Q <> []) as Hne by (intros [_ E]%app_eq_nil; rewrite E in Hin; by apply elem_of_nil in Hin).
    pose proof (shrink_weight Q (job_ P) (jobs_ Q) (erase p (procs_ Q)) Hne ltac:(done) (proj1 (zlen_erase _ _))) as Hw. cbn zeta in Hw. lia.
  - by rewrite put_job_same.
Qed.

Lemma upgrade_length {A} (dying : A -> bool) m l live : upgrade dying m l = Some live -> zlen live <= zlen l.
Proof.
  revert live. induction l as [|c l IH]; intros live; cbn [upgrade]; [by intros [= <-]|]. destruct (m !! c) as [C|]; [|done]. cbn [mbind option_bind].
  destruct (upgrade dying m l) as [r|]; [|done]. cbn [mbind option_bind]. specialize (IH r eq_refl). intros [= <-]. destruct (dying C); rewrite ?zlen_cons; lia.
Qed.

Lemma ForEachChild_length {A} (dying : A -> bool) m ac l live n : ForEachChildInLocked dying m ac l = Some (live, n) -> zlen live <= zlen l /\ (ac = true -> n = false).
Proof.
  unfold ForEachChildInLocked. destruct (is_nil l); [intros [= <- <-]; split; [apply zlen_nonneg|done]|]. destruct ac; cbn [negb]; [|intros [= <- <-]; split; [apply zlen_nonneg|done]].
  destruct (upgrade dying m l) as [r|] eqn:E; [|done]. cbn [mbind option_bind]. intros [= <- <-]. split; [by eapply upgrade_length|done].
Qed.

Lemma kill_tasks_weight {B} (f : B -> Task) l : (forall x, task_weight (f x) = 1) -> tasks_weight (map f (reverse l)) = zlen l.
Proof.
  intros Hf. rewrite <-(tasks_weight_perm (map f l)) by (by rewrite reverse_Permutation). induction l as [|x l IH]; [done|]. cbn. unfold tasks_weight in IH. rewrite IH, Hf, zlen_cons. done.
Qed.

Lemma Kill_measure j code ac1 ac2 s T s' new : Kill j code ac1 ac2 s = Some (s', new) -> measure s' (new ++ T) < measure s (TKillJob j code :: T).
Proof.
  unfold Kill. destruct (jobs s !! j) as [J|] eqn:HJ; [|done]. cbn [mbind option_bind]. case_bool_decide as Hst; cbn [negb].
  2: { intros [= <- <-]. unfold measure. cbn [app tasks_weight foldr task_weight]. lia. }
  destruct (ForEachChildInLocked j_dying (jobs s) ac1 (jobs_ J)) as [[js n1]|] eqn:E1; [|done]. destruct (ForEachChildInLocked p_dying (procs s) ac2 (procs_ J)) as [[ps n2]|] eqn:E2; [|done].
  cbn [mbind option_bind]. apply ForEachChild_length in E1 as [E1 _], E2 as [E2 _]. intros [= <- <-]. set (J' := set_jstate KILLING code (n1 || n2) J). unfold measure. cbn [jobs procs put_job].
  rewrite (msum_insert _ _ _ J) by done. rewrite !tasks_weight_app, !kill_tasks_weight by done. change (tasks_weight (TKillJob j code :: T)) with (1 + tasks_weight T).
  assert (job_weight J' + tasks_weight (if IsReadyForDeadTransitionLocked J' then [TFinishDead j] else []) = 3) as HJ'.
  { unfold job_weight, IsReadyForDeadTransitionLocked. cbn [J' set_jstate j_state_ jobs_ procs_]. rewrite bool_decide_true by done. cbn [andb]. by destruct (is_nil (jobs_ J) && is_nil (procs_ J)). }
  assert (job_weight J = 3 + zlen (jobs_ J) + zlen (procs_ J)) by (unfold job_weight; by rewrite Hst). lia.
Qed.

Lemma SetState_threads st P P' : SetStateLocked st P = Some P' -> thread_list_ P' = thread_list_ P /\ p_state_ P' = st.
Proof.
  unfold SetStateLocked. destruct (_ && _); [done|]. case_bool_decide as E; intros [= <-]; [|done]. by rewrite E.
Qed.

(** A critical section that makes a process dead pays for the rest of its death. *)
Lemma evolves_weight P P' dead p : evolves P P' dead -> proc_weight P' + tasks_weight (finish_proc p dead) <= proc_weight P + zlen (thread_list_ P') - zlen (thread_list_ P).
Proof.
  intros [_ _ _ Hstay _ ->]. unfold proc_weight. destruct (decide (p_state_ P = PDEAD)) as [E|E].
  - rewrite !(bool_decide_true (_ = PDEAD)), (bool_decide_false (_ /\ _)) by tauto. cbn. lia.
  - rewrite (bool_decide_false (p_state_ P = PDEAD)) by done. destruct (decide (p_state_ P' = PDEAD)) as [E'|E'].
    + rewrite (bool_decide_true (p_state_ P' = PDEAD)), (bool_decide_true (_ /\ _)) by tauto. cbn. lia.
    + rewrite (bool_decide_false (p_state_ P' = PDEAD)), (bool_decide_false (_ /\ _)) by tauto. cbn. lia.
Qed.

Lemma proc_Kill_threads code P P' d : proc_Kill code P = Some (P', d) -> thread_list_ P' = thread_list_ P.
Proof.
  unfold proc_Kill. case_bool_decide; [by intros [= <- _]|]. destruct (if negb _ then _ else _) as [P1|] eqn:E1; [|done]. cbn [mbind option_bind].
  assert (thread_list_ P1 = thread_list_ P) as HP1. { destruct (negb _); [destruct (_ =? _); [|done]|]; by injection E1 as <-. }
  destruct (is_nil _); (destruct (SetStateLocked _ P1) as [P2|] eqn:E2; [|done]); cbn [mbind option_bind]; intros [= <- _]; by destruct (SetState_threads _ _ _ E2) as [-> _].
Qed.

Lemma on_zero_handles_threads P P' d : proc_on_zero_handles P = Some (P', d) -> thread_list_ P' = thread_list_ P.
Proof.
  unfold proc_on_zero_handles. destruct (negb _); [by intros [= <- _]|]. destruct (SetStateLocked PDEAD P) as [P2|] eqn:E2; [|done]. cbn [mbind option_bind]. intros [= <- _]. by destruct (SetState_threads _ _ _ E2) as [-> _].
Qed.

Lemma put_proc_measure s T p P P' new : procs s !! p = Some P -> measure (put_proc p P' s) (new ++ T) = measure s T - proc_weight P + proc_weight P' + tasks_weight new.
Proof. intros HP. unfold measure. cbn [jobs procs put_proc]. rewrite (msum_insert _ _ _ P) by done. rewrite tasks_weight_app. lia. Qed.

Lemma put_job_measure s T j J J' new : jobs s !! j = Some J -> measure (put_job j J' s) (new ++ T) = measure s T - job_weight J + job_weight J' + tasks_weight new.
Proof. intros HJ. unfold measure. cbn [jobs procs put_job]. rewrite (msum_insert _ _ _ J) by done. rewrite tasks_weight_app. lia. Qed.

Lemma measure_cons s t T : measure s (t :: T) = measure s T + task_weight t.
Proof. unfold measure. cbn. unfold tasks_weight. lia. Qed.

Lemma measure_app s new T : measure s (new ++ T) = measure s T + tasks_weight new.
Proof. unfold measure. rewrite tasks_weight_app. lia. Qed.

Lemma grow_weight Q js ps : j_state_ Q = READY -> zlen js + zlen ps = zlen (jobs_ Q) + zlen (procs_ Q) + 1 -> job_weight (UpdateSignalsLocked (set_children js ps Q)) = job_weight Q + 1.
Proof. intros Hst Hl. unfold job_weight. cbn [UpdateSignalsLocked set_children set_jbase j_state_ jobs_ procs_]. rewrite Hst. lia. Qed.

Lemma add_job_measure s j T s' new : jt_inv_with s (TAddJob j :: T) -> task_step true true (TAddJob j) s = Some (s', new) -> measure s' (new ++ T) < measure s (TAddJob j :: T).
Proof.
  intros Hi. rewrite measure_cons. cbn [task_step task_weight]. destruct (jobs s !! j) as [J|] eqn:HJ; [|done]. cbn [mbind option_bind]. destruct (parent_ J) as [q|] eqn:Hq; [|done]. cbn [mbind option_bind].
  destruct (jobs s !! q) as [Q|] eqn:HQ; [|done]. cbn [mbind option_bind]. destruct (task_ok_job s (TAddJob j) _ j Hi) as (J0 & HJ0 & (Ha & _) & _); [by left|done|]. rewrite HJ in HJ0. injection HJ0 as <-.
  assert (q <> j) as Hne. { intros ->. destruct (ji_link _ _ Hi j J j HJ Hq) as (R & HR & []). assert (R = J) as -> by congruence. lia. }
  unfold AddChildJob. case_bool_decide as Hst; [|intros [= <- <-]; cbn [app]; lia]. destruct (_ || _); [done|]. intros [= <- <-].
  rewrite (put_job_measure _ T j J) by (cbn [jobs put_job]; by rewrite lookup_insert_ne). change T with ([] ++ T) at 1. rewrite (put_job_measure s T q Q) by done.
  change (job_weight (set_jlife true (j_dying J) J)) with (job_weight J). rewrite (grow_weight Q) by (done || (rewrite zlen_app; change (zlen [j]) with 1; lia)). change (tasks_weight []) with 0. lia.
Qed.

Lemma add_proc_measure s p T s' new : jt_inv_with s (TAddProc p :: T) -> task_step true true (TAddProc p) s = Some (s', new) -> measure s' (new ++ T) < measure s (TAddProc p :: T).
Proof.
  intros Hi. rewrite measure_cons. cbn [task_step task_weight]. destruct (procs s !! p) as [P|] eqn:HP; [|done]. cbn [mbind option_bind]. destruct (jobs s !! job_ P) as [Q|] eqn:HQ; [|done]. cbn [mbind option_bind].
  unfold AddChildProcess. case_bool_decide as Hst; intros [= <- <-].
  - rewrite (put_proc_measure _ T p P) by done. change T with ([] ++ T) at 1. rewrite (put_job_measure s T (job_ P) Q) by done.
    change (proc_weight (set_plife (p_handle P) true (p_dying P) P)) with (proc_weight P). rewrite (grow_weight Q) by (done || (rewrite zlen_app; change (zlen [p]) with 1; lia)). change (tasks_weight []) with 0. lia.
  - rewrite (put_proc_measure _ T p P) by done. change (proc_weight (set_plife false (p_added P) (p_dying P) P)) with (proc_weight P). cbn. lia.
Qed.

(** Every task leaves less to do. *)
Lemma task_measure t s T s' new : jt_inv_with s (t :: T) -> task_step true true t s = Some (s', new) -> measure s' (new ++ T) < measure s (t :: T).
Proof.
  intros Hi Hs. destruct t as [j|j code|j|j|j|j|j|p|p code|p|p|p|p|p|p].
  - by apply add_job_measure.
  - by apply (Kill_measure j code true true s T).
  - rewrite measure_cons, measure_app. cbn [task_step] in Hs. destruct (jobs s !! j) as [J|]; [|done]. cbn [mbind option_bind] in Hs. destruct (parent_ J) as [q|].
    + destruct (jobs s !! q) as [Q|]; [|done]. cbn [mbind option_bind] in Hs. case_bool_decide; [done|]. injection Hs as <- <-. cbn. lia.
    + injection Hs as <- <-. cbn. lia.
  - cbn [task_step] in Hs. destruct (jobs s !! j) as [J|] eqn:HJ; [|done]. injection Hs as <- <-. rewrite measure_cons, (put_job_measure s T j J) by done.
    change (job_weight (FinishDead_locked J)) with 0. pose proof (job_weight_pos J). cbn. lia.
  - pose proof (leave_parent_measure s (TRemoveJob j :: T) j s' new Hi Hs) as Hm. rewrite measure_app, !measure_cons in *. cbn in *. lia.
  - cbn [task_step] in Hs. destruct (leave_parent j s) as [[s1 new1]|] eqn:E; [|done]. injection Hs as <- <-. pose proof (leave_parent_measure s (TDestroyJob j :: T) j s1 new1 Hi E) as Hm.
    rewrite !measure_app, !measure_cons, tasks_weight_app in *. cbn in *. lia.
  - injection Hs as <- <-. destruct (task_ok_job s (TFreeJob j) _ j Hi) as (J & HJ & _); [by left|done|]. unfold measure. cbn [jobs procs del_job app]. rewrite (msum_delete job_weight (jobs s) j J HJ).
    pose proof (job_weight_pos J). cbn. unfold tasks_weight. lia.
  - by apply add_proc_measure.
  - cbn [task_step] in Hs. destruct (task_ok_proc s (TKillProc p code) _ p Hi) as (P & HP & _ & Hok); [by left|done|]. rewrite HP in Hs. cbn [mbind option_bind] in Hs. destruct (proc_Kill_spec code P Hok) as (P' & dead & E & _ & Hev & _ & _).
    rewrite E in Hs. injection Hs as <- <-. rewrite measure_cons, (put_proc_measure s T p P) by done. pose proof (evolves_weight P P' dead p Hev). rewrite (proc_Kill_threads _ _ _ _ E) in *. cbn in *. lia.
  - cbn [task_step] in Hs. destruct (task_ok_proc s (TCloseProc p) _ p Hi) as (P & HP & _ & Hok); [by left|done|]. rewrite HP in Hs. cbn [mbind option_bind] in Hs. destruct (on_zero_handles_spec P Hok) as (P' & dead & E & _ & Hev & _).
    rewrite E in Hs. injection Hs as <- <-. rewrite measure_cons, (put_proc_measure s T p P) by done. pose proof (evolves_weight P P' dead p Hev). rewrite (on_zero_handles_threads _ _ _ E) in *. cbn in *. lia.
  - cbn [task_step] in Hs. destruct (procs s !! p) as [P|] eqn:HP; [|done]. cbn [mbind option_bind] in Hs. unfold FinishDeadTransition in Hs. destruct (completely_dead_ P); [done|]. injection Hs as <- <-.
    rewrite measure_cons, (put_proc_measure s T p P) by done. change (proc_weight (set_completely_dead _ P)) with (proc_weight P). cbn. lia.
  - pose proof (leave_job_measure s (TRemoveProc p :: T) p s' new Hi Hs) as Hm. rewrite measure_app, !measure_cons in *. cbn in *. lia.
  - cbn [task_step] in Hs. destruct (procs s !! p) as [P|]; [|done]. injection Hs as <- <-. rewrite measure_cons, measure_app. destruct (kill_job P); cbn; lia.
  - cbn [task_step] in Hs. destruct (procs s !! p) as [P|]; [|done]. cbn [mbind option_bind] in Hs. destruct (_ || _); [|done]. destruct (leave_job p s) as [[s1 new1]|] eqn:E; [|done]. injection Hs as <- <-.
    pose proof (leave_job_measure s (TDestroyProc p :: T) p s1 new1 Hi E) as Hm. rewrite !measure_app, !measure_cons, tasks_weight_app in *. cbn in *. lia.
  - injection Hs as <- <-. destruct (task_ok_proc s (TFreeProc p) _ p Hi) as (P & HP & _); [by left|done|]. unfold measure. cbn [jobs procs del_proc app]. rewrite (msum_delete proc_weight (procs s) p P HP).
    pose proof (proc_weight_pos P). cbn. unfold tasks_weight. lia.
Qed.

(** ** The steps of the kernel itself *)

(** The next task of a thread, with memory to run it, or the exit of a thread of a process that
    is being killed. *)
Inductive kernel_step : Sys -> Sys -> Prop :=
| kernel_task t s s' : jt_step (JtRun t true true) s = Some (Some s') -> kernel_step s s'
| kernel_exit t p th P s s' :
    procs s !! p = Some P -> p_state_ P = DYING -> th ∈ kill_sent P -> jt_step (JtThreadExit t p th) s = Some (Some s') -> kernel_step s s'.

(** A task of thread [t], seen on the tasks of all threads. *)
Lemma run_step_spec t ac1 ac2 s s' : jt_step (JtRun t ac1 ac2) s = Some (Some s') ->
  exists task s0 s1 new, pending s ≡ₚ task :: pending s0 /\ jobs s0 = jobs s /\ procs s0 = procs s /\ task_step ac1 ac2 task s0 = Some (s1, new) /\
    jobs s' = jobs s1 /\ procs s' = procs s1 /\ (stacks s1 = stacks s0 -> pending s' ≡ₚ new ++ pending s0) /\ length (stacks s0) = length (stacks s).
Proof.
  cbn [jt_step]. destruct (stacks s !! t) as [[|task rest]|] eqn:E; try done. set (s0 := set_stacks (<[t := rest]> (stacks s)) s).
  destruct (task_step ac1 ac2 task s0) as [[s1 new]|] eqn:Et; [|done]. destruct (push t new s1) as [s2|] eqn:Ep; [|done]. cbn [mbind option_bind]. intros [= <-].
  destruct (pending_push t new s1 s2 Ep) as (HT & Hj & Hp). destruct (flat_map_insert id _ _ _ E) as (R & H1 & H2). specialize (H2 rest). rewrite flat_map_concat_map, map_id in H1, H2. unfold id in H1, H2.
  exists task, s0, s1, new. split_and!; try done.
  - unfold pending, s0. cbn [stacks set_stacks]. by rewrite H1, H2.
  - intros Hst. rewrite HT. unfold pending. by rewrite Hst.
  - cbn. apply length_insert.
Qed.

Lemma measure_eq s s' T T' : jobs s = jobs s' -> procs s = procs s' -> T ≡ₚ T' -> measure s T = measure s' T'.
Proof. intros H1 H2 HT. unfold measure. by rewrite H1, H2, (tasks_weight_perm T T' HT). Qed.

Lemma jt_inv_same s s' T : jobs s = jobs s' -> procs s = procs s' -> jt_inv_with s T -> jt_inv_with s' T.
Proof. intros H1 H2 Hi. destruct s, s'. cbn in *. subst. by destruct Hi. Qed.

Lemma run_measure t s s' : jt_inv s -> jt_step (JtRun t true true) s = Some (Some s') -> measure s' (pending s') < measure s (pending s).
Proof.
  intros Hi Hs. destruct (run_step_spec t true true s s' Hs) as (task & s0 & s1 & new & HT & Hj & Hp & Ht & Hj' & Hp' & HT' & _).
  assert (jt_inv_with s0 (task :: pending s0)) as Hi0 by (eapply jt_inv_perm; [exact HT|]; by eapply jt_inv_same).
  destruct (task_step_inv true true task s0 _ Hi0) as (s2 & new2 & Ht2 & _ & Hst). rewrite Ht in Ht2. injection Ht2 as <- <-.
  pose proof (task_measure task s0 _ s1 new Hi0 Ht) as Hm. rewrite (measure_eq s' s1 _ (new ++ pending s0)), (measure_eq s s0 _ (task :: pending s0)) by auto. done.
Qed.

Lemma RemoveThread_list th P P' d : RemoveThread th P = Some (P', d) -> thread_list_ P' = erase th (thread_list_ P) /\ th ∈ thread_list_ P.
Proof.
  unfold RemoveThread. case_bool_decide as Hin; cbn [negb]; [|done]. destruct (is_nil _); [|by intros [= <- _]].
  destruct (SetStateLocked PDEAD (set_threads (erase th (thread_list_ P)) P)) as [P2|] eqn:E2; [|done]. cbn [mbind option_bind]. intros [= <- _]. by destruct (SetState_threads _ _ _ E2) as [-> _].
Qed.

Lemma exit_step_spec t p th s s' : jt_inv s -> jt_step (JtThreadExit t p th) s = Some (Some s') ->
  exists P P' dead, procs s !! p = Some P /\ RemoveThread th P = Some (P', dead) /\ jobs s' = jobs s /\ procs s' = <[p := P']> (procs s) /\ pending s' ≡ₚ finish_proc p dead ++ pending s.
Proof.
  intros Hi. cbn [jt_step]. destruct (usable_proc p s) as [P|] eqn:E; [|done]. apply usable_proc_spec in E as (HP & _ & _). cbn [mbind option_bind]. destruct (negb _); [done|].
  destruct (RemoveThread th P) as [[P' dead]|] eqn:Er; [|done]. destruct (begin t (finish_proc p dead) (put_proc p P' s)) as [s2|] eqn:Eb; [|done]. cbn [mbind option_bind]. intros [= <-].
  apply begin_push, pending_push in Eb as (HT & Hj & Hp). exists P, P', dead. done.
Qed.

Lemma exit_measure t p th s s' : jt_inv s -> jt_step (JtThreadExit t p th) s = Some (Some s') -> measure s' (pending s') < measure s (pending s).
Proof.
  intros Hi Hs. destruct (exit_step_spec t p th s s' Hi Hs) as (P & P' & dead & HP & Hr & Hj & Hp & HT). destruct (RemoveThread_list th P P' dead Hr) as [Hl Hin].
  pose proof (ji_proc _ _ Hi p P HP) as Hok. destruct (RemoveThread_spec th P Hok Hin) as (P2 & d2 & Hr2 & _ & Hev & _).
  { destruct (completely_dead_ P) eqn:Ec; [|done]. assert (thread_list_ P = []) as El by (apply (po_threads P Hok); right; by apply (po_complete P Hok)). rewrite El in Hin. by apply elem_of_nil in Hin. }
  rewrite Hr in Hr2. injection Hr2 as <- <-. rewrite (measure_eq s' (put_proc p P' s) _ (finish_proc p dead ++ pending s)) by done. rewrite (put_proc_measure s _ p P) by done.
  pose proof (evolves_weight P P' dead p Hev). rewrite Hl in *. pose proof (proj2 (zlen_erase th (thread_list_ P)) Hin). lia.
Qed.

Lemma kernel_step_inv s s' : jt_inv s -> kernel_step s s' -> jt_inv s' /\ measure s' (pending s') < measure s (pending s).
Proof.
  intros Hi Hs. assert (exists op, jt_step op s = Some (Some s')) as [op Hop] by (destruct Hs; eauto). split.
  - destruct (jt_step_inv op s Hi) as [E|(s2 & E & Hi2)]; [congruence|]. rewrite Hop in E. by injection E as <-.
  - destruct Hs; [by eapply run_measure|by eapply exit_measure].
Qed.

(** Whatever the order, the kernel comes to rest. *)
Lemma kernel_step_sn s : jt_inv s -> sn kernel_step s.
Proof.
  intros Hi. remember (Z.to_nat (measure s (pending s))) as n eqn:En. revert s Hi En. induction (lt_wf n) as [n _ IH]. intros s Hi ->. constructor. intros s' Hs. unfold flip in Hs.
  destruct (kernel_step_inv s s' Hi Hs) as [Hi' Hm]. pose proof (measure_pos s' (pending s')). eapply IH; [|done|done]. lia.
Qed.

(** ** What the kernel's steps do to a killed job *)

(** A job that is being killed: gone, past [READY], or about to be killed by a thread. *)
Definition killed (j : Z) (s : Sys) (T : list Task) : Prop :=
  forall J, jobs s !! j = Some J -> j_state_ J <> READY \/ exists code, TKillJob j code ∈ T.

Definition no_nomem (s : Sys) : Prop := forall j J, jobs s !! j = Some J -> j_nomem J = false.

(** Jobs after [s1] come from jobs before, which are not revived, and find memory. *)
Definition grows_old (s s1 : Sys) : Prop :=
  forall j J', jobs s1 !! j = Some J' -> exists J, jobs s !! j = Some J /\ (j_state_ J <> READY -> j_state_ J' <> READY) /\ (j_nomem J = false -> j_nomem J' = false).

Lemma grows_old_refl s s1 : jobs s1 = jobs s -> grows_old s s1.
Proof. intros E j J HJ. rewrite E in HJ. eauto. Qed.

Lemma grows_old_put s j J J' : jobs s !! j = Some J -> (j_state_ J <> READY -> j_state_ J' <> READY) -> (j_nomem J = false -> j_nomem J' = false) -> grows_old s (put_job j J' s).
Proof. intros HJ H1 H2 k K. cbn [jobs put_job]. rewrite lookup_insert_Some. intros [[<- <-]|[_ HK]]; eauto. Qed.

Lemma grows_old_trans s1 s2 s3 : grows_old s1 s2 -> grows_old s2 s3 -> grows_old s1 s3.
Proof. intros H1 H2 j J3 HJ3. destruct (H2 j J3 HJ3) as (J2 & HJ2 & ? & ?). destruct (H1 j J2 HJ2) as (J1 & HJ1 & ? & ?). exists J1. auto. Qed.

Lemma leave_parent_grows c s s' new : leave_parent c s = Some (s', new) -> grows_old s s'.
Proof.
  unfold leave_parent. destruct (jobs s !! c) as [C|]; [|done]. cbn [mbind option_bind]. destruct (parent_ C) as [q|]; [|intros [= <- _]; by apply grows_old_refl].
  destruct (jobs s !! q) as [Q|] eqn:HQ; [|done]. cbn [mbind option_bind]. unfold RemoveChildJob. destruct (negb _); intros [= <- _]; by eapply grows_old_put.
Qed.

Lemma leave_job_grows p s s' new : leave_job p s = Some (s', new) -> grows_old s s'.
Proof.
  unfold leave_job. destruct (procs s !! p) as [P|]; [|done]. cbn [mbind option_bind].
  destruct (jobs s !! job_ P) as [Q|] eqn:HQ; [|done]. cbn [mbind option_bind]. unfold RemoveChildProcess. destruct (negb _); intros [= <- _]; by eapply grows_old_put.
Qed.

Lemma Kill_grows j code s s' new : Kill j code true true s = Some (s', new) -> grows_old s s' /\ forall J', jobs s' !! j = Some J' -> j_state_ J' <> READY.
Proof.
  unfold Kill. destruct (jobs s !! j) as [J|] eqn:HJ; [|done]. cbn [mbind option_bind]. case_bool_decide as Hst; cbn [negb].
  2: { intros [= <- _]. split; [by apply grows_old_refl|]. intros J'. rewrite HJ. by intros [= <-]. }
  destruct (ForEachChildInLocked j_dying (jobs s) true (jobs_ J)) as [[js n1]|] eqn:E1; [|done]. destruct (ForEachChildInLocked p_dying (procs s) true (procs_ J)) as [[ps n2]|] eqn:E2; [|done].
  cbn [mbind option_bind]. apply ForEachChild_length in E1 as [_ E1], E2 as [_ E2]. intros [= <- _]. split.
  - eapply grows_old_put; [done| |]; cbn; [done|]. intros _. by rewrite E1, E2.
  - intros J'. cbn [jobs put_job]. rewrite lookup_insert_eq. by intros [= <-].
Qed.

Lemma task_grows t s s' new : task_step true true t s = Some (s', new) -> grows_old s s' /\ forall j code J', t = TKillJob j code -> jobs s' !! j = Some J' -> j_state_ J' <> READY.
Proof.
  intros Hs. split; [|intros j code J' ->; apply (Kill_grows j code s s' new Hs)]. destruct t as [j|j code|j|j|j|j|j|p|p code|p|p|p|p|p|p]; cbn [task_step] in Hs.
  - destruct (jobs s !! j) as [J|] eqn:HJ; [|done]. cbn [mbind option_bind] in Hs. destruct (parent_ J) as [q|]; [|done]. cbn [mbind option_bind] in Hs. destruct (jobs s !! q) as [Q|] eqn:HQ; [|done]. cbn [mbind option_bind] in Hs.
    unfold AddChildJob in Hs. case_bool_decide; [|injection Hs as <- _; by apply grows_old_refl]. destruct (_ || _); [done|]. injection Hs as <- _.
    apply (grows_old_trans _ (put_job q (UpdateSignalsLocked (set_children (jobs_ Q ++ [j]) (procs_ Q) Q)) s)); [by eapply grows_old_put|].
    destruct (decide (q = j)) as [->|]; [eapply grows_old_put; [cbn [jobs put_job]; by rewrite lookup_insert_eq|..]; cbn; congruence|]. eapply grows_old_put; [cbn [jobs put_job]; rewrite lookup_insert_ne by done; exact HJ|..]; done.
  - by apply (Kill_grows j code s s' new).
  - destruct (jobs s !! j) as [J|]; [|done]. cbn [mbind option_bind] in Hs. destruct (parent_ J) as [q|]; [|injection Hs as <- _; by apply grows_old_refl].
    destruct (jobs s !! q) as [Q|]; [|done]. cbn [mbind option_bind] in Hs. case_bool_decide; [done|]. injection Hs as <- _. by apply grows_old_refl.
  - destruct (jobs s !! j) as [J|] eqn:HJ; [|done]. injection Hs as <- _. by eapply grows_old_put.
  - by eapply leave_parent_grows.
  - destruct (leave_parent j s) as [[s1 new1]|] eqn:E; [|done]. injection Hs as <- _. by eapply leave_parent_grows.
  - injection Hs as <- _. intros k K. cbn [jobs del_job]. rewrite lookup_delete_Some. intros [_ HK]. eauto.
  - destruct (procs s !! p) as [P|]; [|done]. cbn [mbind option_bind] in Hs. destruct (jobs s !! job_ P) as [J|] eqn:HJ; [|done]. cbn [mbind option_bind] in Hs.
    unfold AddChildProcess in Hs. case_bool_decide; injection Hs as <- _; [|by apply grows_old_refl]. by eapply (grows_old_put s (job_ P) J).
  - destruct (procs s !! p) as [P|]; [|done]. cbn [mbind option_bind] in Hs. destruct (proc_Kill code P) as [[P' d]|]; [|done]. injection Hs as <- _. by apply grows_old_refl.
  - destruct (procs s !! p) as [P|]; [|done]. cbn [mbind option_bind] in Hs. destruct (proc_on_zero_handles P) as [[P' d]|]; [|done]. injection Hs as <- _. by apply grows_old_refl.
  - destruct (procs s !! p) as [P|]; [|done]. cbn [mbind option_bind] in Hs. destruct (FinishDeadTransition P); [|done]. injection Hs as <- _. by apply grows_old_refl.
  - by eapply leave_job_grows.
  - destruct (procs s !! p) as [P|]; [|done]. injection Hs as <- _. by apply grows_old_refl.
  - destruct (procs s !! p) as [P|]; [|done]. cbn [mbind option_bind] in Hs. destruct (_ || _); [|done]. destruct (leave_job p s) as [[s1 new1]|] eqn:E; [|done]. injection Hs as <- _. by eapply leave_job_grows.
  - injection Hs as <- _. by apply grows_old_refl.
Qed.

Lemma stacks_run t ac1 ac2 s s' : jt_inv s -> jt_step (JtRun t ac1 ac2) s = Some (Some s') -> length (stacks s') = length (stacks s).
Proof.
  intros Hi Hs. cbn [jt_step] in Hs. destruct (stacks s !! t) as [[|task rest]|] eqn:E; try done. set (s0 := set_stacks (<[t := rest]> (stacks s)) s) in Hs.
  destruct (flat_map_insert id _ _ _ E) as (R & H1 & H2). specialize (H2 rest). rewrite flat_map_concat_map, map_id in H1, H2. unfold id in H1, H2.
  assert (jt_inv_with s0 (task :: pending s0)) as Hi0. { apply (jt_inv_perm s0 (pending s)); [|by apply jt_inv_stacks]. unfold pending, s0. cbn [stacks set_stacks]. by rewrite H1, H2. }
  destruct (task_step_inv ac1 ac2 task s0 _ Hi0) as (s1 & new & Ht & _ & Hst). rewrite Ht in Hs. unfold push in Hs. rewrite Hst in Hs.
  destruct (stacks s0 !! t) as [l|] eqn:El; cbn [mbind option_bind] in Hs; [|done]. injection Hs as <-. cbn [stacks set_stacks]. rewrite length_insert. cbn. by rewrite length_insert.
Qed.

Lemma stacks_exit t p th s s' : jt_step (JtThreadExit t p th) s = Some (Some s') -> length (stacks s') = length (stacks s).
Proof.
  cbn [jt_step]. destruct (usable_proc p s) as [P|]; [|done]. cbn [mbind option_bind]. destruct (negb _); [done|]. destruct (RemoveThread th P) as [[P' dead]|]; [|done].
  destruct (begin t (finish_proc p dead) (put_proc p P' s)) as [s2|] eqn:Eb; [|done]. intros [= <-]. apply begin_push in Eb. unfold push in Eb.
  destruct (stacks _ !! t); [|done]. cbn [mbind option_bind] in Eb. injection Eb as <-. cbn. by rewrite length_insert.
Qed.

Lemma killed_mono j s s' T T' : grows_old s s' -> (forall code, TKillJob j code ∈ T -> TKillJob j code ∈ T' \/ forall J', jobs s' !! j = Some J' -> j_state_ J' <> READY) ->
  killed j s T -> killed j s' T'.
Proof.
  intros Hg Ht Hk J' HJ'. destruct (Hg j J' HJ') as (J & HJ & H1 & _). destruct (Hk J HJ) as [?|[code Hc]]; [auto|]. destruct (Ht code Hc) as [?|?]; eauto.
Qed.

Lemma kernel_step_grows j s s' : jt_inv s -> kernel_step s s' -> no_nomem s -> killed j s (pending s) ->
  no_nomem s' /\ killed j s' (pending s') /\ length (stacks s') = length (stacks s).
Proof.
  intros Hi Hs Hm Hk. assert (forall s s', grows_old s s' -> no_nomem s -> no_nomem s') as Hmem by (intros s1 s2 Hg Hm1 i J' HJ'; destruct (Hg i J' HJ') as (J & HJ & _ & ?); eauto).
  destruct Hs as [t s s' Hs|t p th P s s' HP _ _ Hs].
  - destruct (run_step_spec t true true s s' Hs) as (task & s0 & s1 & new & HT & Hj & Hp & Ht & Hj' & Hp' & HT' & _).
    assert (jt_inv_with s0 (task :: pending s0)) as Hi0 by (eapply jt_inv_perm; [exact HT|]; by eapply jt_inv_same).
    destruct (task_step_inv true true task s0 _ Hi0) as (s2 & new2 & Ht2 & _ & Hst). rewrite Ht in Ht2. injection Ht2 as <- <-. specialize (HT' Hst).
    destruct (task_grows task s0 s1 new Ht) as [Hg Hkill]. assert (grows_old s s') as Hg'. { eapply grows_old_trans; [by apply grows_old_refl|]. eapply grows_old_trans; [exact Hg|]. by apply grows_old_refl. }
    split_and!; [by eapply Hmem| |by eapply stacks_run]. eapply killed_mono; [exact Hg'| |exact Hk]. intros code Hc. rewrite HT in Hc. apply elem_of_cons in Hc as [<-|Hc].
    + right. intros J' HJ'. rewrite Hj' in HJ'. by eapply Hkill.
    + left. rewrite HT'. apply elem_of_app. by right.
  - destruct (exit_step_spec t p th s s' Hi Hs) as (P1 & P' & dead & HP1 & Hr & Hj & Hp & HT). assert (grows_old s s') as Hg by (by apply grows_old_refl).
    split_and!; [by eapply Hmem| |by eapply stacks_exit]. eapply killed_mono; [exact Hg| |exact Hk]. intros code Hc. left. rewrite HT. apply elem_of_app. by right.
Qed.

(** ** At rest *)

(** A state in which the kernel has nothing left to do by itself. *)
Lemma rest_pending s : jt_inv s -> nf kernel_step s -> pending s = [].
Proof.
  intros Hi Hnf. unfold pending. destruct (concat (stacks s)) as [|x l] eqn:E; [done|]. exfalso.
  assert (exists t task rest, stacks s !! t = Some (task :: rest)) as (t & task & rest & Ht).
  { assert (x ∈ concat (stacks s)) as Hx by (rewrite E; by left). apply list_elem_of_In, in_concat in Hx as (st & Hst & Hx). apply list_elem_of_In, list_elem_of_lookup in Hst as [t Ht]. exists t. destruct st as [|y st]; [done|]. eauto. }
  apply Hnf. destruct (run_inv t true true s Hi) as [Hn|(s' & Hs & _)]; [|exists s'; by eapply kernel_task]. exfalso. revert Hn. cbn [jt_step]. rewrite Ht.
  set (s0 := set_stacks (<[t := rest]> (stacks s)) s). destruct (flat_map_insert id _ _ _ Ht) as (R & H1 & H2). specialize (H2 rest). rewrite flat_map_concat_map, map_id in H1, H2. unfold id in H1, H2.
  assert (jt_inv_with s0 (task :: pending s0)) as Hi0. { apply (jt_inv_perm s0 (pending s)); [|by apply jt_inv_stacks]. unfold pending, s0. cbn [stacks set_stacks]. by rewrite H1, H2. }
  destruct (task_step_inv true true task s0 _ Hi0) as (s1 & new & -> & _ & Hst). unfold push. rewrite Hst. cbn [s0 stacks set_stacks]. rewrite list_lookup_insert_eq by (by eapply lookup_lt_Some). done.
Qed.

Lemma rest_processes s p P : jt_inv s -> nf kernel_step s -> stacks s <> [] -> procs s !! p = Some P -> p_state_ P <> DYING.
Proof.
  intros Hi Hnf Hst HP Hdy. pose proof (rest_pending s Hi Hnf) as Hpe. pose proof (ji_proc _ _ Hi p P HP) as Hok.
  destruct (thread_list_ P) as [|th l] eqn:El; [apply (po_threads P Hok) in El as []; congruence|].
  assert (p_added P = true) as Ha. { destruct (p_added P) eqn:E; [done|]. destruct (po_new P Hok E); congruence. }
  assert (p_dying P = false) as Hd. { destruct (p_dying P) eqn:E; [|done]. apply (po_dying P Hok) in E. congruence. }
  pose proof (po_killed P Hok Hdy) as Hk. rewrite El in Hk. apply Forall_cons in Hk as [Hk _].
  apply Hnf. destruct (thread_exit_inv 0 p th s Hi) as [Hn|(s' & Hs & _)]; [|exists s'; by eapply kernel_exit]. exfalso. revert Hn. cbn [jt_step]. unfold usable_proc. rewrite HP. cbn [mbind option_bind]. rewrite Ha, Hd. cbn [andb negb mbind option_bind].
  assert (th ∈ thread_list_ P) as Hin by (rewrite El; by left). rewrite bool_decide_true by done. cbn [negb].
  destruct (RemoveThread_spec th P Hok Hin) as (P' & dead & -> & _); [destruct (completely_dead_ P) eqn:Ec; [apply (po_complete P Hok) in Ec; congruence|done]|].
  unfold begin, push. cbn [stacks put_proc]. destruct (stacks s) as [|st r] eqn:Es; [done|]. assert (st = []) as -> by (unfold pending in Hpe; rewrite Es in Hpe; by apply app_eq_nil in Hpe as [? _]). done.
Qed.

(** No job is left half dead. *)
Lemma rest_no_killing s : jt_inv s -> nf kernel_step s -> stacks s <> [] -> no_nomem s -> forall j J, jobs s !! j = Some J -> j_state_ J <> KILLING.
Proof.
  intros Hi Hnf Hst Hm j J HJ. pose proof (rest_pending s Hi Hnf) as Hpe. unfold jt_inv in Hi. rewrite Hpe in Hi. remember (Z.to_nat (max_height_ J)) as n eqn:En. revert j J HJ En.
  induction (lt_wf n) as [n _ IH]. intros j J HJ -> Hk. pose proof (ji_job _ _ Hi j J HJ) as Hok. destruct (jobs_ J) as [|c l] eqn:Ec.
  - destruct (procs_ J) as [|p l] eqn:Ep; [destruct (ji_finish _ _ Hi j J HJ Hk Ec Ep) as [H|H]; by apply elem_of_nil in H|]. assert (p ∈ procs_ J) as Hin by (rewrite Ep; by left).
    destruct (ji_pchildren _ _ Hi j J p HJ Hin) as (P & HP & Hj). destruct (ji_plink _ _ Hi p P HP) as (J' & HJ' & Hl). assert (J' = J) as -> by congruence.
    assert (p_dying P = false) as Hd by (destruct (p_dying P) eqn:E; [apply (pl_dying _ _ _ _ Hl Hin) in E; by apply elem_of_nil in E|done]).
    destruct (pl_killed _ _ _ _ Hl Hk (Hm j J HJ) Hin) as [?|[Hdy|[Hdead|[code H]]]]; [congruence| | |by apply elem_of_nil in H].
    + eapply (rest_processes s p P); try done. unfold jt_inv. by rewrite Hpe.
    + destruct (pl_dead _ _ _ _ Hl Hin Hd Hdead) as [H|H]; by apply elem_of_nil in H.
  - assert (c ∈ jobs_ J) as Hin by (rewrite Ec; by left). destruct (ji_children _ _ Hi j J c HJ Hin) as (C & HC & Hj). destruct (ji_link _ _ Hi c C j HC Hj) as (J' & HJ' & Hl). assert (J' = J) as -> by congruence.
    assert (j_dying C = false) as Hd by (destruct (j_dying C) eqn:E; [apply (lk_dying _ _ _ _ Hl Hin) in E; by apply elem_of_nil in E|done]).
    destruct (lk_killed _ _ _ _ Hl Hk (Hm j J HJ) Hin) as [?|[Hr|[code H]]]; [congruence| |by apply elem_of_nil in H].
    destruct (j_state_ C) eqn:Es; [done| |apply (lk_dead _ _ _ _ Hl Hin Hd) in Es; by apply elem_of_nil in Es].
    pose proof (lk_height _ _ _ _ Hl). pose proof (jo_height _ (ji_job _ _ Hi c C HC)). refine (IH (Z.to_nat (max_height_ C)) _ c C HC eq_refl Es). lia.
Qed.

(** The jobs below [j] in the tree. *)
Inductive below (s : Sys) (j : Z) : Z -> Prop :=
| below_child c C : jobs s !! c = Some C -> parent_ C = Some j -> below s j c
| below_step c C q : jobs s !! c = Some C -> parent_ C = Some q -> below s j q -> below s j c.

(** Job [j] is dead, if it still exists, and signals it; every job below it that is in the tree and
    still referenced is dead, and so are all their processes. *)
Definition dead_below (j : Z) (s : Sys) : Prop :=
  (forall J, jobs s !! j = Some J -> job_GetInfo J = (return_code_ J, true, kill_on_oom_ J) /\ negb (Z.land (signals_ (j_base J)) ZX_JOB_TERMINATED =? 0) = true /\ jobs_ J = [] /\ procs_ J = []) /\
  (forall c C, below s j c -> jobs s !! c = Some C -> j_added C = true -> j_dying C = false -> j_state_ C = JDEAD) /\
  (forall p P, procs s !! p = Some P -> job_ P = j \/ below s j (job_ P) -> p_added P = true -> p_dying P = false -> p_state_ P = PDEAD).

Lemma dead_parent s T c C q Q : jt_inv_with s T -> jobs s !! c = Some C -> parent_ C = Some q -> jobs s !! q = Some Q -> j_state_ Q = JDEAD -> j_added C = true -> j_dying C = false -> j_state_ C = JDEAD.
Proof.
  intros Hi HC Hq HQ Hd Ha Hy. destruct (decide (j_state_ C = JDEAD)); [done|]. destruct (ji_link _ _ Hi c C q HC Hq) as (Q' & HQ' & Hl). assert (Q' = Q) as -> by congruence.
  pose proof (lk_listed _ _ _ _ Hl Ha Hy ltac:(done)) as Hin. destruct (jo_dead _ (ji_job _ _ Hi q Q HQ) Hd) as [E _]. rewrite E in Hin. by apply elem_of_nil in Hin.
Qed.

Lemma rest_dead_below j s : jt_inv s -> nf kernel_step s -> stacks s <> [] -> no_nomem s -> killed j s (pending s) -> dead_below j s.
Proof.
  intros Hi Hnf Hst Hm Hk. pose proof (rest_pending s Hi Hnf) as Hpe.
  assert (forall J, jobs s !! j = Some J -> j_state_ J = JDEAD) as Hj.
  { intros J HJ. pose proof (rest_no_killing s Hi Hnf Hst Hm j J HJ). destruct (Hk J HJ) as [?|[code Hc]]; [by destruct (j_state_ J)|]. rewrite Hpe in Hc. by apply elem_of_nil in Hc. }
  assert (forall c, below s j c -> forall C, jobs s !! c = Some C -> j_added C = true -> j_dying C = false -> j_state_ C = JDEAD) as Hb.
  { induction 1 as [c C0 HC0 Hp|c C0 q HC0 Hp _ IH]; intros C HC Ha Hd; assert (C0 = C) as -> by congruence.
    - destruct (ji_link _ _ Hi c C j HC Hp) as (Q & HQ & _). apply (dead_parent s _ c C j Q Hi HC Hp HQ); auto.
    - destruct (ji_link _ _ Hi c C q HC Hp) as (Q & HQ & Hl). destruct (lk_parent _ _ _ _ Hl). apply (dead_parent s _ c C q Q Hi HC Hp HQ); auto. }
  split_and!.
  - intros J HJ. pose proof (ji_job _ _ Hi j J HJ) as Hok. pose proof (Hj J HJ) as Hd. destruct (jo_dead _ Hok Hd). split_and!; try done; [unfold job_GetInfo; by rewrite Hd|].
    destruct (job_ok_signals J Hok) as (Ht & _). cbn zeta in Ht. rewrite Ht. by apply bool_decide_eq_true.
  - intros c C Hc. by apply Hb.
  - intros p P HP Hjp Ha Hd. destruct (decide (p_state_ P = PDEAD)); [done|]. destruct (ji_plink _ _ Hi p P HP) as (Q & HQ & Hl). pose proof (pl_listed _ _ _ _ Hl Ha Hd ltac:(done)) as Hin. destruct (pl_job _ _ _ _ Hl).
    assert (j_state_ Q = JDEAD) as HQd by (destruct Hjp as [E|E]; [rewrite E in HQ; auto|by eapply (Hb _ E)]). destruct (jo_dead _ (ji_job _ _ Hi _ Q HQ) HQd) as [_ E]. rewrite E in Hin. by apply elem_of_nil in Hin.
Qed.

Lemma kernel_steps_keep j s s' : rtc kernel_step s s' -> jt_inv s -> stacks s <> [] -> no_nomem s -> killed j s (pending s) ->
  jt_inv s' /\ stacks s' <> [] /\ no_nomem s' /\ killed j s' (pending s').
Proof.
  induction 1 as [s|s s1 s' Hs _ IH]; intros Hi Hst Hm Hk; [done|]. destruct (kernel_step_inv s s1 Hi Hs) as [Hi1 _]. destruct (kernel_step_grows j s s1 Hi Hs Hm Hk) as (Hm1 & Hk1 & Hl).
  apply IH; try done. intros E. rewrite E in Hl. by destruct (stacks s).
Qed.

(** ** Properties *)

(** C7. Once a job has been killed, or a thread is about to kill it, the kernel finishes the
    work by itself. From any reachable state with a thread to run it, and with memory for the
    arrays of children, the tasks that threads still have to do and the exits of the threads
    that a kill was sent to cannot go on forever, whatever their order; and when none is left,
    the job is dead, says so in its signals and its information, and has no children, and every
    job and process below it is dead. *)
Theorem killed_job_dies (koid : Z) (n : nat) (slack : TimerSlack) (ops : list JtOp) (s : Sys) (j : Z) :
  jt_run ops (jt_boot koid n slack) = Some s -> stacks s <> [] -> no_nomem s -> killed j s (pending s) ->
  sn kernel_step s /\ forall s', rtc kernel_step s s' -> nf kernel_step s' -> dead_below j s'.
Proof.
  intros Hr Hst Hm Hk. destruct (jt_run_inv ops _ (jt_boot_inv koid n slack)) as (s1 & Hr1 & Hi). assert (s1 = s) as -> by congruence. split; [by apply kernel_step_sn|].
  intros s' Hs Hnf. destruct (kernel_steps_keep j s s' Hs Hi Hst Hm Hk) as (? & ? & ? & ?). by apply rest_dead_below.
Qed.

(** A job 1025 under the root with a child job 1026, created by one thread. *)
Definition two_jobs : list JtOp := [JtNewJob 0 1024; JtRun 0 true true; JtNewJob 0 1025; JtRun 0 true true].

(** ** Gaps *)

(** [Kill] of a job with children when there is no memory for the arrays. *)
Lemma Kill_without_memory j code s J :
  jobs s !! j = Some J -> j_state_ J = READY -> CanSetPolicy J = false ->
  Kill j code false false s = Some (put_job j (set_jstate KILLING code true J) s, []).
Proof.
  intros HJ Hr Hc. unfold Kill. rewrite HJ. cbn [mbind option_bind]. rewrite bool_decide_true by done. cbn [negb].
  unfold CanSetPolicy in Hc. unfold ForEachChildInLocked, IsReadyForDeadTransitionLocked. destruct (jobs_ J) eqn:E1, (procs_ J) eqn:E2; try done;
    cbn [is_nil negb mbind option_bind]; cbn [jobs_ procs_ set_jstate]; rewrite E1, ?E2; cbn [is_nil]; by rewrite ?andb_false_r.
Qed.

(** [Kill] of a job that is not ready. *)
Lemma Kill_again j code ac1 ac2 s J : jobs s !! j = Some J -> j_state_ J <> READY -> Kill j code ac1 ac2 s = Some (s, []).
Proof. intros HJ Hr. unfold Kill. rewrite HJ. cbn [mbind option_bind]. by rewrite bool_decide_false. Qed.

(** A policy set on a job between the creation of its first child and the child's entry in its
    list. *)
Lemma late_policy_missed s q Q c d mode in_policy ac1 ac2 :
  jobs s !! q = Some Q -> j_state_ Q = READY -> CanSetPolicy Q = true -> c <> q ->
  jobs s !! c = Some (JobDispatcher_new d (Some (q, Q)) (j_policy_ Q)) ->
  let '(st, policy) := policy_AddBasicPolicy mode in_policy (j_policy_ Q) in
  let s1 := put_job q (fst (SetBasicPolicy mode in_policy Q)) s in
  snd (SetBasicPolicy mode in_policy Q) = st /\
  exists s2 Q2 C2, task_step ac1 ac2 (TAddJob c) s1 = Some (s2, []) /\ jobs s2 !! q = Some Q2 /\ jobs s2 !! c = Some C2 /\
    jobs_ Q2 = [c] /\ j_policy_ Q2 = policy /\ j_policy_ C2 = j_policy_ Q /\
    forall mode' in_policy', SetBasicPolicy mode' in_policy' Q2 = (Q2, ZX_ERR_BAD_STATE).
Proof.
  intros HQ Hr Hc Hne HC. pose proof Hc as [Hp Hj]%andb_true_iff. unfold SetBasicPolicy at 1 2. rewrite Hc. cbn [negb].
  destruct (policy_AddBasicPolicy mode in_policy (j_policy_ Q)) as [st policy]. cbn [fst snd]. split; [done|].
  assert (jobs_ Q = []) as Ej by (by destruct (jobs_ Q)). cbn [task_step put_job jobs].
  rewrite (lookup_insert_ne (jobs s)) by done. rewrite HC. cbn [mbind option_bind parent_ JobDispatcher_new fmap option_fmap option_map fst].
  rewrite lookup_insert_eq. cbn [mbind option_bind]. unfold AddChildJob. cbn [j_state_ set_jpolicy]. rewrite bool_decide_true by done.
  cbn [jobs_ set_jpolicy]. rewrite Ej. cbn [last default from_option]. rewrite !bool_decide_false by (by apply not_elem_of_nil || congruence). cbn [orb].
  eexists _, _, _. split; [done|]. cbn [put_job jobs]. rewrite lookup_insert_ne, lookup_insert_eq, lookup_insert_eq by done.
  split_and!; [done|done|done|done|done|]. intros mode' in_policy'. unfold SetBasicPolicy, CanSetPolicy. cbn [UpdateSignalsLocked set_jbase set_children jobs_ procs_ app is_nil].
  by rewrite andb_false_r.
Qed.

(** C33. Two gaps. (1) [Kill] drops the error when it cannot allocate the arrays for the children. On
    every ready job with a child it then only changes the state of the job to KILLING: nothing is
    left to do, and no child is touched. From then on killing the job again does nothing, whatever
    the memory, since it is not ready; and in every reachable state a job that still lists a child is not
    dead, so that it dies only if its children are killed or dropped in another way. (2) [Create]
    copies the policy of the parent before the child enters the parent's list, and a policy may be
    set on a job with empty lists: one that is set in between is accepted, and the child that
    enters the list afterwards has the old policy, while the parent's can no longer be set. *)
Theorem job_tree_gaps (koid : Z) (n : nat) (slack : TimerSlack) (ops : list JtOp) (s : Sys) :
  jt_run ops (jt_boot koid n slack) = Some s ->
  (forall j J code, jobs s !! j = Some J -> CanSetPolicy J = false ->
   j_state_ J <> JDEAD /\
   (j_state_ J = READY -> Kill j code false false s = Some (put_job j (set_jstate KILLING code true J) s, [])) /\
   (j_state_ J = KILLING -> forall ac1 ac2, Kill j code ac1 ac2 s = Some (s, []))) /\
  (forall q Q c d mode in_policy ac1 ac2, jobs s !! q = Some Q -> j_state_ Q = READY -> CanSetPolicy Q = true -> c <> q ->
   jobs s !! c = Some (JobDispatcher_new d (Some (q, Q)) (j_policy_ Q)) ->
   let '(st, policy) := policy_AddBasicPolicy mode in_policy (j_policy_ Q) in
   let s1 := put_job q (fst (SetBasicPolicy mode in_policy Q)) s in
   snd (SetBasicPolicy mode in_policy Q) = st /\
   exists s2 Q2 C2, task_step ac1 ac2 (TAddJob c) s1 = Some (s2, []) /\ jobs s2 !! q = Some Q2 /\ jobs s2 !! c = Some C2 /\
     jobs_ Q2 = [c] /\ j_policy_ Q2 = policy /\ j_policy_ C2 = j_policy_ Q /\
     forall mode' in_policy', SetBasicPolicy mode' in_policy' Q2 = (Q2, ZX_ERR_BAD_STATE)).
Proof.
  intros Hrun. split.
  - intros j J code HJ Hc. destruct (jt_run_inv ops _ (jt_boot_inv koid n slack)) as (s1 & Hr1 & Hi). assert (s1 = s) as -> by congruence.
    split_and!; [|intros Hr; by apply Kill_without_memory|intros Hk ac1 ac2; apply (Kill_again _ _ _ _ _ J HJ); congruence].
    intros Hd. destruct (jo_dead _ (ji_job _ _ Hi j J HJ) Hd) as [E1 E2]. unfold CanSetPolicy in Hc. by rewrite E1, E2 in Hc.
  - apply late_policy_missed.
Qed.

(** ** Witnesses *)

(** A process with a running thread in the inner job, and then a kill of the outer one. *)
Definition killing_run : list JtOp :=
  two_jobs ++ [JtNewProc 0 1026 true; JtRun 0 true true; JtStart 1027 7 true ZX_OK; JtKillJob 0 1025 (-1024); JtRun 0 true true].

Lemma killed_job_dies_witness :
  exists s, jt_run killing_run (jt_boot 1024 1 no_slack) = Some s /\ pending s = [TKillJob 1026 (-1024)] /\
    sn kernel_step s /\ forall s', rtc kernel_step s s' -> nf kernel_step s' -> dead_below 1025 s'.
Proof.
  destruct (jt_run killing_run (jt_boot 1024 1 no_slack)) as [s|] eqn:E; [|vm_compute in E; discriminate E]. exists s. split; [reflexivity|].
  assert (pending s = [TKillJob 1026 (-1024)]) as Hp by (vm_compute in E; injection E as <-; reflexivity). split; [exact Hp|].
  apply (killed_job_dies 1024 1 no_slack killing_run s 1025 E).
  - vm_compute in E. injection E as <-. discriminate.
  - intros j J HJ. assert (jobs s !! j = Some J) as HJ' by exact HJ. apply elem_of_map_to_list in HJ'.
    assert (Forall (fun jJ => j_nomem (snd jJ) = false) (map_to_list (jobs s))) as Hall by (vm_compute in E; injection E as <-; repeat constructor).
    rewrite Forall_forall in Hall. exact (Hall (j, J) HJ').
  - intros J HJ. left. intros Hr. vm_compute in E. injection E as <-. vm_compute in HJ. injection HJ as <-. discriminate Hr.
Defined.

(** A job 1025 that is killed without memory while it has the child 1026, which stays ready, and a policy
    set while 1026 is on its way into the list of 1025. *)
Lemma job_tree_gaps_witness :
  (exists s s' J C, jt_run two_jobs (jt_boot 1024 1 no_slack) = Some s /\ jobs s !! 1025 = Some J /\ jobs_ J = [1026] /\
     Kill 1025 (-1024) false false s = Some (s', []) /\ jobs s' !! 1026 = Some C /\ j_state_ C = READY) /\
  (exists s Q s2 C2, jt_run [JtNewJob 0 1024; JtRun 0 true true; JtNewJob 0 1025] (jt_boot 1024 1 no_slack) = Some s /\ jobs s !! 1025 = Some Q /\
     task_step true true (TAddJob 1026) (put_job 1025 (fst (SetBasicPolicy ZX_JOB_POL_ABSOLUTE [deny_new_channel] Q)) s) = Some (s2, []) /\
     jobs s2 !! 1026 = Some C2 /\ QueryBasicPolicy (j_policy_ C2) ZX_POL_NEW_CHANNEL = ZX_POL_ACTION_ALLOW).
Proof.
  split.
  - destruct (jt_run two_jobs (jt_boot 1024 1 no_slack)) as [s|] eqn:E; [|vm_compute in E; discriminate E].
    assert (exists J C, jobs s !! 1025 = Some J /\ jobs s !! 1026 = Some C /\ jobs_ J = [1026] /\ j_state_ J = READY /\ j_state_ C = READY)
      as (J & C & HJ & HC & Hl & Hr & Hc) by (vm_compute in E; injection E as <-; eexists _, _; split_and!; reflexivity).
    destruct (job_tree_gaps 1024 1 no_slack two_jobs s E) as [H _]. destruct (H 1025 J (-1024) HJ) as (_ & Hk & _).
    { unfold CanSetPolicy. rewrite Hl. apply andb_false_r. }
    exists s, (put_job 1025 (set_jstate KILLING (-1024) true J) s), J, C. split_and!; [done|done|done|by apply Hk| |done].
    cbn [put_job jobs]. by rewrite lookup_insert_ne.
  - destruct (jt_run [JtNewJob 0 1024; JtRun 0 true true; JtNewJob 0 1025] (jt_boot 1024 1 no_slack)) as [s|] eqn:E; [|vm_compute in E; discriminate E].
    assert (exists Q d, jobs s !! 1025 = Some Q /\ jobs s !! 1026 = Some (JobDispatcher_new d (Some (1025, Q)) (j_policy_ Q)) /\ j_state_ Q = READY /\
      CanSetPolicy Q = true /\ QueryBasicPolicy (j_policy_ Q) ZX_POL_NEW_CHANNEL = ZX_POL_ACTION_ALLOW)
      as (Q & d & HQ & HC & Hr & Hp & Hq) by (vm_compute in E; injection E as <-; eexists _, (mkDispatcher 1026 0 new_job_signals [] []); split_and!; reflexivity).
    destruct (job_tree_gaps 1024 1 no_slack _ s E) as [_ H].
    specialize (H 1025 Q 1026 d ZX_JOB_POL_ABSOLUTE [deny_new_channel] true true HQ Hr Hp ltac:(done) HC).
    destruct (policy_AddBasicPolicy _ _ _) as [st policy]. destruct H as (_ & s2 & Q2 & C2 & H1 & _ & H2 & _ & _ & H3 & _).
    exists s, Q, s2, C2. split_and!; try done. by rewrite H3.
Defined.
