(* ===== verification/BitmapStorage.v ===== *)
(** * The storages of a bitmap

    Models [zircon/system/ulib/bitmap/include/bitmap/storage.h]: memory from the heap, a fixed
    array, and a mapped virtual memory object (VMO). The class [Storage] is the interface that
    [raw-bitmap.h] asks of the template parameter [Storage], and [StorageLaws] what a bitmap
    relies on; the three storages are instances of both.

    Memory is a list of 64-bit words. What the heap and the system calls answer is an input. *)

From S2P Require Import Prelude Types.

Definition is_word (w : Z) : Prop := 0 <= w < 2 ^ 64.

(** [st_words] is the memory behind [GetData()]; [st_store] writes to it. *)
Class Storage (S : Type) := {
  st_env : Type;
  st_words : S -> list Z;
  st_store : list Z -> S -> S;
  st_has_grow : bool;
  st_Allocate : Z -> st_env -> S -> option (S * zx_status_t);
  st_Grow : Z -> st_env -> S -> option (S * zx_status_t)
}.

(** [st_wf] holds at all times, [st_live] once an allocation succeeded. A storage that answered
    [ZX_OK] holds the bytes it was asked for, and growing keeps the words that fit the size asked
    for, whatever the answer is. *)
Class StorageLaws (S : Type) `{Storage S} := {
  st_wf : S -> Prop;
  st_live : S -> Prop;
  st_wf_words s : st_wf s -> Forall is_word (st_words s);
  st_store_ok l s : st_wf s -> length l = length (st_words s) -> Forall is_word l ->
    st_wf (st_store l s) /\ st_words (st_store l s) = l /\ (st_live s -> st_live (st_store l s));
  st_Allocate_ok n e s s' st : st_wf s -> 0 <= n <= 2 ^ 61 -> st_Allocate n e s = Some (s', st) ->
    st_wf s' /\ (st = ZX_OK -> st_live s' /\ n <= 8 * zlen (st_words s'));
  st_Grow_ok n e s s' st : st_wf s -> st_live s -> 0 <= n <= 2 ^ 61 -> st_Grow n e s = Some (s', st) ->
    st_wf s' /\ st_live s' /\ (st = ZX_OK -> n <= 8 * zlen (st_words s')) /\
    (forall i : nat, 8 * (Z.of_nat i + 1) <= n -> (i < length (st_words s))%nat -> st_words s' !! i = st_words s !! i);
  st_Grow_answers n e s : st_has_grow = true -> is_Some (st_Grow n e s)
}.

(** ** Memory from the heap *)

(** No words when nothing was allocated yet. *)
Record DefaultStorage := mkDefault { d_storage_ : list Z }.

(** The answer of [new]: whether it succeeded, and the bytes found in the new memory. *)
Definition DefaultStorage_Allocate (size : Z) (e : bool * (nat -> Z)) (s : DefaultStorage) : option (DefaultStorage * zx_status_t) :=
  if negb (fst e) then Some (s, ZX_ERR_NO_MEMORY)
  else Some (mkDefault ((fun i => wrap64 (snd e i)) <$> seq 0 (Z.to_nat ((size + 7) / 8))), ZX_OK).

#[export] Instance DefaultStorage_Storage : Storage DefaultStorage := {
  st_env := bool * (nat -> Z);
  st_words := d_storage_;
  st_store l _ := mkDefault l;
  st_has_grow := false;
  st_Allocate := DefaultStorage_Allocate;
  st_Grow _ _ _ := None
}.

(** ** A fixed array *)

Record FixedStorage (N : Z) := mkFixed { f_storage_ : list Z }.
Arguments mkFixed {N} _.
Arguments f_storage_ {N} _.

(** A failed assertion is [None]. *)
Definition FixedStorage_Allocate {N : Z} (size : Z) (e : unit) (s : FixedStorage N) : option (FixedStorage N * zx_status_t) :=
  if size <=? N then Some (s, ZX_OK) else None.

#[export] Instance FixedStorage_Storage N : Storage (FixedStorage N) := {
  st_env := unit;
  st_words := f_storage_;
  st_store l _ := mkFixed l;
  st_has_grow := false;
  st_Allocate := FixedStorage_Allocate;
  st_Grow _ _ _ := None
}.

(** ** A mapped VMO *)

Definition PAGE_SIZE : Z := 4096.

Definition round_up (val multiple : Z) : Z :=
  if val =? 0 then 0
  else if bool_decide (multiple = 2 ^ Z.log2 multiple) then Z.land (wrap64 (val + (multiple - 1))) (wrap64 (Z.lnot (multiple - 1)))
  else wrap64 (val + (multiple - 1)) / multiple * multiple.

(** [v_vmo_] is the contents of the VMO, in words, [None] without one. Two fields are not in the source: [v_len] is
    the number of bytes that are mapped at [mapped_addr_], zero when it is 0, and [v_lost] the
    number of bytes that are mapped elsewhere and that the storage no longer knows of. *)
Record VmoStorage := mkVmo { v_vmo_ : option (list Z); v_size_ : Z; v_len : Z; v_lost : Z }.

Definition VmoStorage_new : VmoStorage := mkVmo None 0 0 0.

(** [zx_vmar_unmap] of [size_] bytes at [mapped_addr_]; what is mapped behind them stays. *)
Definition Release (s : VmoStorage) : VmoStorage :=
  if v_len s =? 0 then s else mkVmo (v_vmo_ s) (v_size_ s) 0 (v_lost s + (v_len s - v_size_ s)).

(** The answers of the system calls. *)
Record VmoEnv := mkVmoEnv { e_create : zx_status_t; e_map : zx_status_t; e_set_size : zx_status_t; e_get_info : zx_status_t;
  e_extend : zx_status_t; e_remap : zx_status_t; e_unmap : zx_status_t }.

(** [zx_vmo_create] and [zx_vmo_set_size]: new memory reads as zero. *)
Definition vmo_resize (bytes : Z) (l : list Z) : list Z :=
  take (Z.to_nat (bytes / 8)) l ++ replicate (Z.to_nat (bytes / 8) - length l) 0.

Definition VmoStorage_Allocate (size : Z) (e : VmoEnv) (s : VmoStorage) : option (VmoStorage * zx_status_t) :=
  let s := Release s in
  let size := round_up size PAGE_SIZE in
  if negb (bool_decide (e_create e = ZX_OK)) then Some (mkVmo None size 0 (v_lost s), e_create e) else
  if negb (bool_decide (e_map e = ZX_OK)) then Some (mkVmo None size 0 (v_lost s), e_map e) else
  Some (mkVmo (Some (vmo_resize size [])) size size (v_lost s), ZX_OK).

(** The first mapping is at a fixed place, right behind the first [size_] bytes, and is refused
    when something is mapped there. *)
Definition VmoStorage_Grow (size : Z) (e : VmoEnv) (s : VmoStorage) : option (VmoStorage * zx_status_t) :=
  if size <=? v_size_ s then Some (s, ZX_OK) else
  let size := round_up size PAGE_SIZE in
  match v_vmo_ s with None => Some (s, ZX_ERR_BAD_HANDLE) | Some vmo =>
  if negb (bool_decide (e_set_size e = ZX_OK)) then Some (s, e_set_size e) else
  let vmo := Some (vmo_resize size vmo) in
  if negb (bool_decide (e_get_info e = ZX_OK)) then Some (mkVmo vmo (v_size_ s) (v_len s) (v_lost s), e_get_info e) else
  if bool_decide (e_extend e = ZX_OK) && (v_len s =? v_size_ s) then Some (mkVmo vmo (v_size_ s) size (v_lost s), ZX_OK) else
  if negb (bool_decide (e_remap e = ZX_OK)) then Some (mkVmo vmo (v_size_ s) (v_len s) (v_lost s), e_remap e) else
  if negb (bool_decide (e_unmap e = ZX_OK)) then Some (mkVmo vmo (v_size_ s) (v_len s) (v_lost s + size), e_unmap e) else
  Some (mkVmo vmo (v_size_ s) size (v_lost s + (v_len s - v_size_ s)), ZX_OK)
  end.

(** Memory is there where the mapping and the VMO both reach. *)
Definition vmo_words (s : VmoStorage) : list Z := take (Z.to_nat (v_len s / 8)) (default [] (v_vmo_ s)).

#[export] Instance VmoStorage_Storage : Storage VmoStorage := {
  st_env := VmoEnv;
  st_words := vmo_words;
  st_store l s := mkVmo ((fun vmo => l ++ drop (length l) vmo) <$> v_vmo_ s) (v_size_ s) (v_len s) (v_lost s);
  st_has_grow := true;
  st_Allocate := VmoStorage_Allocate;
  st_Grow := VmoStorage_Grow
}.

(** ** The storages obey the laws *)

#[export] Instance DefaultStorage_laws : StorageLaws DefaultStorage.
Proof.
  refine {| st_wf s := Forall is_word (d_storage_ s); st_live _ := True |}; try done.
  intros n [[] junk] s s' st Hwf Hn [= <- <-]; cbn [fst snd st_words d_storage_ DefaultStorage_Storage]; [split|done].
  - apply Forall_fmap, Forall_true. intros i. apply (wrap_range 64). lia.
  - intros _. split; [done|]. unfold zlen. rewrite length_fmap, length_seq.
    pose proof (Z_div_mod_eq_full (n + 7) 8). pose proof (Z.mod_pos_bound (n + 7) 8). lia.
Defined.

#[export] Instance FixedStorage_laws N : StorageLaws (FixedStorage N).
Proof.
  refine {| st_wf (s : FixedStorage N) := Forall is_word (f_storage_ s) /\ zlen (f_storage_ s) = (N + 7) / 8; st_live _ := True |}.
  - by intros s [? _].
  - intros l s [_ HN] Hl Hw. cbn [st_words st_store FixedStorage_Storage f_storage_] in *. unfold zlen in *. by rewrite Hl.
  - intros n [] s s' st Hwf Hn. cbn [st_Allocate FixedStorage_Storage]. unfold FixedStorage_Allocate.
    destruct (Z.leb_spec n N); [|done]. intros [= <- <-]. split; [done|]. intros _. split; [done|].
    cbn [st_words FixedStorage_Storage]. rewrite (proj2 Hwf).
    pose proof (Z_div_mod_eq_full (N + 7) 8). pose proof (Z.mod_pos_bound (N + 7) 8). lia.
  - done.
  - done.
Defined.

Lemma round_up_page n : 0 <= n <= 2 ^ 61 -> n <= round_up n PAGE_SIZE < n + PAGE_SIZE /\ exists k, 0 <= k /\ round_up n PAGE_SIZE = 512 * k * 8.
Proof.
  intros Hn. assert (Hp : PAGE_SIZE = 4096) by done. unfold round_up. destruct (Z.eqb_spec n 0); [split; [lia|]; exists 0; lia|].
  rewrite bool_decide_eq_true_2 by done. rewrite wrap_small by lia.
  assert (Heq : Z.land (n + (PAGE_SIZE - 1)) (wrap64 (Z.lnot (PAGE_SIZE - 1))) = (n + 4095) / 2 ^ 12 * 2 ^ 12).
  { replace (n + (PAGE_SIZE - 1)) with (n + 4095) by lia. rewrite <-Z.shiftr_div_pow2, <-Z.shiftl_mul_pow2, <-Z.ldiff_ones_r by lia.
    apply Z.bits_inj'. intros k Hk. rewrite Z.land_spec, Z.ldiff_spec. unfold wrap. rewrite <-Z.land_ones, Z.land_spec by lia.
    change (Z.ones 12) with (PAGE_SIZE - 1). destruct (Z.ltb_spec k 64).
    - rewrite Z.lnot_spec, (Z.ones_spec_low 64) by lia. by rewrite andb_true_r.
    - rewrite (Z.bits_above_log2 (n + 4095)); [done|lia|]. apply Z.log2_lt_pow2; [lia|]. 
      apply Z.lt_le_trans with (2 ^ 64); [lia|]. apply Z.pow_le_mono_r; lia. }
  rewrite Heq, Hp. pose proof (Z_div_mod_eq_full (n + 4095) (2 ^ 12)). pose proof (Z.mod_pos_bound (n + 4095) (2 ^ 12)).
  split; [lia|]. exists ((n + 4095) / 2 ^ 12). lia.
Qed.

Lemma vmo_resize_len bytes l : length (vmo_resize bytes l) = Z.to_nat (bytes / 8).
Proof. unfold vmo_resize. rewrite length_app, length_take, length_replicate. lia. Qed.

Lemma vmo_resize_words bytes l : Forall is_word l -> Forall is_word (vmo_resize bytes l).
Proof. intros Hl. apply Forall_app_2; [by apply Forall_take|]. apply Forall_replicate. unfold is_word. lia. Qed.

Lemma vmo_resize_lookup bytes l i : (i < length l)%nat -> 8 * (Z.of_nat i + 1) <= bytes -> vmo_resize bytes l !! i = l !! i.
Proof.
  intros Hi Hb. assert (Z.of_nat i + 1 <= bytes / 8) by (apply Z.div_le_lower_bound; lia).
  unfold vmo_resize. rewrite lookup_app_l by (rewrite length_take; lia). by rewrite lookup_take_lt by lia.
Qed.

Definition vmo_wf (s : VmoStorage) : Prop := Forall is_word (default [] (v_vmo_ s)) /\ 0 <= v_len s.

Definition vmo_live (s : VmoStorage) : Prop :=
  exists vmo, v_vmo_ s = Some vmo /\ 0 <= v_size_ s <= v_len s /\ v_size_ s <= 8 * zlen vmo /\ v_len s = 8 * (v_len s / 8).

Lemma vmo_grow_laws n e s s' st : vmo_wf s -> vmo_live s -> 0 <= n <= 2 ^ 61 -> VmoStorage_Grow n e s = Some (s', st) ->
  vmo_wf s' /\ vmo_live s' /\ (st = ZX_OK -> n <= 8 * zlen (vmo_words s')) /\
  (forall i : nat, 8 * (Z.of_nat i + 1) <= n -> (i < length (vmo_words s))%nat -> vmo_words s' !! i = vmo_words s !! i).
Proof.
  destruct s as [vmo_ sz len lost]. intros [Hw Hlen] (vmo & Hv & Hsz & Hvl & Hmul) Hn. cbn [v_vmo_ v_size_ v_len v_lost] in *. subst vmo_.
  unfold VmoStorage_Grow. cbn [v_vmo_ v_size_ v_len v_lost]. destruct (round_up_page n Hn) as [Hr (k & Hk & Hrk)].
  assert (Hsame : n <= sz -> n <= 8 * zlen (vmo_words (mkVmo (Some vmo) sz len lost))).
  { intros. unfold zlen, vmo_words in *. cbn. rewrite length_take. lia. }
  destruct (Z.leb_spec n sz); [intros [= <- <-]; split_and!; try done; [exists vmo; done|auto]|].
  destruct (bool_decide (e_set_size e = _)) eqn:Hset; cbn [negb];
    [|intros [= <- <-]; apply bool_decide_eq_false in Hset; split_and!; try done; exists vmo; done].
  assert (Hnew : forall len' lost', 0 <= len' -> len' = 8 * (len' / 8) -> sz <= len' -> (len' = len \/ len' = round_up n PAGE_SIZE) ->
    let s' := mkVmo (Some (vmo_resize (round_up n PAGE_SIZE) vmo)) sz len' lost' in
    vmo_wf s' /\ vmo_live s' /\ (len' = round_up n PAGE_SIZE -> n <= 8 * zlen (vmo_words s')) /\
    (forall i : nat, 8 * (Z.of_nat i + 1) <= n -> (i < length (vmo_words (mkVmo (Some vmo) sz len lost)))%nat ->
       vmo_words s' !! i = vmo_words (mkVmo (Some vmo) sz len lost) !! i)).
  { intros len' lost' H0 H8 Hs Hor s0. subst s0. split_and!.
    - split; [by apply vmo_resize_words|done].
    - eexists. split_and!; [done|cbn [v_size_ v_len]; lia|cbn [v_size_ v_len]; lia| |done]. unfold zlen. rewrite vmo_resize_len. cbn [v_size_]. rewrite Hrk, Z_div_mult by lia. lia.
    - intros ->. unfold zlen, vmo_words. cbn. rewrite length_take, vmo_resize_len. rewrite Hrk, Z_div_mult by lia. lia.
    - unfold vmo_words. cbn. intros i Hi. rewrite length_take. intros Hil.
      rewrite !lookup_take_lt; [apply vmo_resize_lookup|..]; [lia..|]. destruct Hor as [-> | ->]; [lia|].
      rewrite Hrk, Z_div_mult by lia. lia. }
  assert (Hr8 : round_up n PAGE_SIZE = 8 * (round_up n PAGE_SIZE / 8)) by (rewrite Hrk, Z_div_mult by lia; lia).
  repeat case_match; intros [= <- <-]; rewrite ?negb_true_iff, ?bool_decide_eq_false in *;
    match goal with |- vmo_wf (mkVmo _ _ ?len' ?lost') /\ _ => destruct (Hnew len' lost') as (? & ? & Hok & ?); [lia..|] end;
    split_and!; try done; intros ?; first [by apply Hok | by exfalso].
Qed.

#[export] Instance VmoStorage_laws : StorageLaws VmoStorage.
Proof.
  refine {| st_wf := vmo_wf; st_live := vmo_live |}.
  - intros s [Hw _]. by apply Forall_take.
  - intros l [vmo sz len lost] [Hw Hlen] Hl Hf. cbn [st_words st_store VmoStorage_Storage] in *. unfold vmo_words in *.
    cbn [v_vmo_ v_size_ v_len v_lost] in *. destruct vmo as [vmo|]; cbn [default from_option fmap option_fmap option_map id] in *.
    + rewrite length_take in Hl. split_and!; [split; [|done]| |].
      * apply Forall_app_2; [done|]. by apply Forall_drop.
      * destruct (decide (Z.to_nat (len / 8) <= length vmo)%nat); [rewrite take_app_length' by lia; done|].
        rewrite drop_ge, app_nil_r by lia. apply take_ge. lia.
      * intros (vmo' & [= <-] & H1 & H2 & H3). eexists. split_and!; try done; try apply H1. cbn [v_size_] in *.
        unfold zlen in *. rewrite length_app, length_drop. lia.
    + rewrite length_take in Hl. destruct l; [|cbn [length] in Hl; lia]. rewrite take_nil. split_and!; done.
  - intros n e s s' st [Hw Hlen] Hn. cbn [st_Allocate VmoStorage_Storage]. unfold VmoStorage_Allocate.
    destruct (round_up_page n Hn) as [Hr (k & Hk & Hrk)].
    repeat case_match; intros [= <- <-]; rewrite ?negb_true_iff, ?bool_decide_eq_false in *; (split; [split; [|cbn; lia]|try done]); [done..| |].
    + by apply vmo_resize_words.
    + intros _. unfold vmo_live, zlen. cbn [st_words VmoStorage_Storage]. unfold vmo_words. cbn [v_vmo_ v_size_ v_len default from_option id].
      split; [eexists; split; [done|]|]; rewrite ?length_take, ?vmo_resize_len; rewrite Hrk, Z_div_mult by lia; lia.
  - exact vmo_grow_laws.
  - intros n e s _. cbn [st_Grow VmoStorage_Storage]. unfold VmoStorage_Grow. repeat case_match; eauto.
Defined.
