(* ===== verification/RawBitmap.v ===== *)
(** * Bitmaps in arrays of words

    Models [zircon/system/ulib/bitmap/raw-bitmap.cc] and its header: a bitmap in an array of
    64-bit words, searched and changed a word at a time with masks, over any storage of
    [BitmapStorage]. Reaching outside of the array, and a failed assertion, is a fault, [None].
    The searches and changes are proved right in [RawBitmapSpec]. *)

From S2P Require Import Prelude Types BitmapStorage.

Definition kBits : Z := 64.
Definition ones64 : Z := 2 ^ 64 - 1.

Definition FirstIdx (bitoff : Z) : Z := bitoff / kBits.
Definition LastIdx (bitmax : Z) : Z := wrap64 (bitmax - 1) / kBits.

Definition GetMask (first last : bool) (off max : Z) : Z :=
  let mask := ones64 in
  let mask := if first then Z.land mask (wrap64 (Z.shiftl ones64 (off mod kBits))) else mask in
  if last then Z.land mask (Z.shiftr ones64 ((kBits - max mod kBits) mod kBits)) else mask.

Definition not64 (x : Z) : Z := wrap64 (Z.lnot x).

Definition MaskBits (data idx bitoff bitmax : Z) (is_set : bool) : Z :=
  let mask := GetMask (idx =? FirstIdx bitoff) (idx =? LastIdx bitmax) bitoff bitmax in
  if is_set then not64 (Z.lor (not64 mask) data) else Z.land mask data.

(** [__builtin_ctzl] and [__builtin_clzl] of a word that is not zero. *)
Fixpoint ctz (n : nat) (x : Z) : Z :=
  match n with O => 0 | S n => if Z.odd x then 0 else 1 + ctz n (x / 2) end.

Definition CTZ (x : Z) : Z := if x =? 0 then kBits else ctz 64 x.
Definition CLZ (x : Z) : Z := if x =? 0 then kBits else 63 - Z.log2 x.

Section Bitmap.
Context {T : Type} `{Storage T}.

(** [data_], the cached [bits_.GetData()], is false when it is null. *)
Record RawBitmap := mkRaw { size_ : Z; data_ : bool; bits_ : T }.

Definition RawBitmap_new (bits : T) : RawBitmap := mkRaw 0 false bits.

Definition data_at (b : RawBitmap) (i : Z) : option Z := if data_ b then st_words (bits_ b) !! Z.to_nat i else None.

Definition Shrink (size : Z) (b : RawBitmap) : RawBitmap * zx_status_t :=
  if size_ b <? size then (b, ZX_ERR_NO_MEMORY) else (mkRaw size (data_ b) (bits_ b), ZX_OK).

(** The answer of a scan: [None] for true, or the position of a bit that does not match. *)
Fixpoint scan_loop (fuel : nat) (i bitoff bitmax : Z) (is_set : bool) (b : RawBitmap) : option (option Z) :=
  match fuel with
  | O => None
  | S fuel =>
      w ← data_at b i;
      let masked := MaskBits w i bitoff bitmax is_set in
      if negb (masked =? 0) then Some (Some (i * kBits + CTZ masked))
      else if i =? LastIdx bitmax then Some None
      else scan_loop fuel (i + 1) bitoff bitmax is_set b
  end.

Definition Scan (bitoff bitmax : Z) (is_set : bool) (b : RawBitmap) : option (option Z) :=
  let bitmax := Z.min bitmax (size_ b) in
  if bitmax <=? bitoff then Some None else
  scan_loop (Z.to_nat (LastIdx bitmax - FirstIdx bitoff + 1)) (FirstIdx bitoff) bitoff bitmax is_set b.

Fixpoint reverse_scan_loop (fuel : nat) (i bitoff bitmax : Z) (is_set : bool) (b : RawBitmap) : option (option Z) :=
  match fuel with
  | O => None
  | S fuel =>
      w ← data_at b i;
      let masked := MaskBits w i bitoff bitmax is_set in
      if negb (masked =? 0) then Some (Some ((i + 1) * kBits - (CLZ masked + 1)))
      else if i =? FirstIdx bitoff then Some None
      else reverse_scan_loop fuel (i - 1) bitoff bitmax is_set b
  end.

Definition ReverseScan (bitoff bitmax : Z) (is_set : bool) (b : RawBitmap) : option (option Z) :=
  let bitmax := Z.min bitmax (size_ b) in
  if bitmax <=? bitoff then Some None else
  reverse_scan_loop (Z.to_nat (LastIdx bitmax - FirstIdx bitoff + 1)) (LastIdx bitmax) bitoff bitmax is_set b.

(** The loop of [Find]; every turn goes on behind a bit that does not match, so that [fuel] is
    enough when it exceeds the number of bits left. *)
Fixpoint find_loop (fuel : nat) (is_set : bool) (bitoff bitmax run_len : Z) (b : RawBitmap) : option (zx_status_t * option Z) :=
  match fuel with
  | O => None
  | S fuel =>
      r ← Scan bitoff bitmax (negb is_set) b;
      match r with
      | None => Some (ZX_ERR_NO_RESOURCES, None)
      | Some start =>
          if wrap64 (bitmax - start) <? run_len then Some (ZX_ERR_NO_RESOURCES, None) else
          r ← Scan start (wrap64 (start + run_len)) is_set b;
          match r with
          | None => Some (ZX_OK, Some start)
          | Some bitoff => find_loop fuel is_set bitoff bitmax run_len b
          end
      end
  end.

(** [out] says whether a place for the result was given. *)
Definition Find (is_set : bool) (bitoff bitmax run_len : Z) (out : bool) (b : RawBitmap) : option (zx_status_t * option Z) :=
  if negb out || (bitmax <=? bitoff) then Some (ZX_ERR_INVALID_ARGS, None) else
  find_loop (S (Z.to_nat (size_ b - bitoff))) is_set bitoff bitmax run_len b.

Fixpoint reverse_find_loop (fuel : nat) (is_set : bool) (bitoff bitmax run_len : Z) (b : RawBitmap) : option (zx_status_t * option Z) :=
  match fuel with
  | O => None
  | S fuel =>
      r ← ReverseScan bitoff bitmax (negb is_set) b;
      match r with
      | None => Some (ZX_ERR_NO_RESOURCES, None)
      | Some start =>
          let start := wrap64 (start + 1) in
          if wrap64 (start - bitoff) <? run_len then Some (ZX_ERR_NO_RESOURCES, None) else
          r ← ReverseScan (wrap64 (start - run_len)) start is_set b;
          match r with
          | None => Some (ZX_OK, Some (wrap64 (start - run_len)))
          | Some bitmax => reverse_find_loop fuel is_set bitoff bitmax run_len b
          end
      end
  end.

Definition ReverseFind (is_set : bool) (bitoff bitmax run_len : Z) (out : bool) (b : RawBitmap) : option (zx_status_t * option Z) :=
  if negb out || (bitmax <=? bitoff) then Some (ZX_ERR_INVALID_ARGS, None) else
  reverse_find_loop (S (Z.to_nat (size_ b - bitoff))) is_set bitoff bitmax run_len b.

(** The result and [*first]. *)
Definition Get (bitoff bitmax : Z) (b : RawBitmap) : option (bool * Z) :=
  r ← Scan bitoff bitmax true b;
  Some (match r with None => (true, bitmax) | Some first => (false, first) end).

(** [n] words from [i] on are changed by [f]. *)
Fixpoint word_loop (n : nat) (i : Z) (f : Z -> Z -> Z) (data : list Z) : option (list Z) :=
  match n with
  | O => Some data
  | S n => w ← data !! Z.to_nat i; word_loop n (i + 1) f (<[Z.to_nat i := f i w]> data)
  end.

Definition change_words (first_idx last_idx : Z) (f : Z -> Z -> Z) (b : RawBitmap) : option RawBitmap :=
  if data_ b then
    words ← word_loop (Z.to_nat (last_idx - first_idx + 1)) first_idx f (st_words (bits_ b));
    Some (mkRaw (size_ b) true (st_store words (bits_ b)))
  else None.

Definition Set_ (bitoff bitmax : Z) (b : RawBitmap) : option (RawBitmap * zx_status_t) :=
  if (bitmax <? bitoff) || (size_ b <? bitmax) then Some (b, ZX_ERR_INVALID_ARGS) else
  if bitoff =? bitmax then Some (b, ZX_OK) else
  let first_idx := FirstIdx bitoff in
  let last_idx := LastIdx bitmax in
  b ← change_words first_idx last_idx (fun i w => Z.lor w (GetMask (i =? first_idx) (i =? last_idx) bitoff bitmax)) b; Some (b, ZX_OK).

Definition Clear (bitoff bitmax : Z) (b : RawBitmap) : option (RawBitmap * zx_status_t) :=
  if (bitmax <? bitoff) || (size_ b <? bitmax) then Some (b, ZX_ERR_INVALID_ARGS) else
  if bitoff =? bitmax then Some (b, ZX_OK) else
  let first_idx := FirstIdx bitoff in
  let last_idx := LastIdx bitmax in
  b ← change_words first_idx last_idx (fun i w => Z.land w (not64 (GetMask (i =? first_idx) (i =? last_idx) bitoff bitmax))) b; Some (b, ZX_OK).

Definition ClearAll (b : RawBitmap) : option RawBitmap :=
  if size_ b =? 0 then Some b else change_words 0 (LastIdx (size_ b)) (fun _ _ => 0) b.

Definition GetOne (bitoff : Z) (b : RawBitmap) : option bool := fst <$> Get bitoff (wrap64 (bitoff + 1)) b.
Definition SetOne (bitoff : Z) (b : RawBitmap) : option (RawBitmap * zx_status_t) := Set_ bitoff (wrap64 (bitoff + 1)) b.
Definition ClearOne (bitoff : Z) (b : RawBitmap) : option (RawBitmap * zx_status_t) := Clear bitoff (wrap64 (bitoff + 1)) b.

(** [memset] to zero of [len] bytes, [off] bytes into the array; both are multiples of 8. *)
Definition memset_zero (off len : Z) (words : list Z) : option (list Z) :=
  if off + len <=? 8 * zlen words then Some (zsplice (off / 8) (replicate (Z.to_nat (len / 8)) 0) words) else None.

Definition Grow (size : Z) (e : st_env) (b : RawBitmap) : option (RawBitmap * zx_status_t) :=
  if negb st_has_grow then Some (b, ZX_ERR_NO_RESOURCES) else
  if size <? size_ b then Some (b, ZX_ERR_INVALID_ARGS) else
  if size =? size_ b then Some (b, ZX_OK) else
  let old_len := LastIdx (size_ b) + 1 in
  let new_len := LastIdx size + 1 in
  let new_bitsize := wrap64 (8 * new_len) in
  if new_bitsize <? new_len then None else
  '(bits, status) ← st_Grow new_bitsize e (bits_ b);
  if negb (bool_decide (status = ZX_OK)) then Some (mkRaw (size_ b) (data_ b) bits, status) else
  words ← memset_zero (wrap64 (old_len * 8)) (wrap64 ((new_len - old_len) * 8)) (st_words bits);
  '(b', _) ← Clear (size_ b) (Z.min (wrap64 (old_len * kBits)) size) (mkRaw size true (st_store words bits));
  Some (b', ZX_OK).

Definition Reset (size : Z) (e : st_env) (b : RawBitmap) : option (RawBitmap * zx_status_t) :=
  if size =? 0 then Some (mkRaw 0 false (bits_ b), ZX_OK) else
  '(bits, status) ← st_Allocate (8 * (LastIdx size + 1)) e (bits_ b);
  if negb (bool_decide (status = ZX_OK)) then Some (mkRaw size (data_ b) bits, status) else
  b ← ClearAll (mkRaw size true bits); Some (b, ZX_OK).

End Bitmap.
Arguments RawBitmap : clear implicits.
