(* ===== verification/RawBitmapSpec.v ===== *)
(** * Bitmaps in arrays of words, as sequences of bits

    The searches of [RawBitmap] are equal to searches that look at one bit after the other, and
    its operations implement a sequence of bits, over any storage that obeys the laws. *)

From S2P Require Import Prelude Types BitmapStorage RawBitmap.

(** ** Searches bit by bit *)

(** The first, or last, of the [n] positions from [i] on where [p] holds. *)
Fixpoint first_from (p : Z -> bool) (n : nat) (i : Z) : option Z :=
  match n with O => None | S n => if p i then Some i else first_from p n (i + 1) end.

Fixpoint last_from (p : Z -> bool) (n : nat) (i : Z) : option Z :=
  match n with O => None | S n => if p (i + Z.of_nat n) then Some (i + Z.of_nat n) else last_from p n i end.

(** A sequence of bits. *)
Record Bits := mkBits { bs_size : Z; bs_bit : Z -> bool }.

Definition differs (m : Bits) (is_set : bool) (i : Z) : bool := negb (eqb (bs_bit m i) is_set).

(** The number of positions of a range that are in the bitmap. *)
Definition span (m : Bits) (bitoff bitmax : Z) : nat := Z.to_nat (Z.min bitmax (bs_size m) - bitoff).

Definition ref_scan (m : Bits) (bitoff bitmax : Z) (is_set : bool) : option Z :=
  first_from (differs m is_set) (span m bitoff bitmax) bitoff.

Definition ref_reverse_scan (m : Bits) (bitoff bitmax : Z) (is_set : bool) : option Z :=
  last_from (differs m is_set) (span m bitoff bitmax) bitoff.

(** Every bit of [start, start + run_len) that the bitmap has is as asked for, the first one too
    when the run is empty. *)
Definition run_at (m : Bits) (is_set : bool) (run_len start : Z) : bool :=
  negb (differs m is_set start) && bool_decide (ref_scan m start (start + run_len) is_set = None).

Definition find_answer (r : option Z) : zx_status_t * option Z :=
  match r with Some i => (ZX_OK, Some i) | None => (ZX_ERR_NO_RESOURCES, None) end.

Definition ref_find (m : Bits) (is_set : bool) (bitoff bitmax run_len : Z) : option Z :=
  first_from (fun i => (i + run_len <=? bitmax) && run_at m is_set run_len i) (span m bitoff bitmax) bitoff.

(** The end of the last run; the run is [end - run_len, end). *)
Definition run_before (m : Bits) (is_set : bool) (run_len last : Z) : bool :=
  negb (differs m is_set last) && bool_decide (ref_reverse_scan m (last + 1 - run_len) (last + 1) is_set = None).

Definition ref_reverse_find (m : Bits) (is_set : bool) (bitoff bitmax run_len : Z) : option Z :=
  (fun last => last + 1 - run_len) <$>
  last_from (fun last => (bitoff <=? last + 1 - run_len) && run_before m is_set run_len last) (span m bitoff bitmax) bitoff.

Lemma first_from_spec p n i r : first_from p n i = r <->
  match r with
  | Some k => i <= k < i + Z.of_nat n /\ p k = true /\ forall j, i <= j < k -> p j = false
  | None => forall j, i <= j < i + Z.of_nat n -> p j = false
  end.
Proof.
  revert i. induction n as [|n IH]; intros i; cbn [first_from].
  - destruct r; split; intros; try done; lia.
  - destruct (p i) eqn:Hp.
    + destruct r as [k|]; split.
      * intros [= <-]. split_and!; [lia|lia|done|intros; lia].
      * intros (? & ? & Hj). destruct (decide (k = i)) as [->|]; [done|]. rewrite Hj in Hp by lia. done.
      * done.
      * intros Hj. rewrite Hj in Hp by lia. done.
    + rewrite IH. destruct r as [k|].
      * split; intros (Hk & Hpk & Hj); (split_and!; [| |done|intros j ?]).
        1-2: lia.
        { destruct (decide (j = i)) as [->|]; [done|apply Hj; lia]. }
        all: try (assert (k <> i) by congruence; lia). apply Hj. lia.
      * split; intros Hj j ?; [destruct (decide (j = i)) as [->|]; [done|]|]; apply Hj; lia.
Qed.

Lemma last_from_spec p n i r : last_from p n i = r <->
  match r with
  | Some k => i <= k < i + Z.of_nat n /\ p k = true /\ forall j, k < j < i + Z.of_nat n -> p j = false
  | None => forall j, i <= j < i + Z.of_nat n -> p j = false
  end.
Proof.
  induction n as [|n IH]; cbn [last_from].
  - destruct r; split; intros; try done; lia.
  - destruct (p (i + Z.of_nat n)) eqn:Hp.
    + destruct r as [k|]; split.
      * intros [= <-]. split_and!; [lia|lia|done|intros; lia].
      * intros (? & ? & Hj). destruct (decide (k = i + Z.of_nat n)) as [->|]; [done|]. rewrite Hj in Hp by lia. done.
      * done.
      * intros Hj. rewrite Hj in Hp by lia. done.
    + rewrite IH. destruct r as [k|].
      * split; intros (Hk & Hpk & Hj); (split_and!; [| |done|intros j ?]).
        1-2: lia.
        { destruct (decide (j = i + Z.of_nat n)) as [->|]; [done|apply Hj; lia]. }
        all: try (assert (k <> i + Z.of_nat n) by congruence; lia). apply Hj. lia.
      * split; intros Hj j ?; [destruct (decide (j = i + Z.of_nat n)) as [->|]; [done|]|]; apply Hj; lia.
Qed.

(** ** Masks *)

Lemma wrap64_bit x k : 0 <= k < 64 -> Z.testbit (wrap64 x) k = Z.testbit x k.
Proof. intros. unfold wrap. rewrite Z.mod_pow2_bits_low by lia. done. Qed.

Lemma word_bit_high w k : is_word w -> 64 <= k -> Z.testbit w k = false.
Proof.
  intros [H0 H1] Hk. destruct (decide (w = 0)) as [->|]; [apply Z.bits_0|]. apply Z.bits_above_log2; [done|].
  apply Z.log2_lt_pow2; [lia|]. apply Z.lt_le_trans with (2 ^ 64); [done|]. apply Z.pow_le_mono_r; lia.
Qed.

Lemma word_of_bits w : 0 <= w -> (forall k, 64 <= k -> Z.testbit w k = false) -> is_word w.
Proof.
  intros H0 Hb. split; [done|]. assert (Hw : w = wrap64 w).
  { apply Z.bits_inj'. intros k Hk. destruct (decide (k < 64)); [by rewrite wrap64_bit by lia|].
    unfold wrap. rewrite Hb by lia. by rewrite Z.mod_pow2_bits_high by lia. }
  rewrite Hw. apply (wrap_range 64). lia.
Qed.

Lemma wrap64_word x : is_word (wrap64 x).
Proof. apply (wrap_range 64). lia. Qed.

Lemma land_word a b : is_word a -> is_word b -> is_word (Z.land a b).
Proof.
  intros Ha [Hb Hb']. apply word_of_bits; [apply Z.land_nonneg; by right|].
  intros k Hk. by rewrite Z.land_spec, word_bit_high.
Qed.

Lemma lor_word a b : is_word a -> is_word b -> is_word (Z.lor a b).
Proof.
  intros Ha Hb. apply word_of_bits; [apply Z.lor_nonneg; split; [apply Ha|apply Hb]|].
  intros k Hk. by rewrite Z.lor_spec, !word_bit_high.
Qed.

Lemma not64_bit x k : 0 <= k < 64 -> Z.testbit (not64 x) k = negb (Z.testbit x k).
Proof. intros. unfold not64. rewrite wrap64_bit, Z.lnot_spec by lia. done. Qed.

Lemma ones64_bit k : 0 <= k < 64 -> Z.testbit ones64 k = true.
Proof. intros. change ones64 with (Z.ones 64). apply Z.ones_spec_low. lia. Qed.

Lemma GetMask_word first last off max : is_word (GetMask first last off max).
Proof.
  assert (is_word ones64) by (unfold is_word, ones64; lia). unfold GetMask.
  assert (is_word (Z.shiftr ones64 ((kBits - max mod kBits) mod kBits))).
  { pose proof (Z.mod_pos_bound (kBits - max mod kBits) kBits ltac:(done)) as Hm.
    apply word_of_bits; [by apply Z.shiftr_nonneg|]. intros k Hk. rewrite Z.shiftr_spec by lia. apply word_bit_high; [done|lia]. }
  destruct first, last; repeat apply land_word; try done; apply wrap64_word.
Qed.

Lemma GetMask_bit first last off max k : 0 <= k < 64 ->
  Z.testbit (GetMask first last off max) k = (negb first || (off mod 64 <=? k)) && (negb last || (k <=? (max - 1) mod 64)).
Proof.
  intros Hk. unfold GetMask, kBits.
  assert (Hf : Z.testbit (wrap64 (Z.shiftl ones64 (off mod 64))) k = (off mod 64 <=? k)).
  { pose proof (Z.mod_pos_bound off 64 ltac:(done)). rewrite wrap64_bit, Z.shiftl_spec by lia.
    destruct (Z.leb_spec (off mod 64) k); [apply ones64_bit; lia|apply Z.testbit_neg_r; lia]. }
  assert (Hl : Z.testbit (Z.shiftr ones64 ((64 - max mod 64) mod 64)) k = (k <=? (max - 1) mod 64)).
  { pose proof (Z.mod_pos_bound max 64 ltac:(done)). pose proof (Z.mod_pos_bound (64 - max mod 64) 64 ltac:(done)).
    rewrite Z.shiftr_spec by lia. destruct (decide (max mod 64 = 0)) as [E|E].
    - rewrite E. change ((64 - 0) mod 64) with 0. rewrite Z.add_0_r, ones64_bit by done.
      replace ((max - 1) mod 64) with 63; [symmetry; apply Z.leb_le; lia|].
      rewrite Zminus_mod, E. done.
    - rewrite (Z.mod_small (64 - max mod 64)) by lia.
      replace ((max - 1) mod 64) with (max mod 64 - 1) by (pose proof (Z_div_mod_eq_full max 64); apply (Z.mod_unique_pos _ _ (max / 64)); lia).
      destruct (Z.leb_spec k (max mod 64 - 1)); [apply ones64_bit; lia|]. apply word_bit_high; [unfold is_word, ones64; lia|lia]. }
  destruct first, last; rewrite ?Z.land_spec, ?ones64_bit, ?Hf, ?Hl by done; cbn [negb orb andb]; by rewrite ?andb_true_r.
Qed.

(** Within the words a range touches, the mask selects the range. *)
Lemma GetMask_range bitoff bitmax i k : 0 <= bitoff < bitmax -> bitmax < 2 ^ 64 ->
  FirstIdx bitoff <= i <= LastIdx bitmax -> 0 <= k < 64 ->
  Z.testbit (GetMask (i =? FirstIdx bitoff) (i =? LastIdx bitmax) bitoff bitmax) k = (bitoff <=? 64 * i + k) && (64 * i + k <? bitmax).
Proof.
  unfold FirstIdx, LastIdx, kBits. intros Ho Hm Hi Hk. rewrite GetMask_bit by done. rewrite wrap_small in * by lia.
  pose proof (Z_div_mod_eq_full bitoff 64). pose proof (Z_div_mod_eq_full (bitmax - 1) 64).
  pose proof (Z.mod_pos_bound bitoff 64 ltac:(done)). pose proof (Z.mod_pos_bound (bitmax - 1) 64 ltac:(done)).
  f_equal.
  - destruct (Z.eqb_spec i (bitoff / 64)), (Z.leb_spec (bitoff mod 64) k), (Z.leb_spec bitoff (64 * i + k)); cbn [negb orb]; lia.
  - destruct (Z.eqb_spec i ((bitmax - 1) / 64)), (Z.leb_spec k ((bitmax - 1) mod 64)), (Z.ltb_spec (64 * i + k) bitmax); cbn [negb orb]; lia.
Qed.

Lemma MaskBits_word w i bitoff bitmax is_set : is_word w -> is_word (MaskBits w i bitoff bitmax is_set).
Proof. intros. unfold MaskBits. destruct is_set; [apply wrap64_word|apply land_word; [apply GetMask_word|done]]. Qed.

Lemma MaskBits_bit w i bitoff bitmax is_set k : 0 <= bitoff < bitmax -> bitmax < 2 ^ 64 ->
  FirstIdx bitoff <= i <= LastIdx bitmax -> 0 <= k < 64 ->
  Z.testbit (MaskBits w i bitoff bitmax is_set) k =
  (bitoff <=? 64 * i + k) && (64 * i + k <? bitmax) && negb (eqb (Z.testbit w k) is_set).
Proof.
  intros. unfold MaskBits. rewrite <-GetMask_range by done. destruct is_set.
  - rewrite not64_bit, Z.lor_spec, not64_bit by done. by destruct (Z.testbit (GetMask _ _ _ _) k), (Z.testbit w k).
  - rewrite Z.land_spec. by destruct (Z.testbit w k).
Qed.

Lemma word_zero w : is_word w -> (forall k, 0 <= k < 64 -> Z.testbit w k = false) -> w = 0.
Proof.
  intros Hw Hb. apply Z.bits_inj'. intros k Hk. rewrite Z.bits_0.
  destruct (decide (k < 64)); [apply Hb; lia|apply word_bit_high; [done|lia]].
Qed.

Lemma ctz_spec n x : 0 < x < 2 ^ Z.of_nat n ->
  0 <= ctz n x < Z.of_nat n /\ Z.testbit x (ctz n x) = true /\ forall k, 0 <= k < ctz n x -> Z.testbit x k = false.
Proof.
  revert x. induction n as [|n IH]; intros x Hx; [cbn in Hx; lia|]. cbn [ctz]. rewrite Nat2Z.inj_succ, Z.pow_succ_r in Hx by lia.
  destruct (Z.odd x) eqn:Ho; [split_and!; [lia|lia|by rewrite Z.bit0_odd|intros; lia]|].
  assert (Hd : x = 2 * (x / 2)) by (pose proof (Z.div2_odd x) as H2; rewrite Ho, Z.div2_div in H2; cbn [Z.b2z] in H2; lia).
  destruct (IH (x / 2)) as (Hr & Hb & Hlow); [lia|]. split_and!; [lia|lia| |].
  - replace (1 + ctz n (x / 2)) with (Z.succ (ctz n (x / 2))) by lia. rewrite Hd at 1. by rewrite Z.double_bits_succ.
  - intros k Hk. rewrite Hd. destruct (decide (k = 0)) as [->|]; [by rewrite Z.testbit_even_0|].
    replace k with (Z.succ (k - 1)) by lia. rewrite Z.double_bits_succ. apply Hlow. lia.
Qed.

Lemma CTZ_spec x : is_word x -> x <> 0 ->
  0 <= CTZ x < 64 /\ Z.testbit x (CTZ x) = true /\ forall k, 0 <= k < CTZ x -> Z.testbit x k = false.
Proof.
  intros [H0 H1] Hn. unfold CTZ. destruct (Z.eqb_spec x 0); [done|]. apply (ctz_spec 64). lia.
Qed.

Lemma CLZ_spec x : is_word x -> x <> 0 ->
  0 <= CLZ x < 64 /\ Z.testbit x (63 - CLZ x) = true /\ forall k, 63 - CLZ x < k -> Z.testbit x k = false.
Proof.
  intros [H0 H1] Hn. unfold CLZ. destruct (Z.eqb_spec x 0); [done|]. pose proof (Z.log2_nonneg x).
  assert (Z.log2 x < 64) by (apply Z.log2_lt_pow2; lia). replace (63 - (63 - Z.log2 x)) with (Z.log2 x) by lia.
  split_and!; [lia|lia|apply Z.bit_log2; lia|]. intros k Hk. apply Z.bits_above_log2; lia.
Qed.

Section Spec.
Context {T : Type} {HS : Storage T} {HL : StorageLaws T}.
Implicit Types b : RawBitmap T.

(** ** What a bitmap holds *)

Definition bit b (i : Z) : bool := match data_at b (i / 64) with Some w => Z.testbit w (i mod 64) | None => false end.

(** The storage covers the bitmap. *)
Definition raw_ok b : Prop :=
  st_wf (bits_ b) /\ 0 <= size_ b < 2 ^ 64 /\
  (0 < size_ b -> data_ b = true /\ st_live (bits_ b) /\ size_ b <= 64 * zlen (st_words (bits_ b))).

Definition holds b (m : Bits) : Prop :=
  raw_ok b /\ size_ b = bs_size m /\ forall i, 0 <= i < bs_size m -> bit b i = bs_bit m i.

Lemma pos_div i k : 0 <= k < 64 -> (64 * i + k) / 64 = i /\ (64 * i + k) mod 64 = k.
Proof. intros. split; [symmetry; apply (Z.div_unique_pos _ _ _ k)|symmetry; apply (Z.mod_unique_pos _ _ i)]; lia. Qed.

Lemma LastIdx_range bitmax : 0 < bitmax < 2 ^ 64 -> 64 * LastIdx bitmax < bitmax <= 64 * (LastIdx bitmax + 1).
Proof.
  intros. unfold LastIdx, kBits. rewrite wrap_small by lia. pose proof (Z_div_mod_eq_full (bitmax - 1) 64).
  pose proof (Z.mod_pos_bound (bitmax - 1) 64 ltac:(done)). lia.
Qed.

Lemma FirstIdx_range bitoff : 64 * FirstIdx bitoff <= bitoff < 64 * (FirstIdx bitoff + 1).
Proof. unfold FirstIdx, kBits. pose proof (Z_div_mod_eq_full bitoff 64). pose proof (Z.mod_pos_bound bitoff 64 ltac:(done)). lia. Qed.

Lemma data_at_some b i : raw_ok b -> 0 <= i -> 64 * i < size_ b -> exists w, data_at b i = Some w /\ is_word w.
Proof.
  intros (Hwf & Hsz & Hpos) H0 Hi. destruct Hpos as (Hd & _ & Hlen); [lia|]. unfold data_at. rewrite Hd. unfold zlen in Hlen.
  destruct (lookup_lt_is_Some_2 (st_words (bits_ b)) (Z.to_nat i)) as [w Hw]; [lia|]. exists w. split; [done|].
  apply st_wf_words in Hwf. rewrite Forall_lookup in Hwf. by eapply Hwf.
Qed.

Lemma bit_word b i k w : data_at b i = Some w -> 0 <= k < 64 -> bit b (64 * i + k) = Z.testbit w k.
Proof. intros Hw Hk. unfold bit. destruct (pos_div i k Hk) as [-> ->]. by rewrite Hw. Qed.

(** The part of the range in one word. *)
Lemma MaskBits_differs b m i w bitoff bitmax is_set k : holds b m -> data_at b i = Some w ->
  0 <= bitoff < bitmax -> bitmax <= size_ b -> FirstIdx bitoff <= i <= LastIdx bitmax -> 0 <= k < 64 ->
  Z.testbit (MaskBits w i bitoff bitmax is_set) k = (bitoff <=? 64 * i + k) && (64 * i + k <? bitmax) && differs m is_set (64 * i + k).
Proof.
  intros (Hok & Hsz & Hbits) Hw Ho Hm Hi Hk. pose proof Hok as (_ & ? & _). rewrite MaskBits_bit by lia.
  destruct (Z.leb_spec bitoff (64 * i + k)), (Z.ltb_spec (64 * i + k) bitmax); try done. cbn [andb].
  unfold differs. by rewrite <-Hbits, (bit_word b i k w) by (done || lia).
Qed.

Lemma MaskBits_at b m i w bitoff bitmax is_set j : holds b m -> data_at b i = Some w ->
  0 <= bitoff < bitmax -> bitmax <= size_ b -> FirstIdx bitoff <= i <= LastIdx bitmax ->
  Z.max bitoff (64 * i) <= j < Z.min bitmax (64 * (i + 1)) ->
  Z.testbit (MaskBits w i bitoff bitmax is_set) (j - 64 * i) = differs m is_set j.
Proof.
  intros Hh Hw Ho Hm Hi Hj. rewrite (MaskBits_differs b m) by (done || lia). replace (64 * i + (j - 64 * i)) with j by lia.
  by rewrite (proj2 (Z.leb_le _ _)), (proj2 (Z.ltb_lt _ _)) by lia.
Qed.

Lemma scan_loop_spec b m bitoff bitmax is_set fuel i : holds b m -> 0 <= bitoff < bitmax -> bitmax <= size_ b ->
  FirstIdx bitoff <= i <= LastIdx bitmax -> fuel = Z.to_nat (LastIdx bitmax - i + 1) ->
  scan_loop fuel i bitoff bitmax is_set b =
  Some (first_from (differs m is_set) (Z.to_nat (bitmax - Z.max bitoff (64 * i))) (Z.max bitoff (64 * i))).
Proof.
  intros Hh Ho Hm. revert i. pose proof Hh as (Hok & Hsz & _). pose proof Hok as (_ & Hr & _).
  pose proof (FirstIdx_range bitoff). pose proof (LastIdx_range bitmax ltac:(lia)).
  induction fuel as [|fuel IH]; intros i Hi Hf; [lia|]. cbn [scan_loop].
  destruct (data_at_some b i Hok) as (w & Hw & Hword); [lia..|]. rewrite Hw. cbn [mbind option_bind].
  pose proof (MaskBits_differs b m i w bitoff bitmax is_set) as Hmask.
  pose proof (MaskBits_word w i bitoff bitmax is_set Hword) as Hmw.
  destruct (Z.eqb_spec (MaskBits w i bitoff bitmax is_set) 0) as [E|E]; cbn [negb].
  - assert (Hnone : forall j, Z.max bitoff (64 * i) <= j < Z.min bitmax (64 * (i + 1)) -> differs m is_set j = false)
      by (intros j Hj; by rewrite <-(MaskBits_at b m i w bitoff bitmax), E, Z.bits_0).
    destruct (Z.eqb_spec i (LastIdx bitmax)) as [->|].
    + f_equal. symmetry. apply first_from_spec. intros j Hj. apply Hnone. lia.
    + rewrite IH by lia. f_equal. symmetry. apply first_from_spec.
      destruct (first_from _ _ (Z.max bitoff (64 * (i + 1)))) as [r|] eqn:Hr'; apply first_from_spec in Hr'.
      * destruct Hr' as (Hr1 & Hr2 & Hr3). split_and!; [lia|lia|done|]. intros j Hj.
        destruct (decide (j < 64 * (i + 1))); [apply Hnone; lia|apply Hr3; lia].
      * intros j Hj. destruct (decide (j < 64 * (i + 1))); [apply Hnone; lia|apply Hr'; lia].
  - destruct (CTZ_spec _ Hmw E) as (Hc & Hb & Hlow). f_equal. symmetry. apply first_from_spec. unfold kBits.
    rewrite Hmask in Hb by done. rewrite !andb_true_iff, Z.leb_le, Z.ltb_lt in Hb. destruct Hb as [[? ?] Hb].
    replace (i * 64) with (64 * i) by lia. split_and!; [lia|lia|done|]. intros j Hj.
    rewrite <-(MaskBits_at b m i w bitoff bitmax is_set j) by (done || lia). apply Hlow. lia.
Qed.

Lemma reverse_scan_loop_spec b m bitoff bitmax is_set fuel i : holds b m -> 0 <= bitoff < bitmax -> bitmax <= size_ b ->
  FirstIdx bitoff <= i <= LastIdx bitmax -> fuel = Z.to_nat (i - FirstIdx bitoff + 1) ->
  reverse_scan_loop fuel i bitoff bitmax is_set b =
  Some (last_from (differs m is_set) (Z.to_nat (Z.min bitmax (64 * (i + 1)) - bitoff)) bitoff).
Proof.
  intros Hh Ho Hm. revert i. pose proof Hh as (Hok & Hsz & _). pose proof Hok as (_ & Hr & _).
  pose proof (FirstIdx_range bitoff). pose proof (LastIdx_range bitmax ltac:(lia)).
  induction fuel as [|fuel IH]; intros i Hi Hf; [lia|]. cbn [reverse_scan_loop].
  assert (0 <= FirstIdx bitoff) by (apply Z.div_pos; [lia|done]).
  destruct (data_at_some b i Hok) as (w & Hw & Hword); [lia..|]. rewrite Hw. cbn [mbind option_bind].
  pose proof (MaskBits_differs b m i w bitoff bitmax is_set) as Hmask.
  pose proof (MaskBits_word w i bitoff bitmax is_set Hword) as Hmw.
  destruct (Z.eqb_spec (MaskBits w i bitoff bitmax is_set) 0) as [E|E]; cbn [negb].
  - assert (Hnone : forall j, Z.max bitoff (64 * i) <= j < Z.min bitmax (64 * (i + 1)) -> differs m is_set j = false)
      by (intros j Hj; by rewrite <-(MaskBits_at b m i w bitoff bitmax), E, Z.bits_0).
    destruct (Z.eqb_spec i (FirstIdx bitoff)) as [->|].
    + f_equal. symmetry. apply last_from_spec. intros j Hj. apply Hnone. lia.
    + rewrite IH by lia. f_equal. symmetry. apply last_from_spec.
      destruct (last_from _ (Z.to_nat (Z.min bitmax (64 * (i - 1 + 1)) - bitoff)) _) as [r|] eqn:Hr'; apply last_from_spec in Hr'.
      * destruct Hr' as (Hr1 & Hr2 & Hr3). split_and!; [lia|lia|done|]. intros j Hj.
        destruct (decide (64 * i <= j)); [apply Hnone; lia|apply Hr3; lia].
      * intros j Hj. destruct (decide (64 * i <= j)); [apply Hnone; lia|apply Hr'; lia].
  - destruct (CLZ_spec _ Hmw E) as (Hc & Hb & Hhigh). f_equal. symmetry. apply last_from_spec. unfold kBits.
    rewrite Hmask in Hb by (done || lia). rewrite !andb_true_iff, Z.leb_le, Z.ltb_lt in Hb. destruct Hb as [[? ?] Hb].
    replace ((i + 1) * 64 - (CLZ (MaskBits w i bitoff bitmax is_set) + 1)) with (64 * i + (63 - CLZ (MaskBits w i bitoff bitmax is_set))) by lia.
    split_and!; [lia|lia|done|]. intros j Hj.
    rewrite <-(MaskBits_at b m i w bitoff bitmax is_set j) by (done || lia). apply Hhigh. lia.
Qed.

Lemma Scan_eq b m bitoff bitmax is_set : holds b m -> 0 <= bitoff ->
  Scan bitoff bitmax is_set b = Some (ref_scan m bitoff bitmax is_set).
Proof.
  intros Hh H0. pose proof Hh as ((_ & Hr & _) & Hsz & _). unfold Scan, ref_scan, span. rewrite Hsz.
  destruct (Z.leb_spec (Z.min bitmax (bs_size m)) bitoff); [by replace (Z.to_nat _) with O by lia|].
  pose proof (FirstIdx_range bitoff). pose proof (LastIdx_range (Z.min bitmax (bs_size m)) ltac:(lia)).
  rewrite (scan_loop_spec b m) by (done || lia). by rewrite Z.max_l by lia.
Qed.

Lemma ReverseScan_eq b m bitoff bitmax is_set : holds b m -> 0 <= bitoff ->
  ReverseScan bitoff bitmax is_set b = Some (ref_reverse_scan m bitoff bitmax is_set).
Proof.
  intros Hh H0. pose proof Hh as ((_ & Hr & _) & Hsz & _). unfold ReverseScan, ref_reverse_scan, span. rewrite Hsz.
  destruct (Z.leb_spec (Z.min bitmax (bs_size m)) bitoff); [by replace (Z.to_nat _) with O by lia|].
  pose proof (FirstIdx_range bitoff). pose proof (LastIdx_range (Z.min bitmax (bs_size m)) ltac:(lia)).
  rewrite (reverse_scan_loop_spec b m) by (done || lia). by rewrite (Z.min_l (Z.min _ _)) by lia.
Qed.

Lemma first_from_skip p n n' i i' : i <= i' -> (forall j, i <= j < i' -> p j = false) ->
  i' + Z.of_nat n' = i + Z.of_nat n -> first_from p n i = first_from p n' i'.
Proof.
  intros Hi Hp Hn. apply first_from_spec. destruct (first_from p n' i') as [k|] eqn:E; apply first_from_spec in E.
  - destruct E as (? & ? & Hj). split_and!; [lia|lia|done|]. intros j ?. destruct (decide (j < i')); [apply Hp|apply Hj]; lia.
  - intros j ?. destruct (decide (j < i')); [apply Hp|apply E]; lia.
Qed.

Lemma last_from_skip p n n' i : (n' <= n)%nat -> (forall j, i + Z.of_nat n' <= j < i + Z.of_nat n -> p j = false) ->
  last_from p n i = last_from p n' i.
Proof.
  intros Hi Hp. apply last_from_spec. destruct (last_from p n' i) as [k|] eqn:E; apply last_from_spec in E.
  - destruct E as (? & ? & Hj). split_and!; [lia|lia|done|]. intros j ?. destruct (decide (j < i + Z.of_nat n')); [apply Hj|apply Hp]; lia.
  - intros j ?. destruct (decide (j < i + Z.of_nat n')); [apply E|apply Hp]; lia.
Qed.

Lemma differs_negb m is_set i : differs m (negb is_set) i = negb (differs m is_set i).
Proof. unfold differs. by destruct (bs_bit m i), is_set. Qed.

(** A run that would hold a bit that differs is none. *)
Lemma run_at_false m is_set run_len start pos : start <= pos < Z.max (start + 1) (Z.min (start + run_len) (bs_size m)) ->
  differs m is_set pos = true -> run_at m is_set run_len start = false.
Proof.
  intros Hpos Hd. unfold run_at. destruct (decide (pos = start)) as [->|]; [by rewrite Hd|].
  rewrite bool_decide_eq_false_2; [by rewrite andb_false_r|]. intros Hn. unfold ref_scan, span in Hn. rewrite first_from_spec in Hn.
  rewrite Hn in Hd; [done|lia].
Qed.

Lemma run_before_false m is_set run_len last pos : last < bs_size m -> Z.min last (last + 1 - run_len) <= pos <= last ->
  differs m is_set pos = true -> run_before m is_set run_len last = false.
Proof.
  intros Hl Hpos Hd. unfold run_before. destruct (decide (pos = last)) as [->|]; [by rewrite Hd|].
  rewrite bool_decide_eq_false_2; [by rewrite andb_false_r|]. intros Hn. unfold ref_reverse_scan, span in Hn. rewrite last_from_spec in Hn.
  rewrite Hn in Hd; [done|lia].
Qed.

Lemma find_loop_eq b m is_set bitmax run_len fuel bitoff : holds b m -> 0 <= bitmax < 2 ^ 64 -> 0 <= run_len -> 0 <= bitoff ->
  (Z.to_nat (size_ b - bitoff) < fuel)%nat ->
  find_loop fuel is_set bitoff bitmax run_len b = Some (find_answer (ref_find m is_set bitoff bitmax run_len)).
Proof.
  intros Hh Hm Hrun. revert bitoff. pose proof Hh as ((_ & Hr & _) & Hsz & _).
  induction fuel as [|fuel IH]; intros bitoff H0 Hf; [lia|]. cbn [find_loop]. rewrite (Scan_eq b m) by done. cbn [mbind option_bind].
  destruct (ref_scan m bitoff bitmax (negb is_set)) as [start|] eqn:Hs; unfold ref_scan in Hs; apply first_from_spec in Hs; unfold span in Hs.
  - destruct Hs as (Hst & Hd & Hbefore). rewrite differs_negb, negb_true_iff in Hd. rewrite wrap_small by lia.
    assert (Hskip : forall j, bitoff <= j < start -> run_at m is_set run_len j = false).
    { intros j Hj. apply (run_at_false _ _ _ _ j); [lia|]. specialize (Hbefore j Hj). by rewrite differs_negb, negb_false_iff in Hbefore. }
    destruct (Z.ltb_spec (bitmax - start) run_len).
    { f_equal. change (ZX_ERR_NO_RESOURCES, None) with (find_answer None). f_equal. symmetry. apply first_from_spec. intros j Hj.
      destruct (decide (j < start)); [by rewrite Hskip, andb_false_r by lia|]. by rewrite (proj2 (Z.leb_gt _ _)) by lia. }
    rewrite wrap_small, (Scan_eq b m) by (done || lia). cbn [mbind option_bind].
    destruct (ref_scan m start (start + run_len) is_set) as [pos|] eqn:Hp.
    + unfold ref_scan in Hp. apply first_from_spec in Hp as (Hpos & Hdp & _). unfold span in Hpos.
      assert (pos <> start) by congruence. rewrite IH by lia. unfold ref_find, span. do 2 f_equal. symmetry.
      apply first_from_skip; [lia| |lia]. intros j Hj. destruct (decide (j < start)); [by rewrite Hskip, andb_false_r by lia|].
      rewrite (run_at_false _ _ _ _ pos), andb_false_r by (done || lia). done.
    + f_equal. change (ZX_OK, Some start) with (find_answer (Some start)). f_equal. symmetry. apply first_from_spec. unfold span.
      split_and!; [lia|lia| |intros j Hj; by rewrite Hskip, andb_false_r].
      unfold run_at. rewrite Hd, Hp, (proj2 (Z.leb_le _ _)), bool_decide_eq_true_2 by (done || lia). done.
  - f_equal. change (ZX_ERR_NO_RESOURCES, None) with (find_answer None). f_equal. symmetry. apply first_from_spec. unfold span. intros j Hj.
    specialize (Hs j Hj). rewrite differs_negb, negb_false_iff in Hs. rewrite (run_at_false _ _ _ _ j), andb_false_r by (done || lia). done.
Qed.

Lemma reverse_find_loop_eq b m is_set bitoff run_len fuel bitmax : holds b m -> 0 <= bitoff < 2 ^ 64 -> 0 <= run_len ->
  (Z.to_nat (Z.min bitmax (size_ b) - bitoff) < fuel)%nat ->
  reverse_find_loop fuel is_set bitoff bitmax run_len b = Some (find_answer (ref_reverse_find m is_set bitoff bitmax run_len)).
Proof.
  intros Hh Hm Hrun. revert bitmax. pose proof Hh as ((_ & Hr & _) & Hsz & _).
  induction fuel as [|fuel IH]; intros bitmax Hf; [lia|]. cbn [reverse_find_loop].
  rewrite (ReverseScan_eq b m) by (done || lia). cbn [mbind option_bind].
  destruct (ref_reverse_scan m bitoff bitmax (negb is_set)) as [last|] eqn:Hs; unfold ref_reverse_scan in Hs; apply last_from_spec in Hs; unfold span in Hs.
  - destruct Hs as (Hst & Hd & Hafter). rewrite differs_negb, negb_true_iff in Hd. rewrite !(wrap_small 64 (last + 1)), (wrap_small 64 (last + 1 - bitoff)) by lia.
    assert (Hskip : forall j, last < j < bitoff + Z.of_nat (span m bitoff bitmax) -> run_before m is_set run_len j = false).
    { intros j Hj. unfold span in Hj. apply (run_before_false _ _ _ _ j); [lia|lia|]. specialize (Hafter j Hj). by rewrite differs_negb, negb_false_iff in Hafter. }
    unfold span in Hskip. destruct (Z.ltb_spec (last + 1 - bitoff) run_len).
    { f_equal. change (ZX_ERR_NO_RESOURCES, None) with (find_answer None). f_equal. symmetry. unfold ref_reverse_find. apply fmap_None, last_from_spec.
      unfold span. intros j Hj. destruct (decide (last < j)); [by rewrite Hskip, andb_false_r by lia|]. by rewrite (proj2 (Z.leb_gt _ _)) by lia. }
    rewrite !(wrap_small 64 (last + 1 - run_len)), (ReverseScan_eq b m) by (done || lia). cbn [mbind option_bind].
    destruct (ref_reverse_scan m (last + 1 - run_len) (last + 1) is_set) as [pos|] eqn:Hp.
    + unfold ref_reverse_scan in Hp. apply last_from_spec in Hp as (Hpos & Hdp & _). unfold span in Hpos.
      assert (pos <> last) by congruence. rewrite IH by lia. unfold ref_reverse_find, span. do 3 f_equal. symmetry.
      apply last_from_skip; [lia|]. intros j Hj. destruct (decide (last < j)); [by rewrite Hskip, andb_false_r by lia|].
      rewrite (run_before_false _ _ _ _ pos), andb_false_r by (done || lia). done.
    + f_equal. change (ZX_OK, Some (last + 1 - run_len)) with (find_answer (Some (last + 1 - run_len))). f_equal. symmetry.
      unfold ref_reverse_find. apply fmap_Some. exists last. split; [|done]. apply last_from_spec. unfold span.
      split_and!; [lia|lia| |intros j Hj; by rewrite Hskip, andb_false_r].
      unfold run_before. rewrite Hd, Hp, (proj2 (Z.leb_le _ _)), bool_decide_eq_true_2 by (done || lia). done.
  - f_equal. change (ZX_ERR_NO_RESOURCES, None) with (find_answer None). f_equal. symmetry. unfold ref_reverse_find. apply fmap_None, last_from_spec.
    unfold span. intros j Hj. specialize (Hs j Hj). rewrite differs_negb, negb_false_iff in Hs.
    rewrite (run_before_false _ _ _ _ j), andb_false_r by (done || lia). done.
Qed.

(** ** Changing words *)

Lemma word_loop_spec f n i words : 0 <= i -> i + Z.of_nat n <= zlen words ->
  exists words', word_loop n i f words = Some words' /\ length words' = length words /\
  forall j : nat, words' !! j = if bool_decide (i <= Z.of_nat j < i + Z.of_nat n) then f (Z.of_nat j) <$> words !! j else words !! j.
Proof.
  revert i words. induction n as [|n IH]; intros i words Hi Hn; cbn [word_loop].
  - exists words. split_and!; [done..|]. intros j. by rewrite bool_decide_eq_false_2 by lia.
  - unfold zlen in *. destruct (lookup_lt_is_Some_2 words (Z.to_nat i)) as [w Hw]; [lia|]. rewrite Hw. cbn [mbind option_bind].
    destruct (IH (i + 1) (<[Z.to_nat i := f i w]> words)) as (words' & -> & Hl & Hj); [lia|rewrite length_insert; lia|].
    exists words'. rewrite length_insert in Hl. split_and!; [done..|]. intros j. rewrite Hj. destruct (decide (j = Z.to_nat i)) as [->|].
    + rewrite bool_decide_eq_false_2, bool_decide_eq_true_2 by lia. rewrite list_lookup_insert_eq by lia. rewrite Hw. cbn. by rewrite Z2Nat.id.
    + rewrite !list_lookup_insert_ne by done. case_bool_decide; case_bool_decide; done || lia.
Qed.

Lemma change_words_spec f b first_idx last_idx : raw_ok b -> 0 <= first_idx <= last_idx -> 64 * last_idx < size_ b ->
  (forall i w, is_word w -> is_word (f i w)) ->
  exists b', change_words first_idx last_idx f b = Some b' /\ raw_ok b' /\ size_ b' = size_ b /\
  forall i, 0 <= i -> data_at b' i = if bool_decide (first_idx <= i <= last_idx) then f i <$> data_at b i else data_at b i.
Proof.
  intros (Hwf & Hr & Hpos) Hi Hl Hf. destruct Hpos as (Hd & Hlive & Hlen); [lia|]. unfold change_words. rewrite Hd.
  destruct (word_loop_spec f (Z.to_nat (last_idx - first_idx + 1)) first_idx (st_words (bits_ b))) as (words & -> & Hlw & Hj); [lia..|].
  destruct (st_store_ok words (bits_ b) Hwf Hlw) as (Hwf' & Heq & Hlive').
  { apply Forall_lookup. intros j w Hw. rewrite Hj in Hw. pose proof (st_wf_words _ Hwf) as Hall. rewrite Forall_lookup in Hall.
    case_bool_decide; [|by eapply Hall]. apply fmap_Some in Hw as (w0 & Hw0 & ->). apply Hf. by eapply Hall. }
  cbn [mbind option_bind]. eexists. split; [done|]. split_and!; [|done|].
  - split_and!; [done|cbn [size_]; lia..|]. intros _. cbn [data_ bits_ size_]. rewrite Heq. split_and!; [done|auto|]. unfold zlen in *. by rewrite Hlw.
  - intros i H0. unfold data_at. cbn [data_ bits_]. rewrite Hd, Heq, Hj, Z2Nat.id by done.
    do 2 case_bool_decide; done || lia.
Qed.

Lemma bit_change f b b' first_idx last_idx i :
  (forall i, 0 <= i -> data_at b' i = if bool_decide (first_idx <= i <= last_idx) then f i <$> data_at b i else data_at b i) ->
  raw_ok b -> 0 <= i < size_ b ->
  bit b' i = if bool_decide (first_idx <= i / 64 <= last_idx)
             then match data_at b (i / 64) with Some w => Z.testbit (f (i / 64) w) (i mod 64) | None => false end else bit b i.
Proof.
  intros Hd Hok Hi. assert (0 <= i / 64) by (apply Z.div_pos; lia). unfold bit. rewrite Hd by done.
  case_bool_decide; [|done]. by destruct (data_at b (i / 64)).
Qed.

Definition set_range (v : bool) (bitoff bitmax : Z) (m : Bits) : Bits :=
  mkBits (bs_size m) (fun i => if (bitoff <=? i) && (i <? bitmax) then v else bs_bit m i).

(** [Set] and [Clear] give a range one value. *)
Lemma mask_range_holds v f b m bitoff bitmax : holds b m -> 0 <= bitoff < bitmax -> bitmax <= size_ b ->
  (forall i w, is_word w -> is_word (f i w)) ->
  (forall i w k, 0 <= k < 64 -> Z.testbit (f i w) k =
     if Z.testbit (GetMask (i =? FirstIdx bitoff) (i =? LastIdx bitmax) bitoff bitmax) k then v else Z.testbit w k) ->
  exists b', change_words (FirstIdx bitoff) (LastIdx bitmax) f b = Some b' /\ holds b' (set_range v bitoff bitmax m).
Proof.
  intros (Hok & Hsz & Hbits) Ho Hm Hword Hf. pose proof Hok as (_ & Hr & _).
  pose proof (FirstIdx_range bitoff). pose proof (LastIdx_range bitmax ltac:(lia)).
  destruct (change_words_spec f b (FirstIdx bitoff) (LastIdx bitmax) Hok) as (b' & Hc & Hok' & Hsz' & Hd); [lia|lia|done|].
  exists b'. split; [done|]. split_and!; [done|cbn [bs_size set_range]; lia|]. cbn [bs_size bs_bit set_range]. intros i Hi.
  rewrite (bit_change f b b' _ _ i Hd Hok) by lia. pose proof (Z_div_mod_eq_full i 64). pose proof (Z.mod_pos_bound i 64 ltac:(done)).
  rewrite <-Hbits by lia. case_bool_decide as Hin.
  - unfold bit. destruct (data_at_some b (i / 64) Hok) as (w & -> & _); [lia..|].
    rewrite Hf, GetMask_range by lia. by replace (64 * (i / 64) + i mod 64) with i by lia.
  - destruct (Z.leb_spec bitoff i), (Z.ltb_spec i bitmax); try done. exfalso. apply Hin. lia.
Qed.

Definition invalid_range (m : Bits) (bitoff bitmax : Z) : bool := (bitmax <? bitoff) || (bs_size m <? bitmax).

Lemma empty_range_holds v b m bitoff : holds b m -> holds b (set_range v bitoff bitoff m).
Proof.
  intros (Hok & Hsz & Hb). split_and!; [done..|]. cbn [bs_size bs_bit set_range]. intros i Hi. rewrite Hb by done.
  by destruct (Z.leb_spec bitoff i), (Z.ltb_spec i bitoff); try lia.
Qed.

Lemma Set_holds b m bitoff bitmax : holds b m -> 0 <= bitoff ->
  if invalid_range m bitoff bitmax then Set_ bitoff bitmax b = Some (b, ZX_ERR_INVALID_ARGS)
  else exists b', Set_ bitoff bitmax b = Some (b', ZX_OK) /\ holds b' (set_range true bitoff bitmax m).
Proof.
  intros Hh H0. pose proof Hh as (_ & Hsz & _). unfold Set_, invalid_range. rewrite <-Hsz.
  destruct (Z.ltb_spec bitmax bitoff), (Z.ltb_spec (size_ b) bitmax); try done. cbn [orb].
  destruct (Z.eqb_spec bitoff bitmax) as [->|]; [exists b; split; [done|by apply empty_range_holds]|].
  destruct (mask_range_holds true (fun i w => Z.lor w (GetMask (i =? FirstIdx bitoff) (i =? LastIdx bitmax) bitoff bitmax)) b m bitoff bitmax)
    as (b' & -> & Hb'); [done|lia|lia| | |by exists b'].
  - intros i w Hw. by apply lor_word, GetMask_word.
  - intros i w k Hk. rewrite Z.lor_spec. by destruct (Z.testbit w k), (Z.testbit (GetMask _ _ _ _) k).
Qed.

Lemma Clear_holds b m bitoff bitmax : holds b m -> 0 <= bitoff ->
  if invalid_range m bitoff bitmax then Clear bitoff bitmax b = Some (b, ZX_ERR_INVALID_ARGS)
  else exists b', Clear bitoff bitmax b = Some (b', ZX_OK) /\ holds b' (set_range false bitoff bitmax m).
Proof.
  intros Hh H0. pose proof Hh as (_ & Hsz & _). unfold Clear, invalid_range. rewrite <-Hsz.
  destruct (Z.ltb_spec bitmax bitoff), (Z.ltb_spec (size_ b) bitmax); try done. cbn [orb].
  destruct (Z.eqb_spec bitoff bitmax) as [->|]; [exists b; split; [done|by apply empty_range_holds]|].
  destruct (mask_range_holds false (fun i w => Z.land w (not64 (GetMask (i =? FirstIdx bitoff) (i =? LastIdx bitmax) bitoff bitmax))) b m bitoff bitmax)
    as (b' & -> & Hb'); [done|lia|lia| | |by exists b'].
  - intros i w Hw. apply land_word; [done|apply wrap64_word].
  - intros i w k Hk. rewrite Z.land_spec, not64_bit by done. by destruct (Z.testbit w k), (Z.testbit (GetMask _ _ _ _) k).
Qed.

Definition no_bits (size : Z) : Bits := mkBits size (fun _ => false).

Lemma ClearAll_holds b : raw_ok b -> exists b', ClearAll b = Some b' /\ holds b' (no_bits (size_ b)).
Proof.
  intros Hok. pose proof Hok as (_ & Hr & _). unfold ClearAll.
  destruct (Z.eqb_spec (size_ b) 0) as [E|]; [exists b; split; [done|]; split_and!; [done..|]; cbn [bs_size no_bits]; rewrite E; intros; lia|].
  pose proof (LastIdx_range (size_ b) ltac:(lia)).
  destruct (change_words_spec (fun _ _ => 0) b 0 (LastIdx (size_ b)) Hok) as (b' & -> & Hok' & Hsz' & Hd); [lia|lia|unfold is_word; lia|].
  exists b'. split; [done|]. split_and!; [done..|]. cbn [bs_size no_bits bs_bit]. intros i Hi. rewrite (bit_change _ b b' _ _ i Hd Hok) by lia.
  pose proof (Z_div_mod_eq_full i 64). pose proof (Z.mod_pos_bound i 64 ltac:(done)).
  rewrite bool_decide_eq_true_2 by lia. destruct (data_at b (i / 64)); [apply Z.bits_0|done].
Qed.

(** ** Changing the size *)

Lemma holds_ext b m m' : holds b m -> bs_size m = bs_size m' -> (forall i, 0 <= i < bs_size m -> bs_bit m i = bs_bit m' i) -> holds b m'.
Proof. intros (Hok & Hsz & Hb) Hs Hm. split_and!; [done|lia|]. intros i Hi. rewrite <-Hm by lia. apply Hb. lia. Qed.

Definition resize (size : Z) (m : Bits) : Bits := mkBits size (fun i => (i <? bs_size m) && bs_bit m i).

Lemma Shrink_holds b m size : holds b m -> 0 <= size <= bs_size m -> Shrink size b = (mkRaw size (data_ b) (bits_ b), ZX_OK) /\ holds (mkRaw size (data_ b) (bits_ b)) (resize size m).
Proof.
  intros ((Hwf & Hr & Hpos) & Hsz & Hb) Hs. unfold Shrink. rewrite (proj2 (Z.ltb_ge _ _)) by lia. split; [done|]. split_and!; [|done|].
  - split_and!; [done|cbn [size_]; lia..|]. cbn [size_ data_ bits_]. intros. destruct Hpos as (? & ? & ?); [lia|]. split_and!; [done..|lia].
  - cbn [resize bs_size bs_bit]. intros i Hi. rewrite (proj2 (Z.ltb_lt _ _)) by lia. cbn [andb]. rewrite <-Hb by lia. done.
Qed.

Lemma Reset_holds b size e bits : raw_ok b -> 0 < size < 2 ^ 64 -> st_Allocate (8 * (LastIdx size + 1)) e (bits_ b) = Some (bits, ZX_OK) ->
  exists b', Reset size e b = Some (b', ZX_OK) /\ holds b' (no_bits size).
Proof.
  intros (Hwf & _) Hs Ha. unfold Reset. destruct (Z.eqb_spec size 0); [lia|]. rewrite Ha. cbn [mbind option_bind].
  rewrite bool_decide_eq_true_2 by done. cbn [negb]. pose proof (LastIdx_range size ltac:(lia)).
  destruct (st_Allocate_ok (8 * (LastIdx size + 1)) _ _ _ _ Hwf ltac:(lia) Ha) as (Hwf' & Hok). destruct Hok as (Hlive & Hlen); [done|].
  destruct (ClearAll_holds (mkRaw size true bits)) as (b' & -> & Hb'); [|by exists b'].
  split_and!; [done|cbn [size_]; lia..|]. intros _. cbn [size_ bits_ data_]. split_and!; [done..|lia].
Qed.

Lemma memset_zero_spec o n words : 0 <= o -> 0 <= n -> o + n <= zlen words ->
  exists words', memset_zero (o * 8) (n * 8) words = Some words' /\ length words' = length words /\
  forall j : nat, words' !! j = if bool_decide (o <= Z.of_nat j < o + n) then Some 0 else words !! j.
Proof.
  intros Ho Hn Hl. unfold memset_zero. rewrite (proj2 (Z.leb_le _ _)), !Z_div_mult by lia. eexists. split; [done|].
  unfold zsplice, ztake, zdrop, zlen in *. split.
  - rewrite !length_app, length_take, length_drop, !length_replicate. lia.
  - intros j. rewrite lookup_app. destruct (decide (Z.of_nat j < o)).
    + rewrite bool_decide_eq_false_2 by lia. rewrite lookup_take_lt by lia.
      destruct (words !! j) eqn:E; [done|]. apply lookup_ge_None in E. lia.
    + rewrite lookup_take_ge by lia. rewrite length_take, lookup_app. case_bool_decide.
      * by rewrite lookup_replicate_2 by lia.
      * rewrite (lookup_ge_None_2 (replicate _ _)) by (rewrite length_replicate; lia). rewrite length_replicate, lookup_drop. f_equal. lia.
Qed.

(** What the storage keeps, the bitmap keeps. *)
Lemma bit_kept b size (d : bool) bits i : raw_ok b -> 0 <= i < size_ b -> d = data_ b ->
  st_words bits !! Z.to_nat (i / 64) = st_words (bits_ b) !! Z.to_nat (i / 64) -> bit (mkRaw size d bits) i = bit b i.
Proof. intros (_ & _ & Hpos) Hi -> Hw. unfold bit, data_at. cbn [data_ bits_]. by rewrite Hw. Qed.

Lemma Grow_holds b m size e : holds b m -> st_has_grow = true -> 0 < size_ b < size -> size < 2 ^ 64 -> size_ b <= 2 ^ 64 - 64 ->
  exists b' st, Grow size e b = Some (b', st) /\ holds b' (if bool_decide (st = ZX_OK) then resize size m else m).
Proof.
  intros (Hok & Hsz & Hb) Hg Hs Hs' Hov. pose proof Hok as (Hwf & Hr & Hpos). destruct Hpos as (Hd & Hlive & Hlen); [lia|].
  unfold Grow. rewrite Hg, (proj2 (Z.ltb_ge _ _)), (proj2 (Z.eqb_neq _ _)) by lia. cbn [negb].
  pose proof (LastIdx_range size ltac:(lia)) as Hnew. pose proof (LastIdx_range (size_ b) ltac:(lia)) as HO.
  remember (LastIdx size + 1) as new_len. remember (LastIdx (size_ b) + 1) as old_len.
  rewrite !wrap_small by (unfold kBits; lia). rewrite (proj2 (Z.ltb_ge _ _)) by lia.
  destruct (st_Grow_answers (8 * new_len) e (bits_ b) Hg) as [[bits st] Ha]. rewrite Ha. cbn [mbind option_bind].
  destruct (st_Grow_ok (8 * new_len) _ _ _ _ Hwf Hlive ltac:(lia) Ha) as (Hwf' & Hlive' & Hok' & Hkeep). unfold zlen in *.
  assert (Hold : forall i, 0 <= i < size_ b -> st_words bits !! Z.to_nat (i / 64) = st_words (bits_ b) !! Z.to_nat (i / 64)).
  { intros i Hi. pose proof (Z_div_mod_eq_full i 64). pose proof (Z.mod_pos_bound i 64 ltac:(done)). apply Hkeep; lia. }
  destruct (bool_decide (st = ZX_OK)) eqn:Est; cbn [negb].
  - apply bool_decide_eq_true in Est as ->. specialize (Hok' eq_refl).
    destruct (memset_zero_spec old_len (new_len - old_len) (st_words bits)) as (words & -> & Hlw & Hj); [unfold zlen; lia..|]. cbn [mbind option_bind].
    destruct (st_store_ok words bits Hwf' Hlw) as (Hwf2 & Heq & Hlive2).
    { apply Forall_lookup. intros j w Hw. rewrite Hj in Hw. pose proof (st_wf_words _ Hwf') as Hall. rewrite Forall_lookup in Hall.
      case_bool_decide; [|by eapply Hall]. injection Hw as <-. unfold is_word. lia. }
    set (b1 := mkRaw size true (st_store words bits)). set (m1 := mkBits size (bit b1)).
    assert (H1 : holds b1 m1).
    { split_and!; [|done..]. split_and!; [done|cbn [size_ b1]; lia..|]. intros _. cbn [size_ bits_ data_ b1]. rewrite Heq.
      split_and!; [done|auto|]. unfold zlen. lia. }
    pose proof (Clear_holds b1 m1 (size_ b) (Z.min (old_len * kBits) size) H1 ltac:(lia)) as Hc. unfold invalid_range in Hc.
    cbn [bs_size m1] in Hc. rewrite !(proj2 (Z.ltb_ge _ _)) in Hc by (unfold kBits; lia). destruct Hc as (b' & -> & Hb'). cbn [mbind option_bind].
    exists b', ZX_OK. split; [done|]. rewrite bool_decide_eq_true_2 by done.
    apply (holds_ext _ _ _ Hb'); [done|]. cbn [set_range bs_size bs_bit resize m1]. unfold kBits. intros i Hi. rewrite <-Hsz.
    pose proof (Z_div_mod_eq_full i 64). pose proof (Z.mod_pos_bound i 64 ltac:(done)).
    destruct (Z.leb_spec (size_ b) i), (Z.ltb_spec i (size_ b)), (Z.ltb_spec i (Z.min (old_len * 64) size)); try lia; cbn [andb]; try done.
    + unfold bit, data_at. cbn [b1 data_ bits_]. rewrite Heq, Hj, bool_decide_eq_true_2 by lia. apply Z.bits_0.
    + rewrite <-Hb by lia. apply bit_kept; [done|lia|done|]. cbn [bits_]. rewrite Heq, Hj, bool_decide_eq_false_2 by lia. apply Hold; lia.
  - exists (mkRaw (size_ b) (data_ b) bits), st. split; [done|]. rewrite Est. split_and!; [|done|].
    + split_and!; [done|cbn [size_]; lia..|]. intros _. cbn [size_ data_ bits_]. split_and!; [done..|]. unfold zlen.
      destruct (lookup_lt_is_Some_2 (st_words (bits_ b)) (Z.to_nat (old_len - 1))) as [w Hw]; [lia|].
      rewrite <-(Hkeep (Z.to_nat (old_len - 1))) in Hw by lia. apply lookup_lt_Some in Hw. lia.
    + intros i Hi. rewrite <-Hb by done. apply bit_kept; [done|lia|done|]. apply Hold. lia.
Qed.

(** ** Runs *)

Inductive RawOp :=
| OpSet (bitoff bitmax : Z)
| OpClear (bitoff bitmax : Z)
| OpClearAll
| OpShrink (size : Z)
| OpGrow (size : Z) (e : st_env)
| OpReset (size : Z) (e : st_env)
| OpGet (bitoff bitmax : Z)
| OpFind (is_set : bool) (bitoff bitmax run_len : Z)
| OpReverseFind (is_set : bool) (bitoff bitmax run_len : Z).

Inductive RawRes := RStatus (st : zx_status_t) | RVoid | RGet (r : bool * Z) | RFind (r : zx_status_t * option Z).

#[local] Instance RawRes_eq_dec : EqDecision RawRes.
Proof. solve_decision. Defined.

Definition with_status (r : option (RawBitmap T * zx_status_t)) : option (RawBitmap T * RawRes) := '(b, st) ← r; Some (b, RStatus st).

Definition raw_step (op : RawOp) b : option (RawBitmap T * RawRes) :=
  match op with
  | OpSet bitoff bitmax => with_status (Set_ bitoff bitmax b)
  | OpClear bitoff bitmax => with_status (Clear bitoff bitmax b)
  | OpClearAll => b ← ClearAll b; Some (b, RVoid)
  | OpShrink size => with_status (Some (Shrink size b))
  | OpGrow size e => with_status (Grow size e b)
  | OpReset size e => with_status (Reset size e b)
  | OpGet bitoff bitmax => r ← Get bitoff bitmax b; Some (b, RGet r)
  | OpFind is_set bitoff bitmax run_len => r ← Find is_set bitoff bitmax run_len true b; Some (b, RFind r)
  | OpReverseFind is_set bitoff bitmax run_len => r ← ReverseFind is_set bitoff bitmax run_len true b; Some (b, RFind r)
  end.

Definition ref_get (m : Bits) (bitoff bitmax : Z) : bool * Z :=
  match ref_scan m bitoff bitmax true with None => (true, bitmax) | Some i => (false, i) end.

Definition ref_answer (r : option Z) (bitoff bitmax : Z) : zx_status_t * option Z :=
  if bitmax <=? bitoff then (ZX_ERR_INVALID_ARGS, None) else find_answer r.

Definition expect (r r' : RawRes) (m : Bits) : option Bits := if decide (r = r') then Some m else None.

(** The bits after an operation that answered [r]; [None] when it may not answer this. *)
Definition bits_step (op : RawOp) (r : RawRes) (m : Bits) : option Bits :=
  match op with
  | OpSet bitoff bitmax =>
      if invalid_range m bitoff bitmax then expect r (RStatus ZX_ERR_INVALID_ARGS) m else expect r (RStatus ZX_OK) (set_range true bitoff bitmax m)
  | OpClear bitoff bitmax =>
      if invalid_range m bitoff bitmax then expect r (RStatus ZX_ERR_INVALID_ARGS) m else expect r (RStatus ZX_OK) (set_range false bitoff bitmax m)
  | OpClearAll => expect r RVoid (no_bits (bs_size m))
  | OpShrink size => if bs_size m <? size then expect r (RStatus ZX_ERR_NO_MEMORY) m else expect r (RStatus ZX_OK) (resize size m)
  | OpGrow size _ =>
      if negb st_has_grow then expect r (RStatus ZX_ERR_NO_RESOURCES) m
      else if size <? bs_size m then expect r (RStatus ZX_ERR_INVALID_ARGS) m
      else match r with RStatus st => Some (if bool_decide (st = ZX_OK) then resize size m else m) | _ => None end
  | OpReset size _ => expect r (RStatus ZX_OK) (no_bits size)
  | OpGet bitoff bitmax => expect r (RGet (ref_get m bitoff bitmax)) m
  | OpFind is_set bitoff bitmax run_len => expect r (RFind (ref_answer (ref_find m is_set bitoff bitmax run_len) bitoff bitmax)) m
  | OpReverseFind is_set bitoff bitmax run_len => expect r (RFind (ref_answer (ref_reverse_find m is_set bitoff bitmax run_len) bitoff bitmax)) m
  end.

Definition is_size (n : Z) : bool := (0 <=? n) && (n <? 2 ^ 64).

(** What the code asks of its callers and of the storage: arguments are of type [size_t], no
    allocation of [Reset] fails, and a bitmap of no bits, or of nearly 2^64, does not grow. *)
Definition op_usable (op : RawOp) b : bool :=
  match op with
  | OpSet bitoff bitmax | OpClear bitoff bitmax | OpGet bitoff bitmax => is_size bitoff && is_size bitmax
  | OpClearAll => true
  | OpShrink size => is_size size
  | OpGrow size _ => is_size size && ((size <=? size_ b) || (0 <? size_ b) && (size_ b <=? 2 ^ 64 - 64))
  | OpReset size e => is_size size && ((size =? 0) ||
      match st_Allocate (8 * (LastIdx size + 1)) e (bits_ b) with Some (_, st) => bool_decide (st = ZX_OK) | None => false end)
  | OpFind _ bitoff bitmax run_len | OpReverseFind _ bitoff bitmax run_len => is_size bitoff && is_size bitmax && is_size run_len
  end.

Fixpoint raw_run (ops : list RawOp) b : option (RawBitmap T * list RawRes) :=
  match ops with
  | [] => Some (b, [])
  | op :: ops => '(b, r) ← raw_step op b; '(b, rs) ← raw_run ops b; Some (b, r :: rs)
  end.

Fixpoint run_usable (ops : list RawOp) b : bool :=
  match ops with
  | [] => true
  | op :: ops => op_usable op b && match raw_step op b with Some (b, _) => run_usable ops b | None => true end
  end.

Fixpoint bits_run (ops : list RawOp) (rs : list RawRes) (m : Bits) : option Bits :=
  match ops, rs with
  | [], [] => Some m
  | op :: ops, r :: rs => m ← bits_step op r m; bits_run ops rs m
  | _, _ => None
  end.

Lemma is_size_spec n : is_size n = true <-> 0 <= n < 2 ^ 64.
Proof. unfold is_size. rewrite andb_true_iff, Z.leb_le, Z.ltb_lt. done. Qed.

Lemma expect_same r m : expect r r m = Some m.
Proof. unfold expect. by rewrite decide_True. Qed.

Lemma Find_eq b m is_set bitoff bitmax run_len : holds b m -> 0 <= bitoff -> 0 <= bitmax < 2 ^ 64 -> 0 <= run_len ->
  Find is_set bitoff bitmax run_len true b = Some (ref_answer (ref_find m is_set bitoff bitmax run_len) bitoff bitmax).
Proof.
  intros. unfold Find, ref_answer. cbn [negb orb]. destruct (Z.leb_spec bitmax bitoff); [done|]. apply find_loop_eq; try done. lia.
Qed.

Lemma ReverseFind_eq b m is_set bitoff bitmax run_len : holds b m -> 0 <= bitoff < 2 ^ 64 -> 0 <= run_len ->
  ReverseFind is_set bitoff bitmax run_len true b = Some (ref_answer (ref_reverse_find m is_set bitoff bitmax run_len) bitoff bitmax).
Proof.
  intros. unfold ReverseFind, ref_answer. cbn [negb orb]. destruct (Z.leb_spec bitmax bitoff); [done|]. apply reverse_find_loop_eq; try done. lia.
Qed.

Lemma Get_eq b m bitoff bitmax : holds b m -> 0 <= bitoff -> Get bitoff bitmax b = Some (ref_get m bitoff bitmax).
Proof. intros Hh H0. unfold Get, ref_get. rewrite (Scan_eq b m) by done. done. Qed.

Lemma raw_grow_refines size e b m : holds b m -> op_usable (OpGrow size e) b = true ->
  exists b' r m', raw_step (OpGrow size e) b = Some (b', r) /\ bits_step (OpGrow size e) r m = Some m' /\ holds b' m'.
Proof.
  intros Hh Hu. pose proof Hh as (Hok & Hsz & Hb). cbn [op_usable] in Hu. rewrite andb_true_iff, is_size_spec in Hu. destruct Hu as [Hs Hu].
  cbn [raw_step bits_step]. destruct st_has_grow eqn:Hg; cbn [negb].
  2:{ exists b, (RStatus ZX_ERR_NO_RESOURCES), m. unfold Grow. rewrite Hg. split_and!; [done|apply expect_same|done]. }
  rewrite <-Hsz. destruct (Z.ltb_spec size (size_ b)) as [Hlt|Hge].
  { exists b, (RStatus ZX_ERR_INVALID_ARGS), m. unfold Grow. rewrite Hg, (proj2 (Z.ltb_lt _ _)) by done.
    split_and!; [done|apply expect_same|done]. }
  destruct (decide (size = size_ b)) as [->|].
  { exists b, (RStatus ZX_OK), (resize (size_ b) m). unfold Grow. rewrite Hg, Z.ltb_irrefl, Z.eqb_refl. split_and!; [done..|].
    apply (holds_ext _ m); [done|done|]. cbn [resize bs_bit]. intros i Hi. by rewrite (proj2 (Z.ltb_lt _ _)) by lia. }
  rewrite orb_true_iff, andb_true_iff, !Z.leb_le, Z.ltb_lt in Hu. destruct (Grow_holds b m size e) as (b' & st & -> & Hb'); [done|done|lia..|].
  exists b', (RStatus st). eexists. split_and!; done.
Qed.

Lemma raw_step_refines op b m : holds b m -> op_usable op b = true ->
  exists b' r m', raw_step op b = Some (b', r) /\ bits_step op r m = Some m' /\ holds b' m'.
Proof.
  intros Hh Hu. pose proof Hh as (Hok & Hsz & Hb). destruct op as [o x|o x| |size|size e|size e|o x|v o x n|v o x n]; [..|by apply raw_grow_refines| | | |].
  all: cbn [op_usable] in Hu; rewrite ?andb_true_iff, ?is_size_spec in Hu; cbn [raw_step bits_step].
  - pose proof (Set_holds b m o x Hh ltac:(lia)) as Hs. destruct (invalid_range m o x); [|destruct Hs as (b' & Hs & Hb')]; rewrite Hs;
      do 3 eexists; (split; [done|split; [apply expect_same|done]]).
  - pose proof (Clear_holds b m o x Hh ltac:(lia)) as Hs. destruct (invalid_range m o x); [|destruct Hs as (b' & Hs & Hb')]; rewrite Hs;
      do 3 eexists; (split; [done|split; [apply expect_same|done]]).
  - destruct (ClearAll_holds b Hok) as (b' & -> & Hb'). rewrite Hsz in Hb'. do 3 eexists. split; [done|split; [apply expect_same|done]].
  - destruct (Z.ltb_spec (bs_size m) size).
    + unfold Shrink. rewrite (proj2 (Z.ltb_lt _ _)) by lia. do 3 eexists. split; [done|split; [apply expect_same|done]].
    + destruct (Shrink_holds b m size Hh) as [-> Hb']; [lia|]. do 3 eexists. split; [done|split; [apply expect_same|done]].
  - destruct Hu as [Hs Hu]. destruct (Z.eqb_spec size 0) as [->|].
    + do 3 eexists. split; [done|split; [apply expect_same|]]. destruct Hok as (Hwf & _). split_and!; [|done|cbn [bs_size no_bits]; intros; lia].
      split_and!; [done..|]. cbn [size_]. lia.
    + cbn [orb] in Hu. destruct (st_Allocate _ e (bits_ b)) as [[bits st]|] eqn:Ha; [|done]. apply bool_decide_eq_true in Hu as ->.
      destruct (Reset_holds b size e bits Hok) as (b' & -> & Hb'); [lia|done|]. do 3 eexists. split; [done|split; [apply expect_same|done]].
  - rewrite (Get_eq b m) by (done || lia). do 3 eexists. split; [done|split; [apply expect_same|done]].
  - rewrite (Find_eq b m) by (done || lia). do 3 eexists. split; [done|split; [apply expect_same|done]].
  - rewrite (ReverseFind_eq b m) by (done || lia). do 3 eexists. split; [done|split; [apply expect_same|done]].
Qed.

Lemma raw_run_refines ops b m : holds b m -> run_usable ops b = true ->
  exists b' rs m', raw_run ops b = Some (b', rs) /\ bits_run ops rs m = Some m' /\ holds b' m'.
Proof.
  revert b m. induction ops as [|op ops IH]; intros b m Hh Hu; [by exists b, [], m|].
  cbn [run_usable] in Hu. apply andb_true_iff in Hu as [Ho Hu].
  destruct (raw_step_refines op b m Hh Ho) as (b1 & r & m1 & Hs & Hm & Hh1). rewrite Hs in Hu.
  destruct (IH b1 m1 Hh1 Hu) as (b2 & rs & m2 & Hr & Hm2 & Hh2). exists b2, (r :: rs), m2.
  cbn [raw_run bits_run]. rewrite Hs. cbn [mbind option_bind]. rewrite Hr, Hm. by split_and!.
Qed.

Lemma new_holds (s : T) : st_wf s -> holds (RawBitmap_new s) (no_bits 0).
Proof. intros. split_and!; [|done|cbn [bs_size no_bits]; intros; lia]. split_and!; [done..|]. cbn [size_ RawBitmap_new]. lia. Qed.

End Spec.

(** ** The bitmap is a sequence of bits *)

(** C17. The searches that go a word at a time equal the searches that look at one bit after the
    other: on every bitmap whose storage covers it, and for all arguments of type size_t, Scan
    and ReverseScan give the first and the last bit of the range that differs, Find and
    ReverseFind the first and the last run, and Get the first bit that is not set. In particular
    they all return, and read no word outside of the storage. *)
Theorem raw_searches_equal {T : Type} {HS : Storage T} {HL : StorageLaws T} (b : RawBitmap T) (m : Bits) (is_set : bool) (bitoff bitmax run_len : Z) :
  holds b m -> is_size bitoff = true -> is_size bitmax = true -> is_size run_len = true ->
  Scan bitoff bitmax is_set b = Some (ref_scan m bitoff bitmax is_set) /\
  ReverseScan bitoff bitmax is_set b = Some (ref_reverse_scan m bitoff bitmax is_set) /\
  Get bitoff bitmax b = Some (ref_get m bitoff bitmax) /\
  Find is_set bitoff bitmax run_len true b = Some (ref_answer (ref_find m is_set bitoff bitmax run_len) bitoff bitmax) /\
  ReverseFind is_set bitoff bitmax run_len true b = Some (ref_answer (ref_reverse_find m is_set bitoff bitmax run_len) bitoff bitmax).
Proof.
  rewrite !is_size_spec. intros Hh Ho Hm Hr.
  split_and!; [apply Scan_eq|apply ReverseScan_eq|apply Get_eq|apply Find_eq|apply ReverseFind_eq]; done || lia.
Qed.

Definition two_words : RawBitmap DefaultStorage := mkRaw 100 true (mkDefault [2 ^ 63 + 6; 5]).

Lemma two_words_holds : holds two_words (mkBits 100 (bit two_words)).
Proof.
  split_and!; [|done..]. split_and!; [|cbn [size_ two_words]; lia..|].
  - repeat apply Forall_cons_2; [unfold is_word; lia..|apply Forall_nil_2].
  - intros _. split_and!; [done..|]. cbn [size_ bits_ two_words st_words DefaultStorage_Storage d_storage_]. unfold zlen. cbn [length]. lia.
Qed.

Lemma raw_searches_equal_witness :
  Find true 3 100 2 true two_words = Some (ZX_OK, Some 63) /\ ReverseFind true 0 100 2 true two_words = Some (ZX_OK, Some 63).
Proof.
  destruct (raw_searches_equal two_words _ true 3 100 2 two_words_holds) as (_ & _ & _ & -> & _); [reflexivity..|].
  destruct (raw_searches_equal two_words _ true 0 100 2 two_words_holds) as (_ & _ & _ & _ & ->); [reflexivity..|].
  split; vm_compute; reflexivity.
Defined.

(** C18. A bitmap is a sequence of bits, whatever storage that obeys the laws is behind it: from a
    new bitmap on, every sequence of Set, Clear, ClearAll, Shrink, Grow, Reset and searches runs
    without reaching outside of the storage, and every answer, and the bits at the end, are those
    of a plain sequence of bits. Asked for is that no allocation of Reset fails and that no bitmap
    of no bits grows. *)
Theorem raw_bitmap_refines_bits {T : Type} {HS : Storage T} {HL : StorageLaws T} (s : T) (ops : list RawOp) :
  st_wf s -> run_usable ops (RawBitmap_new s) = true ->
  exists b rs m, raw_run ops (RawBitmap_new s) = Some (b, rs) /\ bits_run ops rs (no_bits 0) = Some m /\ holds b m.
Proof. intros Hs Hu. apply raw_run_refines; [by apply new_holds|done]. Qed.

Definition calls_succeed : @st_env VmoStorage _ := mkVmoEnv ZX_OK ZX_OK ZX_OK ZX_OK ZX_OK ZX_OK ZX_OK.

Lemma raw_bitmap_refines_bits_witness : let ops := [OpReset 70 calls_succeed; OpSet 3 68; OpShrink 66; OpGrow 130 calls_succeed; OpFind false 3 130 2] in
  exists b rs m, raw_run ops (RawBitmap_new VmoStorage_new) = Some (b, rs) /\ bits_run ops rs (no_bits 0) = Some m /\ holds b m.
Proof. apply raw_bitmap_refines_bits; [split; [apply Forall_nil_2|cbn; lia]|vm_compute; reflexivity]. Defined.

(** ** Gaps *)

Section Gaps.
Context {T : Type} {HS : Storage T} {HL : StorageLaws T}.
Implicit Types b : RawBitmap T.

(** [Find] when every bit of the bitmap from [bitoff] on is as asked for. *)
Lemma Find_past_end b m is_set bitoff bitmax run_len :
  holds b m -> 0 <= bitoff < size_ b -> bitmax < 2 ^ 64 -> 0 <= run_len -> bitoff + run_len <= bitmax -> size_ b < bitmax ->
  (forall i, bitoff <= i < size_ b -> bs_bit m i = is_set) -> Find is_set bitoff bitmax run_len true b = Some (ZX_OK, Some bitoff).
Proof.
  intros Hh Ho Hm Hr Hfit Hmax Hall. pose proof Hh as (_ & Hs & _). rewrite (Find_eq b m) by done || lia. unfold ref_answer.
  assert (Hd : forall i, bitoff <= i < size_ b -> differs m is_set i = false).
  { intros i Hi. unfold differs. rewrite Hall by done. by destruct is_set. }
  assert (ref_find m is_set bitoff bitmax run_len = Some bitoff) as ->; [|by destruct (Z.leb_spec bitmax bitoff); [lia|]].
  apply first_from_spec. unfold span. split_and!; [lia..| |lia]. rewrite (proj2 (Z.leb_le _ _)) by lia. unfold run_at. rewrite Hd by lia.
  cbn [andb negb]. apply bool_decide_eq_true, first_from_spec. unfold span. intros j Hj. apply Hd. lia.
Qed.

(** [Grow] of a bitmap of no bits. *)
Lemma Grow_no_bits b size e bits :
  st_has_grow = true -> size_ b = 0 -> 0 < size < 2 ^ 64 -> st_Grow (8 * (LastIdx size + 1)) e (bits_ b) = Some (bits, ZX_OK) ->
  8 * zlen (st_words bits) < 2 ^ 61 -> Grow size e b = None.
Proof.
  intros Hg Hb Hs Hgrow Hlen. pose proof (LastIdx_range size Hs). unfold Grow. rewrite Hg, Hb. cbn [negb].
  rewrite (proj2 (Z.ltb_ge _ _)), (proj2 (Z.eqb_neq _ _)), (wrap_small 64 (8 * _)), (proj2 (Z.ltb_ge _ _)) by lia.
  rewrite Hgrow. cbn [mbind option_bind]. rewrite (bool_decide_true (ZX_OK = ZX_OK)) by done. cbn [negb].
  change (LastIdx 0) with (2 ^ 58 - 1). unfold memset_zero.
  pose proof (wrap_range 64 ((LastIdx size + 1 - (2 ^ 58 - 1 + 1)) * 8) ltac:(lia)).
  change (wrap64 ((2 ^ 58 - 1 + 1) * 8)) with (2 ^ 61). by rewrite (proj2 (Z.leb_gt _ _)) by lia.
Qed.

(** Reading a bit that the bitmap has and the storage has not. *)
Lemma Get_outside b i :
  0 <= i < size_ b -> size_ b < 2 ^ 64 -> 64 * zlen (st_words (bits_ b)) <= i -> Get i (i + 1) b = None.
Proof.
  intros Hi Hs Hout. unfold Get, Scan. rewrite Z.min_l, (proj2 (Z.leb_gt _ _)) by lia.
  assert (LastIdx (i + 1) = FirstIdx i) as -> by (unfold LastIdx, FirstIdx; rewrite wrap_small by lia; f_equal; lia).
  replace (Z.to_nat (FirstIdx i - FirstIdx i + 1)) with 1%nat by lia. cbn [scan_loop].
  assert (data_at b (FirstIdx i) = None) as ->; [|done]. unfold data_at. destruct (data_ b); [|done].
  apply lookup_ge_None_2. pose proof (FirstIdx_range i). unfold zlen in Hout. lia.
Qed.

End Gaps.

(** Releasing a VMO storage that has grown. *)
Lemma grown_vmo_leaks n e s s' :
  0 <= v_size_ s <= v_len s -> v_size_ s < n <= 2 ^ 61 -> VmoStorage_Grow n e s = Some (s', ZX_OK) ->
  v_size_ s' = v_size_ s /\ v_lost s + (n - v_size_ s) <= v_lost (Release s').
Proof.
  intros Hs Hn. destruct (round_up_page n) as [Hr _]; [lia|]. unfold VmoStorage_Grow. rewrite (proj2 (Z.leb_gt _ _)) by lia.
  destruct (v_vmo_ s) as [vmo|]; [|done].
  repeat case_match; intros E; injection E; intros; subst s'; rewrite ?negb_true_iff, ?bool_decide_eq_false in *; try done.
  all: split; [done|]; unfold Release; cbn [v_len v_size_ v_lost]; rewrite (proj2 (Z.eqb_neq _ _)) by lia; cbn [v_lost]; lia.
Qed.

(** C38. Four gaps, over every storage that obeys the laws. (1) When the bits from [bitoff] to the end of
    the bitmap are all as asked for and [bitmax] is past its end, [Find] reports every run from
    [bitoff] that ends by [bitmax], also one that the bitmap is too short for, which [Set] then refuses.
    (2) A bitmap of no bits that grows reaches outside of its storage, unless that has 2^61 bytes,
    since the index of its last word wraps around. (3) A [Reset] whose allocation fails reports it
    and leaves the bitmap with the new size; every access to a bit past the memory it still has is
    outside of it. (4) A VMO storage does not note the size it has grown to, and leaves the
    difference mapped when it is released. *)
Theorem raw_bitmap_gaps {T : Type} {HS : Storage T} {HL : StorageLaws T} (b : RawBitmap T) :
  (forall m is_set bitoff bitmax run_len, holds b m -> 0 <= bitoff < size_ b -> bitmax < 2 ^ 64 ->
   0 <= run_len -> bitoff + run_len <= bitmax -> size_ b < bitoff + run_len ->
   (forall i, bitoff <= i < size_ b -> bs_bit m i = is_set) ->
   Find is_set bitoff bitmax run_len true b = Some (ZX_OK, Some bitoff) /\ Set_ bitoff (bitoff + run_len) b = Some (b, ZX_ERR_INVALID_ARGS)) /\
  (forall size e bits, st_has_grow = true -> size_ b = 0 -> 0 < size < 2 ^ 64 ->
   st_Grow (8 * (LastIdx size + 1)) e (bits_ b) = Some (bits, ZX_OK) -> 8 * zlen (st_words bits) < 2 ^ 61 -> Grow size e b = None) /\
  (forall size e bits st, 0 < size < 2 ^ 64 -> st_Allocate (8 * (LastIdx size + 1)) e (bits_ b) = Some (bits, st) -> st <> ZX_OK ->
   exists b', Reset size e b = Some (b', st) /\ size_ b' = size /\ bits_ b' = bits /\
     forall i, 64 * zlen (st_words bits) <= i < size -> Get i (i + 1) b' = None) /\
  (forall n e s s', 0 <= v_size_ s <= v_len s -> v_size_ s < n <= 2 ^ 61 -> VmoStorage_Grow n e s = Some (s', ZX_OK) ->
   v_size_ s' = v_size_ s /\ v_lost s + (n - v_size_ s) <= v_lost (Release s')).
Proof.
  split_and!.
  - intros m is_set bitoff bitmax run_len Hh Ho Hm Hr Hfit Hlong Hall. split; [apply (Find_past_end b m); done || lia|].
    unfold Set_. rewrite (proj2 (Z.ltb_lt (size_ b) _)) by lia. by rewrite orb_true_r.
  - apply Grow_no_bits.
  - intros size e bits st Hs Ha Hst. unfold Reset. rewrite (proj2 (Z.eqb_neq _ _)), Ha by lia. cbn [mbind option_bind].
    rewrite bool_decide_false by done. cbn [negb]. eexists. split_and!; [done..|]. intros i Hi.
    pose proof (zlen_nonneg (st_words bits)). apply Get_outside; cbn [size_ bits_]; lia.
  - apply grown_vmo_leaks.
Qed.

Definition no_heap : @st_env DefaultStorage _ := (false, fun _ => 255).

(** A bitmap of ten clear bits on the heap, one whose [Reset] to 1000 bits fails, and one in a VMO that was
    shrunk to no bits. *)
Lemma raw_bitmap_gaps_witness :
  (let b := mkRaw 10 true (mkDefault [0]) in
   Find false 5 20 10 true b = Some (ZX_OK, Some 5) /\ Set_ 5 15 b = Some (b, ZX_ERR_INVALID_ARGS)) /\
  (exists b', Reset 1000 no_heap (mkRaw 64 true (mkDefault [0])) = Some (b', ZX_ERR_NO_MEMORY) /\ Get 500 501 b' = None) /\
  (let s := mkVmo (Some (replicate 512 0)) 4096 4096 0 in Grow 128 calls_succeed (mkRaw 0 true s) = None /\
   forall s', VmoStorage_Grow 5000 calls_succeed s = Some (s', ZX_OK) -> 904 <= v_lost (Release s')).
Proof.
  split; [|split].
  - apply (proj1 (raw_bitmap_gaps (mkRaw 10 true (mkDefault [0]))) (mkBits 10 (fun _ => false)) false 5 20 10); try (cbn; lia).
    + split_and!; [split_and!; [repeat constructor; done|cbn; lia|cbn; lia|done]|done|].
      intros i Hi. cbn [bs_size] in Hi. unfold bit, data_at. cbn [data_ st_words bits_ DefaultStorage_Storage d_storage_ bs_bit].
      rewrite Z.div_small by lia. cbn. apply Z.bits_0.
  - destruct (proj1 (proj2 (proj2 (raw_bitmap_gaps (mkRaw 64 true (mkDefault [0]))))) 1000 no_heap (mkDefault [0]) ZX_ERR_NO_MEMORY)
      as (b' & Hr & _ & _ & Hg); [lia|done|done|]. exists b'. split; [exact Hr|]. apply (Hg 500). unfold zlen. cbn. lia.
  - destruct (raw_bitmap_gaps (mkRaw 0 true (mkVmo (Some (replicate 512 0)) 4096 4096 0))) as (_ & H2 & _ & H4). split.
    + apply (H2 128 calls_succeed (mkVmo (Some (replicate 512 0)) 4096 4096 0)); [done|done|lia|vm_compute; reflexivity|].
      apply Z.ltb_lt. vm_compute. reflexivity.
    + intros s' Hs. destruct (H4 5000 calls_succeed (mkVmo (Some (replicate 512 0)) 4096 4096 0) s') as [_ Hl]; [| |exact Hs|]; cbn [v_size_ v_len v_lost] in *; lia.
Defined.
