(* ===== verification/Interrupt.v ===== *)
(** * Interrupt objects

    Models [zircon/kernel/object/interrupt_dispatcher.cc] with its header, the auto-unsignal
    events of [zircon/kernel/kernel/event.cc] it waits on, and of the two kinds of interrupts the
    virtual one ([virtual_interrupt_dispatcher.cc]) and what the physical one
    ([interrupt_event_dispatcher.cc]) does after its creation.

    Every section under the spinlock is one step. A thread in [WaitForInterrupt], [Ack] or
    [Destroy] is a program point between sections ([IPC]), so any number of threads, the
    interrupt itself and the reader of the bound port interleave. Of the port only the packet of
    this interrupt is kept, and whether it is queued. What unblocks a wait early, which thread an
    event wakes, and what the platform answers are inputs. *)

From S2P Require Import Prelude Types.

Definition INTERRUPT_VIRTUAL : Z := 1.
Definition INTERRUPT_UNMASK_PREWAIT : Z := 2.
Definition INTERRUPT_UNMASK_PREWAIT_UNLOCKED : Z := 4.
Definition INTERRUPT_MASK_POSTWAIT : Z := 16.

Inductive InterruptState := WAITING | DESTROYED | TRIGGERED | NEEDACK | IDLE.

#[export] Instance InterruptState_eq_dec : EqDecision InterruptState.
Proof. solve_decision. Defined.

(** The handler that the platform calls. *)
Inductive IrqTarget := IrqHandler | VcpuIrqHandler.

#[export] Instance IrqTarget_eq_dec : EqDecision IrqTarget.
Proof. solve_decision. Defined.

(** Where a thread is. [defer_unmask] is the local variable, which the loop does not reset. *)
Inductive IPC :=
| POutside
| PTop (defer_unmask : bool)        (* WaitForInterrupt, at the top of its loop *)
| PUnmask                           (* about to unmask outside of the lock *)
| PWait (defer_unmask : bool)       (* about to call event_.Wait *)
| PBlocked (defer_unmask : bool)    (* blocked in event_.Wait *)
| PInterrupted (status : zx_status_t)
| PDestroy                          (* Destroy, before the lock *)
| PAckUnmask.                       (* Ack, about to unmask outside of the lock *)

#[export] Instance IPC_eq_dec : EqDecision IPC.
Proof. solve_decision. Defined.

Record Packet := mkPacket { p_key : Z; p_timestamp : Z; p_queued : bool }.

(** [event_] is whether the event is signaled; its waiters are the blocked threads. [masked] and
    [handler] are the state of the platform. [undelivered] is not in the source: an interrupt was
    accepted since the last one was delivered, or given up by [Unbind] or [Destroy] ([accept]). *)
Record Interrupt := mkInterrupt {
  flags_ : Z;
  timestamp_ : Z;
  state_ : InterruptState;
  event_ : bool;
  port_packet_ : Packet;
  port_dispatcher_ : option Z;
  vcpu_ : option Z;
  masked : bool;
  handler : option IrqTarget;
  threads : list IPC;
  undelivered : bool
}.

Definition set_ts ts s := mkInterrupt (flags_ s) ts (state_ s) (event_ s) (port_packet_ s) (port_dispatcher_ s) (vcpu_ s) (masked s) (handler s) (threads s) (undelivered s).
Definition set_state st s := mkInterrupt (flags_ s) (timestamp_ s) st (event_ s) (port_packet_ s) (port_dispatcher_ s) (vcpu_ s) (masked s) (handler s) (threads s) (undelivered s).
Definition set_event e s := mkInterrupt (flags_ s) (timestamp_ s) (state_ s) e (port_packet_ s) (port_dispatcher_ s) (vcpu_ s) (masked s) (handler s) (threads s) (undelivered s).
Definition set_packet p s := mkInterrupt (flags_ s) (timestamp_ s) (state_ s) (event_ s) p (port_dispatcher_ s) (vcpu_ s) (masked s) (handler s) (threads s) (undelivered s).
Definition set_bound p v s := mkInterrupt (flags_ s) (timestamp_ s) (state_ s) (event_ s) (port_packet_ s) p v (masked s) (handler s) (threads s) (undelivered s).
Definition set_platform m h s := mkInterrupt (flags_ s) (timestamp_ s) (state_ s) (event_ s) (port_packet_ s) (port_dispatcher_ s) (vcpu_ s) m h (threads s) (undelivered s).
Definition set_pc (t : nat) pc s := mkInterrupt (flags_ s) (timestamp_ s) (state_ s) (event_ s) (port_packet_ s) (port_dispatcher_ s) (vcpu_ s) (masked s) (handler s) (<[t := pc]> (threads s)) (undelivered s).
Definition set_undelivered u s := mkInterrupt (flags_ s) (timestamp_ s) (state_ s) (event_ s) (port_packet_ s) (port_dispatcher_ s) (vcpu_ s) (masked s) (handler s) (threads s) u.

Definition flag (f : Z) (s : Interrupt) : bool := negb (Z.land (flags_ s) f =? 0).

Definition HasVcpu (s : Interrupt) : bool := bool_decide (is_Some (vcpu_ s)).
Definition HasPort (s : Interrupt) : bool := bool_decide (is_Some (port_dispatcher_ s)).

(** The virtual methods are empty for a virtual interrupt. *)
Definition MaskInterrupt (s : Interrupt) : Interrupt := if flag INTERRUPT_VIRTUAL s then s else set_platform true (handler s) s.
Definition UnmaskInterrupt (s : Interrupt) : Interrupt := if flag INTERRUPT_VIRTUAL s then s else set_platform false (handler s) s.
Definition UnregisterInterruptHandler (s : Interrupt) : Interrupt := if flag INTERRUPT_VIRTUAL s then s else set_platform (masked s) None s.

(** ** The event *)

Definition is_blocked (pc : IPC) : bool := match pc with PBlocked _ => true | _ => false end.

(** The thread to wake: [w] if it waits, else the first that does. *)
Definition wake_target (w : nat) (s : Interrupt) : option (nat * IPC) :=
  match threads s !! w with
  | Some (PBlocked d) => Some (w, PBlocked d)
  | _ => list_find is_blocked (threads s)
  end.

Definition Signal (w : nat) (s : Interrupt) : Interrupt :=
  if event_ s then s else
  match wake_target w s with
  | Some (t, PBlocked d) => set_pc t (PTop d) s
  | _ => set_event true s
  end.

Definition Unsignal (s : Interrupt) : Interrupt := set_event false s.

(** [event_.Wait] up to blocking; [intr] is the status of a thread that is being killed or
    suspended and may not block. *)
Definition Event_Wait (t : nat) (d : bool) (intr : option zx_status_t) (s : Interrupt) : Interrupt :=
  if event_ s then set_pc t (PTop d) (set_event false s)
  else match intr with Some st => set_pc t (PInterrupted st) s | None => set_pc t (PBlocked d) s end.

(** ** The packet on the port *)

Definition QueueInterruptPacket (timestamp : Z) (s : Interrupt) : Interrupt * bool :=
  let p := port_packet_ s in
  if p_queued p then (s, false) else (set_packet (mkPacket (p_key p) timestamp true) s, true).

Definition RemoveInterruptPacket (s : Interrupt) : Interrupt * bool :=
  let p := port_packet_ s in
  (set_packet (mkPacket (p_key p) (p_timestamp p) false) s, p_queued p).

(** The reader of the port takes the packet. *)
Definition Dequeue (s : Interrupt) : Interrupt * option (Z * Z) :=
  let p := port_packet_ s in
  if p_queued p then (set_undelivered (bool_decide (state_ s = NEEDACK) && negb (timestamp_ s =? 0)) (fst (RemoveInterruptPacket s)), Some (p_key p, p_timestamp p))
  else (s, None).

(** ** The operations *)

Definition SendPacketLocked (timestamp : Z) (s : Interrupt) : Interrupt * bool :=
  let '(s, status) := QueueInterruptPacket timestamp s in
  let s := if flag INTERRUPT_MASK_POSTWAIT s then MaskInterrupt s else s in
  (set_ts 0 s, status).

Definition record (timestamp : Z) (s : Interrupt) : Interrupt := if timestamp_ s =? 0 then set_ts timestamp s else s.

(** The interrupt whose time has just been recorded is accepted. One that comes at time zero
    before the last one is acknowledged leaves no trace in the object, and is not counted. *)
Definition accept (s : Interrupt) : Interrupt :=
  set_undelivered (undelivered s || negb (bool_decide (state_ s = NEEDACK) && HasPort s && (timestamp_ s =? 0))) s.

(** What a call answers: a status, and the timestamp of a wait. *)
Abbreviation answer := (option (zx_status_t * Z)).

Definition returns (t : nat) (st : zx_status_t) (s : Interrupt) : Interrupt * answer := (set_pc t POutside s, Some (st, 0)).

Definition WaitForInterrupt_top (t : nat) (defer_unmask : bool) (s : Interrupt) : Interrupt * answer :=
  if HasPort s || HasVcpu s then returns t ZX_ERR_BAD_STATE s else
  match state_ s with
  | DESTROYED => returns t ZX_ERR_CANCELED s
  | TRIGGERED => (set_undelivered false (Unsignal (set_ts 0 (set_state NEEDACK (set_pc t POutside s)))), Some (ZX_OK, timestamp_ s))
  | NEEDACK =>
      if flag INTERRUPT_UNMASK_PREWAIT s then
        let s := set_state WAITING (UnmaskInterrupt s) in (set_pc t (if defer_unmask then PUnmask else PWait false) s, None)
      else
        let defer_unmask := defer_unmask || flag INTERRUPT_UNMASK_PREWAIT_UNLOCKED s in
        (set_pc t (if defer_unmask then PUnmask else PWait false) (set_state WAITING s), None)
  | IDLE => (set_pc t (if defer_unmask then PUnmask else PWait false) (set_state WAITING s), None)
  | WAITING => returns t ZX_ERR_BAD_STATE s
  end.

Definition WaitForInterrupt_interrupted (t : nat) (status : zx_status_t) (s : Interrupt) : Interrupt * answer :=
  returns t status (if bool_decide (state_ s = WAITING) then set_state IDLE s else s).

Definition Trigger (timestamp : Z) (w : nat) (s : Interrupt) : Interrupt * zx_status_t :=
  if negb (flag INTERRUPT_VIRTUAL s) then (s, ZX_ERR_BAD_STATE) else
  let s := record timestamp s in
  if bool_decide (state_ s = DESTROYED) then (s, ZX_ERR_CANCELED) else
  let s := accept s in
  if bool_decide (state_ s = NEEDACK) && HasPort s then (s, ZX_OK) else
  if HasPort s then (set_state NEEDACK (fst (SendPacketLocked timestamp s)), ZX_OK)
  else (set_state TRIGGERED (Signal w s), ZX_OK).

(** [now] is the current time. *)
Definition InterruptHandler (now : Z) (w : nat) (s : Interrupt) : Interrupt :=
  let s := accept (record now s) in
  if bool_decide (state_ s = NEEDACK) && HasPort s then s else
  if HasPort s then set_state NEEDACK (fst (SendPacketLocked (timestamp_ s) s)) else
  let s := if flag INTERRUPT_MASK_POSTWAIT s then MaskInterrupt s else s in
  set_state TRIGGERED (Signal w s).

(** The physical handler around it. *)
Definition Irq (now : Z) (w : nat) (s : Interrupt) : Interrupt :=
  InterruptHandler now w (if flag INTERRUPT_MASK_POSTWAIT s then MaskInterrupt s else s).

(** [Destroy] before the lock, and under it. *)
Definition Destroy_begin (s : Interrupt) : Interrupt := UnregisterInterruptHandler (MaskInterrupt s).

Definition Destroy_locked (w : nat) (s : Interrupt) : Interrupt * zx_status_t :=
  if HasPort s then
    let '(s, packet_was_in_queue) := RemoveInterruptPacket s in
    let s := set_undelivered false s in
    if bool_decide (state_ s = NEEDACK) && negb packet_was_in_queue then (set_state DESTROYED s, ZX_ERR_NOT_FOUND) else
    if bool_decide (state_ s = IDLE) || bool_decide (state_ s = NEEDACK) && packet_was_in_queue then (set_state DESTROYED s, ZX_OK)
    else (s, ZX_OK)
  else (Signal w (set_state DESTROYED (set_undelivered false s)), ZX_OK).

Definition Bind (port key : Z) (s : Interrupt) : Interrupt * zx_status_t :=
  if bool_decide (state_ s = DESTROYED) then (s, ZX_ERR_CANCELED) else
  if bool_decide (state_ s = WAITING) then (s, ZX_ERR_BAD_STATE) else
  if HasPort s || HasVcpu s then (s, ZX_ERR_ALREADY_BOUND) else
  if flag INTERRUPT_UNMASK_PREWAIT_UNLOCKED s && flag INTERRUPT_MASK_POSTWAIT s then (s, ZX_ERR_INVALID_ARGS) else
  let s := set_packet (mkPacket key (p_timestamp (port_packet_ s)) (p_queued (port_packet_ s))) (set_bound (Some port) (vcpu_ s) s) in
  if bool_decide (state_ s = TRIGGERED) then (set_state NEEDACK (fst (SendPacketLocked (timestamp_ s) s)), ZX_OK) else (s, ZX_OK).

Definition Unbind (port : Z) (s : Interrupt) : Interrupt * zx_status_t :=
  if negb (bool_decide (port_dispatcher_ s = Some port)) then (s, ZX_ERR_NOT_FOUND) else
  if bool_decide (state_ s = DESTROYED) then (s, ZX_ERR_CANCELED) else
  let s := set_undelivered false (fst (RemoveInterruptPacket s)) in
  (set_bound None (vcpu_ s) (set_packet (mkPacket 0 (p_timestamp (port_packet_ s)) (p_queued (port_packet_ s))) s), ZX_OK).

(** Thread [t] calls [Ack]. *)
Definition Ack (t : nat) (s : Interrupt) : Interrupt * answer :=
  if negb (HasPort s) then (s, Some (ZX_ERR_BAD_STATE, 0)) else
  if bool_decide (state_ s = DESTROYED) then (s, Some (ZX_ERR_CANCELED, 0)) else
  if negb (bool_decide (state_ s = NEEDACK)) then (s, Some (ZX_OK, 0)) else
  let defer_unmask := negb (flag INTERRUPT_UNMASK_PREWAIT s) && flag INTERRUPT_UNMASK_PREWAIT_UNLOCKED s in
  let s := if flag INTERRUPT_UNMASK_PREWAIT s then UnmaskInterrupt s else s in
  let '(s, sent) := if negb (timestamp_ s =? 0) then SendPacketLocked (timestamp_ s) s else (set_state IDLE s, true) in
  if negb sent then (s, Some (ZX_ERR_BAD_STATE, 0)) else
  if defer_unmask then (set_pc t PAckUnmask s, None) else (s, Some (ZX_OK, 0)).

(** [BindVcpu] of a physical interrupt; [reg] is the answer of [register_int_handler]. *)
Definition BindVcpu (vcpu : Z) (reg : zx_status_t) (s : Interrupt) : Interrupt * zx_status_t :=
  if flag INTERRUPT_VIRTUAL s then (s, ZX_ERR_NOT_SUPPORTED) else
  if bool_decide (state_ s = DESTROYED) then (s, ZX_ERR_CANCELED) else
  if bool_decide (state_ s = WAITING) then (s, ZX_ERR_BAD_STATE) else
  if bool_decide (vcpu_ s = Some vcpu) then (s, ZX_OK) else
  if HasPort s || HasVcpu s then (s, ZX_ERR_ALREADY_BOUND) else
  let s := UnregisterInterruptHandler (MaskInterrupt s) in
  let s := if bool_decide (reg = ZX_OK) then set_platform (masked s) (Some VcpuIrqHandler) s else s in
  let s := UnmaskInterrupt s in
  if negb (bool_decide (reg = ZX_OK)) then (s, reg) else (set_bound (port_dispatcher_ s) (Some vcpu) s, ZX_OK).

Definition set_flags (flags : Z) (s : Interrupt) : Interrupt * zx_status_t :=
  if negb (Z.land flags INTERRUPT_UNMASK_PREWAIT =? 0) && negb (Z.land flags INTERRUPT_UNMASK_PREWAIT_UNLOCKED =? 0) then (s, ZX_ERR_INVALID_ARGS)
  else (mkInterrupt flags (timestamp_ s) (state_ s) (event_ s) (port_packet_ s) (port_dispatcher_ s) (vcpu_ s) (masked s) (handler s) (threads s) (undelivered s), ZX_OK).

(** A new interrupt and [n] threads. A physical one has its handler registered and is unmasked. *)
Definition InterruptDispatcher_new (n : nat) : Interrupt :=
  mkInterrupt 0 0 IDLE false (mkPacket 0 0 false) None None false None (replicate n POutside) false.

Definition new_virtual (n : nat) : Interrupt := fst (set_flags INTERRUPT_VIRTUAL (InterruptDispatcher_new n)).

Definition ZX_INTERRUPT_VIRTUAL : Z := 16.

(** [ac]: the allocation succeeds. *)
Definition VirtualInterruptDispatcher_Create (n : nat) (options : Z) (ac : bool) : zx_status_t * option Interrupt :=
  if negb (options =? ZX_INTERRUPT_VIRTUAL) then (ZX_ERR_INVALID_ARGS, None) else
  if negb ac then (ZX_ERR_NO_MEMORY, None) else (ZX_OK, Some (new_virtual n)).

Definition new_physical (n : nat) (flags : Z) : Interrupt :=
  set_platform false (Some IrqHandler) (fst (set_flags flags (InterruptDispatcher_new n))).

(** ** Interleavings *)

Inductive IntOp :=
| IWait (t : nat)
| IRun (t : nat) (intr : option zx_status_t) (w : nat)   (* thread t goes on *)
| IInterrupt (t : nat) (status : zx_status_t)            (* a blocked thread is killed or suspended *)
| ITrigger (timestamp : Z) (w : nat)
| IIrq (now : Z) (w : nat)
| IDestroy (t : nat)
| IAck (t : nat)
| IBind (port key : Z)
| IUnbind (port : Z)
| IBindVcpu (vcpu : Z) (reg : zx_status_t)
| IDequeue.

Definition status_only (r : Interrupt * zx_status_t) : Interrupt * answer := (fst r, Some (snd r, 0)).

Definition thread_step (t : nat) (pc : IPC) (intr : option zx_status_t) (w : nat) (s : Interrupt) : Interrupt * answer :=
  match pc with
  | PTop d => WaitForInterrupt_top t d s
  | PUnmask => (set_pc t (PWait true) (UnmaskInterrupt s), None)
  | PWait d => (Event_Wait t d intr s, None)
  | PInterrupted status => WaitForInterrupt_interrupted t status s
  | PDestroy => let '(s, st) := Destroy_locked w s in returns t st s
  | PAckUnmask => returns t ZX_OK (UnmaskInterrupt s)
  | POutside | PBlocked _ => (s, None)
  end.

(** A step that is not possible changes nothing. *)
Definition int_step (op : IntOp) (s : Interrupt) : Interrupt * answer :=
  match op with
  | IWait t => if bool_decide (threads s !! t = Some POutside) then (set_pc t (PTop false) s, None) else (s, None)
  | IRun t intr w => match threads s !! t with Some pc => thread_step t pc intr w s | None => (s, None) end
  | IInterrupt t status => match threads s !! t with Some (PBlocked _) => (set_pc t (PInterrupted status) s, None) | _ => (s, None) end
  | ITrigger ts w => status_only (Trigger ts w s)
  | IIrq now w => if bool_decide (handler s = Some IrqHandler) then (Irq now w s, None) else (s, None)
  | IDestroy t => if bool_decide (threads s !! t = Some POutside) then (set_pc t PDestroy (Destroy_begin s), None) else (s, None)
  | IAck t => if bool_decide (threads s !! t = Some POutside) then Ack t s else (s, None)
  | IBind port key => status_only (Bind port key s)
  | IUnbind port => status_only (Unbind port s)
  | IBindVcpu vcpu reg => status_only (BindVcpu vcpu reg s)
  | IDequeue => let '(s, r) := Dequeue s in (s, (fun p => (ZX_OK, snd p)) <$> r)
  end.

Fixpoint int_run (ops : list IntOp) (s : Interrupt) : Interrupt * list answer :=
  match ops with
  | [] => (s, [])
  | op :: ops => let '(s, r) := int_step op s in let '(s, rs) := int_run ops s in (s, r :: rs)
  end.

(** ** Invariant *)

Record int_inv (s : Interrupt) : Prop := {
  ii_port : HasPort s = true -> (state_ s = IDLE \/ state_ s = NEEDACK \/ state_ s = DESTROYED) /\ vcpu_ s = None;
  ii_queued : p_queued (port_packet_ s) = true -> HasPort s = true /\ (state_ s = IDLE \/ state_ s = NEEDACK);
  ii_destroyed : state_ s = DESTROYED -> handler s <> Some IrqHandler /\ undelivered s = false;
  ii_destroying : PDestroy ∈ threads s -> handler s <> Some IrqHandler;
  ii_virtual : flag INTERRUPT_VIRTUAL s = true -> handler s = None;
  ii_bound : undelivered s = true -> HasPort s = true -> p_queued (port_packet_ s) = true \/ (state_ s = NEEDACK /\ timestamp_ s <> 0);
  ii_unbound : undelivered s = true -> HasPort s = false -> state_ s = TRIGGERED
}.

Lemma elem_insert_pc (t : nat) (pc x : IPC) (l : list IPC) : x ∈ <[t := pc]> l -> x = pc \/ x ∈ l.
Proof.
  intros [i Hi]%list_elem_of_lookup. apply list_lookup_insert_Some in Hi as [(-> & -> & _)|(_ & Hi)]; [by left|].
  right. apply list_elem_of_lookup. eauto.
Qed.

(** Moving a thread somewhere else than to [PDestroy]. *)
Lemma move_thread_inv t pc s : int_inv s -> pc <> PDestroy -> int_inv (set_pc t pc s).
Proof.
  intros [] Hpc. destruct s. unfold set_pc, HasPort, HasVcpu, flag in *. cbn in *. constructor; cbn; auto.
  intros [Heq|?]%elem_insert_pc; [congruence|auto].
Qed.

Lemma set_event_inv e s : int_inv s -> int_inv (set_event e s).
Proof. intros []. by constructor. Qed.

Lemma Signal_inv w s : int_inv s -> int_inv (Signal w s).
Proof. intros H. unfold Signal. repeat case_match; auto using move_thread_inv, set_event_inv. Qed.

(** The signal changes nothing but the event and a thread. *)
Definition same_object (s s' : Interrupt) : Prop :=
  flags_ s' = flags_ s /\ timestamp_ s' = timestamp_ s /\ state_ s' = state_ s /\ port_packet_ s' = port_packet_ s /\
  port_dispatcher_ s' = port_dispatcher_ s /\ vcpu_ s' = vcpu_ s /\ handler s' = handler s /\ undelivered s' = undelivered s.

Lemma Signal_same w s : same_object s (Signal w s).
Proof. unfold Signal, same_object. by repeat case_match. Qed.

Lemma Signal_destroying w s : PDestroy ∈ threads (Signal w s) -> PDestroy ∈ threads s.
Proof.
  unfold Signal. destruct (event_ s); [done|]. destruct (wake_target w s) as [[t []]|]; try done.
  cbn [set_pc threads]. by intros [|]%elem_insert_pc.
Qed.

(** Masking changes only the platform, and keeps the handler. *)
Lemma MaskInterrupt_inv s : int_inv s -> int_inv (MaskInterrupt s).
Proof. unfold MaskInterrupt. case_match; [done|]. intros []. by constructor. Qed.

Lemma UnmaskInterrupt_inv s : int_inv s -> int_inv (UnmaskInterrupt s).
Proof. unfold UnmaskInterrupt. case_match; [done|]. intros []. by constructor. Qed.

Lemma Unregister_handler s : int_inv s -> handler (UnregisterInterruptHandler s) <> Some IrqHandler.
Proof. intros [_ _ _ _ Hv _ _]. unfold UnregisterInterruptHandler. destruct (flag INTERRUPT_VIRTUAL s) eqn:E; [|done]. by rewrite Hv. Qed.

Lemma Unregister_inv s : int_inv s -> int_inv (UnregisterInterruptHandler s).
Proof.
  intros H. pose proof (Unregister_handler s H). unfold UnregisterInterruptHandler in *. case_match; [done|]. destruct H. constructor; auto.
  intros Hd. split; [done|]. by apply ii_destroyed0.
Qed.

(** Changes of an object that threads do not see. *)
Ltac int_fields := unfold HasPort, HasVcpu, flag, same_object in *; cbn [flags_ timestamp_ state_ event_ port_packet_ port_dispatcher_ vcpu_ masked handler threads undelivered
  set_ts set_state set_event set_packet set_bound set_platform set_undelivered p_key p_timestamp p_queued] in *.

Lemma MaskInterrupt_same s : same_object s (MaskInterrupt s) /\ event_ (MaskInterrupt s) = event_ s /\ threads (MaskInterrupt s) = threads s.
Proof. unfold MaskInterrupt. by case_match. Qed.

(** What a sent packet leaves behind. *)
Lemma SendPacketLocked_spec ts s : let '(s', sent) := SendPacketLocked ts s in
  flags_ s' = flags_ s /\ timestamp_ s' = 0 /\ state_ s' = state_ s /\ p_queued (port_packet_ s') = true /\ port_dispatcher_ s' = port_dispatcher_ s /\
  vcpu_ s' = vcpu_ s /\ handler s' = handler s /\ threads s' = threads s /\ undelivered s' = undelivered s /\ event_ s' = event_ s /\
  (p_queued (port_packet_ s) = false -> p_timestamp (port_packet_ s') = ts).
Proof.
  unfold SendPacketLocked, QueueInterruptPacket. destruct (p_queued (port_packet_ s)) eqn:E.
  - destruct (flag INTERRUPT_MASK_POSTWAIT s); [|by split_and!].
    destruct (MaskInterrupt_same s) as (Hs & ? & ?). unfold same_object in Hs. destruct_and!. cbn. split_and!; congruence.
  - set (s1 := set_packet _ s). destruct (flag INTERRUPT_MASK_POSTWAIT s1); [|by split_and!].
    destruct (MaskInterrupt_same s1) as (Hs & ? & ?). unfold same_object in Hs. destruct_and!. cbn. 
    repeat match goal with H : _ (MaskInterrupt s1) = _ |- _ => rewrite H; clear H end. by split_and!.
Qed.

(** The object after an interrupt was sent to its port. *)
Lemma sent_inv ts s : int_inv s -> HasPort s = true -> state_ s <> DESTROYED -> int_inv (set_state NEEDACK (fst (SendPacketLocked ts s))).
Proof.
  intros [H1 H2 H3 H4 H5 H6 H7] Hp Hd. pose proof (SendPacketLocked_spec ts s) as Hs. destruct (SendPacketLocked ts s) as [s' sent].
  destruct Hs as (E1 & E2 & E3 & E4 & E5 & E6 & E7 & E8 & E9 & E10 & _). int_fields. cbn [fst].
  constructor; int_fields; rewrite ?E1, ?E2, ?E3, ?E4, ?E5, ?E6, ?E7, ?E8, ?E9; try done; try (intros; by auto).
  - intros _. split; [by right; left|]. by apply H1.
  - intros; congruence.
Qed.

(** An interrupt that waits for the packet before it. *)
Lemma record_inv ts s : int_inv s -> state_ s = NEEDACK -> HasPort s = true -> int_inv (accept (record ts s)).
Proof.
  intros [H1 H2 H3 H4 H5 H6 H7] Hn Hp. unfold record.
  destruct (Z.eqb_spec (timestamp_ s) 0) as [Ez|Ez]; constructor; unfold accept; int_fields; rewrite ?Hn, ?Hp; try done; auto.
  - intros _. split; [by right; left|by apply H1].
  - rewrite bool_decide_true by done. destruct (Z.eqb_spec ts 0) as [->|]; [|intros _ _; by right].
    cbn. rewrite orb_false_r. intros Hu _. destruct (H6 Hu Hp) as [?|[_ ?]]; [by left|done].
  - intros _. split; [by right; left|by apply H1].
Qed.

(** Any other accepted interrupt is counted. *)
Lemma accept_counted s : state_ s <> NEEDACK \/ HasPort s = false -> accept s = set_undelivered true s.
Proof.
  intros H. unfold accept. assert (bool_decide (state_ s = NEEDACK) && HasPort s = false) as ->.
  { destruct H as [H| ->]; [by rewrite bool_decide_false|apply andb_false_r]. }
  by rewrite orb_true_r.
Qed.

(** Forgetting the ghost bit: every other clause holds for any value of the timestamp. *)
Lemma record_quiet ts s : int_inv s -> int_inv (set_undelivered false (record ts s)).
Proof. intros [H1 H2 H3 H4 H5 H6 H7]. unfold record. case_match; constructor; int_fields; try done; intros Hd; (split; [by apply H3|done]). Qed.

(** A signal for a thread that waits without a port. *)
Lemma triggered_inv w s : int_inv (set_undelivered false s) -> HasPort s = false -> state_ s <> DESTROYED -> int_inv (set_state TRIGGERED (Signal w (set_undelivered true s))).
Proof.
  intros [H1 H2 H3 H4 H5 H6 H7] Hp Hd. pose proof (Signal_same w (set_undelivered true s)) as (E1 & E2 & E3 & E4 & E5 & E6 & E7 & E8).
  pose proof (Signal_destroying w (set_undelivered true s)) as Hdes.
  constructor; int_fields; rewrite ?E1, ?E2, ?E3, ?E4, ?E5, ?E6, ?E7, ?E8 in *; int_fields; try done.
  - intros; congruence.
  - intros Hq. destruct (H2 Hq). congruence.
  - auto.
  - intros; congruence.
Qed.

(** A packet for an interrupt that was just accepted. *)
Lemma send_accepted_inv ts s : int_inv (set_undelivered false s) -> HasPort s = true -> state_ s <> DESTROYED ->
  int_inv (set_state NEEDACK (fst (SendPacketLocked ts (set_undelivered true s)))).
Proof.
  intros H Hp Hd.
  assert (Hsw : forall u, set_state NEEDACK (fst (SendPacketLocked ts (set_undelivered u s))) = set_undelivered u (set_state NEEDACK (fst (SendPacketLocked ts s)))).
  { intros u. unfold SendPacketLocked, QueueInterruptPacket, MaskInterrupt. destruct s as [? ? ? ? [? ? []]]; cbn; unfold flag; cbn; by repeat case_match. }
  pose proof (sent_inv ts _ H Hp Hd) as Hi. rewrite Hsw in *. destruct Hi as [I1 I2 I3 I4 I5 I6 I7].
  pose proof (SendPacketLocked_spec ts s) as Hspec. destruct (SendPacketLocked ts s) as [s' sent]. cbn [fst] in *.
  destruct Hspec as (_ & _ & _ & Eq & Ep & _). constructor; try done; int_fields; try (intros; by left). rewrite Ep. congruence.
Qed.

(** ** Every step keeps the invariant *)

Lemma record_same ts s : state_ (record ts s) = state_ s /\ HasPort (record ts s) = HasPort s.
Proof. unfold record. by case_match. Qed.

Lemma Trigger_inv ts w s : int_inv s -> int_inv (fst (Trigger ts w s)).
Proof.
  intros H. unfold Trigger. destruct (flag INTERRUPT_VIRTUAL s); [|done]. cbn [negb].
  destruct (record_same ts s) as [Hst Hpt]. pose proof (record_quiet ts s H) as Hq. case_bool_decide as Hd; cbn [fst].
  { assert (undelivered s = false) as Hu by (apply H; congruence). unfold record in *. destruct (timestamp_ s =? 0); [|done].
    destruct s. cbn in *. by rewrite Hu. }
  change (HasPort (accept (record ts s))) with (HasPort (record ts s)).
  change (state_ (accept (record ts s))) with (state_ (record ts s)). destruct (HasPort (record ts s)) eqn:Hp.
  - case_bool_decide; cbn [andb fst]; [apply record_inv; congruence|]. rewrite accept_counted by (by left). by apply send_accepted_inv.
  - rewrite andb_false_r, accept_counted by (by right). by apply triggered_inv.
Qed.

Lemma InterruptHandler_inv now w s : int_inv s -> state_ s <> DESTROYED -> int_inv (InterruptHandler now w s).
Proof.
  intros H Hd. unfold InterruptHandler. destruct (record_same now s) as [Hst Hpt]. pose proof (record_quiet now s H) as Hq.
  change (HasPort (accept (record now s))) with (HasPort (record now s)).
  change (state_ (accept (record now s))) with (state_ (record now s)). destruct (HasPort (record now s)) eqn:Hp.
  - case_bool_decide; cbn [andb]; [apply record_inv; congruence|]. rewrite accept_counted by (by left). apply send_accepted_inv; congruence.
  - rewrite andb_false_r, accept_counted by (by right). rewrite <-Hst in Hd. clear Hst Hpt. revert Hq Hp Hd. generalize (record now s). intros s0 Hq Hp Hd.
    destruct (flag INTERRUPT_MASK_POSTWAIT (set_undelivered true s0)); [|by apply triggered_inv].
    assert (Hm : MaskInterrupt (set_undelivered true s0) = set_undelivered true (MaskInterrupt s0)) by (unfold MaskInterrupt, flag; cbn; by case_match).
    rewrite Hm. destruct (MaskInterrupt_same s0) as ((_ & _ & E3 & _ & E5 & _) & _). apply triggered_inv; [|unfold HasPort in *; by rewrite E5|by rewrite E3].
    apply MaskInterrupt_inv in Hq. assert (Hf : MaskInterrupt (set_undelivered false s0) = set_undelivered false (MaskInterrupt s0)) by (unfold MaskInterrupt, flag; cbn; by case_match).
    by rewrite <-Hf.
Qed.

Lemma Irq_inv now w s : int_inv s -> handler s = Some IrqHandler -> int_inv (Irq now w s).
Proof.
  intros H Hh. assert (Hd : state_ s <> DESTROYED) by (intros Hd; by apply H in Hd as [? _]). unfold Irq.
  case_match; apply InterruptHandler_inv; try done; [by apply MaskInterrupt_inv|]. destruct (MaskInterrupt_same s) as ((_ & _ & -> & _) & _). done.
Qed.

Lemma Destroy_locked_inv w s : int_inv s -> handler s <> Some IrqHandler -> int_inv (fst (Destroy_locked w s)).
Proof.
  intros [H1 H2 H3 H4 H5 H6 H7] Hh. unfold Destroy_locked, RemoveInterruptPacket. destruct (HasPort s) eqn:Hp.
  - destruct (H1 eq_refl) as [Hst Hv]. cbn [state_ set_undelivered set_packet].
    repeat case_match; cbn [fst]; constructor; int_fields; try done; try (intros; by auto).
  - apply Signal_inv. constructor; int_fields; try done; try (intros; congruence). intros Hq. destruct (H2 Hq). congruence.
Qed.

Lemma Bind_inv port key s : int_inv s -> int_inv (fst (Bind port key s)).
Proof.
  intros H. pose proof H as [H1 H2 H3 H4 H5 H6 H7]. unfold Bind. case_bool_decide as Hd; [done|]. case_bool_decide as Hw; [done|].
  destruct (HasPort s) eqn:Hp; [done|]. cbn [orb]. destruct (HasVcpu s) eqn:Hv; [done|]. destruct (flag INTERRUPT_UNMASK_PREWAIT_UNLOCKED s && _); [done|].
  assert (vcpu_ s = None) as Hv' by (unfold HasVcpu in Hv; apply bool_decide_eq_false, eq_None_not_Some in Hv; done).
  assert (p_queued (port_packet_ s) = false) as Hq by (destruct (p_queued (port_packet_ s)); [|done]; destruct (H2 eq_refl); congruence).
  cbn [state_ set_packet set_bound]. case_bool_decide as Ht; cbn [fst].
  - set (s1 := set_packet _ _). pose proof (SendPacketLocked_spec (timestamp_ s1) s1) as Hs. destruct (SendPacketLocked (timestamp_ s1) s1) as [s' sent].
    destruct Hs as (E1 & E2 & E3 & E4 & E5 & E6 & E7 & E8 & E9 & _). cbn [fst]. subst s1. int_fields.
    constructor; int_fields; rewrite ?E1, ?E2, ?E3, ?E4, ?E5, ?E6, ?E7, ?E8, ?E9; try done; intros; auto.
  - constructor; int_fields; try done; try (intros; congruence).
    + intros _. split; [|done]. destruct (state_ s); auto; done.
    + intros Hu _. by specialize (H7 Hu eq_refl).
Qed.

Lemma Unbind_inv port s : int_inv s -> int_inv (fst (Unbind port s)).
Proof.
  intros [H1 H2 H3 H4 H5 H6 H7]. unfold Unbind. case_bool_decide as Hp; [|done]. cbn [negb]. case_bool_decide as Hd; [done|]. cbn [fst].
  constructor; int_fields; done.
Qed.

Lemma Ack_inv t s : int_inv s -> int_inv (fst (Ack t s)).
Proof.
  intros H. unfold Ack. destruct (HasPort s) eqn:Hp; [|done]. cbn [negb]. case_bool_decide as Hd; [done|]. case_bool_decide as Hn; [|done]. cbn [negb].
  set (s1 := if flag INTERRUPT_UNMASK_PREWAIT s then UnmaskInterrupt s else s).
  assert (H1 : int_inv s1 /\ HasPort s1 = true /\ state_ s1 = NEEDACK) by (subst s1; case_match; [split; [by apply UnmaskInterrupt_inv|unfold UnmaskInterrupt; by case_match]|done]).
  destruct H1 as (H1 & Hp1 & Hn1). destruct (Z.eqb_spec (timestamp_ s1) 0) as [Ez|Ez]; cbn [negb].
  - assert (int_inv (set_state IDLE s1)) as Hi.
    { destruct H1 as [I1 I2 I3 I4 I5 I6 I7]. constructor; int_fields; try done; intros; try congruence.
      - split; [by left|]. by apply I1.
      - split; [done|by left].
      - destruct (I6 ltac:(done) Hp1) as [?|[? ?]]; [by left|done]. }
    repeat case_match; cbn [fst]; auto using move_thread_inv.
  - pose proof (sent_inv (timestamp_ s1) s1 H1 Hp1 ltac:(congruence)) as Hi. pose proof (SendPacketLocked_spec (timestamp_ s1) s1) as Hs.
    destruct (SendPacketLocked (timestamp_ s1) s1) as [s' sent]. destruct Hs as (_ & _ & E3 & _). cbn [fst] in Hi.
    assert (int_inv s') by (destruct s'; cbn in *; by rewrite E3, Hn1). repeat case_match; cbn [fst]; auto using move_thread_inv.
Qed.

Lemma set_state_waiting_inv s : int_inv s -> HasPort s = false -> state_ s <> TRIGGERED -> int_inv (set_state WAITING s).
Proof.
  intros [H1 H2 H3 H4 H5 H6 H7] Hp Ht. constructor; int_fields; try done; try (intros; congruence).
  - intros Hq. destruct (H2 Hq). congruence.
  - intros Hu Hf. by specialize (H7 Hu Hf).
Qed.

Lemma WaitForInterrupt_top_inv t d s : int_inv s -> int_inv (fst (WaitForInterrupt_top t d s)).
Proof.
  intros H. unfold WaitForInterrupt_top. destruct (HasPort s) eqn:Hp; [by apply move_thread_inv|]. cbn [orb].
  destruct (HasVcpu s); [by apply move_thread_inv|]. destruct (state_ s) eqn:Hst; try by apply move_thread_inv.
  - cbn [fst]. apply (move_thread_inv t POutside) in H; [|done]. destruct H as [H1 H2 H3 H4 H5 H6 H7]. unfold Unsignal. constructor; int_fields; try done.
    + cbn [set_pc port_dispatcher_]. intros. congruence.
    + intros Hq. destruct (H2 Hq) as [_ []]; cbn [set_pc state_] in *; congruence.
  - assert (int_inv (set_state WAITING s)) by (apply set_state_waiting_inv; [done..|congruence]). destruct (flag INTERRUPT_UNMASK_PREWAIT s); cbn [fst].
    + assert (Hu : set_state WAITING (UnmaskInterrupt s) = UnmaskInterrupt (set_state WAITING s)) by (unfold UnmaskInterrupt, flag; cbn; by case_match).
      rewrite Hu. apply move_thread_inv; [by apply UnmaskInterrupt_inv|by case_match].
    + apply move_thread_inv; [done|by case_match].
  - cbn [fst]. apply move_thread_inv; [apply set_state_waiting_inv; [done..|congruence]|by case_match].
Qed.

Lemma interrupted_inv t st s : int_inv s -> int_inv (fst (WaitForInterrupt_interrupted t st s)).
Proof.
  intros H. unfold WaitForInterrupt_interrupted, returns. cbn [fst]. apply move_thread_inv; [|done]. case_bool_decide as Hw; [|done].
  destruct H as [H1 H2 H3 H4 H5 H6 H7]. constructor; int_fields; try done.
  - intros Hp. destruct (H1 Hp) as [[|[]] _]; congruence.
  - intros Hq. destruct (H2 Hq) as [_ []]; congruence.
  - intros Hu Hp. destruct (H6 Hu Hp) as [|[? _]]; [by left|congruence].
  - intros Hu Hp. specialize (H7 Hu Hp). congruence.
Qed.

Lemma Event_Wait_inv t d intr s : int_inv s -> int_inv (Event_Wait t d intr s).
Proof. intros H. unfold Event_Wait. repeat case_match; auto using move_thread_inv, set_event_inv. Qed.

Lemma Dequeue_inv s : int_inv s -> int_inv (fst (Dequeue s)).
Proof.
  intros H. pose proof H as [H1 H2 H3 H4 H5 H6 H7]. unfold Dequeue, RemoveInterruptPacket. destruct (p_queued (port_packet_ s)) eqn:Hq; [|done]. cbn [fst].
  destruct (H2 eq_refl) as [Hp Hst]. constructor; int_fields; try done.
  - intros Hd. destruct Hst; congruence.
  - intros [Hn Hz]%andb_true_iff _. right. apply bool_decide_eq_true in Hn. by apply negb_true_iff, Z.eqb_neq in Hz.
  - intros. congruence.
Qed.

Lemma BindVcpu_inv v reg s : int_inv s -> int_inv (fst (BindVcpu v reg s)).
Proof.
  intros H. unfold BindVcpu. destruct (flag INTERRUPT_VIRTUAL s) eqn:Hv; [done|]. do 3 (case_bool_decide; [done|]).
  destruct (HasPort s) eqn:Hp; [done|]. cbn [orb]. destruct (HasVcpu s); [done|].
  unfold UnmaskInterrupt, UnregisterInterruptHandler, MaskInterrupt. rewrite !Hv.
  change (flag INTERRUPT_VIRTUAL (set_platform true (handler s) s)) with (flag INTERRUPT_VIRTUAL s). rewrite Hv.
  destruct H as [I1 I2 I3 I4 I5 I6 I7].
  case_bool_decide; match goal with |- context [if flag INTERRUPT_VIRTUAL ?x then _ else _] => change (flag INTERRUPT_VIRTUAL x) with (flag INTERRUPT_VIRTUAL s) end; rewrite Hv; cbn [negb fst];
    constructor; int_fields; try done; intros; first [congruence | by auto | destruct I2; [done|congruence]].
Qed.

Lemma int_thread_inv t pc intr w s : int_inv s -> threads s !! t = Some pc -> int_inv (fst (thread_step t pc intr w s)).
Proof.
  intros H Hpc. destruct pc; cbn [thread_step]; try done.
  - by apply WaitForInterrupt_top_inv.
  - apply move_thread_inv; [by apply UnmaskInterrupt_inv|done].
  - by apply Event_Wait_inv.
  - by apply interrupted_inv.
  - assert (handler s <> Some IrqHandler) as Hh by (apply (ii_destroying s H), list_elem_of_lookup; eauto).
    pose proof (Destroy_locked_inv w s H Hh) as Hi. destruct (Destroy_locked w s). by apply move_thread_inv.
  - apply move_thread_inv; [by apply UnmaskInterrupt_inv|done].
Qed.

Lemma int_step_inv op s : int_inv s -> int_inv (fst (int_step op s)).
Proof.
  intros H. destruct op; cbn [int_step] in *.
  - case_match; [by apply move_thread_inv|done].
  - destruct (threads s !! t) eqn:E; [by apply int_thread_inv|done].
  - destruct (threads s !! t) as [[]|]; try done. by apply move_thread_inv.
  - by apply Trigger_inv.
  - case_bool_decide; [by apply Irq_inv|done].
  - case_bool_decide; [|done]. cbn [fst]. unfold Destroy_begin. pose proof (MaskInterrupt_inv s H) as Hm.
    pose proof (Unregister_handler _ Hm) as Hh. pose proof (Unregister_inv _ Hm) as [H1 H2 H3 H4 H5 H6 H7]. by constructor.
  - case_bool_decide; [by apply Ack_inv|done].
  - by apply Bind_inv.
  - by apply Unbind_inv.
  - by apply BindVcpu_inv.
  - pose proof (Dequeue_inv s H). by destruct (Dequeue s).
Qed.

Lemma int_run_inv ops s : int_inv s -> int_inv (fst (int_run ops s)).
Proof.
  revert s. induction ops as [|op ops IH]; intros s H; [done|]. cbn [int_run].
  pose proof (int_step_inv op s H) as H1. destruct (int_step op s) as [s1 r]. specialize (IH s1 H1). by destruct (int_run ops s1).
Qed.

(** ** A single waiting thread *)

Definition waits (pc : IPC) : bool := match pc with PTop _ | PUnmask | PWait _ | PBlocked _ | PInterrupted _ => true | _ => false end.
Definition about_to_wait (pc : IPC) : bool := match pc with PUnmask | PWait _ => true | _ => false end.

(** Thread 0 alone waits. While it is blocked nothing has happened, and when something happened
    before it blocks, the event is signaled. *)
Record wait_inv (s : Interrupt) : Prop := {
  wi_others : forall t pc, threads s !! S t = Some pc -> waits pc = false;
  wi_blocked : forall pc, threads s !! O = Some pc -> is_blocked pc = true -> state_ s = WAITING /\ event_ s = false /\ HasPort s = false;
  wi_about : forall pc, threads s !! O = Some pc -> about_to_wait pc = true -> (state_ s = WAITING /\ HasPort s = false) \/ event_ s = true
}.

(** Whatever happens to the object now, thread 0 will notice. *)
Record woken (s : Interrupt) : Prop := {
  wo_others : forall t pc, threads s !! S t = Some pc -> waits pc = false;
  wo_blocked : forall pc, threads s !! O = Some pc -> is_blocked pc = false;
  wo_about : forall pc, threads s !! O = Some pc -> about_to_wait pc = true -> event_ s = true
}.

Lemma woken_wait s s' : woken s -> threads s' = threads s -> event_ s' = event_ s -> wait_inv s'.
Proof.
  intros [H1 H2 H3] Ht He. constructor; rewrite ?Ht, ?He; [done| |eauto]. intros pc Hpc Hb. specialize (H2 pc Hpc). congruence.
Qed.

Lemma wait_woken s : wait_inv s -> state_ s <> WAITING \/ HasPort s = true -> woken s.
Proof.
  intros [H1 H2 H3] Hor. constructor; [done| |].
  - intros pc Hpc. destruct (is_blocked pc) eqn:E; [|done]. destruct (H2 pc Hpc E) as (? & _ & ?). destruct Hor; congruence.
  - intros pc Hpc Ha. destruct (H3 pc Hpc Ha) as [[? ?]|?]; [|done]. destruct Hor; congruence.
Qed.

Lemma wait_same s s' : wait_inv s -> threads s' = threads s -> event_ s' = event_ s -> state_ s' = state_ s -> HasPort s' = HasPort s -> wait_inv s'.
Proof. intros [H1 H2 H3] Ht He Hs Hp. constructor; by rewrite ?Ht, ?He, ?Hs, ?Hp. Qed.

Lemma set_pc_wait t pc s : wait_inv s -> waits pc = false \/ (t = O /\ is_blocked pc = false /\ about_to_wait pc = false) -> wait_inv (set_pc t pc s).
Proof.
  intros [H1 H2 H3] Hpc.
  assert (Hq : is_blocked pc = false /\ about_to_wait pc = false) by (destruct Hpc as [|(_ & ? & ?)]; [by destruct pc|done]). destruct Hq as [Hb Ha].
  constructor; cbn [set_pc threads state_ event_].
  - intros t' pc' Hl. apply list_lookup_insert_Some in Hl as [(-> & <- & _)|(_ & Hl)]; [by destruct Hpc as [|[? _]]|eauto].
  - intros pc' Hl ?. apply list_lookup_insert_Some in Hl as [(_ & <- & _)|(_ & Hl)]; [congruence|]. by apply (H2 pc').
  - intros pc' Hl ?. apply list_lookup_insert_Some in Hl as [(_ & <- & _)|(_ & Hl)]; [congruence|]. by apply (H3 pc').
Qed.

(** Thread 0 is moved to a point where it is not about to wait. *)
Lemma moved_woken pc s s' : wait_inv s -> threads s' = <[O := pc]> (threads s) -> is_blocked pc = false -> about_to_wait pc = false -> woken s'.
Proof.
  intros [H1 H2 H3] Ht Hb Ha. constructor; rewrite Ht.
  - intros t pc' Hl. rewrite list_lookup_insert_ne in Hl by done. eauto.
  - intros pc' Hl. apply list_lookup_insert_Some in Hl as [(_ & <- & _)|[? _]]; done.
  - intros pc' Hl. apply list_lookup_insert_Some in Hl as [(_ & <- & _)|[? _]]; congruence.
Qed.

Lemma list_find_none (l : list IPC) : (forall t pc, l !! t = Some pc -> is_blocked pc = false) -> list_find is_blocked l = None.
Proof. intros H. apply list_find_None, Forall_lookup. intros i pc Hi Hb. specialize (H i pc Hi). by rewrite H in Hb. Qed.

(** A signal wakes thread 0 or stays in the event. *)
Lemma Signal_woken w s : (forall t pc, threads s !! S t = Some pc -> waits pc = false) ->
  (forall pc, threads s !! O = Some pc -> is_blocked pc = true -> event_ s = false) -> woken (Signal w s).
Proof.
  intros Ho Hb. assert (Hnb : forall t pc, threads s !! S t = Some pc -> is_blocked pc = false) by (intros t pc Hp; specialize (Ho t pc Hp); by destruct pc).
  assert (Hc : (exists d, threads s !! O = Some (PBlocked d)) \/ (forall pc, threads s !! O = Some pc -> is_blocked pc = false)).
  { destruct (threads s !! O) as [[| | | |d| | |]|]; try (right; intros pc [= <-]; done); [left; eauto]. }
  destruct Hc as [[d E0]|Hn].
  - specialize (Hb _ E0 eq_refl). unfold Signal. rewrite Hb.
    assert (Hw : wake_target w s = Some (O, PBlocked d)).
    { unfold wake_target. destruct (threads s) as [|pc0 rest]; [done|]. injection E0 as ->. destruct w; [done|].
      destruct ((PBlocked d :: rest) !! S w) as [[]|] eqn:Ew; try reflexivity. by specialize (Hnb w _ Ew). }
    rewrite Hw. constructor; cbn [set_pc threads event_].
    + intros t pc Hl. rewrite list_lookup_insert_ne in Hl by done. eauto.
    + intros pc Hl. by apply list_lookup_insert_Some in Hl as [(_ & <- & _)|[? _]].
    + intros pc Hl. by apply list_lookup_insert_Some in Hl as [(_ & <- & _)|[? _]].
  - assert (Hall : forall t pc, threads s !! t = Some pc -> is_blocked pc = false) by (intros [|t] pc; eauto).
    assert (Hw : wake_target w s = None).
    { unfold wake_target. rewrite list_find_none by done. destruct (threads s !! w) as [[]|] eqn:Ew; try done. by specialize (Hall w _ Ew). }
    unfold Signal. rewrite Hw. destruct (event_ s) eqn:Ee; by constructor.
Qed.

Lemma wait_signals w s s0 : wait_inv s0 -> threads s = threads s0 -> event_ s = event_ s0 -> woken (Signal w s).
Proof.
  intros [H1 H2 H3] Ht He. apply Signal_woken; rewrite Ht; [done|]. intros pc Hpc Hb. rewrite He. by apply (H2 pc).
Qed.

Lemma platform_same s : forall f, f = MaskInterrupt \/ f = UnmaskInterrupt \/ f = UnregisterInterruptHandler ->
  threads (f s) = threads s /\ event_ (f s) = event_ s /\ state_ (f s) = state_ s /\ HasPort (f s) = HasPort s.
Proof. intros f [-> | [-> | ->]]; unfold MaskInterrupt, UnmaskInterrupt, UnregisterInterruptHandler; by case_match. Qed.

Lemma record_same_wait ts s : threads (accept (record ts s)) = threads s /\ event_ (accept (record ts s)) = event_ s /\
  state_ (accept (record ts s)) = state_ s /\ HasPort (accept (record ts s)) = HasPort s.
Proof. unfold record. by case_match. Qed.

(** An interrupt, virtual or physical: the thread notices. *)
Lemma fired_wait ts w s0 s : wait_inv s0 -> threads s = threads s0 -> event_ s = event_ s0 -> state_ s = state_ s0 -> HasPort s = HasPort s0 ->
  wait_inv (if bool_decide (state_ s = NEEDACK) && HasPort s then s else
    if HasPort s then set_state NEEDACK (fst (SendPacketLocked ts s)) else set_state TRIGGERED (Signal w s)).
Proof.
  intros H Ht He Hs Hp. case_match eqn:Ea; [by apply (wait_same s0)|]. destruct (HasPort s) eqn:Hp'.
  - pose proof (SendPacketLocked_spec ts s) as Hsp. destruct (SendPacketLocked ts s) as [s' sent]. destruct Hsp as (_ & _ & _ & _ & _ & _ & _ & Et & _ & Ee & _).
    apply (woken_wait s0); [apply wait_woken; [done|right; congruence]|cbn [fst set_state threads]; congruence|cbn [fst set_state event_]; congruence].
  - by apply (woken_wait (Signal w s)); [apply (wait_signals w s s0)| |].
Qed.

Lemma Trigger_wait ts w s : wait_inv s -> wait_inv (fst (Trigger ts w s)).
Proof.
  intros H. unfold Trigger. case_match; [done|]. destruct (record_same_wait ts s) as (E1 & E2 & E3 & E4).
  case_match; cbn [fst]; [apply (wait_same s); try done; unfold record; by case_match|].
  pose proof (fired_wait ts w s _ H E1 E2 E3 E4) as Hf. by repeat case_match.
Qed.

Lemma Irq_wait now w s : wait_inv s -> wait_inv (Irq now w s).
Proof.
  intros H. unfold Irq, InterruptHandler.
  set (s1 := if flag INTERRUPT_MASK_POSTWAIT s then MaskInterrupt s else s).
  assert (H1 : wait_inv s1) by (subst s1; case_match; [|done]; destruct (platform_same s MaskInterrupt) as (? & ? & ? & ?); [by left|by apply (wait_same s)]).
  destruct (record_same_wait now s1) as (E1 & E2 & E3 & E4). set (s2 := accept (record now s1)) in *.
  pose proof (fired_wait (timestamp_ s2) w s1 s2 H1 E1 E2 E3 E4) as Hf. case_match; [done|]. destruct (HasPort s2) eqn:Hp; [done|].
  destruct (flag INTERRUPT_MASK_POSTWAIT s2); [|done]. destruct (platform_same s2 MaskInterrupt) as (F1 & F2 & F3 & F4); [by left|].
  apply (woken_wait (Signal w (MaskInterrupt s2))); [|done..]. apply (wait_signals w _ s1); [done|congruence..].
Qed.

Lemma Destroy_locked_wait w s : wait_inv s -> wait_inv (fst (Destroy_locked w s)).
Proof.
  intros H. unfold Destroy_locked. destruct (HasPort s) eqn:Hp.
  - assert (Hw : woken s) by (apply wait_woken; auto). unfold RemoveInterruptPacket. repeat case_match; by apply (woken_wait s).
  - cbn [fst]. apply (woken_wait (Signal w (set_state DESTROYED (set_undelivered false s)))); [by apply (wait_signals w _ s)|done..].
Qed.

Lemma Bind_wait port key s : wait_inv s -> wait_inv (fst (Bind port key s)).
Proof.
  intros H. unfold Bind. case_bool_decide; [done|]. case_bool_decide; [done|]. assert (Hw : woken s) by (apply wait_woken; auto).
  case_match; [done|]. case_match; [done|]. case_match; [|by apply (woken_wait s)]. cbn [fst].
  match goal with |- context [SendPacketLocked ?ts ?s1] => pose proof (SendPacketLocked_spec ts s1) as Hsp; destruct (SendPacketLocked ts s1) as [s' sent] end.
  destruct Hsp as (_ & _ & _ & _ & _ & _ & _ & Et & _ & Ee & _). by apply (woken_wait s).
Qed.

Lemma Ack_wait t s : wait_inv s -> wait_inv (fst (Ack t s)).
Proof.
  intros H. unfold Ack. destruct (HasPort s) eqn:Hp; [|done]. cbn [negb]. case_bool_decide; [done|]. case_bool_decide; [|done]. cbn [negb].
  assert (Hw : woken s) by (apply wait_woken; auto). set (s1 := if flag INTERRUPT_UNMASK_PREWAIT s then UnmaskInterrupt s else s).
  assert (E : threads s1 = threads s /\ event_ s1 = event_ s) by (subst s1; case_match; [destruct (platform_same s UnmaskInterrupt) as (? & ? & _); auto|done]).
  destruct E as [E1 E2]. destruct (if negb (timestamp_ s1 =? 0) then SendPacketLocked (timestamp_ s1) s1 else (set_state IDLE s1, true)) as [s2 sent] eqn:Es.
  assert (wait_inv s2) as Hi.
  { destruct (negb (timestamp_ s1 =? 0)); [|injection Es as <- <-; by apply (woken_wait s)].
    pose proof (SendPacketLocked_spec (timestamp_ s1) s1) as Hsp. rewrite Es in Hsp.
    destruct Hsp as (_ & _ & _ & _ & _ & _ & _ & Et & _ & Ee & _). apply (woken_wait s); congruence. }
  repeat case_match; cbn [fst]; try done. all: apply set_pc_wait; [done|by left].
Qed.

Lemma top_wait d s : wait_inv s -> threads s !! O = Some (PTop d) -> wait_inv (fst (WaitForInterrupt_top O d s)).
Proof.
  intros H H0. assert (Ho : forall st, wait_inv (fst (returns O st s))) by (intros; apply set_pc_wait; [done|by left]).
  unfold WaitForInterrupt_top. destruct (HasPort s) eqn:Hp; [apply Ho|]. cbn [orb]. destruct (HasVcpu s); [apply Ho|].
  assert (Hgo : forall s' pc, threads s' = threads s -> event_ s' = event_ s -> HasPort s' = false -> state_ s' = WAITING -> is_blocked pc = false -> wait_inv (set_pc O pc s')).
  { intros s' pc Ht He Hp' Hs' Hb. destruct H as [H1 H2 H3]. constructor; cbn [set_pc threads state_ event_]; rewrite ?Ht.
    - intros t pc' Hl. rewrite list_lookup_insert_ne in Hl by done. eauto.
    - intros pc' Hl. apply list_lookup_insert_Some in Hl as [(_ & <- & _)|[? _]]; congruence.
    - intros pc' _ _. by left. }
  destruct (state_ s) eqn:Hst; try apply Ho.
  - cbn [fst]. apply (woken_wait (set_event false (set_pc O POutside s))); [|done..]. by apply (moved_woken POutside s).
  - destruct (platform_same s UnmaskInterrupt) as (F1 & F2 & F3 & F4); [auto|]. case_match; cbn [fst]; apply Hgo; try done; try by case_match.
    change (HasPort (set_state WAITING (UnmaskInterrupt s))) with (HasPort (UnmaskInterrupt s)). congruence.
  - cbn [fst]. apply Hgo; try done. by case_match.
Qed.

Lemma Event_Wait_wait d intr s : wait_inv s -> threads s !! O = Some (PWait d) -> wait_inv (Event_Wait O d intr s).
Proof.
  intros H H0. unfold Event_Wait. destruct (event_ s) eqn:He.
  - apply (woken_wait (set_event false (set_pc O (PTop d) s))); [|done..]. by apply (moved_woken (PTop d) s).
  - destruct H as [H1 H2 H3]. destruct (H3 _ H0 eq_refl) as [[Hs Hp]|]; [|congruence].
    destruct intr; constructor; cbn [set_pc threads state_ event_]; try (intros t pc' Hl; rewrite list_lookup_insert_ne in Hl by done; by eauto);
      intros pc' Hl; apply list_lookup_insert_Some in Hl as [(_ & <- & _)|[? _]]; try done.
Qed.

(** Only thread 0 calls [WaitForInterrupt]. *)
Definition only_0_waits (op : IntOp) : Prop := match op with IWait t => t = O | _ => True end.

Lemma thread_step_wait t pc intr w s : wait_inv s -> threads s !! t = Some pc -> wait_inv (fst (thread_step t pc intr w s)).
Proof.
  intros H Hpc. assert (Ht : waits pc = true -> t = O) by (destruct t; [done|]; intros Hw; pose proof (wi_others s H t pc Hpc); congruence).
  destruct pc; cbn [thread_step]; try done.
  - rewrite (Ht eq_refl) in *. by apply top_wait.
  - rewrite (Ht eq_refl) in *. destruct (platform_same s UnmaskInterrupt) as (F1 & F2 & F3 & F4); [auto|]. cbn [fst]. destruct H as [H1 H2 H3].
    constructor; cbn [set_pc threads state_ event_]; rewrite ?F1, ?F2, ?F3.
    + intros t' pc' Hl. rewrite list_lookup_insert_ne in Hl by done. eauto.
    + intros pc' Hl. by apply list_lookup_insert_Some in Hl as [(_ & <- & _)|[? _]].
    + intros pc' _ _. change (HasPort (set_pc 0 (PWait true) (UnmaskInterrupt s))) with (HasPort (UnmaskInterrupt s)). rewrite F4. by apply (H3 PUnmask).
  - rewrite (Ht eq_refl) in *. by apply Event_Wait_wait.
  - rewrite (Ht eq_refl) in *. unfold WaitForInterrupt_interrupted, returns. cbn [fst]. set (s' := if bool_decide (state_ s = WAITING) then set_state IDLE s else s).
    assert (Hs : threads s' = threads s /\ event_ s' = event_ s) by (subst s'; by case_match). destruct Hs as [Hs1 Hs2].
    apply (woken_wait (set_pc O POutside s)); [|by cbn; rewrite ?Hs1, ?Hs2..]. by apply (moved_woken POutside s).
  - pose proof (Destroy_locked_wait w s H). destruct (Destroy_locked w s). apply set_pc_wait; [done|by left].
  - apply set_pc_wait; [|by left]. destruct (platform_same s UnmaskInterrupt) as (? & ? & ? & ?); [auto|by apply (wait_same s)].
Qed.

Lemma int_step_wait op s : wait_inv s -> only_0_waits op -> wait_inv (fst (int_step op s)).
Proof.
  intros H Ho. destruct op; cbn [int_step only_0_waits] in *.
  - case_match; [|done]. subst t. apply set_pc_wait; [done|by right].
  - destruct (threads s !! t) eqn:E; [by apply thread_step_wait|done].
  - destruct (threads s !! t) as [[]|] eqn:E; try done. cbn [fst]. destruct t; [apply set_pc_wait; [done|by right]|].
    pose proof (wi_others s H t _ E). done.
  - by apply Trigger_wait.
  - case_match; [by apply Irq_wait|done].
  - case_match; [|done]. cbn [fst]. apply set_pc_wait; [|by left]. unfold Destroy_begin.
    destruct (platform_same s MaskInterrupt) as (? & ? & ? & ?); [auto|]. destruct (platform_same (MaskInterrupt s) UnregisterInterruptHandler) as (? & ? & ? & ?); [auto|].
    apply (wait_same s); congruence.
  - case_match; [by apply Ack_wait|done].
  - by apply Bind_wait.
  - unfold Unbind. case_bool_decide as Hp; [|done]. cbn [negb]. case_match; [done|]. cbn [status_only fst].
    apply (woken_wait s); [apply wait_woken; [done|right]|done..]. unfold HasPort. rewrite Hp. by apply bool_decide_eq_true_2.
  - unfold BindVcpu. case_match; [done|]. case_bool_decide; [done|]. case_bool_decide; [done|]. assert (woken s) as Hw by (apply wait_woken; auto).
    case_match; [done|]. case_match; [done|]. unfold UnmaskInterrupt, UnregisterInterruptHandler, MaskInterrupt. repeat case_match; by apply (woken_wait s).
  - unfold Dequeue. destruct (p_queued (port_packet_ s)); [|done]. by apply (wait_same s).
Qed.

Lemma int_run_wait ops s : wait_inv s -> Forall only_0_waits ops -> wait_inv (fst (int_run ops s)).
Proof.
  revert s. induction ops as [|op ops IH]; intros s H Ho; [done|]. apply Forall_cons in Ho as [Ho1 Ho]. cbn [int_run].
  pose proof (int_step_wait op s H Ho1) as H1. destruct (int_step op s) as [s1 r]. specialize (IH s1 H1 Ho). by destruct (int_run ops s1).
Qed.

(** ** Destruction is final *)

Lemma destroyed_step op s : int_inv s -> state_ s = DESTROYED -> state_ (fst (int_step op s)) = DESTROYED.
Proof.
  intros H Hd. destruct op; cbn [int_step]; try by case_match.
  - destruct (threads s !! t) as [[]|]; cbn [thread_step fst]; try done.
    + unfold WaitForInterrupt_top. rewrite Hd. by case_match.
    + destruct (platform_same s UnmaskInterrupt) as (_ & _ & E & _); [auto|]. cbn. congruence.
    + unfold Event_Wait. by repeat case_match.
    + unfold WaitForInterrupt_interrupted, returns. cbn [fst set_pc state_]. by rewrite bool_decide_eq_false_2 by congruence.
    + unfold Destroy_locked, RemoveInterruptPacket. destruct (HasPort s); cbn; [by rewrite !bool_decide_eq_false_2 by congruence|].
      by destruct (Signal_same w (set_state DESTROYED (set_undelivered false s))) as (_ & _ & -> & _).
    + destruct (platform_same s UnmaskInterrupt) as (_ & _ & E & _); [auto|]. cbn. congruence.
  - by destruct (threads s !! t) as [[]|].
  - unfold Trigger, status_only. case_match; [done|]. destruct (record_same timestamp s) as [E _]. by rewrite bool_decide_eq_true_2 by congruence; cbn; congruence.
  - rewrite bool_decide_eq_false_2; [done|]. by apply (ii_destroyed s H).
  - case_match; [|done]. cbn [fst set_pc state_]. unfold Destroy_begin.
    destruct (platform_same s MaskInterrupt) as (_ & _ & ? & _); [auto|]. destruct (platform_same (MaskInterrupt s) UnregisterInterruptHandler) as (_ & _ & ? & _); [auto|]. congruence.
  - case_match; [|done]. unfold Ack. case_match; [done|]. by rewrite bool_decide_eq_true_2.
  - unfold Bind, status_only. by rewrite bool_decide_eq_true_2.
  - unfold Unbind, status_only. case_match; [done|]. by rewrite bool_decide_eq_true_2.
  - unfold BindVcpu, status_only. case_match; [done|]. by rewrite bool_decide_eq_true_2.
  - unfold Dequeue. by destruct (p_queued (port_packet_ s)).
Qed.

Lemma destroyed_run ops s : int_inv s -> state_ s = DESTROYED -> state_ (fst (int_run ops s)) = DESTROYED.
Proof.
  revert s. induction ops as [|op ops IH]; intros s H Hd; [done|]. cbn [int_run].
  pose proof (int_step_inv op s H) as H1. pose proof (destroyed_step op s H Hd) as Hd1. destruct (int_step op s) as [s1 r].
  specialize (IH s1 H1 Hd1). by destruct (int_run ops s1).
Qed.

(** A new interrupt of either kind. *)
Definition initial (s : Interrupt) : Prop := exists n, s = new_virtual n \/ exists flags, Z.land flags INTERRUPT_VIRTUAL = 0 /\ s = new_physical n flags.

Lemma initial_inv s : initial s -> int_inv s.
Proof.
  intros (n & [-> | (flags & Hf & ->)]); unfold new_virtual, new_physical, set_flags.
  - constructor; cbn; done.
  - case_match; constructor; unfold flag; cbn; try done; try (by intros [? ?]%elem_of_replicate). by rewrite Hf.
Qed.

Lemma initial_wait s : initial s -> wait_inv s.
Proof.
  intros (n & [-> | (flags & Hf & ->)]); unfold new_virtual, new_physical, set_flags; [|case_match]; constructor; cbn;
    intros * [-> _]%lookup_replicate_1; done.
Qed.

(** ** Properties *)

(** An interrupt that was accepted and not yet delivered is handed over at the next opportunity:
    its packet is on the port, or the next [Ack] puts one there with the time recorded, or a
    thread that waits returns at once with the time. *)
Definition handed_over (s : Interrupt) : Prop :=
  if HasPort s then
    p_queued (port_packet_ s) = true \/
    forall t, p_queued (port_packet_ (fst (Ack t s))) = true /\ p_timestamp (port_packet_ (fst (Ack t s))) = timestamp_ s
  else HasVcpu s = false -> forall t, snd (WaitForInterrupt_top t false s) = Some (ZX_OK, timestamp_ s).

Lemma undelivered_handed_over s : int_inv s -> undelivered s = true -> handed_over s.
Proof.
  intros H Hu. unfold handed_over. destruct (HasPort s) eqn:Hp.
  - destruct (p_queued (port_packet_ s)) eqn:Hq; [by left|right]. intros t. destruct (ii_bound s H Hu Hp) as [|[Hn Hz]]; [congruence|].
    unfold Ack. rewrite Hp, bool_decide_eq_false_2, (bool_decide_eq_true_2 (state_ s = NEEDACK)) by congruence. cbn [negb].
    set (s1 := if flag INTERRUPT_UNMASK_PREWAIT s then UnmaskInterrupt s else s).
    assert (E : timestamp_ s1 = timestamp_ s /\ port_packet_ s1 = port_packet_ s) by (subst s1; unfold UnmaskInterrupt; by repeat case_match).
    destruct E as [E1 E2]. rewrite E1. destruct (Z.eqb_spec (timestamp_ s) 0); [done|]. cbn [negb].
    pose proof (SendPacketLocked_spec (timestamp_ s) s1) as Hs. destruct (SendPacketLocked (timestamp_ s) s1) as [s2 sent].
    destruct Hs as (_ & _ & _ & Eq & _ & _ & _ & _ & _ & _ & Et). rewrite E2 in Et. specialize (Et Hq). repeat case_match; done.
  - intros Hv t. unfold WaitForInterrupt_top. by rewrite Hp, Hv, (ii_unbound s H Hu Hp).
Qed.

(** What is left a trace: everything but time zero before the acknowledgement of the last one. *)
Definition leaves_trace (ts : Z) (s : Interrupt) : Prop := ts <> 0 \/ state_ s <> NEEDACK \/ HasPort s = false \/ timestamp_ s <> 0.

Lemma accept_traced ts s : leaves_trace ts s -> undelivered (accept (record ts s)) = true.
Proof.
  intros Hor. destruct (record_same ts s) as [Hst Hpt]. unfold accept. cbn [undelivered set_undelivered]. rewrite Hst, Hpt.
  assert (bool_decide (state_ s = NEEDACK) && HasPort s && (timestamp_ (record ts s) =? 0) = false) as ->; [|apply orb_true_r].
  destruct Hor as [H1|[H1|[->|H1]]]; [|by rewrite bool_decide_false|by rewrite andb_false_r|];
    unfold record; destruct (Z.eqb_spec (timestamp_ s) 0); try done; cbn [timestamp_ set_ts];
    rewrite (proj2 (Z.eqb_neq _ 0)) by done; apply andb_false_r.
Qed.

Lemma fired_undelivered ts w s : undelivered s = true ->
  undelivered (if bool_decide (state_ s = NEEDACK) && HasPort s then s else
    if HasPort s then set_state NEEDACK (fst (SendPacketLocked ts s)) else set_state TRIGGERED (Signal w s)) = true.
Proof.
  intros Hu. case_match; [done|]. case_match.
  - pose proof (SendPacketLocked_spec ts s) as Hs. destruct (SendPacketLocked ts _) as [s' sent]. destruct Hs as (_ & _ & _ & _ & _ & _ & _ & _ & E & _). cbn. congruence.
  - destruct (Signal_same w s) as (_ & _ & _ & _ & _ & _ & _ & E). cbn. congruence.
Qed.

(** An accepted interrupt is counted as undelivered, virtual or physical. *)
Lemma Trigger_counted ts w s :
  snd (Trigger ts w s) = ZX_OK -> leaves_trace ts s -> undelivered (fst (Trigger ts w s)) = true.
Proof.
  unfold Trigger. destruct (flag INTERRUPT_VIRTUAL s); [|done]. cbn [negb].
  case_bool_decide; [done|]. intros _ Ht. pose proof (fired_undelivered ts w _ (accept_traced ts s Ht)) as Hf. by repeat case_match.
Qed.

Lemma Irq_counted now w s : leaves_trace now s -> undelivered (Irq now w s) = true.
Proof.
  intros Ht. unfold Irq, InterruptHandler. set (s1 := if flag INTERRUPT_MASK_POSTWAIT s then MaskInterrupt s else s).
  assert (leaves_trace now s1) as Ht1.
  { unfold s1. case_match; [|done]. destruct (MaskInterrupt_same s) as ((_ & E2 & E3 & _ & E5 & _) & _). unfold leaves_trace, HasPort. by rewrite E2, E3, E5. }
  pose proof (accept_traced now s1 Ht1) as Hu. set (s2 := accept (record now s1)) in *. clearbody s2.
  pose proof (fired_undelivered (timestamp_ s2) w s2 Hu) as Hf. case_match; [done|]. destruct (HasPort s2); [done|].
  destruct (flag INTERRUPT_MASK_POSTWAIT s2); [|done]. destruct (MaskInterrupt_same s2) as ((_ & _ & _ & _ & _ & _ & _ & E) & _).
  destruct (Signal_same w (MaskInterrupt s2)) as (_ & _ & _ & _ & _ & _ & _ & E'). cbn. congruence.
Qed.



(** ** Gaps *)

(** Thread [t] starts to wait and goes as far as it can. *)
Definition wait_of (t : nat) (w : nat) : list IntOp := [IWait t; IRun t None w; IRun t None w; IRun t None w].

Lemma lookup_set_pc t pc s : is_Some (threads s !! t) -> threads (set_pc t pc s) !! t = Some pc.
Proof. intros H. apply list_lookup_insert_eq. by apply lookup_lt_is_Some. Qed.

(** A wait on an idle interrupt whose event is still signaled. *)
Lemma stale_event_wait t w s :
  threads s !! t = Some POutside -> HasPort s || HasVcpu s = false -> state_ s = IDLE -> event_ s = true ->
  let '(s', rs) := int_run (wait_of t w) s in
  rs = [None; None; None; Some (ZX_ERR_BAD_STATE, 0)] /\ state_ s' = WAITING /\ threads s' !! t = Some POutside /\
  HasPort s' || HasVcpu s' = false.
Proof.
  intros Ht Hb Hs He. assert (is_Some (threads s !! t)) as Hsome by (by rewrite Ht).
  unfold wait_of. cbn [int_run int_step]. rewrite bool_decide_true by done. set (s1 := set_pc t (PTop false) s).
  assert (threads s1 !! t = Some (PTop false)) as E1 by (by apply lookup_set_pc). rewrite E1. cbn [thread_step]. unfold WaitForInterrupt_top at 1.
  change (HasPort s1 || HasVcpu s1) with (HasPort s || HasVcpu s). rewrite Hb. change (state_ s1) with (state_ s). rewrite Hs.
  set (s2 := set_pc t (PWait false) (set_state WAITING s1)).
  assert (threads s2 !! t = Some (PWait false)) as E2 by (apply lookup_set_pc; eexists; exact E1). rewrite E2. cbn [thread_step]. unfold Event_Wait.
  change (event_ s2) with (event_ s). rewrite He. set (s3 := set_pc t (PTop false) (set_event false s2)).
  assert (threads s3 !! t = Some (PTop false)) as E3 by (apply lookup_set_pc; eexists; exact E2). rewrite E3. cbn [thread_step]. unfold WaitForInterrupt_top.
  change (HasPort s3 || HasVcpu s3) with (HasPort s || HasVcpu s). rewrite Hb. change (state_ s3) with WAITING. cbn match. unfold returns.
  split_and!; [done|done|apply lookup_set_pc; eexists; exact E3|exact Hb].
Qed.

(** A signal wakes one thread at most. *)
Lemma Signal_wakes_one w s t1 t2 d1 d2 :
  t1 <> t2 -> threads s !! t1 = Some (PBlocked d1) -> threads s !! t2 = Some (PBlocked d2) ->
  threads (Signal w s) !! t1 = Some (PBlocked d1) \/ threads (Signal w s) !! t2 = Some (PBlocked d2).
Proof.
  intros Hne H1 H2. unfold Signal. destruct (event_ s); [by left|]. destruct (wake_target w s) as [[t pc]|]; [|by left].
  destruct pc; try (by left). cbn [set_pc threads]. destruct (decide (t = t1)) as [->|].
  - right. by rewrite list_lookup_insert_ne.
  - left. by rewrite list_lookup_insert_ne.
Qed.

(** An interrupt at time zero before the acknowledgement of the last one. *)
Lemma zero_trigger w s :
  flag INTERRUPT_VIRTUAL s = true -> HasPort s = true -> state_ s = NEEDACK -> timestamp_ s = 0 -> Trigger 0 w s = (s, ZX_OK).
Proof.
  intros Hv Hp Hs Hz. unfold Trigger. rewrite Hv. cbn [negb]. assert (record 0 s = s) as -> by (unfold record; destruct s; cbn in *; by rewrite Hz).
  rewrite bool_decide_false by congruence. assert (accept s = s) as ->; [|by rewrite bool_decide_true, Hp].
  unfold accept. rewrite bool_decide_true, Hp, Hz by done. cbn. rewrite orb_false_r. by destruct s.
Qed.

(** An interrupt recorded before an [Unbind]: a wait does not see it, and takes its time later. *)
Lemma unbind_forgets port ts t w s :
  flag INTERRUPT_VIRTUAL s = true -> port_dispatcher_ s = Some port -> vcpu_ s = None -> state_ s = NEEDACK -> timestamp_ s <> 0 ->
  let s1 := fst (Unbind port s) in let s2 := fst (WaitForInterrupt_top t false s1) in let s3 := fst (Trigger ts w s2) in
  snd (Unbind port s) = ZX_OK /\ snd (WaitForInterrupt_top t false s1) = None /\ snd (Trigger ts w s2) = ZX_OK /\
  snd (WaitForInterrupt_top t false s3) = Some (ZX_OK, timestamp_ s).
Proof.
  intros Hv Hp Hc Hs Hz. unfold Unbind. rewrite (bool_decide_true (port_dispatcher_ s = Some port)), (bool_decide_false (state_ s = DESTROYED)) by congruence.
  cbn [negb fst snd]. cbn zeta. set (s1 := set_bound None _ _). split; [done|].
  assert (HasPort s1 || HasVcpu s1 = false /\ state_ s1 = NEEDACK /\ timestamp_ s1 = timestamp_ s /\ flag INTERRUPT_VIRTUAL s1 = true) as (B1 & S1 & T1 & F1).
  { unfold s1, HasPort, HasVcpu, flag. cbn. by rewrite Hc. }
  clearbody s1. assert (exists s2, WaitForInterrupt_top t false s1 = (s2, None) /\ HasPort s2 || HasVcpu s2 = false /\ state_ s2 = WAITING /\
    timestamp_ s2 = timestamp_ s /\ flag INTERRUPT_VIRTUAL s2 = true) as (s2 & E2 & B2 & S2 & T2 & F2).
  { unfold WaitForInterrupt_top. rewrite B1, S1. unfold UnmaskInterrupt. rewrite F1. destruct (flag INTERRUPT_UNMASK_PREWAIT s1); by eexists. }
  rewrite E2. cbn [fst snd]. split; [done|]. apply orb_false_iff in B2 as [P2 V2].
  unfold Trigger. rewrite F2. cbn [negb]. assert (record ts s2 = s2) as -> by (unfold record; rewrite T2; by rewrite (proj2 (Z.eqb_neq _ 0))).
  rewrite bool_decide_false by congruence. change (HasPort (accept s2)) with (HasPort s2). rewrite P2, andb_false_r. cbn [fst snd]. split; [done|].
  pose proof (Signal_same w (accept s2)) as (_ & E & _ & _ & Ep & Ev & _). unfold WaitForInterrupt_top.
  assert (HasPort (set_state TRIGGERED (Signal w (accept s2))) || HasVcpu (set_state TRIGGERED (Signal w (accept s2))) = HasPort s2 || HasVcpu s2) as ->
    by (unfold HasPort, HasVcpu; cbn; by rewrite Ep, Ev).
  rewrite P2, V2. cbn. by rewrite E, <-T2.
Qed.

(** A virtual cpu bound between the two halves of [Destroy]. *)
Lemma BindVcpu_binds vcpu s :
  flag INTERRUPT_VIRTUAL s = false -> HasPort s = false -> HasVcpu s = false -> state_ s <> DESTROYED -> state_ s <> WAITING ->
  exists s1, BindVcpu vcpu ZX_OK s = (s1, ZX_OK) /\ HasPort s1 = false /\ handler s1 = Some VcpuIrqHandler.
Proof.
  intros Hv Hp Hc Hd Hw. assert (vcpu_ s = None) as E by (unfold HasVcpu in Hc; by apply bool_decide_eq_false, eq_None_not_Some in Hc).
  unfold BindVcpu. rewrite Hv, !bool_decide_false, Hp, Hc by congruence. cbn [orb].
  rewrite (bool_decide_true (ZX_OK = ZX_OK)) by done. cbn [negb]. eexists. split; [done|].
  destruct s. unfold UnmaskInterrupt, UnregisterInterruptHandler, MaskInterrupt, HasPort, flag in *. cbn -[Z.land] in *.
  repeat (rewrite Hv; cbn -[Z.land]). done.
Qed.

Lemma bind_during_destroy vcpu w s :
  flag INTERRUPT_VIRTUAL s = false -> HasPort s || HasVcpu s = false -> state_ s <> DESTROYED -> state_ s <> WAITING ->
  let s1 := fst (BindVcpu vcpu ZX_OK (Destroy_begin s)) in let s2 := fst (Destroy_locked w s1) in
  snd (BindVcpu vcpu ZX_OK (Destroy_begin s)) = ZX_OK /\ state_ s2 = DESTROYED /\ handler s2 = Some VcpuIrqHandler.
Proof.
  intros Hv [Hp Hc]%orb_false_iff Hd Hw. destruct (BindVcpu_binds vcpu (Destroy_begin s)) as (s1 & -> & P1 & H1);
    [unfold Destroy_begin, UnregisterInterruptHandler, MaskInterrupt; by repeat case_match..|].
  cbn [fst snd]. cbn zeta. split; [done|]. unfold Destroy_locked. rewrite P1. cbn [fst].
  destruct (Signal_same w (set_state DESTROYED (set_undelivered false s1))) as (_ & _ & -> & _ & _ & _ & -> & _). done.
Qed.

(** C34. Six gaps, each for every state it names. (1) A wait on an idle interrupt whose event is still
    signaled, as it is after an interrupt that was triggered before [Bind] was acknowledged and the
    port unbound, fails with BAD_STATE and leaves the object in the state WAITING, in which
    every further wait and [Bind] fails until the next interrupt. (2) When two threads are blocked, [Destroy] leaves one of
    them blocked. (3) A trigger at time 0 that comes before the acknowledgement of the one before
    it is accepted and changes nothing. (4) An interrupt recorded before an [Unbind] is not
    delivered to a later wait, which returns its time with the next one. (5) A virtual cpu bound
    between the two halves of [Destroy] leaves the destroyed object registered with the
    platform. (6) An interrupt that is bound when it is destroyed stays bound, and a wait fails with
    BAD_STATE. *)
Theorem interrupt_gaps (s : Interrupt) (t w : nat) :
  (threads s !! t = Some POutside -> HasPort s || HasVcpu s = false -> state_ s = IDLE -> event_ s = true ->
   let '(s', rs) := int_run (wait_of t w) s in
   rs = [None; None; None; Some (ZX_ERR_BAD_STATE, 0)] /\
   (forall u, snd (WaitForInterrupt_top u false s') = Some (ZX_ERR_BAD_STATE, 0)) /\ forall port key, Bind port key s' = (s', ZX_ERR_BAD_STATE)) /\
  (forall t1 t2 d1 d2, t1 <> t2 -> threads s !! t1 = Some (PBlocked d1) -> threads s !! t2 = Some (PBlocked d2) -> HasPort s = false ->
   let s' := fst (Destroy_locked w s) in
   state_ s' = DESTROYED /\ (threads s' !! t1 = Some (PBlocked d1) \/ threads s' !! t2 = Some (PBlocked d2))) /\
  (flag INTERRUPT_VIRTUAL s = true -> HasPort s = true -> state_ s = NEEDACK -> timestamp_ s = 0 -> Trigger 0 w s = (s, ZX_OK)) /\
  (forall port ts, flag INTERRUPT_VIRTUAL s = true -> port_dispatcher_ s = Some port -> vcpu_ s = None -> state_ s = NEEDACK -> timestamp_ s <> 0 ->
   let s1 := fst (Unbind port s) in let s2 := fst (WaitForInterrupt_top t false s1) in let s3 := fst (Trigger ts w s2) in
   snd (Unbind port s) = ZX_OK /\ snd (WaitForInterrupt_top t false s1) = None /\ snd (Trigger ts w s2) = ZX_OK /\
   snd (WaitForInterrupt_top t false s3) = Some (ZX_OK, timestamp_ s)) /\
  (forall vcpu, flag INTERRUPT_VIRTUAL s = false -> HasPort s || HasVcpu s = false -> state_ s <> DESTROYED -> state_ s <> WAITING ->
   let s1 := fst (BindVcpu vcpu ZX_OK (Destroy_begin s)) in let s2 := fst (Destroy_locked w s1) in
   snd (BindVcpu vcpu ZX_OK (Destroy_begin s)) = ZX_OK /\ state_ s2 = DESTROYED /\ handler s2 = Some VcpuIrqHandler) /\
  (HasPort s = true -> let s' := fst (Destroy_locked w s) in HasPort s' = true /\ snd (WaitForInterrupt_top t false s') = Some (ZX_ERR_BAD_STATE, 0)).
Proof.
  split_and!.
  - intros Ht Hb Hs He. pose proof (stale_event_wait t w s Ht Hb Hs He) as H. destruct (int_run (wait_of t w) s) as [s' rs].
    destruct H as (-> & Hs' & _ & Hb'). split; [done|]. split.
    + intros u. unfold WaitForInterrupt_top. by rewrite Hb', Hs'.
    + intros port key. unfold Bind. by rewrite bool_decide_false, bool_decide_true by congruence.
  - intros t1 t2 d1 d2 Hne H1 H2 Hp. unfold Destroy_locked. rewrite Hp. cbn [fst]. cbn zeta. split.
    + by destruct (Signal_same w (set_state DESTROYED (set_undelivered false s))) as (_ & _ & -> & _).
    + by apply Signal_wakes_one.
  - apply zero_trigger.
  - intros port ts. apply unbind_forgets.
  - intros vcpu. apply bind_during_destroy.
  - intros Hp. cbn zeta. assert (HasPort (fst (Destroy_locked w s)) = true) as E.
    { unfold Destroy_locked. rewrite Hp. unfold RemoveInterruptPacket. by repeat case_match. }
    split; [exact E|]. unfold WaitForInterrupt_top. by rewrite E.
Qed.

(** States in which the gaps open. *)
Lemma interrupt_gaps_witness :
  (let s := fst (int_run [ITrigger 5 0; IBind 1 7; IDequeue; IAck 0; IUnbind 1] (new_virtual 1)) in
   snd (int_run (wait_of 0 0) s) = [None; None; None; Some (ZX_ERR_BAD_STATE, 0)]) /\
  (let s := fst (int_run [IWait 0; IRun 0 None 0; ITrigger 5 0; IWait 1; IRun 1 None 0; IWait 1; IRun 1 None 0; IRun 1 None 0; IRun 0 None 0; IDestroy 2] (new_virtual 3)) in
   let s' := fst (Destroy_locked 0 s) in threads s' !! 0%nat = Some (PBlocked false) \/ threads s' !! 1%nat = Some (PBlocked false)) /\
  (let s := fst (int_run [IBind 1 7; ITrigger 5 0; IDequeue] (new_virtual 1)) in Trigger 0 0 s = (s, ZX_OK)) /\
  (let s1 := fst (BindVcpu 9 ZX_OK (Destroy_begin (new_physical 1 0))) in handler (fst (Destroy_locked 0 s1)) = Some VcpuIrqHandler).
Proof.
  split; [|split; [|split]]; cbv zeta.
  - destruct (interrupt_gaps (fst (int_run [ITrigger 5 0; IBind 1 7; IDequeue; IAck 0; IUnbind 1] (new_virtual 1))) 0 0) as [H _].
    specialize (H eq_refl eq_refl eq_refl eq_refl). destruct (int_run (wait_of 0 0) _) as [s' rs]. apply H.
  - destruct (interrupt_gaps (fst (int_run [IWait 0; IRun 0 None 0; ITrigger 5 0; IWait 1; IRun 1 None 0; IWait 1; IRun 1 None 0; IRun 1 None 0; IRun 0 None 0; IDestroy 2] (new_virtual 3))) 0 0)
      as (_ & H & _). apply (H 0%nat 1%nat false false); done.
  - destruct (interrupt_gaps (fst (int_run [IBind 1 7; ITrigger 5 0; IDequeue] (new_virtual 1))) 0 0) as (_ & _ & H & _). by apply H.
  - destruct (interrupt_gaps (new_physical 1 0) 0 0) as (_ & _ & _ & _ & H & _). by apply (H 9).
Defined.
